(* ===== verification/_CoqProject ===== *)
-Q . S2P
Prelude.v
JsString.v
Regex.v
JsNum.v
JsText.v
Json.v
Pretty.v
JsonText.v
Bytes.v
Assoc.v
Effects.v
Uint8.v
Utf8.v
RedisModel.v
Db.v
Store.v
Memory.v
Retry.v
Firewall.v
Solana.v
Token.v
Commands.v
CommandFacts.v
Worker.v
ApiServer.v
ApiStack.v
ApiFacts.v
Launcher.v
LauncherServer.v
LauncherFacts.v
Telegram.v
Frame.v
TelegramFacts.v
System.v
Boot.v
BootFacts.v
