(* ===== verification/Prelude.v ===== *)
(** * Nexus Erebus agent-token framework: verification library

    The program is a set of Node.js processes around one Redis.  Users write on
    Telegram, on Twitter or to an HTTP API; [commands.js] parses what they write,
    keeps the users in memory and queues trades; workers take the trades from the
    queue and execute them on Solana; a launcher mints tokens and opens pools for
    them, asked from Telegram or over its own HTTP API; a "firewall" counts incidents
    and stops the process when they exhaust its health.

    ** Which file models which source

    The language and its library:
    - [Prelude]: tactics, hint database and generic lemmas.
    - [JsString], [Regex]: strings of 16-bit units and the methods used on them;
      backtracking regular expressions.
    - [JsNum], [JsText]: numbers as IEEE binary64 on rationals, their text
      ([toString], [toFixed], [parseFloat], [parseInt], unary plus).
    - [Json], [Pretty], [JsonText], [Uint8]: [JSON.stringify], compact and indented, and
      [JSON.parse], also of texts other programs write, conversions of JSON values and
      typed arrays.
    - [Bytes], [Utf8]: UTF-8, base64, base64url and hex buffers; that JSON written to a
      file is read back.
    - [Assoc]: objects and maps in insertion order.
    - [Effects]: the state of the system and the monad of its handlers.
    - [RedisModel]: one concrete Redis and one concrete environment.

    The components:
    - [Db]: [src/db.js], users with encrypted wallets; [Store] is the abstract store it
      refines.
    - [Memory]: [src/memory.js], conversation memory.
    - [Retry]: [src/retry.js], bounded retries.
    - [Firewall]: [src/firewall.js], health, incidents, healing.
    - [Solana]: [src/utils-solana.js], quotes, swaps, transfers, watchers.
    - [Token]: [src/utils-token.js], decimals, balances, token transfers.
    - [Commands], [CommandFacts]: [src/commands.js] and [src/jobQueue.js].
    - [Worker]: [src/worker.js] and [src/metrics.js].
    - [ApiServer], [ApiFacts]: the tokens and routes of [src/api-server.js];
      [ApiStack]: its environment schema and middlewares.
    - [Launcher]: [src/utils-launcher.js], configurations, logos and launches;
      [LauncherServer]: [src/launcher/server.js], captcha, API keys and routes;
      [LauncherFacts] has the properties of both.
    - [Telegram], [TelegramFacts]: [src/telegram-client.js], menus, the callback switch
      and the launch dialogue, wired as [src/index.js] does.
    - [Boot], [BootFacts]: [src/index.js], [src/twitter-client.js], [src/check-env.js]
      and [src/ensure-deps.js].
    - [Frame], [System]: what every handler leaves alone, and all processes together
      over one Redis.

    Definitions carry the names of the functions and constants they translate.

    ** State and effects

    A handler is a [prog E A], a function from a [world E] to a result (a value, a
    thrown error, or [process.exit]) and a new world.  The world has the clock, the
    Redis keyspace, the module-level variables ([hp] and [lastIncident] of
    [firewall.js], [users] of [commands.js], [decimalsCache] and the subscriptions
    of [utils-solana.js], [awaitingManual] and [lastConfigs] of [telegram-client.js])
    and the log of what was done to the outside: messages published, jobs queued,
    transactions sent, requests fetched, replies, commands executed, files written.

    Code outside the repository is a parameter.  The class [Env] holds the answers
    of the RPC node, of HTTP servers, of [crypto] and of the Solana libraries, the
    environment variables, the time each interaction takes and the faults of
    Redis; answers are indexed by the number of interactions so far, so they may
    vary from call to call.  [LaunchEnv], [TgEnv], [HostEnv] and [StackEnv] add what
    single components use: the Raydium SDK, Telegraf, the file system, shell and
    scraper, and the libraries of the HTTP stack.  The class [RedisEntry] holds the
    Redis commands on the value of one key.  [EnvLaws] and [RedisLaws] state what is
    documented of them (AES-GCM opens what it sealed, a generated key pair is restored from its secret,
    [GET] after [SET] ...).  Theorems are proved against these interfaces;
    [RedisModel.entry] and [RedisModel.calm] (and [Solana.jupiter]) discharge the
    laws, and the witnesses evaluate the theorems there.

    ** What the theorems show

    - Wallets: a stored secret is read back, by both readers; the writers store only
      encryptions of what they are given, or a text already marked as one; what [upsertUser] stores, field by field; the
      public view never has the wallet; a persisted user survives a restart.  From
      the same facts: trade jobs cannot find the key pair, a user created by
      [ensure] loses its key pair at the restart, a corrupt wallet anywhere aborts the load.
    - Firewall: health stays between zero and the maximum in every reachable state
      of every interleaving, and the process exits only when allowed; the exact
      effect of an incident and of a healing step; after the incidents stop the
      health comes back to the maximum, in double arithmetic; the bar never throws.
    - Money: the split between burn and developer conserves the amount; what
      [burnAndDev] and [transferToken] send and in which order; quotes and decimals
      come from the cache while it is fresh; failures of a swap are reported; each
      account is watched once.
    - Commands: a trade is recognised exactly when the text contains one by its
      grammar, and it queues exactly one job; preferences are stored; the price falls
      back through three sources without throwing; the AI dispatcher never throws.
    - HTTP API: a token is accepted on the day it was signed and rejected around
      midnight; an accepted token was signed with the key of its expiry day and has
      not expired; no protected route runs without a token and the double-submit
      check; login asks for no proof; the settings have their declared types or the
      process exits; the body filters are inert, since they run before the parser.
    - Retries and memory: the exact outcome and back-off of [withRetry]; [recall]
      returns what was remembered, oldest first, while it has not expired.
    - Store: every sequence of operations of [db.js], upserts of wallets and failing
      reads included, answers as an abstract store of profiles and wallets does.
    - Launcher: an object the model writes, in any layout and with trailing commas,
      is what the configuration is made of; a launch
      submits its four transactions in order, paid by the user, and may stop after any
      of them; only requests that pass the captcha and carry the user's API key submit
      anything; a key lasts two hours.
    - Telegram: every button is handled and fits its limit; the client refines an
      abstract dialogue for any helpers that leave its state alone, and the helpers of
      [index.js] do; no launch is requested for a user who did not ask for one, but for
      the names a plain object inherits; a
      configuration sent back is launched as it was shown; quick trades name no user.
    - System: since no handler writes a [wallet:] key, no reachable state of the
      processes together lets a launch succeed.
    - Boot: when the preflight and the dependency script pass, the cookies a login
      saves are restored, a tweet has all its media or is not sent, services are
      restarted five seconds apart, and a boot with Twitter on never completes (it may
      wait for the Telegram bot for ever).

    ** Fuel and bounds

    [Json.parse] recurses on a fuel equal to the length of the text, and every
    nested value consumes a character; the round trip [parse_stringify] shows that
    it is enough for what the program writes.  Printing digits recurses on the
    binary logarithm of the number, which bounds the number of decimal digits, and
    the fuel of the search for the shortest decimal of a double reaches its exact
    expansion, so the search succeeds on every double.  [JsonText.parse_show] gives any
    text of the grammar a fuel of its length.  Regular expressions and
    [withRetry] recurse structurally.  Token theorems assume a clock below 10^15
    milliseconds, where the doubles of the code are exact.

    ** Conventions

    - A promise nobody awaits ([detach]) has the effects up to its first [await] before
      those of its caller, which goes on in any case.  That it is rejected or that it
      calls [process.exit] is an event ([Unhandled], [WillExit]): Node then ends the
      process ([ends_process]) when the event loop gets to it, so of what the caller does
      after its own next [await] only a first part may happen.  The interleavings that
      matter to the firewall are the separate machine [fw_step].
    - The fields given to [upsertUser] are strings, as all callers pass them.
    - Case mapping is that of ASCII, which is all the patterns and handles use; the
      agent's handle contains no regular expression syntax.
    - A reply is an event and a call of the reply function of the message, which may
      fail: an awaited reply then throws ([return_reply]), another one is [Unhandled].
    - Paths are matched as Express does: without regard to case and to a slash at the
      end, and a route of GET serves HEAD.
    - [bot.launch()] may be fulfilled, rejected, or stay pending while the bot polls; the
      boot then waits there ([Waiting]).
    - Console output, the wiping of buffers, HTTP headers and the wording of validation
      errors are left out; the rate limiter is a parameter.
    - [getOrCreateAssociatedTokenAccount] is the event [CreateAccount], whether or not
      the account was there.
    - [lastConfigs], an object used as a map, also has what it inherits ([config_of]);
      the functions of [Object.prototype] are objects without the members a launch reads.
    - The launch steps of [launcher/server.js] that repeat those of [utils-launcher.js]
      ([getUserKP], [generateImage], minting, metadata, the pool) are the definitions of
      [Launcher].

    ** Not modelled

    [redisClient.js] only constructs the Redis client, which is the parameter
    [RedisEntry].  Express, Telegraf, BullMQ, the Prometheus registry, the SDKs and the
    scraper are library code; what the program relies on of them is in the parameters.
    Import and configuration lines, middlewares that only set headers or write a log,
    and the handler of a failed first connection of the launcher to Redis, which ends
    the process, have no definition. *)

From stdpp Require Export base tactics list gmap numbers strings.
From Stdlib Require Export Lia.

(** ** Tactics of the development *)

(** Case analysis on the scrutinee of a match of the goal, remembering it. *)
Ltac split_match :=
  match goal with
  | |- context [match ?x with _ => _ end] => destruct x eqn:?
  end.

(** The same in a hypothesis. *)
Ltac split_match_in H :=
  match type of H with
  | context [match ?x with _ => _ end] => destruct x eqn:?
  end.

(** Turn boolean comparisons of the context into propositions. *)
Ltac bool_to_prop :=
  repeat match goal with
  | H : _ && _ = true |- _ => apply andb_true_iff in H; destruct H
  | H : _ || _ = false |- _ => apply orb_false_iff in H; destruct H
  | H : negb _ = true |- _ => apply negb_true_iff in H
  | H : negb _ = false |- _ => apply negb_false_iff in H
  | H : (_ =? _)%N = true |- _ => apply N.eqb_eq in H
  | H : (_ =? _)%N = false |- _ => apply N.eqb_neq in H
  | H : (_ <=? _)%N = true |- _ => apply N.leb_le in H
  | H : (_ <=? _)%N = false |- _ => apply N.leb_gt in H
  | H : (_ <? _)%N = true |- _ => apply N.ltb_lt in H
  | H : (_ <? _)%N = false |- _ => apply N.ltb_ge in H
  | H : (_ =? _)%Z = true |- _ => apply Z.eqb_eq in H
  | H : (_ =? _)%Z = false |- _ => apply Z.eqb_neq in H
  | H : (_ <=? _)%Z = true |- _ => apply Z.leb_le in H
  | H : (_ <=? _)%Z = false |- _ => apply Z.leb_gt in H
  | H : (_ <? _)%Z = true |- _ => apply Z.ltb_lt in H
  | H : (_ <? _)%Z = false |- _ => apply Z.ltb_ge in H
  end.

(** Linear arithmetic with division and remainder by constants. *)
Ltac div_lia := zify; Z.to_euclidean_division_equations; lia.

(** ** Hint databases: [js] for goals on strings and lists, [eff] for goals on
    effectful programs. *)
Create HintDb js.
Create HintDb eff.
Create Rewrite HintDb js.
Create Rewrite HintDb eff.

(** ** Generic lemmas *)

Lemma app_inj_length {A} (a b c d : list A) :
  length a = length c → a ++ b = c ++ d → a = c ∧ b = d.
Proof. intros Hl H. by apply app_inj_1. Qed.

Lemma list_prefix_dec_app {A} (p l : list A) : firstn (length p) (p ++ l) = p.
Proof. by rewrite take_app_length. Qed.

Lemma skipn_app_length {A} (p l : list A) : skipn (length p) (p ++ l) = l.
Proof. by rewrite drop_app_length. Qed.

(** A property of the numbers below [n], checked one by one. *)
Lemma N_below_forall (P : N → Prop) (n : nat) :
  Forall P (N.of_nat <$> seq 0 n) → ∀ d, (d < N.of_nat n)%N → P d.
Proof.
  rewrite Forall_forall. intros H d Hd. apply H, list_elem_of_fmap.
  exists (N.to_nat d). rewrite N2Nat.id, elem_of_seq. split; [done|lia].
Qed.

(** The same for a boolean test, which evaluates at once. *)
Lemma N_below_forallb (f : N → bool) (n : nat) :
  forallb f (N.of_nat <$> seq 0 n) = true → ∀ d, (d < N.of_nat n)%N → f d = true.
Proof.
  rewrite forallb_forall. intros H d Hd. apply H. apply list_elem_of_In, list_elem_of_fmap.
  exists (N.to_nat d). split; [lia|]. apply elem_of_seq. lia.
Qed.
