(* ===== verification/JsString.v ===== *)
(** * JavaScript strings

    A JavaScript string is a sequence of 16-bit code units.  [jsstr] is a list
    of code units, [js] turns a (UTF-8) literal of this file into one, and the
    rest are the [String.prototype] methods the program calls, with the lemmas
    the components share: [split] against [join], prefixes, case mapping. *)

From S2P Require Import Prelude.

Local Open Scope N_scope.

Abbreviation jsstr := (list N).

(** ** Literals *)

Definition byte_of_ascii (a : Ascii.ascii) : N := Ascii.N_of_ascii a.

Fixpoint units_of_utf8 (bs : list N) : jsstr :=
  match bs with
  | [] => []
  | b :: r =>
      if b <? 128 then b :: units_of_utf8 r
      else if b <? 224 then
        match r with
        | c :: r => ((b - 192) * 64 + (c - 128)) :: units_of_utf8 r
        | _ => []
        end
      else if b <? 240 then
        match r with
        | c :: d :: r =>
            ((b - 224) * 4096 + (c - 128) * 64 + (d - 128)) :: units_of_utf8 r
        | _ => []
        end
      else
        match r with
        | c :: d :: e :: r =>
            let cp := (b - 240) * 262144 + (c - 128) * 4096
                      + (d - 128) * 64 + (e - 128) - 65536 in
            (55296 + cp / 1024) :: (56320 + cp mod 1024) :: units_of_utf8 r
        | _ => []
        end
  end.

Definition js (s : string) : jsstr :=
  units_of_utf8 (byte_of_ascii <$> String.list_ascii_of_string s).
Global Arguments js : simpl never.

Definition code (s : string) : N := List.hd 0 (js s).

(** ** Methods *)

(** [s.startsWith(p)] *)
Fixpoint startsWith (s p : jsstr) {struct p} : bool :=
  match p, s with
  | [], _ => true
  | a :: p, b :: s => (a =? b) && startsWith s p
  | _ :: _, [] => false
  end.

(** [s.slice(start, end)] with [end] left out or given; negative indices count
    from the end. *)
Definition slice_index (len i : Z) : nat :=
  Z.to_nat (if (i <? 0)%Z then Z.max 0 (len + i) else Z.min i len).

Definition slice (s : jsstr) (start : Z) (stop : option Z) : jsstr :=
  let len := Z.of_nat (length s) in
  let a := slice_index len start in
  let b := slice_index len (default len stop) in
  take (b - a) (drop a s).

(** [s.split(sep)] for a non-empty separator: [skip] code units of a separator
    already recognised remain to be passed over. *)
Fixpoint split_from (sep : jsstr) (skip : nat) (s : jsstr) : list jsstr :=
  match s with
  | [] => [[]]
  | c :: s' =>
      match skip with
      | S k => split_from sep k s'
      | O =>
          if startsWith (c :: s') sep then
            [] :: split_from sep (length sep - 1) s'
          else
            match split_from sep O s' with
            | [] => [[c]]
            | p :: ps => (c :: p) :: ps
            end
      end
  end.

Definition split (s sep : jsstr) : list jsstr := split_from sep O s.

(** [parts.join(sep)] *)
Fixpoint join (parts : list jsstr) (sep : jsstr) : jsstr :=
  match parts with
  | [] => []
  | [p] => p
  | p :: ps => p ++ sep ++ join ps sep
  end.

(** [c.repeat(n)] for a one-unit string [c]. *)
Definition repeat_unit (c : N) (n : nat) : jsstr := replicate n c.

(** [s.indexOf(c)] and [s.lastIndexOf(c)] for a one-unit string [c]; [None]
    stands for -1. *)
Fixpoint indexOf (s : jsstr) (c : N) : option nat :=
  match s with
  | [] => None
  | d :: s' => if d =? c then Some O else S <$> indexOf s' c
  end.

Fixpoint lastIndexOf (s : jsstr) (c : N) : option nat :=
  match s with
  | [] => None
  | d :: s' =>
      match lastIndexOf s' c with
      | Some i => Some (S i)
      | None => if d =? c then Some O else None
      end
  end.

(** White space and line terminators, as [trim] and [\s] understand them. *)
Definition is_space (c : N) : bool :=
  ((9 <=? c) && (c <=? 13)) || (c =? 32) || (c =? 160) || (c =? 5760)
  || ((8192 <=? c) && (c <=? 8202)) || (c =? 8232) || (c =? 8233)
  || (c =? 8239) || (c =? 8287) || (c =? 12288) || (c =? 65279).

Fixpoint trimStart (s : jsstr) : jsstr :=
  match s with
  | c :: s' => if is_space c then trimStart s' else s
  | [] => []
  end.

Definition trimEnd (s : jsstr) : jsstr := rev (trimStart (rev s)).

Definition trim (s : jsstr) : jsstr := trimEnd (trimStart s).

(** [toLowerCase] on the ASCII letters; the program applies it to handles,
    mint addresses and bot names only, which are ASCII. *)
Definition lower_unit (c : N) : N :=
  if (65 <=? c) && (c <=? 90) then c + 32 else c.

Definition toLowerCase (s : jsstr) : jsstr := lower_unit <$> s.

(** Character classes of the program's regular expressions. *)
Definition is_digit (c : N) : bool := (48 <=? c) && (c <=? 57).
Definition is_upper (c : N) : bool := (65 <=? c) && (c <=? 90).
Definition is_lower (c : N) : bool := (97 <=? c) && (c <=? 122).
Definition is_alnum (c : N) : bool := is_digit c || is_upper c || is_lower c.
Definition is_word (c : N) : bool := is_alnum c || (c =? 95).

(** ** Facts *)

Lemma startsWith_spec s p : startsWith s p = true ↔ ∃ r, s = p ++ r.
Proof.
  revert s; induction p as [|a p IH]; intros s; simpl; [split; [by exists s|done]|].
  destruct s as [|b s]; [by split; [|intros [r Hr]]|].
  rewrite andb_true_iff, N.eqb_eq, IH. split.
  - intros [-> [r ->]]. by exists r.
  - intros [r [= -> ->]]. eauto.
Qed.

Lemma startsWith_app p r : startsWith (p ++ r) p = true.
Proof. apply startsWith_spec; eauto. Qed.

Lemma startsWith_nil s : startsWith s [] = true.
Proof. by destruct s. Qed.

Lemma startsWith_head_ne a b p s : a ≠ b → startsWith (b :: s) (a :: p) = false.
Proof. intros H. simpl. by apply N.eqb_neq in H as ->. Qed.

Lemma slice_drop s n :
  (n ≤ length s)%nat → slice s (Z.of_nat n) None = drop n s.
Proof.
  intros H. unfold slice, slice_index; simpl.
  replace (Z.of_nat n <? 0)%Z with false by (symmetry; apply Z.ltb_ge; lia).
  replace (Z.of_nat (length s) <? 0)%Z with false by (symmetry; apply Z.ltb_ge; lia).
  rewrite !Z.min_l, !Nat2Z.id by lia.
  apply take_ge. rewrite length_drop. lia.
Qed.

Lemma split_nonempty sep skip s : split_from sep skip s ≠ [].
Proof.
  revert skip; induction s as [|c s IH]; intros skip; simpl; [done|].
  destruct skip; [|done].
  destruct (startsWith _ _); [done|]. by destruct (split_from sep 0 s).
Qed.

(** Passing over a recognised separator drops exactly that many units. *)
Lemma split_from_skip sep k s : split_from sep k s =
  if decide (k ≤ length s)%nat then split_from sep O (drop k s) else [[]].
Proof.
  revert k; induction s as [|c s IH]; intros k.
  - simpl. destruct k; simpl; by repeat case_decide.
  - destruct k; [by case_decide; [|simpl in *; lia]|].
    cbn [split_from drop]. rewrite IH. simpl. repeat case_decide; try done; lia.
Qed.

(** A piece without the separator's first unit ends at the separator. *)
Lemma split_app_sep a sep p s :
  Forall (λ c, c ≠ a) p →
  split (p ++ (a :: sep) ++ s) (a :: sep) = p :: split s (a :: sep).
Proof.
  unfold split. induction p as [|c p IH]; intros Hp.
  - cbn [app]. cbn [split_from].
    replace (startsWith (a :: sep ++ s) (a :: sep)) with true.
    2: { symmetry. apply startsWith_spec. by exists s. }
    f_equal. replace (length (a :: sep) - 1)%nat with (length sep) by (simpl; lia).
    rewrite split_from_skip, decide_True by (rewrite length_app; lia).
    by rewrite drop_app_length.
  - apply Forall_cons in Hp as [Hc Hp]. cbn [app split_from] in *.
    rewrite startsWith_head_ne by done. by rewrite IH.
Qed.

(** A string without the separator's first unit is one piece. *)
Lemma split_no_sep a sep p :
  Forall (λ c, c ≠ a) p → split p (a :: sep) = [p].
Proof.
  unfold split. induction p as [|c p IH]; intros Hp; [done|].
  apply Forall_cons in Hp as [Hc Hp]. cbn [split_from].
  rewrite startsWith_head_ne by done. by rewrite IH.
Qed.

Lemma split_join a sep ps :
  ps ≠ [] → Forall (Forall (λ c, c ≠ a)) ps →
  split (join ps (a :: sep)) (a :: sep) = ps.
Proof.
  induction ps as [|p ps IH]; [done|]. intros _ [Hp Hps]%Forall_cons.
  destruct ps as [|q ps]; [by apply split_no_sep|].
  change (join (p :: q :: ps) (a :: sep))
    with (p ++ (a :: sep) ++ join (q :: ps) (a :: sep)).
  rewrite split_app_sep by done. f_equal. by apply IH.
Qed.

(** Joining what [split] returns gives the string back. *)
Lemma join_split sep s : sep ≠ [] → join (split s sep) sep = s.
Proof.
  intros Hsep. unfold split.
  induction s as [s IH] using (induction_ltof1 _ (@length N)); unfold ltof in IH.
  destruct s as [|c s]; [done|]. cbn [split_from].
  destruct (startsWith (c :: s) sep) eqn:Hst.
  - apply startsWith_spec in Hst as [r Hr].
    destruct sep as [|a sep]; [done|]. injection Hr as -> ->.
    replace (length (a :: sep) - 1)%nat with (length sep) by (simpl; lia).
    rewrite split_from_skip, decide_True, drop_app_length by (rewrite length_app; lia).
    specialize (IH r). rewrite length_cons, length_app in IH.
    destruct (split_from (a :: sep) 0 r) as [|p ps] eqn:E.
    { by apply split_nonempty in E. }
    cbn [join app]. f_equal. f_equal. apply IH; lia.
  - specialize (IH s ltac:(simpl; lia)).
    destruct (split_from sep 0 s) as [|p ps] eqn:E.
    { by apply split_nonempty in E. }
    destruct ps as [|q ps]; cbn [join] in *; simpl; by rewrite IH.
Qed.

Lemma toLowerCase_app s t : toLowerCase (s ++ t) = toLowerCase s ++ toLowerCase t.
Proof. apply fmap_app. Qed.

Lemma lower_unit_idem c : lower_unit (lower_unit c) = lower_unit c.
Proof.
  unfold lower_unit. destruct ((65 <=? c) && (c <=? 90)) eqn:E; [|by rewrite E].
  bool_to_prop. replace (c + 32 <=? 90) with false; [by rewrite andb_false_r|].
  symmetry; apply N.leb_gt; lia.
Qed.

Lemma toLowerCase_idem s : toLowerCase (toLowerCase s) = toLowerCase s.
Proof.
  unfold toLowerCase. rewrite <- list_fmap_compose.
  apply list_fmap_ext. intros; simpl. apply lower_unit_idem.
Qed.

Lemma indexOf_spec s c i :
  indexOf s c = Some i → s !! i = Some c ∧ ∀ j, (j < i)%nat → s !! j ≠ Some c.
Proof.
  revert i; induction s as [|d s IH]; intros i H; simpl in H; [done|].
  destruct (d =? c) eqn:E.
  - injection H as <-. apply N.eqb_eq in E as ->. split; [done|lia].
  - apply fmap_Some in H as (k & Hk & ->). apply IH in Hk as [Hk Hlt].
    split; [done|]. intros [|j] Hj; simpl; [apply N.eqb_neq in E; congruence|].
    apply Hlt; lia.
Qed.

Lemma indexOf_None s c : indexOf s c = None ↔ c ∉ s.
Proof.
  induction s as [|d s IH]; simpl; [set_solver|].
  rewrite not_elem_of_cons. destruct (d =? c) eqn:E.
  - apply N.eqb_eq in E as ->. naive_solver.
  - apply N.eqb_neq in E. rewrite fmap_None, IH. naive_solver.
Qed.

#[export] Hint Rewrite startsWith_app startsWith_nil toLowerCase_app : js.
#[export] Hint Resolve split_nonempty : js.

Example split_button :
  split (js "BTN::QBUY::So111::alice") (js "::")
  = [js "BTN"; js "QBUY"; js "So111"; js "alice"].
Proof. reflexivity. Qed.

Example js_emoji_units : js "🔄" = [55357; 56580].
Proof. reflexivity. Qed.
