(* ===== verification/Regex.v ===== *)
(** * Regular expressions

    The patterns of the program: sequences, alternatives, options, captured
    groups, word boundaries, and repetition of a character class.  Matching
    backtracks as the language prescribes: alternatives in order, repetition
    greedy, the leftmost start.  The flag [i] folds ASCII case, which is all that
    ASCII patterns without the flag [u] observe. *)

From S2P Require Import Prelude JsString.

Local Open Scope N_scope.

Inductive rx :=
  | RClass (p : N → bool)                       (* one character *)
  | RRep (p : N → bool) (min max : nat)         (* {min,max} of a class, greedy *)
  | RMany (p : N → bool) (min : nat)            (* {min,} of a class, greedy *)
  | RSeq (r1 r2 : rx)
  | RAlt (r1 r2 : rx)
  | ROpt (r : rx)                               (* greedy *)
  | RGroup (r : rx)
  | RWordB
  | REmpty.

Definition is_word_opt (c : option N) : bool :=
  match c with Some c => is_word c | None => false end.

Section Match.
Context {A : Type}.

(** What remains to be matched: the previous character, the rest of the input
    and the captures so far. *)
Abbreviation kont := (option N → jsstr → list jsstr → option A).

(** Greedy repetition: one more character first, then fewer. *)
Fixpoint rep (p : N → bool) (min max : nat) (prev : option N) (s : jsstr)
    (caps : list jsstr) (k : kont) {struct s} : option A :=
  let stop := match min with O => k prev s caps | _ => None end in
  match max, s with
  | S max, c :: s' =>
      if p c then
        match rep p (Nat.pred min) max (Some c) s' caps k with
        | Some a => Some a
        | None => stop
        end
      else stop
  | _, _ => stop
  end.

Fixpoint rmatch (r : rx) (prev : option N) (s : jsstr) (caps : list jsstr) (k : kont)
  : option A :=
  match r with
  | RClass p => match s with
                | c :: s' => if p c then k (Some c) s' caps else None
                | [] => None
                end
  | RRep p min max => rep p min max prev s caps k
  | RMany p min => rep p min (length s) prev s caps k
  | RSeq r1 r2 => rmatch r1 prev s caps (λ prev s caps, rmatch r2 prev s caps k)
  | RAlt r1 r2 => match rmatch r1 prev s caps k with
                  | Some a => Some a
                  | None => rmatch r2 prev s caps k
                  end
  | ROpt r => match rmatch r prev s caps k with
              | Some a => Some a
              | None => k prev s caps
              end
  | RGroup r =>
      rmatch r prev s caps
        (λ prev' s' caps, k prev' s' (caps ++ [take (length s - length s') s]))
  | RWordB =>
      if xorb (is_word_opt prev) (is_word_opt (head s)) then k prev s caps else None
  | REmpty => k prev s caps
  end.
End Match.

(** [rx.exec(s)]: the captures of the leftmost match. *)
Fixpoint exec_from (r : rx) (prev : option N) (s : jsstr) : option (list jsstr) :=
  match rmatch r prev s [] (λ _ _ caps, Some caps) with
  | Some caps => Some caps
  | None => match s with
            | [] => None
            | c :: s => exec_from r (Some c) s
            end
  end.

Definition exec (r : rx) (s : jsstr) : option (list jsstr) := exec_from r None s.
Definition test (r : rx) (s : jsstr) : bool := match exec r s with Some _ => true | None => false end.

(** A literal under the flag [i]. *)
Definition same_letter (c d : N) : bool := lower_unit d =? lower_unit c.

Fixpoint lit_units (s : jsstr) : rx :=
  match s with
  | [] => REmpty
  | c :: s => RSeq (RClass (same_letter c)) (lit_units s)
  end.

Definition lit (s : string) : rx := lit_units (js s).

Fixpoint rseq (rs : list rx) : rx :=
  match rs with
  | [] => REmpty
  | [r] => r
  | r :: rs => RSeq r (rseq rs)
  end.

(** [s.replace(/literal/ig, '')] *)
Definition starts_lit (lit s : jsstr) : bool :=
  (length lit <=? length s)%nat && bool_decide (toLowerCase (take (length lit) s) = toLowerCase lit).

Fixpoint remove_lit (lit : jsstr) (skip : nat) (s : jsstr) : jsstr :=
  match s with
  | [] => []
  | c :: s' =>
      match skip with
      | S skip => remove_lit lit skip s'
      | O => if starts_lit lit s then remove_lit lit (Nat.pred (length lit)) s'
             else c :: remove_lit lit O s'
      end
  end.

Definition replace_lit (lit s : jsstr) : jsstr := remove_lit lit O s.

(** ** Facts *)

(** A greedy repetition that can take all of [xs], and must stop there, does so
    when the rest of the pattern matches. *)
Lemma rep_run {A} p min max prev xs s caps k (a : A) :
  forallb p xs = true → (min <= length xs <= max)%nat →
  match s with c :: _ => p c = false ∨ max = length xs | [] => True end →
  k (match last xs with Some c => Some c | None => prev end) s caps = Some a →
  rep p min max prev (xs ++ s) caps k = Some a.
Proof.
  revert min max prev; induction xs as [|x xs IH]; intros min max prev Hp Hl Hs Hk.
  - cbn in Hl. assert (min = O) as -> by lia. cbn in *.
    destruct s as [|c s]; [by destruct max|].
    cbn. destruct max as [|max]; [done|].
    destruct Hs as [->|?]; [done|lia].
  - cbn in Hp. apply andb_true_iff in Hp as [Hx Hp]. cbn [length] in Hl.
    destruct max as [|max]; [lia|]. cbn [app rep]. rewrite Hx.
    rewrite (IH (Nat.pred min) max (Some x)); [done|done|lia| |].
    + destruct s; [done|]. cbn [length] in Hs. destruct Hs; [by left|right; lia].
    + destruct xs as [|y xs]; [done|]. rewrite last_cons_cons in Hk.
      destruct (last (y :: xs)) eqn:El; [done|]. by apply last_None in El.
Qed.

(** ** The matcher is correct *)

Definition last_or (prev : option N) (xs : jsstr) : option N :=
  match last xs with Some c => Some c | None => prev end.

(** The declarative meaning: [r] matches a prefix of [s], leaving [s'] and
    capturing [cs]. *)
Inductive rmatches : rx → option N → jsstr → option N → jsstr → list jsstr → Prop :=
  | m_class p prev c s : p c = true → rmatches (RClass p) prev (c :: s) (Some c) s []
  | m_rep p min max prev xs s :
      forallb p xs = true → (min <= length xs <= max)%nat →
      rmatches (RRep p min max) prev (xs ++ s) (last_or prev xs) s []
  | m_many p min prev xs s :
      forallb p xs = true → (min <= length xs)%nat →
      rmatches (RMany p min) prev (xs ++ s) (last_or prev xs) s []
  | m_seq r1 r2 p0 s0 p1 s1 p2 s2 c1 c2 :
      rmatches r1 p0 s0 p1 s1 c1 → rmatches r2 p1 s1 p2 s2 c2 →
      rmatches (RSeq r1 r2) p0 s0 p2 s2 (c1 ++ c2)
  | m_alt1 r1 r2 p0 s0 p1 s1 c : rmatches r1 p0 s0 p1 s1 c → rmatches (RAlt r1 r2) p0 s0 p1 s1 c
  | m_alt2 r1 r2 p0 s0 p1 s1 c : rmatches r2 p0 s0 p1 s1 c → rmatches (RAlt r1 r2) p0 s0 p1 s1 c
  | m_opt1 r p0 s0 p1 s1 c : rmatches r p0 s0 p1 s1 c → rmatches (ROpt r) p0 s0 p1 s1 c
  | m_opt0 r p0 s0 : rmatches (ROpt r) p0 s0 p0 s0 []
  | m_group r p0 s0 p1 s1 c :
      rmatches r p0 s0 p1 s1 c →
      rmatches (RGroup r) p0 s0 p1 s1 (c ++ [take (length s0 - length s1) s0])
  | m_wordb p0 s0 :
      xorb (is_word_opt p0) (is_word_opt (head s0)) = true → rmatches RWordB p0 s0 p0 s0 []
  | m_empty p0 s0 : rmatches REmpty p0 s0 p0 s0 [].

Lemma last_or_cons prev c xs : last_or (Some c) xs = last_or prev (c :: xs).
Proof.
  unfold last_or. destruct xs as [|x xs]; [done|]. rewrite last_cons_cons.
  destruct (last (x :: xs)) eqn:El; [done|]. by apply last_None in El.
Qed.

Lemma rep_sound {A} p min max prev s caps k (a : A) :
  rep p min max prev s caps k = Some a →
  ∃ xs s', s = xs ++ s' ∧ forallb p xs = true ∧ (min <= length xs <= max)%nat
           ∧ k (last_or prev xs) s' caps = Some a.
Proof.
  revert min max prev; induction s as [|c s IH]; intros min max prev H.
  - exists [], []. destruct max, min; cbn in *; try done; repeat split; lia || done.
  - assert (match min with O => k prev (c :: s) caps | _ => None end = Some a →
            ∃ xs s', c :: s = xs ++ s' ∧ forallb p xs = true ∧ (min <= length xs <= max)%nat
              ∧ k (last_or prev xs) s' caps = Some a) as Hstop.
    { destruct min; [|done]. intros Hk. exists [], (c :: s). cbn. repeat split; lia || done. }
    cbn [rep] in H. destruct max as [|max]; [by apply Hstop|].
    destruct (p c) eqn:Hp; [|by apply Hstop].
    destruct (rep p (Nat.pred min) max (Some c) s caps k) eqn:Hr; [|by apply Hstop].
    injection H as ->. destruct (IH _ _ _ Hr) as (xs & s' & -> & Hxs & Hl & Hk).
    exists (c :: xs), s'. cbn. rewrite Hp, Hxs. repeat split; [lia|lia|].
    by rewrite <- (last_or_cons prev).
Qed.

Lemma rep_complete {A} p min max prev xs s caps (k : option N → jsstr → list jsstr → option A) :
  forallb p xs = true → (min <= length xs <= max)%nat →
  is_Some (k (last_or prev xs) s caps) → is_Some (rep p min max prev (xs ++ s) caps k).
Proof.
  revert min max prev; induction xs as [|x xs IH]; intros min max prev Hp Hl Hk.
  - cbn in *. assert (min = O) as -> by lia. destruct s as [|c s]; cbn; [by destruct max|].
    destruct max as [|max]; [done|]. destruct (p c); [|done].
    by destruct (rep p _ max (Some c) s caps k).
  - cbn in Hp. apply andb_true_iff in Hp as [Hx Hp]. cbn [length] in Hl.
    destruct max as [|max]; [lia|]. cbn [app rep]. rewrite Hx.
    destruct (IH (Nat.pred min) max (Some x) Hp ltac:(lia)) as [a ->]; [|done].
    by rewrite (last_or_cons prev).
Qed.

Lemma rmatch_sound {A} r prev s caps k (a : A) :
  rmatch r prev s caps k = Some a →
  ∃ prev' s' cs, rmatches r prev s prev' s' cs ∧ k prev' s' (caps ++ cs) = Some a.
Proof.
  revert prev s caps k; induction r as [p|p min max|p min|r1 IH1 r2 IH2|r1 IH1 r2 IH2|r IH|r IH| |];
    intros prev s caps k H; cbn in H.
  - destruct s as [|c s]; [done|]. destruct (p c) eqn:Hp; [|done].
    exists (Some c), s, []. rewrite app_nil_r. by split; [constructor|].
  - apply rep_sound in H as (xs & s' & -> & Hp & Hl & Hk). eexists _, _, [].
    rewrite app_nil_r. by split; [constructor|].
  - apply rep_sound in H as (xs & s' & -> & Hp & Hl & Hk). eexists _, _, [].
    rewrite app_nil_r. split; [apply m_many; [done|lia]|done].
  - apply IH1 in H as (p1 & s1 & c1 & H1 & H). apply IH2 in H as (p2 & s2 & c2 & H2 & H).
    exists p2, s2, (c1 ++ c2). rewrite app_assoc. split; [by econstructor|done].
  - destruct (rmatch r1 prev s caps k) eqn:E1.
    + injection H as ->. apply IH1 in E1 as (p1 & s1 & c1 & H1 & H).
      eexists _, _, _. split; [by apply m_alt1|done].
    + apply IH2 in H as (p1 & s1 & c1 & H1 & H). eexists _, _, _. split; [by apply m_alt2|done].
  - destruct (rmatch r prev s caps k) eqn:E1.
    + injection H as ->. apply IH in E1 as (p1 & s1 & c1 & H1 & H).
      eexists _, _, _. split; [by apply m_opt1|done].
    + eexists _, _, []. rewrite app_nil_r. split; [by apply m_opt0|done].
  - apply IH in H as (p1 & s1 & c1 & H1 & H).
    eexists _, _, _. split; [by apply m_group|]. by rewrite app_assoc.
  - destruct (xorb _ _) eqn:Hx; [|done]. eexists _, _, []. rewrite app_nil_r.
    by split; [constructor|].
  - eexists _, _, []. rewrite app_nil_r. by split; [constructor|].
Qed.

Lemma rmatch_complete {A} r prev s prev' s' cs :
  rmatches r prev s prev' s' cs →
  ∀ caps (k : option N → jsstr → list jsstr → option A),
    is_Some (k prev' s' (caps ++ cs)) → is_Some (rmatch r prev s caps k).
Proof.
  induction 1 as [p prev c s Hp|p min max prev xs s Hp Hl|p min prev xs s Hp Hl
    |r1 r2 p0 s0 p1 s1 p2 s2 c1 c2 _ IH1 _ IH2|r1 r2 p0 s0 p1 s1 c _ IH|r1 r2 p0 s0 p1 s1 c _ IH
    |r p0 s0 p1 s1 c _ IH|r p0 s0|r p0 s0 p1 s1 c _ IH|p0 s0 Hx|p0 s0];
    intros caps k Hk; cbn; rewrite ?app_nil_r in Hk.
  - by rewrite Hp.
  - by apply rep_complete.
  - apply rep_complete; [done| |done]. rewrite length_app. lia.
  - apply IH1, IH2. by rewrite <- app_assoc.
  - destruct (IH caps k Hk) as [a ->]. done.
  - destruct (rmatch r1 p0 s0 caps k); [done|]. by apply IH.
  - destruct (IH caps k Hk) as [a ->]. done.
  - by destruct (rmatch r p0 s0 caps k).
  - apply IH. by rewrite <- app_assoc.
  - by rewrite Hx.
  - done.
Qed.

(** Where a search can start: after a prefix of the input. *)
Lemma exec_from_sound r prev s caps :
  exec_from r prev s = Some caps →
  ∃ pre s0 p1 s1, s = pre ++ s0 ∧ rmatches r (last_or prev pre) s0 p1 s1 caps.
Proof.
  revert prev; induction s as [|c s IH]; intros prev H; cbn in H.
  - destruct (rmatch r prev [] [] _) eqn:E; [|done]. injection H as ->.
    apply rmatch_sound in E as (p1 & s1 & cs & Hm & [= <-]). by exists [], [], p1, s1.
  - destruct (rmatch r prev (c :: s) [] _) eqn:E.
    + injection H as ->. apply rmatch_sound in E as (p1 & s1 & cs & Hm & [= <-]).
      by exists [], (c :: s), p1, s1.
    + apply IH in H as (pre & s0 & p1 & s1 & -> & Hm). exists (c :: pre), s0, p1, s1.
      by rewrite <- (last_or_cons prev).
Qed.

Lemma exec_from_complete r prev pre s0 p1 s1 cs :
  rmatches r (last_or prev pre) s0 p1 s1 cs → is_Some (exec_from r prev (pre ++ s0)).
Proof.
  revert prev; induction pre as [|c pre IH]; intros prev Hm; cbn [app].
  - destruct (rmatch_complete _ _ _ _ _ _ Hm [] (λ _ _ caps, Some caps)) as [a Ha]; [done|].
    destruct s0; cbn; change (last_or prev []) with prev in Ha; by rewrite Ha.
  - cbn. destruct (rmatch r prev _ [] _); [done|]. apply IH.
    by rewrite (last_or_cons prev).
Qed.

(** ** Inversion *)

Lemma seq_inv r1 r2 p0 s0 p2 s2 cs :
  rmatches (RSeq r1 r2) p0 s0 p2 s2 cs →
  ∃ p1 s1 c1 c2, rmatches r1 p0 s0 p1 s1 c1 ∧ rmatches r2 p1 s1 p2 s2 c2 ∧ cs = c1 ++ c2.
Proof. inversion 1; subst. by eexists _, _, _, _. Qed.

Lemma many_inv p min p0 s0 p1 s1 cs :
  rmatches (RMany p min) p0 s0 p1 s1 cs →
  ∃ xs, s0 = xs ++ s1 ∧ forallb p xs = true ∧ (min <= length xs)%nat ∧ cs = [].
Proof. inversion 1; subst. by eexists. Qed.

Lemma rep_inv p min max p0 s0 p1 s1 cs :
  rmatches (RRep p min max) p0 s0 p1 s1 cs →
  ∃ xs, s0 = xs ++ s1 ∧ forallb p xs = true ∧ (min <= length xs <= max)%nat ∧ cs = [].
Proof. inversion 1; subst. by eexists. Qed.

Lemma group_inv r p0 s0 p1 s1 cs :
  rmatches (RGroup r) p0 s0 p1 s1 cs →
  ∃ c, rmatches r p0 s0 p1 s1 c ∧ cs = c ++ [take (length s0 - length s1) s0].
Proof. inversion 1; subst. by eexists. Qed.

Lemma alt_inv r1 r2 p0 s0 p1 s1 cs :
  rmatches (RAlt r1 r2) p0 s0 p1 s1 cs →
  rmatches r1 p0 s0 p1 s1 cs ∨ rmatches r2 p0 s0 p1 s1 cs.
Proof. inversion 1; subst; auto. Qed.

Lemma lit_inv l p0 s0 p1 s1 cs :
  rmatches (lit_units l) p0 s0 p1 s1 cs →
  ∃ xs, s0 = xs ++ s1 ∧ toLowerCase xs = toLowerCase l ∧ cs = [].
Proof.
  revert p0 s0 cs; induction l as [|c l IH]; intros p0 s0 cs H; cbn in H.
  - inversion H; subst. by exists [].
  - apply seq_inv in H as (p' & s' & c1 & c2 & H1 & H2 & ->).
    inversion H1 as [q prev d s Hd| | | | | | | | | |]; subst.
    destruct (IH _ _ _ H2) as (xs & -> & Hxs & ->). exists (d :: xs).
    apply N.eqb_eq in Hd. unfold toLowerCase in *. cbn. rewrite Hd, Hxs. done.
Qed.

Lemma captured (xs s : jsstr) : take (length (xs ++ s) - length s) (xs ++ s) = xs.
Proof. rewrite length_app. apply take_app_length'. lia. Qed.

(** A match consumes a prefix. *)
Lemma rmatches_prefix r p0 s0 p1 s1 cs :
  rmatches r p0 s0 p1 s1 cs → ∃ xs, s0 = xs ++ s1.
Proof.
  induction 1 as [? ? c s| | |? ? ? ? ? ? ? ? ? ? _ [x Hx] _ [y Hy]| | | | | | |];
    try done; try (by exists []); try (by eexists).
  - by exists [c].
  - exists (x ++ y). by rewrite Hx, Hy, app_assoc.
Qed.

(** ** Runs *)

Lemma lit_run {A} l xs prev s caps (k : option N → jsstr → list jsstr → option A) :
  toLowerCase xs = toLowerCase l →
  rmatch (lit_units l) prev (xs ++ s) caps k = k (last_or prev xs) s caps.
Proof.
  revert l prev; induction xs as [|x xs IH]; intros [|c l] prev Hl; try done.
  unfold toLowerCase in *. cbn in Hl. injection Hl as Hx Hl.
  cbn [lit_units rmatch app]. unfold same_letter. rewrite Hx, N.eqb_refl, IH by done.
  by rewrite (last_or_cons prev).
Qed.

Lemma exec_from_here r prev s caps :
  rmatch r prev s [] (λ _ _ caps, Some caps) = Some caps → exec_from r prev s = Some caps.
Proof. intros H. destruct s; cbn; by rewrite H. Qed.
