(* ===== verification/JsNum.v ===== *)
(** * JavaScript numbers: IEEE 754 binary64

    A finite number is a rational; every arithmetic operation is the exact
    rational operation followed by [fl], rounding to the nearest double with
    ties to even, overflow to an infinity and gradual underflow.  The sign of
    zero is not kept: nothing in the program observes it.  The facts proved
    here are the ones the components use: rounding is the identity on doubles
    and in particular on integers up to 2^53, monotone, and sign-preserving. *)

From S2P Require Import Prelude.
From Stdlib Require Import QArith Qabs Qround Qpower Lqa.

Local Open Scope Q_scope.

Inductive num :=
  | NaN
  | Inf (negative : bool)
  | Fin (q : Q).

(** ** Rounding *)

#[export] Instance Q_leibniz_dec : EqDecision Q.
Proof. solve_decision. Defined.
#[export] Instance num_dec : EqDecision num.
Proof. solve_decision. Defined.

Definition pow2 (e : Z) : Q := 2 ^ e.

(** The exponent [k] with 2^k <= q < 2^(k+1), for q > 0. *)
Definition floor_log2 (q : Q) : Z :=
  let k := (Z.log2 (Qnum q) - Z.log2 (Zpos (Qden q)))%Z in
  if Qle_bool (pow2 k) q then k else (k - 1)%Z.

(** Nearest integer, ties to even. *)
Definition round_half_even (q : Q) : Z :=
  let f := Qfloor q in
  match Qcompare (q - inject_Z f) (1 # 2) with
  | Lt => f
  | Gt => (f + 1)%Z
  | Eq => if Z.even f then f else (f + 1)%Z
  end.

(** The exponent of the unit in the last place at [q]. *)
Definition ulp_exp (q : Q) : Z := Z.max (floor_log2 (Qabs q) - 52) (-1074).

Definition rnd (q : Q) : Q :=
  if Qeq_bool q 0 then 0
  else
    let e := ulp_exp q in
    Qred (inject_Z (round_half_even (q / pow2 e)) * pow2 e).

Definition fl (q : Q) : num :=
  let r := rnd q in
  if Qle_bool (pow2 1024) (Qabs r) then Inf (negb (Qle_bool 0 q)) else Fin r.

(** ** Operators *)

Definition num_of_Z (z : Z) : num := fl (inject_Z z).

Definition num_neg (x : num) : num :=
  match x with
  | NaN => NaN
  | Inf s => Inf (negb s)
  | Fin q => Fin (Qred (- q))
  end.

Definition num_add (x y : num) : num :=
  match x, y with
  | NaN, _ | _, NaN => NaN
  | Inf s, Inf t => if Bool.eqb s t then Inf s else NaN
  | Inf s, Fin _ | Fin _, Inf s => Inf s
  | Fin p, Fin q => fl (p + q)
  end.

Definition num_sub (x y : num) : num := num_add x (num_neg y).

Definition is_neg (q : Q) : bool := negb (Qle_bool 0 q).

Definition num_mul (x y : num) : num :=
  match x, y with
  | NaN, _ | _, NaN => NaN
  | Inf s, Inf t => Inf (xorb s t)
  | Inf s, Fin q | Fin q, Inf s =>
      if Qeq_bool q 0 then NaN else Inf (xorb s (is_neg q))
  | Fin p, Fin q => fl (p * q)
  end.

(** Division; a zero divisor is taken positive. *)
Definition num_div (x y : num) : num :=
  match x, y with
  | NaN, _ | _, NaN => NaN
  | Inf _, Inf _ => NaN
  | Inf s, Fin q => Inf (xorb s (is_neg q))
  | Fin _, Inf _ => Fin 0
  | Fin p, Fin q =>
      if Qeq_bool q 0 then
        (if Qeq_bool p 0 then NaN else Inf (is_neg p))
      else fl (p / q)
  end.

Definition num_compare (x y : num) : option comparison :=
  match x, y with
  | NaN, _ | _, NaN => None
  | Inf s, Inf t =>
      Some (if Bool.eqb s t then Eq else if s then Lt else Gt)
  | Inf s, Fin _ => Some (if s then Lt else Gt)
  | Fin _, Inf s => Some (if s then Gt else Lt)
  | Fin p, Fin q => Some (Qcompare p q)
  end.

Definition num_lt (x y : num) : bool :=
  match num_compare x y with Some Lt => true | _ => false end.
Definition num_gt (x y : num) : bool := num_lt y x.
Definition num_ge (x y : num) : bool :=
  match num_compare x y with Some (Gt | Eq) => true | _ => false end.
(** [===] on numbers *)
Definition num_eq (x y : num) : bool :=
  match num_compare x y with Some Eq => true | _ => false end.

(** [!!x] *)
Definition num_truthy (x : num) : bool :=
  match x with
  | NaN => false
  | Inf _ => true
  | Fin q => negb (Qeq_bool q 0)
  end.

(** [x || d] *)
Definition num_or (x d : num) : num := if num_truthy x then x else d.

(** [Math.floor], [Math.round], [Math.max], [Math.min] *)
Definition Math_floor (x : num) : num :=
  match x with Fin q => Fin (inject_Z (Qfloor q)) | _ => x end.

Definition Math_round (x : num) : num :=
  match x with Fin q => Fin (inject_Z (Qfloor (q + (1 # 2)))) | _ => x end.

Definition Math_max (x y : num) : num :=
  match num_compare x y with
  | None => NaN
  | Some Lt => y
  | Some _ => x
  end.

Definition Math_min (x y : num) : num :=
  match num_compare x y with
  | None => NaN
  | Some Gt => y
  | Some _ => x
  end.

(** [10 ** d] for a non-negative integer [d]. *)
Definition pow10 (d : Z) : num := fl (inject_Z (10 ^ d)).

(** The integer value of a number that has one. *)
Definition num_int (x : num) : option Z :=
  match x with
  | Fin q => if Qeq_bool q (inject_Z (Qfloor q)) then Some (Qfloor q) else None
  | _ => None
  end.

(** A double: a number that rounding leaves alone. *)
Definition num_wf (x : num) : Prop :=
  match x with Fin q => fl q = Fin q | _ => True end.

Definition fin_zero : num := Fin 0.

(** ** Powers of two *)

Lemma pow2_pos e : 0 < pow2 e.
Proof. by apply Qpower_0_lt. Qed.

Lemma pow2_nonzero e : ~ pow2 e == 0.
Proof. pose proof (pow2_pos e). lra. Qed.

Lemma pow2_add a b : pow2 (a + b) == pow2 a * pow2 b.
Proof. apply Qpower_plus. lra. Qed.

Lemma pow2_le a b : (a <= b)%Z → pow2 a <= pow2 b.
Proof. intros. apply Qpower_le_compat_l; [done|lra]. Qed.

Lemma pow2_lt_inv a b : pow2 a < pow2 b → (a < b)%Z.
Proof.
  intros H. destruct (Z.lt_ge_cases a b) as [|Hge]; [done|].
  apply pow2_le in Hge. lra.
Qed.

Lemma pow2_Z n : (0 <= n)%Z → pow2 n == inject_Z (2 ^ n).
Proof. intros. unfold pow2. by rewrite Zpower_Qpower. Qed.

Lemma pow2_succ e : pow2 (e + 1) == 2 * pow2 e.
Proof. rewrite pow2_add. change (pow2 1) with 2. ring. Qed.

#[export] Hint Resolve pow2_pos pow2_nonzero : js.

(** ** The binary exponent *)

Lemma floor_log2_spec q :
  0 < q → pow2 (floor_log2 q) <= q /\ q < pow2 (floor_log2 q + 1).
Proof.
  intros Hq. destruct q as [n d]. assert (0 < n)%Z as Hn by (unfold Qlt in Hq; simpl in Hq; lia).
  unfold floor_log2; cbn [Qnum Qden].
  pose proof (Z.log2_spec n Hn) as [Hn1 Hn2].
  pose proof (Z.log2_spec (Zpos d) ltac:(lia)) as [Hd1 Hd2].
  pose proof (Z.log2_nonneg n). pose proof (Z.log2_nonneg (Zpos d)).
  set (a := Z.log2 n) in *. set (b := Z.log2 (Zpos d)) in *.
  rewrite Zle_Qle, <- pow2_Z in Hn1 by lia. rewrite Zlt_Qlt, <- pow2_Z in Hn2 by lia.
  rewrite Zle_Qle, <- pow2_Z in Hd1 by lia. rewrite Zlt_Qlt, <- pow2_Z in Hd2 by lia.
  assert (n # d == inject_Z n / inject_Z (Zpos d)) as Hnd by apply Qmake_Qdiv.
  assert (0 < inject_Z (Zpos d)) as Hdp by (pose proof (pow2_pos b); lra).
  assert (n # d < pow2 (a - b + 1)) as Hup.
  { rewrite Hnd. apply Qlt_shift_div_r; [done|].
    assert (pow2 (a + 1) == pow2 (a - b + 1) * pow2 b) as Hab.
    { rewrite <- pow2_add. by replace (a - b + 1 + b)%Z with (a + 1)%Z by lia. }
    replace (Z.succ a) with (a + 1)%Z in Hn2 by lia.
    pose proof (pow2_pos (a - b + 1)). nra. }
  assert (pow2 (a - b - 1) < n # d) as Hlow.
  { rewrite Hnd. apply Qlt_shift_div_l; [done|].
    assert (pow2 a == pow2 (a - b - 1) * pow2 (Z.succ b)) as Hab.
    { rewrite <- pow2_add. by replace (a - b - 1 + Z.succ b)%Z with a by lia. }
    pose proof (pow2_pos (a - b - 1)). nra. }
  destruct (Qle_bool (pow2 (a - b)) (n # d)) eqn:E.
  - apply Qle_bool_iff in E. done.
  - replace (a - b - 1 + 1)%Z with (a - b)%Z by lia. split; [lra|].
    apply Qnot_le_lt. intros H1. apply Qle_bool_iff in H1. congruence.
Qed.

Lemma floor_log2_unique q k :
  pow2 k <= q → q < pow2 (k + 1) → floor_log2 q = k.
Proof.
  intros H1 H2. assert (0 < q) as Hq by (pose proof (pow2_pos k); lra).
  destruct (floor_log2_spec q Hq) as [H3 H4].
  pose proof (pow2_lt_inv k (floor_log2 q + 1)).
  pose proof (pow2_lt_inv (floor_log2 q) (k + 1)).
  assert (k < floor_log2 q + 1)%Z by (apply H; lra).
  assert (floor_log2 q < k + 1)%Z by (apply H0; lra). lia.
Qed.

Lemma floor_log2_mono p q : 0 < p → p <= q → (floor_log2 p <= floor_log2 q)%Z.
Proof.
  intros Hp Hpq. destruct (floor_log2_spec p Hp), (floor_log2_spec q ltac:(lra)).
  enough (floor_log2 p < floor_log2 q + 1)%Z by lia. apply pow2_lt_inv. lra.
Qed.

Lemma Qabs_pos_nonzero q : ~ q == 0 → 0 < Qabs q.
Proof. intros H. apply Qabs_case; intros; lra. Qed.

(** ** Rounding to an integer *)

Lemma round_half_even_Z z : round_half_even (inject_Z z) = z.
Proof.
  unfold round_half_even. rewrite Qfloor_Z.
  replace (inject_Z z - inject_Z z ?= 1 # 2) with Lt; [done|].
  symmetry. apply Qlt_alt. generalize (inject_Z z). intros x. ring_simplify (x - x). done.
Qed.

#[export] Instance round_half_even_proper : Proper (Qeq ==> eq) round_half_even.
Proof.
  intros x y H. unfold round_half_even. rewrite (Qfloor_comp x y H).
  by rewrite (Qcompare_comp (x - inject_Z (Qfloor y)) (y - inject_Z (Qfloor y))
    ltac:(by rewrite H) (1 # 2) (1 # 2) ltac:(done)).
Qed.

(** The rounded integer is the floor or its successor, by the fractional part. *)
Lemma round_half_even_cases q :
  (round_half_even q = Qfloor q /\ q - inject_Z (Qfloor q) <= 1 # 2)
  \/ (round_half_even q = (Qfloor q + 1)%Z /\ 1 # 2 <= q - inject_Z (Qfloor q)).
Proof.
  unfold round_half_even. set (r := q - inject_Z (Qfloor q)).
  destruct (r ?= 1 # 2) eqn:E.
  - apply Qeq_alt in E. destruct (Z.even _); [left|right]; split; try done; rewrite E; lra.
  - apply Qlt_alt in E. left; split; [done|lra].
  - apply Qgt_alt in E. right; split; [done|lra].
Qed.

Lemma round_half_even_bounds q :
  (Qfloor q <= round_half_even q <= Qfloor q + 1)%Z.
Proof. destruct (round_half_even_cases q) as [[-> _]|[-> _]]; lia. Qed.

Lemma round_half_even_mono p q :
  p <= q → (round_half_even p <= round_half_even q)%Z.
Proof.
  intros H. pose proof (Qfloor_resp_le _ _ H) as Hf.
  pose proof (round_half_even_bounds p). pose proof (round_half_even_bounds q).
  destruct (Z.eq_dec (Qfloor p) (Qfloor q)) as [E|]; [|lia].
  destruct (Qeq_dec p q) as [->|]; [lia|].
  destruct (round_half_even_cases p) as [[-> _]|[-> Hp]]; [lia|].
  destruct (round_half_even_cases q) as [[_ Hq]|[-> _]]; [|lia].
  rewrite E in Hp. exfalso. lra.
Qed.

(** ** Rounding to a double *)

Lemma floor_log2_comp p q : 0 < p → p == q → floor_log2 p = floor_log2 q.
Proof.
  intros Hp H. destruct (floor_log2_spec p Hp). symmetry.
  apply floor_log2_unique; lra.
Qed.

Lemma ulp_exp_comp p q : ~ p == 0 → p == q → ulp_exp p = ulp_exp q.
Proof.
  intros Hp H. unfold ulp_exp. f_equal.
  rewrite (floor_log2_comp (Qabs p) (Qabs q)); [done| |by rewrite H].
  by apply Qabs_pos_nonzero.
Qed.

Lemma ulp_exp_pos q : 0 < q → ulp_exp q = Z.max (floor_log2 q - 52) (-1074).
Proof.
  intros H. unfold ulp_exp. rewrite <- (floor_log2_comp q (Qabs q)); [done..|].
  by rewrite Qabs_pos by lra.
Qed.

Lemma Qeq_bool_false p q : Qeq_bool p q = false ↔ ~ p == q.
Proof. rewrite <- not_true_iff_false. by rewrite Qeq_bool_iff. Qed.

#[export] Instance rnd_proper : Proper (Qeq ==> eq) rnd.
Proof.
  intros p q H. unfold rnd.
  destruct (Qeq_bool p 0) eqn:E.
  - apply Qeq_bool_iff in E. replace (Qeq_bool q 0) with true; [done|].
    symmetry. apply Qeq_bool_iff. by rewrite <- H.
  - apply Qeq_bool_false in E. replace (Qeq_bool q 0) with false.
    2: { symmetry. apply Qeq_bool_false. by rewrite <- H. }
    rewrite (ulp_exp_comp p q E H). apply Qred_complete. by rewrite H.
Qed.

#[export] Instance rnd_proper_Q : Proper (Qeq ==> Qeq) rnd.
Proof. intros p q H. by rewrite (rnd_proper p q H). Qed.

Lemma rnd_nonzero q : ~ q == 0 →
  rnd q == inject_Z (round_half_even (q / pow2 (ulp_exp q))) * pow2 (ulp_exp q).
Proof.
  intros H. unfold rnd. apply Qeq_bool_false in H as ->. apply Qred_correct.
Qed.

Lemma rnd_0 : rnd 0 = 0.
Proof. done. Qed.

(** A number that is a multiple of its unit in the last place is exact. *)
Lemma rnd_multiple q m e :
  q == inject_Z m * pow2 e → (~ q == 0 → (ulp_exp q <= e)%Z) → rnd q == q.
Proof.
  intros Hq He. destruct (Qeq_dec q 0) as [H0|H0]; [by rewrite H0|].
  specialize (He H0). rewrite rnd_nonzero by done. set (u := ulp_exp q) in *.
  assert (q / pow2 u == inject_Z (m * 2 ^ (e - u))) as Hd.
  { rewrite inject_Z_mult, <- pow2_Z by lia.
    apply Qmult_inj_r with (pow2 u); [apply pow2_nonzero|].
    rewrite Qmult_comm, Qmult_div_r by apply pow2_nonzero.
    rewrite <- Qmult_assoc, <- pow2_add. by replace (e - u + u)%Z with e by lia. }
  rewrite Hd, round_half_even_Z, <- Hd. field. apply pow2_nonzero.
Qed.

Lemma rnd_exact_lt m e :
  (Z.abs m < 2 ^ 53)%Z → (-1074 <= e)%Z →
  rnd (inject_Z m * pow2 e) == inject_Z m * pow2 e.
Proof.
  intros Hm He. apply (rnd_multiple _ m e); [done|]. intros H0.
  set (q := inject_Z m * pow2 e) in *. unfold ulp_exp.
  destruct (floor_log2_spec (Qabs q) (Qabs_pos_nonzero _ H0)) as [Hlo _].
  enough (floor_log2 (Qabs q) < 53 + e)%Z by lia.
  apply pow2_lt_inv. eapply Qle_lt_trans; [exact Hlo|].
  rewrite pow2_add. unfold q. rewrite Qabs_Qmult.
  rewrite (Qabs_pos (pow2 e)) by (pose proof (pow2_pos e); lra).
  apply Qmult_lt_compat_r; [apply pow2_pos|].
  rewrite pow2_Z by lia. change (Qabs (inject_Z m)) with (inject_Z (Z.abs m)).
  by rewrite <- Zlt_Qlt.
Qed.

Lemma rnd_exact m e :
  (Z.abs m <= 2 ^ 53)%Z → (-1074 <= e)%Z →
  rnd (inject_Z m * pow2 e) == inject_Z m * pow2 e.
Proof.
  intros Hm He. destruct (Z.eq_dec (Z.abs m) (2 ^ 53)) as [E|E];
    [|apply rnd_exact_lt; lia].
  assert (inject_Z m * pow2 e == inject_Z (m / 2) * pow2 (e + 1)) as Hh.
  { rewrite pow2_succ. replace m with (2 * (m / 2))%Z at 1.
    2: { symmetry. apply Z_div_exact_full_2; [lia|].
         assert (m = 2 ^ 53 \/ m = - 2 ^ 53)%Z as [->| ->] by lia; done. }
    rewrite inject_Z_mult. ring. }
  rewrite Hh at 1 2. apply rnd_exact_lt; [|lia].
  assert (m = 2 ^ 53 \/ m = - 2 ^ 53)%Z as [->| ->] by lia; done.
Qed.

(** Integers up to 2^53 are doubles. *)
Lemma rnd_Z z : (Z.abs z <= 2 ^ 53)%Z → rnd (inject_Z z) == inject_Z z.
Proof.
  intros H. pose proof (rnd_exact z 0 H ltac:(lia)) as Hr.
  change (pow2 0) with 1 in Hr. by rewrite Qmult_1_r in Hr.
Qed.

(** Below its ulp's binade the scaled significand has at most 53 bits. *)
Lemma scaled_bound q : ~ q == 0 → Qabs (q / pow2 (ulp_exp q)) < pow2 53.
Proof.
  intros H0. destruct (floor_log2_spec (Qabs q) (Qabs_pos_nonzero _ H0)) as [_ Hhi].
  set (u := ulp_exp q). unfold Qdiv. rewrite Qabs_Qmult.
  rewrite (Qabs_pos (/ pow2 u)) by (apply Qinv_le_0_compat; pose proof (pow2_pos u); lra).
  change (Qabs q / pow2 u < pow2 53). apply Qlt_shift_div_r; [apply pow2_pos|].
  rewrite <- pow2_add. eapply Qlt_le_trans; [exact Hhi|].
  apply pow2_le. unfold u, ulp_exp. lia.
Qed.

Lemma round_half_even_abs q n :
  Qabs q <= inject_Z n → (Z.abs (round_half_even q) <= n)%Z.
Proof.
  intros H. apply Qabs_Qle_condition in H as [H1 H2].
  apply round_half_even_mono in H1, H2.
  replace (- inject_Z n) with (inject_Z (- n)) in H1 by done.
  rewrite round_half_even_Z in H1, H2. lia.
Qed.

Lemma rnd_red q : Qred (rnd q) = rnd q.
Proof.
  unfold rnd. destruct (Qeq_bool q 0); [done|].
  apply Qred_complete. apply Qred_correct.
Qed.

Lemma rnd_idem q : rnd (rnd q) = rnd q.
Proof.
  destruct (Qeq_dec q 0) as [H0|H0].
  { by rewrite H0, rnd_0, rnd_0. }
  enough (rnd (rnd q) == rnd q) as H.
  { rewrite <- (rnd_red (rnd q)), (Qred_complete _ _ H). apply rnd_red. }
  rewrite (rnd_nonzero q H0). apply rnd_exact; [|unfold ulp_exp; lia].
  apply round_half_even_abs. rewrite <- pow2_Z by lia.
  pose proof (scaled_bound q H0). lra.
Qed.

Lemma rnd_nonneg q : 0 <= q → 0 <= rnd q.
Proof.
  intros H. destruct (Qeq_dec q 0) as [->|H0]; [done|]. rewrite rnd_nonzero by done.
  apply Qmult_le_0_compat; [|pose proof (pow2_pos (ulp_exp q)); lra].
  change 0 with (inject_Z 0). rewrite <- Zle_Qle.
  rewrite <- (round_half_even_Z 0). apply round_half_even_mono.
  apply Qle_shift_div_l; [apply pow2_pos|]. change (inject_Z 0) with 0. lra.
Qed.

(** Rounding stays within the binade's closed bounds. *)
Lemma rnd_binade_lo q : 0 < q → (-1022 <= floor_log2 q)%Z →
  pow2 (floor_log2 q) <= rnd q.
Proof.
  intros H Hn. rewrite rnd_nonzero, ulp_exp_pos by lra. set (k := floor_log2 q) in *.
  replace (Z.max (k - 52) (-1074)) with (k - 52)%Z by lia.
  replace k with (52 + (k - 52))%Z at 1 by lia. rewrite pow2_add.
  apply Qmult_le_compat_r; [|pose proof (pow2_pos (k - 52)); lra].
  rewrite pow2_Z, <- Zle_Qle by lia.
  rewrite <- (round_half_even_Z (2 ^ 52)). apply round_half_even_mono.
  apply Qle_shift_div_l; [apply pow2_pos|]. rewrite <- pow2_Z, <- pow2_add by lia.
  replace (52 + (k - 52))%Z with k by lia. by apply floor_log2_spec.
Qed.

Lemma rnd_binade_hi q : 0 < q → rnd q <= pow2 (Z.max (floor_log2 q + 1) (-1021)).
Proof.
  intros H. rewrite rnd_nonzero by lra.
  pose proof (scaled_bound q ltac:(lra)) as Hs. rewrite ulp_exp_pos in * by lra. set (k := floor_log2 q) in *.
  replace (Z.max (k + 1) (-1021))%Z with (53 + Z.max (k - 52) (-1074))%Z by lia.
  set (u := Z.max (k - 52) (-1074)) in *. rewrite pow2_add.
  apply Qmult_le_compat_r; [|pose proof (pow2_pos u); lra].
  rewrite (pow2_Z 53), <- Zle_Qle by lia.
  enough (Z.abs (round_half_even (q / pow2 u)) <= 2 ^ 53)%Z by lia.
  apply round_half_even_abs. rewrite <- pow2_Z by lia. lra.
Qed.

Lemma rnd_mono p q : 0 <= p → p <= q → rnd p <= rnd q.
Proof.
  intros Hp Hpq. destruct (Qeq_dec p 0) as [H0|H0].
  { rewrite H0. apply rnd_nonneg. lra. }
  pose proof (floor_log2_mono p q ltac:(lra) Hpq) as Hk.
  destruct (Z.eq_dec (ulp_exp p) (ulp_exp q)) as [E|E].
  - rewrite !rnd_nonzero by lra. rewrite E.
    apply Qmult_le_compat_r; [|pose proof (pow2_pos (ulp_exp q)); lra].
    rewrite <- Zle_Qle. apply round_half_even_mono.
    apply Qmult_le_compat_r; [done|].
    apply Qinv_le_0_compat. pose proof (pow2_pos (ulp_exp q)). lra.
  - rewrite !ulp_exp_pos in E by lra.
    eapply Qle_trans; [apply rnd_binade_hi; lra|].
    eapply Qle_trans; [|apply rnd_binade_lo; [lra|lia]].
    apply pow2_le. lia.
Qed.

(** ** Doubles *)

Lemma rnd_Z_eq z : (Z.abs z <= 2 ^ 53)%Z → rnd (inject_Z z) = inject_Z z.
Proof.
  intros H. rewrite <- rnd_red, (Qred_complete _ _ (rnd_Z z H)). apply inject_Z_Qred.
Qed.

Lemma fl_of_rnd q : Qabs (rnd q) < pow2 1024 → fl q = Fin (rnd q).
Proof.
  intros H. unfold fl. destruct (Qle_bool _ _) eqn:E; [|done].
  apply Qle_bool_iff in E. lra.
Qed.

Lemma fl_inv q r : fl q = Fin r → r = rnd q.
Proof. unfold fl. destruct (Qle_bool _ _); congruence. Qed.

#[export] Instance fl_proper : Proper (Qeq ==> eq) fl.
Proof.
  intros p q H. unfold fl. rewrite (rnd_proper p q H).
  destruct (Qle_bool _ _); [|done]. f_equal. f_equal.
  by apply Qleb_comp.
Qed.

Lemma fl_Z z : (Z.abs z <= 2 ^ 53)%Z → fl (inject_Z z) = Fin (inject_Z z).
Proof.
  intros H. rewrite fl_of_rnd; rewrite rnd_Z_eq by done; [done|].
  rewrite pow2_Z by lia. change (Qabs (inject_Z z)) with (inject_Z (Z.abs z)).
  rewrite <- Zlt_Qlt. eapply Z.le_lt_trans; [exact H|]. done.
Qed.

Lemma num_of_Z_small z :
  (Z.abs z <= 2 ^ 53)%Z → num_of_Z z = Fin (inject_Z z).
Proof. apply fl_Z. Qed.

Lemma fl_wf q : num_wf (fl q).
Proof.
  unfold num_wf. destruct (fl q) as [| |r] eqn:E; [done..|].
  pose proof (fl_inv _ _ E) as ->. revert E. unfold fl. rewrite rnd_idem.
  by destruct (Qle_bool (pow2 1024) _).
Qed.

Lemma num_wf_rnd q : num_wf (Fin q) → rnd q = q.
Proof. intros H. by apply fl_inv in H. Qed.

(** Rounding loses at most half a unit in the last place. *)
Lemma rnd_lower q : 0 < q → q - pow2 (ulp_exp q) * (1 # 2) <= rnd q.
Proof.
  intros Hq. rewrite rnd_nonzero by lra. set (u := ulp_exp q). pose proof (pow2_pos u) as Hu.
  set (x := q / pow2 u). assert (q == x * pow2 u) as Hx by (subst x; field; lra).
  assert (x - (1 # 2) <= inject_Z (round_half_even x)) as Hr.
  { pose proof (Qlt_floor x) as Hf. rewrite inject_Z_plus in Hf. change (inject_Z 1) with 1 in Hf.
    destruct (round_half_even_cases x) as [[-> H]|[-> H]]; [lra|].
    rewrite inject_Z_plus. change (inject_Z 1) with 1. lra. }
  rewrite Hx at 1. nra.
Qed.

(** The smallest positive double. *)
Lemma double_min r : num_wf (Fin r) → 0 < r → pow2 (-1074) <= r.
Proof.
  intros Hr Hp. apply num_wf_rnd in Hr. rewrite <- Hr in Hp |- *.
  assert (~ r == 0) as H0 by (intros H0; rewrite H0, rnd_0 in Hp; lra).
  rewrite rnd_nonzero in Hp |- * by done. set (u := ulp_exp r) in *.
  set (z := round_half_even _) in *. pose proof (pow2_pos u) as Hu.
  assert (pow2 (-1074) <= pow2 u) as Hle by (apply pow2_le; subst u; unfold ulp_exp; lia).
  assert (0 < z)%Z as Hz.
  { rewrite Zlt_Qlt. change (inject_Z 0) with 0. destruct (Qlt_le_dec 0 (inject_Z z)); [done|nra]. }
  assert (1 <= inject_Z z) by (change 1 with (inject_Z 1); rewrite <- Zle_Qle; lia). nra.
Qed.

(** The sum of a double and an amount that is not too small against it keeps at least
    half of that amount. *)
Lemma rnd_add_lower q r :
  0 <= q → num_wf (Fin r) → 0 < r → q + r <= pow2 52 * r → q + r * (1 # 2) <= rnd (q + r).
Proof.
  intros Hq Hwf Hr Hs. assert (0 < q + r) as Hp by lra.
  pose proof (rnd_lower (q + r) Hp) as Hl. pose proof (double_min r Hwf Hr) as Hm.
  rewrite ulp_exp_pos in Hl by done.
  assert (pow2 (Z.max (floor_log2 (q + r) - 52) (-1074)) <= r) as Hu; [|lra].
  destruct (Z.max_spec (floor_log2 (q + r) - 52) (-1074)) as [[_ ->]|[_ ->]]; [done|].
  pose proof (floor_log2_spec (q + r) Hp) as [Hf _].
  replace (floor_log2 (q + r)) with (floor_log2 (q + r) - 52 + 52)%Z in Hf by lia.
  rewrite pow2_add in Hf. pose proof (pow2_pos 52). nra.
Qed.

(** ** Symmetry *)

Lemma Qfloor_unique x z : inject_Z z <= x → x < inject_Z (z + 1) → Qfloor x = z.
Proof.
  intros H1 H2. pose proof (Qfloor_le x). pose proof (Qlt_floor x).
  assert (inject_Z z < inject_Z (Qfloor x + 1)) as Ha by lra.
  assert (inject_Z (Qfloor x) < inject_Z (z + 1)) as Hb by lra.
  rewrite <- Zlt_Qlt in Ha, Hb. lia.
Qed.

Lemma round_half_even_opp x : round_half_even (- x) = (- round_half_even x)%Z.
Proof.
  set (f := Qfloor x). pose proof (Qfloor_le x) as H1. pose proof (Qlt_floor x) as H2.
  rewrite inject_Z_plus in H2. change (inject_Z 1) with 1 in H2.
  destruct (Qeq_dec x (inject_Z f)) as [E|E].
  { rewrite E, <- inject_Z_opp, !round_half_even_Z. done. }
  fold f in H1, H2.
  assert (Qfloor (- x) = - f - 1)%Z as Hf.
  { apply Qfloor_unique.
    - unfold Z.sub. rewrite inject_Z_plus, !inject_Z_opp. change (inject_Z 1) with 1. lra.
    - replace (- f - 1 + 1)%Z with (- f)%Z by lia. rewrite inject_Z_opp. lra. }
  unfold round_half_even. rewrite Hf. fold f.
  assert (- x - inject_Z (- f - 1) == 1 - (x - inject_Z f)) as Hr.
  { unfold Z.sub. rewrite inject_Z_plus, !inject_Z_opp. change (inject_Z 1) with 1. ring. }
  rewrite (Qcompare_comp _ _ Hr _ _ (Qeq_refl (1 # 2))).
  set (r := x - inject_Z f).
  destruct (Qcompare_spec r (1 # 2)) as [Hc|Hc|Hc],
    (Qcompare_spec (1 - r) (1 # 2)) as [Hd|Hd|Hd]; try lra; try lia.
  replace (- f - 1)%Z with (- (f + 1))%Z by lia. rewrite Z.even_opp, Z.even_add.
  change (Z.even 1) with false. destruct (Z.even f); cbn; lia.
Qed.

Lemma rnd_opp q : rnd (- q) = - rnd q.
Proof.
  destruct (Qeq_dec q 0) as [E|E].
  { assert (- q == 0) as -> by lra. by rewrite E. }
  assert (~ - q == 0) as E' by lra. unfold rnd.
  apply Qeq_bool_false in E as ->. apply Qeq_bool_false in E' as ->.
  replace (ulp_exp (- q)) with (ulp_exp q).
  2: { unfold ulp_exp. f_equal. f_equal. unfold Qabs, Qopp; destruct q; cbn.
       by rewrite Z.abs_opp. }
  rewrite <- Qred_opp. apply Qred_complete.
  assert (- q / pow2 (ulp_exp q) == - (q / pow2 (ulp_exp q))) as ->.
  { field. apply pow2_nonzero. }
  rewrite round_half_even_opp, inject_Z_opp. ring.
Qed.

Lemma Qopp_opp (q : Q) : - - q = q.
Proof. destruct q; unfold Qopp; simpl. by rewrite Z.opp_involutive. Qed.

Lemma fl_opp q r : fl q = Fin r → fl (- q) = Fin (- r).
Proof.
  intros H. pose proof (fl_inv _ _ H) as ->. unfold fl in *.
  rewrite rnd_opp, Qabs_opp. by destruct (Qle_bool (pow2 1024) (Qabs (rnd q))).
Qed.

(** Arithmetic on integers that stay below 2^53 is exact. *)
Lemma num_sub_Z a b :
  (Z.abs (a - b) <= 2 ^ 53)%Z →
  num_sub (Fin (inject_Z a)) (Fin (inject_Z b)) = Fin (inject_Z (a - b)).
Proof.
  intros H. unfold num_sub, num_neg, num_add.
  rewrite <- fl_Z by done. apply fl_proper.
  rewrite Qred_correct. unfold Z.sub. by rewrite inject_Z_plus, inject_Z_opp.
Qed.

Lemma num_add_Z a b :
  (Z.abs (a + b) <= 2 ^ 53)%Z →
  num_add (Fin (inject_Z a)) (Fin (inject_Z b)) = Fin (inject_Z (a + b)).
Proof.
  intros H. unfold num_add. rewrite <- fl_Z by done. apply fl_proper.
  by rewrite inject_Z_plus.
Qed.

Lemma num_compare_Z a b :
  num_compare (Fin (inject_Z a)) (Fin (inject_Z b)) = Some (a ?= b)%Z.
Proof. simpl. f_equal. unfold Qcompare; simpl. by rewrite !Z.mul_1_r. Qed.

Lemma Math_max_Z a b :
  Math_max (Fin (inject_Z a)) (Fin (inject_Z b)) = Fin (inject_Z (Z.max a b)).
Proof.
  unfold Math_max. rewrite num_compare_Z. destruct (Z.compare_spec a b); f_equal;
    f_equal; lia.
Qed.

Lemma Math_min_Z a b :
  Math_min (Fin (inject_Z a)) (Fin (inject_Z b)) = Fin (inject_Z (Z.min a b)).
Proof.
  unfold Math_min. rewrite num_compare_Z. destruct (Z.compare_spec a b); f_equal;
    f_equal; lia.
Qed.

(** Rounding keeps what is beyond a number beyond it. *)
Lemma fl_gt_mono p q x :
  0 <= p → p <= q → num_gt (fl p) x = true → num_gt (fl q) x = true.
Proof.
  intros Hp Hpq. pose proof (rnd_mono p q Hp Hpq) as Hr. pose proof (rnd_nonneg p Hp) as Hrp.
  assert (Qle_bool 0 p = true) as Hp' by (by apply Qle_bool_iff).
  assert (Qle_bool 0 q = true) as Hq' by (apply Qle_bool_iff; lra).
  unfold num_gt, num_lt, fl. rewrite Hp', Hq', !Qabs_pos by lra. cbn [negb].
  destruct (Qle_bool (pow2 1024) (rnd p)) eqn:E1, (Qle_bool (pow2 1024) (rnd q)) eqn:E2.
  - done.
  - apply Qle_bool_iff in E1.
    assert (Qle_bool (pow2 1024) (rnd q) = true) by (apply Qle_bool_iff; lra). congruence.
  - destruct x as [|[] |y]; cbn; done.
  - destruct x as [|[] |y]; cbn; try done.
    destruct (Qcompare_spec y (rnd p)); try done. intros _.
    rewrite (proj1 (Qlt_alt y (rnd q))); [done|lra].
Qed.

Lemma num_int_Z z : num_int (Fin (inject_Z z)) = Some z.
Proof.
  unfold num_int. rewrite Qfloor_Z. by rewrite (proj2 (Qeq_bool_iff _ _)).
Qed.

Lemma num_truthy_Z z : num_truthy (Fin (inject_Z z)) = negb (z =? 0)%Z.
Proof.
  unfold num_truthy. f_equal. apply eq_true_iff_eq.
  by rewrite Qeq_bool_iff, Z.eqb_eq, <- inject_Z_injective.
Qed.

(** The floor of a rounded product by a factor of at most one stays between
    zero and the other factor. *)
Lemma mul_floor_bounds l p :
  (0 <= l <= 2 ^ 53)%Z → 0 <= p → p <= 1 →
  ∃ b, Math_floor (num_mul (Fin (inject_Z l)) (Fin p)) = Fin (inject_Z b)
       /\ (0 <= b <= l)%Z.
Proof.
  intros Hl Hp0 Hp1.
  assert (0 <= inject_Z l) as Hl0 by (change 0 with (inject_Z 0); rewrite <- Zle_Qle; lia).
  assert (0 <= inject_Z l * p) as H0 by nra.
  assert (inject_Z l * p <= inject_Z l) as H1 by nra.
  pose proof (rnd_nonneg _ H0) as Hr0. pose proof (rnd_mono _ _ H0 H1) as Hr1.
  rewrite rnd_Z_eq in Hr1 by lia.
  unfold num_mul. rewrite fl_of_rnd.
  - eexists; split; [done|]. split.
    + exact (Qfloor_resp_le 0 _ Hr0).
    + pose proof (Qfloor_resp_le _ _ Hr1) as Hb. by rewrite Qfloor_Z in Hb.
  - rewrite Qabs_pos by done. eapply Qle_lt_trans; [exact Hr1|].
    rewrite pow2_Z, <- Zlt_Qlt by lia. lia.
Qed.

(** The floor of a rounded quotient of integers is the integer quotient, as long
    as the doubles around it are finer than the divisor's inverse. *)
Lemma floor_div_Z t d m :
  (0 <= t <= 2 ^ 53)%Z → (0 < d <= 2 ^ m)%Z → (0 <= m <= 1000)%Z →
  ((t / d + 1) * 2 ^ m <= 2 ^ 53)%Z →
  Math_floor (num_div (Fin (inject_Z t)) (Fin (inject_Z d))) = Fin (inject_Z (t / d)).
Proof.
  intros Ht Hd Hm Hk. set (k := (t / d)%Z) in *.
  assert (0 <= k)%Z as Hk0 by (apply Z.div_pos; lia).
  assert (2 ^ m > 0)%Z as Hpm by lia.
  assert (k < 2 ^ 53)%Z as Hk53 by nia.
  assert (0 < inject_Z d) as Hdq by (change 0 with (inject_Z 0); rewrite <- Zlt_Qlt; lia).
  assert (inject_Z k <= inject_Z t / inject_Z d) as Hlo.
  { apply Qle_shift_div_l; [done|]. rewrite <- inject_Z_mult, <- Zle_Qle.
    pose proof (Z.mul_div_le t d). subst k. nia. }
  set (r := inject_Z ((k + 1) * 2 ^ m - 1) * pow2 (- m)).
  assert (inject_Z t / inject_Z d <= r) as Hhi.
  { apply Qle_shift_div_r; [done|]. unfold r.
    assert (inject_Z ((k + 1) * 2 ^ m - 1) * pow2 (- m) * inject_Z d
            == inject_Z (((k + 1) * 2 ^ m - 1) * d) * pow2 (- m)) as ->
      by (rewrite inject_Z_mult; ring).
    apply Qmult_le_r with (z := pow2 m); [apply pow2_pos|].
    rewrite <- Qmult_assoc, <- pow2_add. replace (- m + m)%Z with 0%Z by lia.
    change (pow2 0) with 1. rewrite Qmult_1_r, pow2_Z, <- inject_Z_mult, <- Zle_Qle by lia.
    pose proof (Z.mod_pos_bound t d ltac:(lia)). pose proof (Z.div_mod t d ltac:(lia)).
    fold k in H0. nia. }
  assert (rnd r == r) as Hrr by (apply rnd_exact; nia).
  assert (0 <= inject_Z k) as Hkq by (change 0 with (inject_Z 0); rewrite <- Zle_Qle; lia).
  assert (0 <= inject_Z t / inject_Z d) as Hq0 by lra.
  pose proof (rnd_mono _ _ Hkq Hlo) as H1. rewrite rnd_Z_eq in H1 by lia.
  pose proof (rnd_mono _ _ Hq0 Hhi) as H2. rewrite Hrr in H2.
  assert (r < inject_Z (k + 1)) as Hrk.
  { unfold r. apply Qmult_lt_r with (z := pow2 m); [apply pow2_pos|].
    rewrite <- Qmult_assoc, <- pow2_add. replace (- m + m)%Z with 0%Z by lia.
    change (pow2 0) with 1. rewrite Qmult_1_r, pow2_Z, <- inject_Z_mult, <- Zlt_Qlt by lia. lia. }
  unfold num_div. replace (Qeq_bool (inject_Z d) 0) with false
    by (symmetry; apply Qeq_bool_false; lra).
  rewrite fl_of_rnd.
  - cbn. do 2 f_equal. apply Z.le_antisymm.
    + assert (inject_Z (Qfloor (rnd (inject_Z t / inject_Z d))) < inject_Z (k + 1)) as Hf.
      { pose proof (Qfloor_le (rnd (inject_Z t / inject_Z d))). lra. }
      rewrite <- Zlt_Qlt in Hf. lia.
    + pose proof (Qfloor_resp_le _ _ H1) as Hf. by rewrite Qfloor_Z in Hf.
  - rewrite Qabs_pos by (apply rnd_nonneg; lra). eapply Qle_lt_trans; [exact H2|].
    eapply Qlt_trans; [exact Hrk|]. rewrite pow2_Z, <- Zlt_Qlt by lia. lia.
Qed.
