(* ===== verification/JsText.v ===== *)
(** * Numbers and their text

    [Number.prototype.toString], [toFixed], [parseFloat], [parseInt] and the
    unary plus of the language, on the strings of [JsString] and the doubles
    of [JsNum].  [toString] is the shortest decimal that reads back as the same
    double; the round trip [parseFloat (toString x) = x] is proved for every
    double, and it is what the persisted balances rely on. *)

From Stdlib Require Import QArith Qabs Qround Qpower Lqa.
From S2P Require Import Prelude JsString JsNum.

Local Open Scope Z_scope.

(** ** Digit strings *)

Definition digit_val (c : N) : Z := Z.of_N c - 48.
Definition digit_unit (d : Z) : N := Z.to_N (d + 48).

(** The value of a digit string read in base ten. *)
Definition digits_val (ds : jsstr) : Z :=
  fold_left (λ acc c, acc * 10 + digit_val c) ds 0.

(** The digits of [z >= 0], most significant first; the fuel is the number of
    binary digits of [z]. *)
Fixpoint digits_fuel (fuel : nat) (z : Z) (acc : jsstr) : jsstr :=
  match fuel with
  | O => acc
  | S f =>
      let acc := digit_unit (z mod 10) :: acc in
      if z / 10 =? 0 then acc else digits_fuel f (z / 10) acc
  end.

Definition digits (z : Z) : jsstr := digits_fuel (S (Z.to_nat (Z.log2 z))) z [].

Fixpoint read_digits (s : jsstr) : jsstr * jsstr :=
  match s with
  | c :: s' =>
      if is_digit c then let '(d, r) := read_digits s' in (c :: d, r) else ([], s)
  | [] => ([], [])
  end.

(** ** Reading decimals *)

Definition pow10Q (e : Z) : Q := (10 ^ e)%Q.

(** An optional exponent part: its value and what follows it. *)
Definition read_exponent (s : jsstr) : Z * jsstr :=
  match s with
  | c :: s' =>
      if (c =? 101)%N || (c =? 69)%N then
        let '(neg, s'') := match s' with
                           | 45%N :: t => (true, t)
                           | 43%N :: t => (false, t)
                           | _ => (false, s')
                           end in
        let '(ds, rest) := read_digits s'' in
        match ds with
        | [] => (0, s)
        | _ => (if neg : bool then - digits_val ds else digits_val ds, rest)
        end
      else (0, s)
  | [] => (0, [])
  end.

(** An unsigned decimal literal: significand, decimal exponent, what follows. *)
Definition read_decimal (s : jsstr) : option (Z * Z * jsstr) :=
  let '(ip, r) := read_digits s in
  let '(fp, r) := match r with
                  | 46%N :: t => let '(f, r') := read_digits t in
                                 match ip, f with
                                 | [], [] => ([], r)
                                 | _, _ => (f, r')
                                 end
                  | _ => ([], r)
                  end in
  match ip, fp with
  | [], [] => None
  | _, _ =>
      let '(e, r) := read_exponent r in
      Some (digits_val (ip ++ fp), e - Z.of_nat (length fp), r)
  end.

Definition num_of_decimal (neg : bool) (m e : Z) : num :=
  fl ((if neg then -1 else 1) * (inject_Z m * pow10Q e))%Q.

Definition read_sign (s : jsstr) : bool * jsstr :=
  match s with
  | 45%N :: t => (true, t)
  | 43%N :: t => (false, t)
  | _ => (false, s)
  end.

(** [parseFloat(s)] *)
Definition parseFloat (s : jsstr) : num :=
  let '(neg, t) := read_sign (trimStart s) in
  if startsWith t (js "Infinity") then Inf neg
  else match read_decimal t with
       | Some (m, e, _) => num_of_decimal neg m e
       | None => NaN
       end.

(** [parseInt(s, 10)] *)
Definition parseInt10 (s : jsstr) : num :=
  let '(neg, t) := read_sign (trimStart s) in
  match read_digits t with
  | ([], _) => NaN
  | (ds, _) => fl (inject_Z (if neg : bool then - digits_val ds else digits_val ds))
  end.

(** [+s] on a string; the prefixed literals [0x], [0o], [0b] are read too. *)
Definition radix_digit (c : N) : Z :=
  if is_digit c then digit_val c
  else if is_lower c then Z.of_N c - 87
  else if is_upper c then Z.of_N c - 55
  else 99.

Definition read_radix (r : Z) (s : jsstr) : num :=
  if bool_decide (s = []) || existsb (λ c, r <=? radix_digit c) s then NaN
  else fl (inject_Z (fold_left (λ acc c, acc * r + radix_digit c) s 0)).

Definition toNumber (s : jsstr) : num :=
  match trim s with
  | [] => Fin 0
  | 48%N :: 120%N :: t | 48%N :: 88%N :: t => read_radix 16 t
  | 48%N :: 111%N :: t | 48%N :: 79%N :: t => read_radix 8 t
  | 48%N :: 98%N :: t | 48%N :: 66%N :: t => read_radix 2 t
  | t =>
      let '(neg, u) := read_sign t in
      if bool_decide (u = js "Infinity") then Inf neg
      else match read_decimal u with
           | Some (m, e, []) => num_of_decimal neg m e
           | _ => NaN
           end
  end.

(** ** Printing *)

(** The [n] with 10^(n-1) <= q < 10^n, for a positive double q. *)
Fixpoint leading_zeros (fuel : nat) (q : Q) (j : Z) : Z :=
  match fuel with
  | O => j
  | S f => if Qle_bool 1 q then j else leading_zeros f (q * 10)%Q (j + 1)
  end.

Definition dec_exp (q : Q) : Z :=
  if Qle_bool 1 q then Z.of_nat (length (digits (Qfloor q)))
  else 1 - leading_zeros 400 q 0.

(** The decimals with [k] digits next to [q]: the closer one first, the even
    one on a tie. *)
Definition candidates (q : Q) (n k : Z) : list Z :=
  let x := (q / pow10Q (n - k))%Q in
  let f := Qfloor x in
  if Qeq_bool x (inject_Z f) then [f]
  else let r := round_half_even x in [r; 2 * f + 1 - r].

Definition reads_back (q : Q) (n k s : Z) : bool :=
  match fl (inject_Z s * pow10Q (n - k)) with
  | Fin r => Qeq_bool r q
  | _ => false
  end.

(** The least number of digits for which a candidate reads back as [q]. *)
Fixpoint shortest (fuel : nat) (q : Q) (n k : Z) : option (Z * Z) :=
  match fuel with
  | O => None
  | S f =>
      match List.filter (reads_back q n k) (candidates q n k) with
      | s :: _ => Some (s, k)
      | [] => shortest f q n (k + 1)
      end
  end.

Definition zeros (n : Z) : jsstr := replicate (Z.to_nat n) 48%N.

(** Lay out the digits [ds] of a decimal 0.ds * 10^n. *)
Definition layout (ds : jsstr) (n : Z) : jsstr :=
  let k := Z.of_nat (length ds) in
  if (k <=? n) && (n <=? 21) then ds ++ zeros (n - k)
  else if (0 <? n) && (n <=? 21) then
    take (Z.to_nat n) ds ++ [46%N] ++ drop (Z.to_nat n) ds
  else if (-6 <? n) && (n <=? 0) then [48%N; 46%N] ++ zeros (- n) ++ ds
  else
    let e := n - 1 in
    let exponent := (if e <? 0 then [101%N; 45%N] else [101%N; 43%N])
                    ++ digits (Z.abs e) in
    match ds with
    | [d] => [d] ++ exponent
    | d :: ds' => [d; 46%N] ++ ds' ++ exponent
    | [] => []
    end.

Fixpoint strip_zeros (ds : jsstr) : jsstr :=
  match ds with
  | [] => []
  | c :: ds' =>
      match strip_zeros ds' with
      | [] => if (c =? 48)%N then [] else [c]
      | r => c :: r
      end
  end.

(** [toString] of a positive double; the fuel reaches the exact expansion, and
    stripping only concerns a candidate that carried into one more digit. *)
Definition print_pos (q : Q) : jsstr :=
  let n := dec_exp q in
  match shortest (Z.to_nat (n + 1080)) q n 1 with
  | Some (s, k) =>
      let ds := digits s in
      layout (strip_zeros ds) (n - k + Z.of_nat (length ds))
  | None => []
  end.

Definition toString (x : num) : jsstr :=
  match x with
  | NaN => js "NaN"
  | Inf false => js "Infinity"
  | Inf true => js "-Infinity"
  | Fin q =>
      if Qeq_bool q 0 then [48%N]
      else if Qle_bool 0 q then print_pos q
      else 45%N :: print_pos (- q)
  end.

(** [x.toFixed(f)]: the integer nearest to x*10^f, the larger one on a tie, with
    [f] digits after the point; from 10^21 on the number itself. *)
Definition toFixed (x : num) (f : nat) : jsstr :=
  match x with
  | Fin q =>
      let a := Qabs q in
      if Qle_bool (inject_Z (10 ^ 21)) a then toString x else
      let n := Qfloor (a * pow10Q (Z.of_nat f) + (1 # 2)) in
      let ds := digits n in
      let ds := replicate (f + 1 - length ds) 48%N ++ ds in
      let ip := take (length ds - f) ds in
      let fp := drop (length ds - f) ds in
      let body := match f with O => ds | _ => ip ++ [46%N] ++ fp end in
      if Qle_bool 0 q then body else 45%N :: body
  | _ => toString x
  end.

(** ** Digits and their value *)

Definition all_digits (ds : jsstr) : Prop := Forall (λ c, is_digit c = true) ds.

Lemma digits_val_acc ds a :
  fold_left (λ acc c, acc * 10 + digit_val c) ds a
  = a * 10 ^ Z.of_nat (length ds) + digits_val ds.
Proof.
  revert a; induction ds as [|c ds IH]; intros a; [cbn; lia|].
  unfold digits_val. cbn [fold_left length]. rewrite !IH.
  rewrite Nat2Z.inj_succ, Z.pow_succ_r by lia. ring.
Qed.

Lemma digits_val_app ds es :
  digits_val (ds ++ es) = digits_val ds * 10 ^ Z.of_nat (length es) + digits_val es.
Proof. unfold digits_val at 1. rewrite fold_left_app. apply digits_val_acc. Qed.

Lemma digits_val_cons c ds :
  digits_val (c :: ds) = digit_val c * 10 ^ Z.of_nat (length ds) + digits_val ds.
Proof. unfold digits_val at 1. cbn [fold_left]. rewrite digits_val_acc. ring. Qed.

Lemma digits_val_zeros n : digits_val (replicate n 48%N) = 0.
Proof.
  induction n as [|n IH]; [done|]. cbn [replicate]. by rewrite digits_val_cons, IH.
Qed.

Lemma digit_unit_ok d : 0 <= d < 10 →
  is_digit (digit_unit d) = true ∧ digit_val (digit_unit d) = d.
Proof.
  intros H. unfold is_digit, digit_val, digit_unit. split.
  - apply andb_true_iff; split; apply N.leb_le; lia.
  - lia.
Qed.

Lemma digits_fuel_spec fuel z acc :
  0 <= z < 2 ^ Z.of_nat fuel →
  ∃ ds, digits_fuel fuel z acc = ds ++ acc ∧ all_digits ds ∧ digits_val ds = z
        ∧ (fuel ≠ O → ds ≠ []).
Proof.
  revert z acc; induction fuel as [|f IH]; intros z acc Hz.
  - exists []. cbn in *. repeat split; [constructor|lia|done].
  - cbn [digits_fuel]. rewrite Nat2Z.inj_succ, Z.pow_succ_r in Hz by lia.
    pose proof (Z.mod_pos_bound z 10 ltac:(lia)) as Hm.
    pose proof (Z.div_mod z 10 ltac:(lia)) as Hd.
    destruct (digit_unit_ok _ Hm) as [Hdig Hval].
    destruct (z / 10 =? 0) eqn:E.
    + apply Z.eqb_eq in E. exists [digit_unit (z mod 10)].
      repeat split; [by repeat constructor| |done].
      rewrite digits_val_cons, Hval. cbn. lia.
    + apply Z.eqb_neq in E. assert (0 <= z / 10) by (apply Z.div_pos; lia).
      destruct (IH (z / 10) (digit_unit (z mod 10) :: acc)) as (ds & -> & H1 & H2 & H3).
      { split; [lia|]. apply Z.div_lt_upper_bound; lia. }
      exists (ds ++ [digit_unit (z mod 10)]). rewrite <- app_assoc.
      repeat split; [|rewrite digits_val_app, H2, digits_val_cons, Hval; cbn; lia|].
      * apply Forall_app; split; [done|by repeat constructor].
      * intros _ [_ [=]]%app_eq_nil.
Qed.

Lemma digits_spec z : 0 <= z →
  all_digits (digits z) ∧ digits_val (digits z) = z ∧ digits z ≠ [].
Proof.
  intros Hz. unfold digits. edestruct digits_fuel_spec as (ds & -> & H1 & H2 & H3).
  2: { rewrite app_nil_r. by eauto. }
  rewrite Nat2Z.inj_succ, Z2Nat.id by apply Z.log2_nonneg.
  destruct (Z.eq_dec z 0) as [->|]; [done|]. split; [done|].
  by apply Z.log2_spec; lia.
Qed.

Lemma digits_fuel_head fuel z acc :
  0 < z < 2 ^ Z.of_nat fuel → head (digits_fuel fuel z acc) ≠ Some 48%N.
Proof.
  revert z acc; induction fuel as [|f IH]; intros z acc Hz; [cbn in Hz; lia|].
  cbn [digits_fuel]. rewrite Nat2Z.inj_succ, Z.pow_succ_r in Hz by lia.
  pose proof (Z.mod_pos_bound z 10 ltac:(lia)). pose proof (Z.div_mod z 10 ltac:(lia)).
  destruct (z / 10 =? 0) eqn:E; bool_to_prop.
  - cbn. unfold digit_unit. intros [= H48]. lia.
  - apply IH. split; [|apply Z.div_lt_upper_bound; lia].
    assert (0 <= z / 10) by (apply Z.div_pos; lia). lia.
Qed.

Lemma digits_head z : 0 < z → head (digits z) ≠ Some 48%N.
Proof.
  intros Hz. apply digits_fuel_head. split; [done|].
  rewrite Nat2Z.inj_succ, Z2Nat.id by apply Z.log2_nonneg. by apply Z.log2_spec.
Qed.

Lemma strip_zeros_spec ds : ∃ k, ds = strip_zeros ds ++ replicate k 48%N.
Proof.
  induction ds as [|c ds [k IH]]; [by exists O|]. cbn [strip_zeros].
  destruct (strip_zeros ds) as [|d r].
  - destruct (c =? 48)%N eqn:E.
    + apply N.eqb_eq in E as ->. exists (S k). cbn in *. by rewrite IH.
    + exists k. cbn in *. by rewrite IH at 1.
  - exists k. cbn in *. by rewrite IH at 1.
Qed.

Lemma read_digits_app ds rest :
  all_digits ds → (∀ c, head rest = Some c → is_digit c = false) →
  read_digits (ds ++ rest) = (ds, rest).
Proof.
  intros Hds Hr. induction Hds as [|c ds Hc _ IH].
  - destruct rest as [|c rest]; [done|]. cbn. by rewrite (Hr c eq_refl).
  - cbn. by rewrite Hc, IH.
Qed.

Lemma read_digits_all ds : all_digits ds → read_digits ds = (ds, []).
Proof.
  intros H. rewrite <- (app_nil_r ds) at 1. by apply read_digits_app.
Qed.

(** ** What [layout] prints, [read_decimal] reads *)

Definition exponent_text (e : Z) : jsstr :=
  (if e <? 0 then [101%N; 45%N] else [101%N; 43%N]) ++ digits (Z.abs e).

Lemma read_exponent_app e r :
  (∀ c, head r = Some c → is_digit c = false) →
  read_exponent (exponent_text e ++ r) = (e, r).
Proof.
  intros Hr. destruct (digits_spec (Z.abs e) ltac:(lia)) as (Hd & Hv & Hn).
  unfold exponent_text, read_exponent. destruct (e <? 0) eqn:E; cbn [app];
    change ((101 =? 101)%N || (101 =? 69)%N) with true; cbv iota;
    rewrite (read_digits_app _ _ Hd Hr), Hv; bool_to_prop;
    destruct (digits (Z.abs e)); try done; f_equal; lia.
Qed.

Lemma read_exponent_text e : read_exponent (exponent_text e) = (e, []).
Proof. rewrite <- (app_nil_r (exponent_text e)). by apply read_exponent_app. Qed.

(** [x] is what may follow the digits: nothing, or an exponent. *)
Definition tail_text (x : jsstr) (e : Z) : Prop :=
  (x = [] ∧ e = 0) ∨ x = exponent_text e.

Lemma tail_text_read x e : tail_text x e → read_exponent x = (e, []).
Proof. intros [[-> ->]| ->]; [done|apply read_exponent_text]. Qed.

Lemma tail_text_head x e : tail_text x e →
  x = [] ∨ ∃ t, x = 101%N :: t.
Proof.
  intros [[-> ->]| ->]; [by left|right]. unfold exponent_text.
  destruct (e <? 0); cbn; eauto.
Qed.

(** The fraction part of a decimal text. *)
Definition frac_text (fp : jsstr) : jsstr :=
  match fp with [] => [] | _ => 46%N :: fp end.

Lemma frac_text_cons c fp : frac_text (c :: fp) = [46%N] ++ c :: fp.
Proof. done. Qed.

Lemma tail_head_not_digit x e c : tail_text x e → head x = Some c → is_digit c = false.
Proof. intros Hx. destruct (tail_text_head _ _ Hx) as [->|[t ->]]; cbn; naive_solver. Qed.

Lemma read_decimal_text ip fp x e :
  all_digits ip → ip ≠ [] → all_digits fp → tail_text x e →
  read_decimal (ip ++ frac_text fp ++ x)
  = Some (digits_val (ip ++ fp), e - Z.of_nat (length fp), []).
Proof.
  intros Hip Hne Hfp Hx. unfold read_decimal.
  pose proof (tail_text_read _ _ Hx) as Hr.
  destruct fp as [|f fp]; cbn [frac_text app].
  - rewrite read_digits_app; [|done|by eauto using tail_head_not_digit].
    destruct ip as [|c ip]; [done|].
    destruct (tail_text_head _ _ Hx) as [->|[t ->]]; rewrite Hr; by rewrite app_nil_r.
  - rewrite read_digits_app; [|done|cbn; naive_solver].
    change (f :: fp ++ x) with ((f :: fp) ++ x).
    rewrite read_digits_app; [|done|by eauto using tail_head_not_digit].
    destruct ip as [|c ip]; [done|]. by rewrite Hr.
Qed.

Lemma pow10Q_add a b : (pow10Q (a + b) == pow10Q a * pow10Q b)%Q.
Proof. apply Qpower_plus. lra. Qed.

Lemma pow10Q_Z n : 0 <= n → (pow10Q n == inject_Z (10 ^ n))%Q.
Proof. intros. unfold pow10Q. by rewrite Zpower_Qpower. Qed.

Lemma pow10Q_pos e : (0 < pow10Q e)%Q.
Proof. by apply Qpower_0_lt. Qed.

(** Trailing zeros move to the exponent. *)
Lemma append_zeros_value ds k e :
  (inject_Z (digits_val (ds ++ replicate k 48%N)) * pow10Q e
   == inject_Z (digits_val ds) * pow10Q (e + Z.of_nat k))%Q.
Proof.
  rewrite digits_val_app, digits_val_zeros, length_replicate, Z.add_0_r.
  rewrite inject_Z_mult, pow10Q_add, (pow10Q_Z (Z.of_nat k)) by lia. ring.
Qed.

Lemma digits_val_zeros_app k ds :
  digits_val (replicate k 48%N ++ ds) = digits_val ds.
Proof. by rewrite digits_val_app, digits_val_zeros. Qed.

Lemma all_digits_zeros n : all_digits (replicate n 48%N).
Proof. by apply Forall_replicate. Qed.

(** An integer part without superfluous leading zeros. *)
Definition plain_int (ip : jsstr) : Prop := ip = [48%N] ∨ ∃ c t, ip = c :: t ∧ c ≠ 48%N.

(** What [layout] prints: an integer part, a fraction and an exponent, whose
    value is that of the digits at the given position. *)
Definition decimal_text (ds : jsstr) (n : Z) (ip fp x : jsstr) (e : Z) : Prop :=
  layout ds n = ip ++ frac_text fp ++ x
  ∧ all_digits ip ∧ ip ≠ [] ∧ all_digits fp ∧ tail_text x e
  ∧ (head ds ≠ Some 48%N → plain_int ip)
  ∧ (inject_Z (digits_val (ip ++ fp)) * pow10Q (e - Z.of_nat (length fp))
     == inject_Z (digits_val ds) * pow10Q (n - Z.of_nat (length ds)))%Q.

Lemma head_plain_int d (t : jsstr) : d ≠ 48%N → plain_int (d :: t).
Proof. intros. right. eauto. Qed.

Lemma layout_int ds n :
  all_digits ds → ds ≠ [] → Z.of_nat (length ds) <= n <= 21 →
  decimal_text ds n (ds ++ zeros (n - Z.of_nat (length ds))) [] [] 0.
Proof.
  intros Hds Hne Hn. unfold decimal_text, layout.
  replace (_ && _) with true.
  2: { symmetry. apply andb_true_iff; split; apply Z.leb_le; lia. }
  repeat split; [cbn; by rewrite app_nil_r| |by destruct ds|constructor|by left| |].
  - apply Forall_app; split; [done|apply all_digits_zeros].
  - destruct ds as [|d ds]; [done|]. intros Hd. apply head_plain_int. cbn in Hd. congruence.
  - rewrite app_nil_r. unfold zeros. rewrite append_zeros_value.
    cbn [length]. by replace (0 - Z.of_nat 0 + Z.of_nat (Z.to_nat (n - Z.of_nat (length ds))))
      with (n - Z.of_nat (length ds)) by lia.
Qed.

Lemma layout_point ds n :
  all_digits ds → 0 < n <= 21 → n < Z.of_nat (length ds) →
  decimal_text ds n (take (Z.to_nat n) ds) (drop (Z.to_nat n) ds) [] 0.
Proof.
  intros Hds Hn Hlt. unfold decimal_text, layout.
  replace (_ && (n <=? 21)) with false.
  2: { symmetry. apply andb_false_iff; left; apply Z.leb_gt; lia. }
  replace ((0 <? n) && (n <=? 21)) with true.
  2: { symmetry. apply andb_true_iff; split; [apply Z.ltb_lt|apply Z.leb_le]; lia. }
  destruct (drop (Z.to_nat n) ds) as [|f fp] eqn:Ed.
  { apply (f_equal length) in Ed. rewrite length_drop in Ed. cbn in Ed. lia. }
  repeat split; [by rewrite app_nil_r|by apply Forall_take| |rewrite <- Ed; by apply Forall_drop
    |by left| |].
  - intros Ht%(f_equal length). rewrite length_take in Ht. cbn in Ht. lia.
  - destruct ds as [|d ds]; [cbn in Hlt; lia|]. destruct (Z.to_nat n) eqn:En; [lia|].
    intros Hd. apply head_plain_int. cbn in Hd. congruence.
  - rewrite <- Ed, take_drop, length_drop.
    by replace (0 - Z.of_nat (length ds - Z.to_nat n)) with (n - Z.of_nat (length ds)) by lia.
Qed.

Lemma layout_zeros ds n :
  all_digits ds → ds ≠ [] → -6 < n <= 0 →
  decimal_text ds n [48%N] (zeros (- n) ++ ds) [] 0.
Proof.
  intros Hds Hne Hn. unfold decimal_text, layout.
  replace (_ && (n <=? 21)) with false.
  2: { symmetry. apply andb_false_iff; left; apply Z.leb_gt. destruct ds; [done|cbn; lia]. }
  replace ((0 <? n) && (n <=? 21)) with false.
  2: { symmetry. apply andb_false_iff; left; apply Z.ltb_ge; lia. }
  replace ((-6 <? n) && (n <=? 0)) with true.
  2: { symmetry. apply andb_true_iff; split; [apply Z.ltb_lt|apply Z.leb_le]; lia. }
  repeat split; [|by repeat constructor|done| |by left|intros; by left|].
  - rewrite app_nil_r. destruct (zeros (- n) ++ ds) as [|f fp] eqn:Ed; [|done].
    apply app_eq_nil in Ed as [_ ->]. done.
  - apply Forall_app; split; [apply all_digits_zeros|done].
  - change ([48%N] ++ zeros (- n) ++ ds) with (replicate (S (Z.to_nat (- n))) 48%N ++ ds).
    rewrite digits_val_zeros_app. unfold zeros. rewrite length_app, length_replicate.
    by replace (0 - Z.of_nat (Z.to_nat (- n) + length ds))
      with (n - Z.of_nat (length ds)) by lia.
Qed.

Lemma layout_exponent d ds n :
  all_digits (d :: ds) → n <= -6 ∨ 21 < n →
  decimal_text (d :: ds) n [d] ds (exponent_text (n - 1)) (n - 1).
Proof.
  intros [Hd Hds]%Forall_cons Hn. unfold decimal_text, layout.
  replace (_ && (n <=? 21)) with false.
  2: { symmetry. apply andb_false_iff; rewrite !Z.leb_gt; cbn; lia. }
  replace ((0 <? n) && (n <=? 21)) with false.
  2: { symmetry. apply andb_false_iff; rewrite Z.leb_gt, Z.ltb_ge; lia. }
  replace ((-6 <? n) && (n <=? 0)) with false.
  2: { symmetry. apply andb_false_iff; rewrite Z.leb_gt, Z.ltb_ge; lia. }
  repeat split; [by destruct ds|by repeat constructor|done|done|by right| |].
  - intros Hd'. apply head_plain_int. cbn in Hd'. congruence.
  - cbn [app]. rewrite length_cons.
    by replace (n - 1 - Z.of_nat (length ds)) with (n - Z.of_nat (S (length ds))) by lia.
Qed.

Lemma layout_shape ds n :
  all_digits ds → ds ≠ [] → ∃ ip fp x e, decimal_text ds n ip fp x e.
Proof.
  intros Hds Hne. set (k := Z.of_nat (length ds)).
  destruct (Z.le_gt_cases n (-6)), (Z.le_gt_cases n 21), (Z.le_gt_cases n 0),
    (Z.le_gt_cases k n); try lia.
  all: try (do 4 eexists; apply layout_zeros; [done..|lia]).
  all: try (do 4 eexists; apply layout_int; [done..|lia]).
  all: try (do 4 eexists; apply layout_point; [done|lia..]).
  all: destruct ds as [|d ds]; [done|]; do 4 eexists; apply layout_exponent; [done|lia].
Qed.

(** ** The shortest decimal exists and reads back *)

Lemma reads_back_spec q n k s :
  num_wf (Fin q) → reads_back q n k s = true →
  fl (inject_Z s * pow10Q (n - k)) = Fin q.
Proof.
  intros Hq H. unfold reads_back in H.
  destruct (fl _) as [| |r] eqn:E; [done..|]. apply Qeq_bool_iff in H.
  pose proof (fl_inv _ _ E) as Hr. pose proof (num_wf_rnd _ Hq) as Hq'.
  f_equal. rewrite <- Hq', <- H, Hr. symmetry. apply rnd_idem.
Qed.

Lemma candidates_nonneg q n k s :
  (0 <= q)%Q → s ∈ candidates q n k → 0 <= s.
Proof.
  intros Hq. unfold candidates. set (x := (q / pow10Q (n - k))%Q).
  assert (0 <= x)%Q as Hx.
  { apply Qle_shift_div_l; [apply pow10Q_pos|lra]. }
  pose proof (Qfloor_resp_le 0 x Hx) as Hf. change (Qfloor 0) with 0 in Hf.
  pose proof (round_half_even_bounds x).
  destruct (Qeq_bool _ _); set_unfold; intros; lia.
Qed.

Lemma shortest_sound fuel q n k0 s k :
  shortest fuel q n k0 = Some (s, k) →
  reads_back q n k s = true ∧ s ∈ candidates q n k.
Proof.
  revert k0; induction fuel as [|f IH]; intros k0 H; [done|]. cbn in H.
  destruct (List.filter _ _) as [|s' l] eqn:E; [by eapply IH|].
  injection H as -> ->. assert (In s (List.filter (reads_back q n k) (candidates q n k)))
    as Hin by (rewrite E; by left).
  apply filter_In in Hin as [Hin ?]. split; [done|]. by apply list_elem_of_In.
Qed.

(** The search succeeds when some number of digits within the fuel gives an
    exact decimal. *)
Lemma shortest_complete fuel q n k0 k :
  fl q = Fin q → k0 <= k < k0 + Z.of_nat fuel →
  (∃ z, q / pow10Q (n - k) == inject_Z z)%Q →
  is_Some (shortest fuel q n k0).
Proof.
  intros Hq. revert k0; induction fuel as [|f IH]; intros k0 Hk Hz; [lia|]. cbn.
  destruct (List.filter _ _) as [|s' l] eqn:E; [|by eexists].
  destruct (Z.eq_dec k0 k) as [->|]; [|apply IH; [lia|done]].
  exfalso. destruct Hz as [z Hz].
  assert (candidates q n k = [z]) as Hc.
  { unfold candidates. rewrite (Qfloor_comp _ _ Hz), Qfloor_Z.
    by rewrite (proj2 (Qeq_bool_iff _ _) Hz). }
  assert (reads_back q n k z = true) as Hb.
  { unfold reads_back. pose proof (pow10Q_pos (n - k)).
    rewrite (fl_proper _ q), Hq; [by apply Qeq_bool_iff|].
    rewrite <- Hz. field. lra. }
  rewrite Hc in E. cbn in E. by rewrite Hb in E.
Qed.

Lemma leading_zeros_bound fuel q j : leading_zeros fuel q j <= j + Z.of_nat fuel.
Proof.
  revert q j; induction fuel as [|f IH]; intros q j; cbn [leading_zeros]; [lia|].
  destruct (Qle_bool 1 q); [lia|]. specialize (IH (q * 10)%Q (j + 1)). lia.
Qed.

Lemma dec_exp_lower q : -399 <= dec_exp q.
Proof.
  unfold dec_exp. destruct (Qle_bool 1 q); [lia|].
  pose proof (leading_zeros_bound 400 q 0). lia.
Qed.

(** Every double is a multiple of 2^-1074, so 1074 decimals are always exact. *)
Lemma double_scaled q : num_wf (Fin q) →
  ∃ z, (q * pow10Q 1074 == inject_Z z)%Q.
Proof.
  intros Hq%num_wf_rnd. destruct (Qeq_dec q 0) as [H0|H0].
  { exists 0. rewrite H0. ring. }
  pose proof (rnd_nonzero q H0) as Hr. rewrite Hq in Hr.
  set (u := ulp_exp q) in *. assert (-1074 <= u) by (unfold u, ulp_exp; lia).
  set (m := round_half_even _) in Hr.
  exists (m * 2 ^ (u + 1074) * 5 ^ 1074). rewrite Hr.
  rewrite !inject_Z_mult, <- (pow2_Z (u + 1074)) by lia. rewrite pow2_add.
  rewrite pow10Q_Z, <- (pow2_Z 1074) || rewrite pow10Q_Z by lia.
  change (10 ^ 1074) with ((2 * 5) ^ 1074). rewrite Z.pow_mul_l, inject_Z_mult.
  rewrite (pow2_Z 1074) by lia. ring.
Qed.

Lemma shortest_total q : num_wf (Fin q) →
  ∃ s k, shortest (Z.to_nat (dec_exp q + 1080)) q (dec_exp q) 1 = Some (s, k).
Proof.
  intros Hq. pose proof (dec_exp_lower q). set (n := dec_exp q) in *.
  destruct (shortest_complete (Z.to_nat (n + 1080)) q n 1 (n + 1074)) as [[s k] Hs];
    [done|lia| |by eauto].
  destruct (double_scaled q Hq) as [z Hz]. exists z.
  replace (n - (n + 1074)) with (- (1074)) by lia.
  unfold pow10Q at 1. rewrite Qpower_opp. unfold Qdiv. rewrite Qinv_involutive. exact Hz.
Qed.

(** ** The round trip *)

Lemma digit_not_space c : is_digit c = true → is_space c = false.
Proof.
  unfold is_digit, is_space. intros H. bool_to_prop.
  repeat (apply orb_false_iff; split); try apply N.eqb_neq; try lia;
    apply andb_false_iff; rewrite !N.leb_gt; lia.
Qed.

Lemma digit_not_Infinity c t :
  is_digit c = true → startsWith (c :: t) (js "Infinity") = false.
Proof.
  intros H. change (js "Infinity") with (73%N :: tail (js "Infinity")).
  apply startsWith_head_ne. by intros <-.
Qed.

(** A text that starts with a digit has no white space, sign or name to read. *)
Lemma parseFloat_digits c t :
  is_digit c = true →
  parseFloat (c :: t)
  = match read_decimal (c :: t) with
    | Some (m, e, _) => num_of_decimal false m e
    | None => NaN
    end.
Proof.
  intros H. unfold parseFloat. cbn [trimStart]. rewrite (digit_not_space _ H).
  assert (48 <= c <= 57)%N as Hc by (unfold is_digit in H; bool_to_prop; lia).
  assert (read_sign (c :: t) = (false, c :: t)) as ->.
  { unfold read_sign. repeat (case_match; try done); lia. }
  by rewrite digit_not_Infinity.
Qed.

Lemma parseFloat_neg_digits c t :
  is_digit c = true →
  parseFloat (45%N :: c :: t)
  = match read_decimal (c :: t) with
    | Some (m, e, _) => num_of_decimal true m e
    | None => NaN
    end.
Proof.
  intros H. unfold parseFloat.
  change (trimStart (45%N :: c :: t)) with (45%N :: c :: t). cbn [read_sign].
  by rewrite digit_not_Infinity.
Qed.

(** The text of a positive double: a plain integer part, a fraction and an
    exponent that read back as the double. *)
Definition number_text (q : Q) (ip fp x : jsstr) (e : Z) : Prop :=
  all_digits ip ∧ plain_int ip ∧ all_digits fp ∧ tail_text x e
  ∧ fl (inject_Z (digits_val (ip ++ fp)) * pow10Q (e - Z.of_nat (length fp))) = Fin q.

Lemma print_pos_text q :
  num_wf (Fin q) → (0 < q)%Q →
  ∃ ip fp x e, print_pos q = ip ++ frac_text fp ++ x ∧ number_text q ip fp x e.
Proof.
  intros Hq Hpos. destruct (shortest_total q Hq) as (s & k & Hs).
  destruct (shortest_sound _ _ _ _ _ _ Hs) as [Hrb Hin].
  pose proof (candidates_nonneg q _ _ _ ltac:(lra) Hin) as Hs0.
  pose proof (reads_back_spec _ _ _ _ Hq Hrb) as Hfl.
  destruct (digits_spec s Hs0) as (Hd & Hv & Hne).
  unfold print_pos. rewrite Hs. set (n := dec_exp q) in *.
  assert (s ≠ 0) as Hsn.
  { intros ->. rewrite (fl_proper _ 0%Q) in Hfl by ring. injection Hfl as <-.
    by apply Qlt_irrefl in Hpos. }
  destruct (strip_zeros_spec (digits s)) as [z Hz]. set (ds := strip_zeros (digits s)) in *.
  assert (all_digits ds) as Hds by (rewrite Hz in Hd; by apply Forall_app in Hd as [? _]).
  assert (ds ≠ []) as Hdne.
  { intros E. rewrite Hz, E in Hv. cbn [app] in Hv. rewrite digits_val_zeros in Hv. lia. }
  assert (head ds ≠ Some 48%N) as Hhd.
  { pose proof (digits_head s ltac:(lia)) as Hh. rewrite Hz in Hh. by destruct ds. }
  assert (length (digits s) = length ds + z)%nat as Hlen.
  { rewrite Hz at 1. by rewrite length_app, length_replicate. }
  destruct (layout_shape ds (n - k + Z.of_nat (length (digits s))) Hds Hdne)
    as (ip & fp & x & e & Htext & Hip & _ & Hfp & Hx & Hpl & Hval).
  exists ip, fp, x, e. split; [done|]. repeat split; [done|by apply Hpl|done|done|].
  rewrite <- Hfl. apply fl_proper. rewrite Hval, Hlen.
  transitivity (inject_Z (digits_val ds) * pow10Q (n - k + Z.of_nat z))%Q.
  - by replace (n - k + Z.of_nat (length ds + z) - Z.of_nat (length ds))
      with (n - k + Z.of_nat z) by lia.
  - rewrite <- append_zeros_value, <- Hz. by rewrite Hv.
Qed.

Lemma print_pos_spec q :
  num_wf (Fin q) → (0 < q)%Q →
  ∃ c t m e, print_pos q = c :: t ∧ is_digit c = true
    ∧ read_decimal (print_pos q) = Some (m, e, [])
    ∧ fl (inject_Z m * pow10Q e) = Fin q.
Proof.
  intros Hq Hpos.
  destruct (print_pos_text q Hq Hpos) as (ip & fp & x & e & Ht & Hip & Hpl & Hfp & Hx & Hfl).
  assert (∃ c t, ip = c :: t) as (c & t & ->).
  { destruct Hpl as [->|(c & t & -> & _)]; eauto. }
  pose proof Hip as [Hc _]%Forall_cons. eexists c, _, _, _. rewrite Ht.
  repeat split; [done|by apply read_decimal_text|done].
Qed.

Lemma fin_inj_wf p q : num_wf (Fin p) → num_wf (Fin q) → (p == q)%Q → Fin p = Fin q.
Proof.
  intros Hp%num_wf_rnd Hq%num_wf_rnd H. by rewrite <- Hp, <- Hq, H.
Qed.

(** [parseFloat(x.toString())] is [x] for every double. *)
Theorem parseFloat_toString x : num_wf x → parseFloat (toString x) = x.
Proof.
  intros Hx. destruct x as [|[]|q]; [reflexivity..|]. cbn [toString].
  destruct (Qeq_bool q 0) eqn:E0.
  { apply Qeq_bool_iff in E0. cbv [parseFloat]. change (Fin 0 = Fin q).
    apply fin_inj_wf; [reflexivity|done|by rewrite E0]. }
  apply Qeq_bool_false in E0. destruct (Qle_bool 0 q) eqn:E1.
  - apply Qle_bool_iff in E1.
    destruct (print_pos_spec q Hx ltac:(lra)) as (c & t & m & e & Hp & Hc & Hr & Hf).
    rewrite Hp in *. rewrite parseFloat_digits, Hr by done.
    unfold num_of_decimal. by rewrite Qmult_1_l.
  - assert (q < 0)%Q as Hneg.
    { apply Qnot_le_lt. intros H%Qle_bool_iff. congruence. }
    pose proof (fl_opp q q Hx) as Hwf.
    destruct (print_pos_spec (- q) Hwf ltac:(lra)) as (c & t & m & e & Hp & Hc & Hr & Hf).
    rewrite Hp in *. rewrite parseFloat_neg_digits, Hr by done.
    unfold num_of_decimal. apply fl_opp in Hf.
    rewrite Qopp_opp in Hf.
    rewrite <- Hf. apply fl_proper. ring.
Qed.
