(* ===== verification/Json.v ===== *)
(** * JSON: [JSON.stringify] and [JSON.parse]

    The wire format of everything the program keeps in Redis, publishes, signs
    or receives.  [stringify] prints without spaces and escapes what the
    language escapes; [parse] is a recursive-descent parser of the JSON grammar
    whose fuel is the length of the text.  [parse_stringify] is the round trip
    for every value whose numbers are finite doubles and whose objects have
    distinct keys. *)

From Stdlib Require Import QArith Lqa.
From S2P Require Import Prelude JsString JsNum JsText.

Local Open Scope N_scope.

(** ** Values *)

Unset Elimination Schemes.
Inductive json :=
  | JNull
  | JBool (b : bool)
  | JNum (x : num)
  | JStr (s : jsstr)
  | JArr (l : list json)
  | JObj (l : list (jsstr * json)).
Set Elimination Schemes.

(** Induction through the lists of arrays and objects. *)
Definition json_ind (P : json → Prop)
  (Hnull : P JNull) (Hbool : ∀ b, P (JBool b)) (Hnum : ∀ x, P (JNum x))
  (Hstr : ∀ s, P (JStr s))
  (Harr : ∀ l, Forall P l → P (JArr l))
  (Hobj : ∀ l, Forall (λ kv, P kv.2) l → P (JObj l)) : ∀ v, P v :=
  fix go v :=
    match v with
    | JNull => Hnull
    | JBool b => Hbool b
    | JNum x => Hnum x
    | JStr s => Hstr s
    | JArr l =>
        Harr l ((fix all l := match l return Forall P l with
                              | [] => Forall_nil_2 P
                              | v :: l => Forall_cons_2 P v l (go v) (all l)
                              end) l)
    | JObj l =>
        Hobj l ((fix all l := match l return Forall (λ kv, P kv.2) l with
                              | [] => Forall_nil_2 (λ kv, P kv.2)
                              | kv :: l =>
                                  Forall_cons_2 (λ kv, P kv.2) kv l (go kv.2) (all l)
                              end) l)
    end.

(** Property access [o.k]; [None] is undefined. *)
Fixpoint assoc (l : list (jsstr * json)) (k : jsstr) : option json :=
  match l with
  | [] => None
  | (k', v) :: l => if bool_decide (k' = k) then Some v else assoc l k
  end.

Definition field (v : json) (k : jsstr) : option json :=
  match v with JObj l => assoc l k | _ => None end.

(** Property assignment: an existing key keeps its place. *)
Fixpoint obj_set (l : list (jsstr * json)) (k : jsstr) (v : json) : list (jsstr * json) :=
  match l with
  | [] => [(k, v)]
  | (k', v') :: l =>
      if bool_decide (k' = k) then (k, v) :: l else (k', v') :: obj_set l k v
  end.

(** ** Printing *)

Definition hex_unit (d : N) : N := if d <? 10 then d + 48 else d + 87.

Definition hex4 (c : N) : jsstr :=
  [hex_unit (c / 4096); hex_unit (c / 256 mod 16);
   hex_unit (c / 16 mod 16); hex_unit (c mod 16)].

Definition is_surrogate (c : N) : bool := (55296 <=? c) && (c <=? 57343).
Definition is_high (c : N) : bool := (55296 <=? c) && (c <=? 56319).
Definition is_low (c : N) : bool := (56320 <=? c) && (c <=? 57343).

Definition escape_unit (c : N) : jsstr :=
  if c =? 8 then [92; 98]
  else if c =? 9 then [92; 116]
  else if c =? 10 then [92; 110]
  else if c =? 12 then [92; 102]
  else if c =? 13 then [92; 114]
  else if c =? 34 then [92; 34]
  else if c =? 92 then [92; 92]
  else if (c <? 32) then [92; 117] ++ hex4 c
  else [c].

(** Lone surrogates are escaped, pairs are kept. *)
Fixpoint quote_body (s : jsstr) : jsstr :=
  match s with
  | [] => []
  | c :: s' =>
      if is_high c then
        match s' with
        | d :: s'' =>
            if is_low d then c :: d :: quote_body s''
            else ([92; 117] ++ hex4 c) ++ quote_body s'
        | [] => [92; 117] ++ hex4 c
        end
      else if is_low c then ([92; 117] ++ hex4 c) ++ quote_body s'
      else escape_unit c ++ quote_body s'
  end.

Definition quote (s : jsstr) : jsstr := [34] ++ quote_body s ++ [34].

Definition stringify_num (x : num) : jsstr :=
  match x with Fin _ => toString x | _ => js "null" end.

Fixpoint stringify (v : json) : jsstr :=
  match v with
  | JNull => js "null"
  | JBool true => js "true"
  | JBool false => js "false"
  | JNum x => stringify_num x
  | JStr s => quote s
  | JArr l => [91] ++ join (map stringify l) [44] ++ [93]
  | JObj l =>
      [123] ++ join (map (λ kv, quote kv.1 ++ [58] ++ stringify kv.2) l) [44] ++ [125]
  end.

(** ** Parsing *)

Fixpoint skip_ws (s : jsstr) : jsstr :=
  match s with
  | c :: s' =>
      if (c =? 32) || (c =? 9) || (c =? 10) || (c =? 13) then skip_ws s' else s
  | [] => []
  end.

Definition hex_digit (c : N) : option N :=
  if is_digit c then Some (c - 48)
  else if (97 <=? c) && (c <=? 102) then Some (c - 87)
  else if (65 <=? c) && (c <=? 70) then Some (c - 55)
  else None.

Definition hex4_val (a b c d : N) : option N :=
  a ← hex_digit a; b ← hex_digit b; c ← hex_digit c; d ← hex_digit d;
  Some (a * 4096 + b * 256 + c * 16 + d).

Definition unescape (c : N) : option N :=
  if c =? 34 then Some 34 else if c =? 92 then Some 92
  else if c =? 47 then Some 47 else if c =? 98 then Some 8
  else if c =? 102 then Some 12 else if c =? 110 then Some 10
  else if c =? 114 then Some 13 else if c =? 116 then Some 9
  else None.

(** The characters of a string literal after its opening quote. *)
Fixpoint parse_string (s : jsstr) : option (jsstr * jsstr) :=
  match s with
  | [] => None
  | c :: s' =>
      if c =? 34 then Some ([], s')
      else if c =? 92 then
        match s' with
        | e :: s'' =>
            if e =? 117 then
              match s'' with
              | a :: b :: c :: d :: s''' =>
                  u ← hex4_val a b c d;
                  '(t, r) ← parse_string s''';
                  Some (u :: t, r)
              | _ => None
              end
            else
              u ← unescape e;
              '(t, r) ← parse_string s'';
              Some (u :: t, r)
        | [] => None
        end
      else if c <? 32 then None
      else '(t, r) ← parse_string s'; Some (c :: t, r)
  end.

(** Numbers of the JSON grammar: no leading zeros, digits around the point. *)
Definition parse_int (s : jsstr) : jsstr * jsstr :=
  match s with 48 :: t => ([48], t) | _ => read_digits s end.

Definition parse_frac (s : jsstr) : option (jsstr * jsstr) :=
  match s with
  | 46 :: t => let '(f, r) := read_digits t in
               if bool_decide (f = []) then None else Some (f, r)
  | _ => Some ([], s)
  end.

Definition parse_exp (s : jsstr) : option (Z * jsstr) :=
  match s with
  | 101 :: _ | 69 :: _ =>
      let '(e, r) := read_exponent s in
      if bool_decide (r = s) then None else Some (e, r)
  | _ => Some (0%Z, s)
  end.

Definition parse_number (s : jsstr) : option (num * jsstr) :=
  let '(neg, s) := match s with 45 :: t => (true, t) | _ => (false, s) end in
  let '(ip, r) := parse_int s in
  if bool_decide (ip = []) then None
  else
    '(fp, r) ← parse_frac r;
    '(e, r) ← parse_exp r;
    Some (num_of_decimal neg (digits_val (ip ++ fp)) (e - Z.of_nat (length fp)), r).

Definition expect (p s : jsstr) : option jsstr :=
  if startsWith s p then Some (drop (length p) s) else None.

Fixpoint parse_value (fuel : nat) (s : jsstr) : option (json * jsstr) :=
  match fuel with
  | O => None
  | S f =>
      match skip_ws s with
      | [] => None
      | c :: s' =>
          if c =? 34 then '(t, r) ← parse_string s'; Some (JStr t, r)
          else if c =? 91 then
            match skip_ws s' with
            | 93 :: r => Some (JArr [], r)
            | _ => '(l, r) ← parse_elems f s'; Some (JArr l, r)
            end
          else if c =? 123 then
            match skip_ws s' with
            | 125 :: r => Some (JObj [], r)
            | _ => '(l, r) ← parse_members f [] s'; Some (JObj l, r)
            end
          else if c =? 110 then r ← expect (js "ull") s'; Some (JNull, r)
          else if c =? 116 then r ← expect (js "rue") s'; Some (JBool true, r)
          else if c =? 102 then r ← expect (js "alse") s'; Some (JBool false, r)
          else '(x, r) ← parse_number (c :: s'); Some (JNum x, r)
      end
  end
(** The elements of an array up to its closing bracket. *)
with parse_elems (fuel : nat) (s : jsstr) : option (list json * jsstr) :=
  match fuel with
  | O => None
  | S f =>
      '(v, r) ← parse_value f s;
      match skip_ws r with
      | 44 :: r => '(l, r) ← parse_elems f r; Some (v :: l, r)
      | 93 :: r => Some ([v], r)
      | _ => None
      end
  end
(** The members of an object up to its closing brace, added to [acc]. *)
with parse_members (fuel : nat) (acc : list (jsstr * json)) (s : jsstr)
    : option (list (jsstr * json) * jsstr) :=
  match fuel with
  | O => None
  | S f =>
      match skip_ws s with
      | 34 :: s' =>
          '(k, r) ← parse_string s';
          match skip_ws r with
          | 58 :: r =>
              '(v, r) ← parse_value f r;
              match skip_ws r with
              | 44 :: r => parse_members f (obj_set acc k v) r
              | 125 :: r => Some (obj_set acc k v, r)
              | _ => None
              end
          | _ => None
          end
      | _ => None
      end
  end.

(** [JSON.parse(s)]; [None] is the SyntaxError. *)
Definition parse (s : jsstr) : option json :=
  '(v, r) ← parse_value (S (length s)) s;
  match skip_ws r with [] => Some v | _ => None end.

(** ** String literals *)

Lemma hex_digit_unit d : d < 16 → hex_digit (hex_unit d) = Some d.
Proof.
  intros H. unfold hex_unit, hex_digit, is_digit. destruct (d <? 10) eqn:E; bool_to_prop.
  - replace ((48 <=? d + 48) && (d + 48 <=? 57)) with true; [f_equal; lia|].
    symmetry. apply andb_true_iff; split; apply N.leb_le; lia.
  - replace ((48 <=? d + 87) && (d + 87 <=? 57)) with false.
    2: { symmetry. apply andb_false_iff. right. apply N.leb_gt. lia. }
    replace ((97 <=? d + 87) && (d + 87 <=? 102)) with true; [f_equal; lia|].
    symmetry. apply andb_true_iff; split; apply N.leb_le; lia.
Qed.

Lemma hex4_roundtrip c : c < 65536 →
  hex4_val (hex_unit (c / 4096)) (hex_unit (c / 256 mod 16))
           (hex_unit (c / 16 mod 16)) (hex_unit (c mod 16)) = Some c.
Proof.
  intros H. unfold hex4_val.
  assert (c / 4096 < 16) by (apply N.Div0.div_lt_upper_bound; lia).
  pose proof (N.mod_lt (c / 256) 16 ltac:(lia)). pose proof (N.mod_lt (c / 16) 16 ltac:(lia)).
  pose proof (N.mod_lt c 16 ltac:(lia)).
  rewrite !hex_digit_unit by done. cbn [mbind option_bind]. f_equal.
  pose proof (N.Div0.div_mod c 16). pose proof (N.Div0.div_mod (c / 16) 16).
  pose proof (N.Div0.div_mod (c / 256) 16).
  rewrite N.Div0.div_div in *. change (16 * 16) with 256 in *.
  change (256 * 16) with 4096 in *. lia.
Qed.

(** A code unit of a JavaScript string. *)
Definition unit16 (s : jsstr) : Prop := Forall (λ c, c < 65536) s.

Lemma parse_string_escaped c r :
  c < 65536 →
  parse_string ([92; 117] ++ hex4 c ++ r)
  = ('(t, r) ← parse_string r; Some (c :: t, r)).
Proof.
  intros H. unfold hex4. cbn [app]. cbn [parse_string].
  change (92 =? 34) with false. change (92 =? 92) with true.
  change (117 =? 117) with true. cbv iota. by rewrite hex4_roundtrip.
Qed.

Lemma parse_string_plain c r :
  c ≠ 34 → c ≠ 92 → 32 <= c →
  parse_string (c :: r) = ('(t, r) ← parse_string r; Some (c :: t, r)).
Proof.
  intros H1 H2 H3. cbn [parse_string].
  apply N.eqb_neq in H1 as ->. apply N.eqb_neq in H2 as ->.
  by apply N.ltb_ge in H3 as ->.
Qed.

Lemma parse_string_escape_unit c r :
  c < 65536 →
  parse_string (escape_unit c ++ r) = ('(t, r) ← parse_string r; Some (c :: t, r)).
Proof.
  intros H. unfold escape_unit.
  repeat match goal with
  | |- context [if ?c =? ?k then _ else _] =>
      destruct (c =? k) eqn:?; bool_to_prop; [by subst c|]
  end.
  destruct (c <? 32) eqn:?; bool_to_prop.
  - rewrite <- app_assoc. by apply parse_string_escaped.
  - by apply parse_string_plain.
Qed.

Lemma parse_quote_body s r :
  unit16 s → parse_string (quote_body s ++ [34] ++ r) = Some (s, r).
Proof.
  induction s as [s IH] using (induction_ltof1 _ (@length N)); unfold ltof in IH.
  intros Hs. destruct s as [|c s]; [done|]. apply Forall_cons in Hs as [Hc Hs].
  assert (parse_string (quote_body s ++ [34] ++ r) = Some (s, r)) as Hrest
    by (apply IH; [cbn; lia|done]).
  cbn [quote_body]. destruct (is_high c) eqn:Eh.
  - assert (parse_string (([92; 117] ++ hex4 c) ++ quote_body s ++ [34] ++ r)
            = Some (c :: s, r)) as Hesc.
    { rewrite <- app_assoc, parse_string_escaped, Hrest by done. done. }
    destruct s as [|d s]; [exact Hesc|].
    destruct (is_low d) eqn:El; [|by rewrite <- app_assoc].
    unfold is_high, is_low in *. bool_to_prop. apply Forall_cons in Hs as [Hd Hs].
    cbn [app]. rewrite !parse_string_plain by lia.
    change (34 :: r) with ([34] ++ r). rewrite IH; [done|cbn; lia|done].
  - destruct (is_low c) eqn:El.
    + rewrite <- !app_assoc, parse_string_escaped, Hrest by done. done.
    + rewrite <- app_assoc, parse_string_escape_unit, Hrest by done. done.
Qed.

(** ** Numbers *)

(** What may follow a value: the end, a comma, a closing bracket or white space. *)
Definition delim (r : jsstr) : Prop :=
  r = [] ∨ ∃ c t, r = c :: t ∧ (c = 44 ∨ c = 93 ∨ c = 125 ∨ c = 10 ∨ c = 32 ∨ c = 9 ∨ c = 13).

Ltac delim_cases H :=
  destruct H as [->|(? & ? & -> & [->|[->|[->|[->|[->|[->| ->]]]]]])].

Lemma delim_not_digit r c : delim r → head r = Some c → is_digit c = false.
Proof. intros H. delim_cases H; cbn; naive_solver. Qed.

Lemma parse_exp_text x e r : tail_text x e → delim r → parse_exp (x ++ r) = Some (e, r).
Proof.
  intros [[-> ->]| ->] Hr; [by delim_cases Hr|].
  assert (read_exponent (exponent_text e ++ r) = (e, r)) as He
    by (apply read_exponent_app; eauto using delim_not_digit).
  assert (∃ t, exponent_text e ++ r = 101 :: t) as [t Ht].
  { unfold exponent_text. destruct (e <? 0)%Z; cbn; eauto. }
  rewrite Ht in He |- *. unfold parse_exp. rewrite He.
  rewrite bool_decide_false; [done|]. intros Hrt. delim_cases Hr; congruence.
Qed.

Lemma parse_frac_text fp x e r :
  all_digits fp → tail_text x e → delim r →
  parse_frac (frac_text fp ++ x ++ r) = Some (fp, x ++ r).
Proof.
  intros Hfp Hx Hr.
  assert (∀ c, head (x ++ r) = Some c → is_digit c = false) as Hd.
  { intros c. destruct (tail_text_head _ _ Hx) as [->|[t ->]]; cbn;
      [by apply delim_not_digit|naive_solver]. }
  destruct fp as [|f fp]; cbn [frac_text app].
  - destruct (tail_text_head _ _ Hx) as [->|[t ->]]; [by delim_cases Hr|done].
  - unfold parse_frac. change (f :: fp ++ x ++ r) with ((f :: fp) ++ x ++ r).
    by rewrite read_digits_app.
Qed.

Lemma digit_cases c : is_digit c = true →
  c = 48 ∨ c = 49 ∨ c = 50 ∨ c = 51 ∨ c = 52 ∨ c = 53 ∨ c = 54 ∨ c = 55 ∨ c = 56 ∨ c = 57.
Proof. unfold is_digit. intros H. bool_to_prop. lia. Qed.

Lemma parse_int_text ip y :
  all_digits ip → plain_int ip → (∀ c, head y = Some c → is_digit c = false) →
  parse_int (ip ++ y) = (ip, y).
Proof.
  intros Hip [->|(c & t & -> & Hc)] Hy; [done|].
  pose proof Hip as [Hd _]%Forall_cons. rewrite <- (read_digits_app _ _ Hip Hy).
  apply digit_cases in Hd. unfold parse_int.
  destruct Hd as [->|Hd]; [done|]. by destruct_or!; subst c.
Qed.

Lemma digit_not_minus c t : is_digit c = true →
  match c :: t with 45 :: u => (true, u) | _ => (false, c :: t) end = (false, c :: t).
Proof. intros H%digit_cases. by destruct_or!; subst c. Qed.

Lemma parse_number_text (neg : bool) q ip fp x e r :
  number_text q ip fp x e → delim r →
  parse_number ((if neg then [45] else []) ++ (ip ++ frac_text fp ++ x) ++ r)
  = Some (num_of_decimal neg (digits_val (ip ++ fp)) (e - Z.of_nat (length fp)), r).
Proof.
  intros (Hip & Hpl & Hfp & Hx & _) Hr.
  assert (∀ c, head (frac_text fp ++ x ++ r) = Some c → is_digit c = false) as Hd.
  { intros c. destruct fp; cbn; [|naive_solver].
    destruct (tail_text_head _ _ Hx) as [->|[t ->]]; cbn;
      [by apply delim_not_digit|naive_solver]. }
  assert (ip ≠ []) as Hne by (destruct Hpl as [->|(? & ? & -> & _)]; done).
  assert (∃ c t, ip = c :: t ∧ is_digit c = true) as (c & t & Hct & Hc).
  { destruct ip as [|c t]; [done|]. apply Forall_cons in Hip as [? _]. eauto. }
  rewrite <- !app_assoc. unfold parse_number.
  assert (match (if neg then [45] else []) ++ ip ++ frac_text fp ++ x ++ r with
          | 45 :: t0 => (true, t0)
          | _ => (false, (if neg then [45] else []) ++ ip ++ frac_text fp ++ x ++ r)
          end = (neg, ip ++ frac_text fp ++ x ++ r)) as ->.
  { destruct neg; [done|]. cbn [app]. rewrite Hct. by apply digit_not_minus. }
  rewrite parse_int_text by done. rewrite bool_decide_false by done.
  rewrite (parse_frac_text _ _ _ _ Hfp Hx Hr). cbn [mbind option_bind].
  by rewrite (parse_exp_text _ _ _ Hx Hr).
Qed.

(** A finite double is read back, whatever follows it. *)
Lemma parse_number_toString q r :
  num_wf (Fin q) → delim r → parse_number (toString (Fin q) ++ r) = Some (Fin q, r).
Proof.
  intros Hq Hr. cbn [toString]. destruct (Qeq_bool q 0) eqn:E0.
  { apply Qeq_bool_iff in E0. replace (Fin q) with (Fin 0).
    - by delim_cases Hr.
    - apply fin_inj_wf; [reflexivity|done|by rewrite E0]. }
  apply Qeq_bool_false in E0. destruct (Qle_bool 0 q) eqn:E1.
  - apply Qle_bool_iff in E1.
    destruct (print_pos_text q Hq ltac:(lra)) as (ip & fp & x & e & -> & Ht).
    pose proof (parse_number_text false _ _ _ _ _ _ Ht Hr) as Hp. cbn [app] in Hp.
    rewrite Hp. destruct Ht as (_ & _ & _ & _ & Hfl).
    unfold num_of_decimal. by rewrite Qmult_1_l, Hfl.
  - assert (q < 0)%Q as Hneg by (apply Qnot_le_lt; intros H%Qle_bool_iff; congruence).
    destruct (print_pos_text (- q) (fl_opp q q Hq) ltac:(lra)) as (ip & fp & x & e & -> & Ht).
    pose proof (parse_number_text true _ _ _ _ _ _ Ht Hr) as Hp. cbn [app] in Hp |- *.
    rewrite Hp. destruct Ht as (_ & _ & _ & _ & Hfl%fl_opp). rewrite Qopp_opp in Hfl.
    unfold num_of_decimal. rewrite <- Hfl. by do 2 f_equal.
Qed.

(** ** The round trip *)

(** Values that survive: finite doubles, code units, distinct keys. *)
Unset Elimination Schemes.
Inductive json_ok : json → Prop :=
  | ok_null : json_ok JNull
  | ok_bool b : json_ok (JBool b)
  | ok_num q : num_wf (Fin q) → json_ok (JNum (Fin q))
  | ok_str s : unit16 s → json_ok (JStr s)
  | ok_arr l : Forall json_ok l → json_ok (JArr l)
  | ok_obj l :
      Forall (λ kv, unit16 kv.1 ∧ json_ok kv.2) l → NoDup l.*1 → json_ok (JObj l).
Set Elimination Schemes.

(** The fuel a value needs. *)
Fixpoint need (v : json) : nat :=
  match v with
  | JArr l => S (list_sum (map (λ v, S (need v)) l))
  | JObj l => S (list_sum (map (λ kv, S (need kv.2)) l))
  | _ => 1
  end.

Lemma toString_head q : num_wf (Fin q) →
  ∃ c t, toString (Fin q) = c :: t ∧ (c = 45 ∨ is_digit c = true).
Proof.
  intros Hq. cbn [toString]. destruct (Qeq_bool q 0) eqn:E0.
  { exists 48, []. split; [done|by right]. }
  apply Qeq_bool_false in E0. destruct (Qle_bool 0 q) eqn:E1; [|by eexists 45, _; eauto].
  apply Qle_bool_iff in E1.
  destruct (print_pos_spec q Hq ltac:(lra)) as (c & t & _ & _ & -> & Hc & _). eauto.
Qed.

(** A value's text starts with a character that is no white space. *)
Lemma skip_ws_head c s :
  c ≠ 32 → c ≠ 9 → c ≠ 10 → c ≠ 13 → skip_ws (c :: s) = c :: s.
Proof.
  intros ????. cbn. by repeat match goal with
  | H : c ≠ ?k |- context [c =? ?k] => apply N.eqb_neq in H as ->
  end.
Qed.

Lemma parse_value_num f q r :
  num_wf (Fin q) → delim r →
  parse_value (S f) (toString (Fin q) ++ r) = Some (JNum (Fin q), r).
Proof.
  intros Hq Hr. pose proof (parse_number_toString q r Hq Hr) as Hp.
  destruct (toString_head q Hq) as (c & t & Ht & Hc). rewrite Ht in *.
  cbn [app] in *. cbn [parse_value].
  destruct Hc as [->|Hc%digit_cases]; [by rewrite skip_ws_head, Hp by done|].
  by destruct_or!; subst c; rewrite skip_ws_head, Hp by done.
Qed.

Lemma parse_value_str f s r :
  unit16 s → parse_value (S f) (quote s ++ r) = Some (JStr s, r).
Proof.
  intros Hs. unfold quote. rewrite <- !app_assoc. cbn [app parse_value].
  rewrite skip_ws_head by done. cbn.
  change (34 :: r) with ([34] ++ r). by rewrite parse_quote_body.
Qed.

Lemma obj_set_fresh l k v : k ∉ l.*1 → obj_set l k v = l ++ [(k, v)].
Proof.
  induction l as [|[k' v'] l IH]; intros Hk; [done|]. cbn in *.
  apply not_elem_of_cons in Hk as [Hne Hk].
  rewrite bool_decide_false by done. by rewrite IH.
Qed.

(** Parsing the text a printer gives [v], with fuel for it, gives [v] and leaves the rest. *)
Definition parses (p : json → jsstr) (v : json) : Prop :=
  ∀ f r, (need v <= f)%nat → delim r → parse_value f (p v ++ r) = Some (v, r).

Lemma delim_comma r : delim (44 :: r).
Proof. right. eexists _, _. split; [done|lia]. Qed.
Lemma delim_bracket r : delim (93 :: r).
Proof. right. eexists _, _. split; [done|lia]. Qed.
Lemma delim_brace r : delim (125 :: r).
Proof. right. eexists _, _. split; [done|lia]. Qed.
Lemma delim_newline r : delim (10 :: r).
Proof. right. eexists _, _. split; [done|lia]. Qed.
#[local] Hint Resolve delim_comma delim_bracket delim_brace delim_newline : js.

(** White space between tokens: nothing, or a new line and an indentation. *)
Definition blank (b : jsstr) : Prop := b = [] ∨ ∃ t, b = 10 :: t ∧ Forall (λ c, c = 32) t.

Lemma skip_ws_spaces t s : Forall (λ c, c = 32) t → skip_ws (t ++ s) = skip_ws s.
Proof. induction 1 as [|c t -> _ IH]; [done|]. cbn. exact IH. Qed.

Lemma skip_ws_blank b s : blank b → skip_ws (b ++ s) = skip_ws s.
Proof. intros [->|(t & -> & Ht)]; [done|]. cbn. by apply skip_ws_spaces. Qed.

Lemma parse_value_ws f b s : skip_ws (b ++ s) = skip_ws s → parse_value f (b ++ s) = parse_value f s.
Proof. intros H. destruct f; [done|]. cbn [parse_value]. by rewrite H. Qed.

Lemma parse_elems_blank f b s : blank b → parse_elems f (b ++ s) = parse_elems f s.
Proof.
  intros Hb. destruct f; [done|]. cbn [parse_elems].
  by rewrite parse_value_ws by (by apply skip_ws_blank).
Qed.

Lemma parse_members_blank f acc b s : blank b → parse_members f acc (b ++ s) = parse_members f acc s.
Proof. intros Hb. destruct f; [done|]. cbn [parse_members]. by rewrite skip_ws_blank. Qed.

Lemma delim_blank b r : blank b → delim r → delim (b ++ r).
Proof. intros [->|(t & -> & _)] Hr; [done|apply delim_newline]. Qed.

Lemma join_cons p q (ps : list jsstr) sep : join (p :: q :: ps) sep = p ++ sep ++ join (q :: ps) sep.
Proof. done. Qed.

(** Texts of values, members and lists of them, with [b] after each comma, [e] before
    the closing bracket and [sp] after each colon. *)
Section Layout.
Context (p : json → jsstr) (b e sp : jsstr) (Hb : blank b) (He : blank e).
Context (Hsp : Forall (λ c, c = 32) sp).

Lemma parse_elems_text v l f r :
  Forall (parses p) (v :: l) →
  (list_sum (map (λ v, S (need v)) (v :: l)) <= f)%nat →
  parse_elems f (join (map p (v :: l)) (44 :: b) ++ e ++ 93 :: r) = Some (v :: l, r).
Proof.
  revert v f; induction l as [|w l IH]; intros v f [Hv Hl]%Forall_cons Hf;
    (destruct f as [|f]; [cbn in Hf; lia|]); cbn [parse_elems].
  - cbn [map join]. rewrite Hv by (cbn in Hf; first [lia|auto using delim_blank with js]).
    cbn [mbind option_bind]. by rewrite skip_ws_blank.
  - cbn [map]. rewrite join_cons, <- !app_assoc. cbn [app].
    rewrite Hv by (cbn in Hf; first [lia|auto with js]).
    cbn [mbind option_bind]. rewrite skip_ws_head by done. rewrite parse_elems_blank by done.
    change (p w :: map p l) with (map p (w :: l)).
    rewrite IH; [done|done|]. cbn in *. lia.
Qed.

Definition member_text (kv : jsstr * json) : jsstr := quote kv.1 ++ [58] ++ sp ++ p kv.2.

(** A member up to its value. *)
Lemma parse_member_text acc kv f r :
  unit16 kv.1 → parses p kv.2 → (need kv.2 <= f)%nat → delim r → kv.1 ∉ acc.*1 →
  parse_members (S f) acc (member_text kv ++ r)
  = match skip_ws r with
    | 44 :: r => parse_members f (acc ++ [kv]) r
    | 125 :: r => Some (acc ++ [kv], r)
    | _ => None
    end.
Proof.
  destruct kv as [k v]. cbn [fst snd]. intros Hk Hv Hf Hr Hfresh.
  unfold member_text, quote. cbn [fst snd]. rewrite <- !app_assoc.
  cbn [app]. cbn [parse_members]. rewrite skip_ws_head by done. cbv iota.
  change (34 :: 58 :: ?x) with ([34] ++ 58 :: x). rewrite parse_quote_body by done.
  cbn [mbind option_bind]. rewrite skip_ws_head by done. cbv iota.
  rewrite parse_value_ws by (by apply skip_ws_spaces). rewrite Hv by done.
  cbn [mbind option_bind]. by rewrite obj_set_fresh.
Qed.

Lemma parse_members_text acc kv l f r :
  Forall (λ kv, unit16 kv.1 ∧ parses p kv.2) (kv :: l) →
  NoDup (acc.*1 ++ (kv :: l).*1) →
  (list_sum (map (λ kv, S (need kv.2)) (kv :: l)) <= f)%nat →
  parse_members f acc (join (map member_text (kv :: l)) (44 :: b) ++ e ++ 125 :: r)
  = Some (acc ++ kv :: l, r).
Proof.
  revert acc kv f; induction l as [|kv' l IH]; intros acc kv f Hall Hnd Hf;
    apply Forall_cons in Hall as [[Hk Hv] Hl];
    (destruct f as [|f]; [cbn in Hf; lia|]);
    assert (kv.1 ∉ acc.*1) as Hfresh
      by (apply NoDup_app in Hnd as (_ & Hd & _); set_solver).
  - cbn [map join]. rewrite parse_member_text; try done; [|cbn in Hf; lia|by auto using delim_blank with js].
    by rewrite skip_ws_blank.
  - cbn [map]. rewrite join_cons, <- app_assoc. cbn [app].
    rewrite parse_member_text; try done; [|cbn in Hf; lia|by auto with js].
    rewrite skip_ws_head by done. rewrite <- app_assoc, parse_members_blank by done.
    change (member_text kv' :: map member_text l) with (map member_text (kv' :: l)).
    rewrite IH; [by rewrite <- app_assoc|done| |cbn in *; lia].
    rewrite fmap_app, <- app_assoc. exact Hnd.
Qed.

Lemma join_head q (qs : list jsstr) sep : ∃ t, join (q :: qs) sep = q ++ t.
Proof. destruct qs; cbn; [exists []; by rewrite app_nil_r|by eexists]. Qed.

(** The character a text starts with: no white space, no closing bracket. *)
Definition opens (s : jsstr) : Prop :=
  ∃ c t, s = c :: t ∧ c ≠ 93 ∧ c ≠ 125 ∧ c ≠ 32 ∧ c ≠ 9 ∧ c ≠ 10 ∧ c ≠ 13.

Lemma parse_arr_text v l f r :
  opens (p v) → Forall (parses p) (v :: l) → (need (JArr (v :: l)) <= f)%nat →
  parse_value f (91 :: b ++ join (map p (v :: l)) (44 :: b) ++ e ++ 93 :: r)
  = Some (JArr (v :: l), r).
Proof.
  intros (c & t & Ht & Hc1 & _ & Hc) Hl Hf. destruct f as [|f]; [cbn in Hf; lia|].
  cbn [parse_value]. rewrite skip_ws_head by done. cbn [N.eqb Pos.eqb].
  assert (parse_elems f (join (map p (v :: l)) (44 :: b) ++ e ++ 93 :: r)
          = Some (v :: l, r)) as Hp by (apply parse_elems_text; [done|cbn in *; lia]).
  rewrite parse_elems_blank, skip_ws_blank, Hp by done. clear Hp.
  destruct (join_head (p v) (map p l) (44 :: b)) as [u Hu].
  cbn [map]. rewrite Hu, Ht. cbn [app]. rewrite skip_ws_head by naive_solver.
  cbn [mbind option_bind].
  destruct c as [|c]; [done|]. by repeat (case_match; try done).
Qed.

Lemma parse_obj_text kv l f r :
  NoDup (kv :: l).*1 → Forall (λ kv, unit16 kv.1 ∧ parses p kv.2) (kv :: l) →
  (need (JObj (kv :: l)) <= f)%nat →
  parse_value f (123 :: b ++ join (map member_text (kv :: l)) (44 :: b) ++ e ++ 125 :: r)
  = Some (JObj (kv :: l), r).
Proof.
  intros Hnd Hl Hf. destruct f as [|f]; [cbn in Hf; lia|].
  cbn [parse_value]. rewrite skip_ws_head by done. cbn [N.eqb Pos.eqb].
  assert (parse_members f [] (join (map member_text (kv :: l)) (44 :: b) ++ e ++ 125 :: r)
          = Some (kv :: l, r)) as Hp.
  { apply (parse_members_text [] kv l); [done|done|cbn in *; lia]. }
  rewrite parse_members_blank, skip_ws_blank, Hp by done. clear Hp.
  destruct (join_head (member_text kv) (map member_text l) (44 :: b)) as [u Hu].
  cbn [map]. rewrite Hu. unfold member_text, quote.
  cbn [app]. by rewrite skip_ws_head by done.
Qed.

(** A list of texts joined by commas is long enough for its fuel. *)
Lemma join_length {A} (f : A → nat) (g : A → jsstr) (l : list A) :
  Forall (λ v, (f v <= length (g v))%nat) l →
  (list_sum (map (λ v, S (f v)) l) <= S (length (join (map g l) (44%N :: b))))%nat.
Proof.
  induction l as [|v l IH]; intros Hall; [cbn; lia|].
  apply Forall_cons in Hall as [Hv Hl]. specialize (IH Hl).
  destruct l as [|w l]; cbn in *; [lia|].
  rewrite length_app in *. cbn in *. rewrite length_app in *. lia.
Qed.

Lemma members_length l :
  Forall (λ kv, (need kv.2 <= length (p kv.2))%nat) l →
  (list_sum (map (λ kv, S (need kv.2)) l)
   <= S (length (join (map member_text l) (44%N :: b))))%nat.
Proof.
  intros Hl. apply (join_length (λ kv, need kv.2)). eapply Forall_impl; [done|].
  intros kv Hkv. unfold member_text. cbn beta in *. rewrite !length_app. lia.
Qed.
End Layout.

Lemma stringify_obj l :
  stringify (JObj l) = [123] ++ join (map (member_text stringify []) l) [44] ++ [125].
Proof. done. Qed.

(** The text of a value never starts with a closing bracket. *)
Lemma stringify_head v : json_ok v → opens (stringify v).
Proof.
  intros Hok. destruct v as [| [] |x|s|l|l]; try by eexists _, _; repeat split.
  inversion Hok as [| |q Hq| | |]; subst. cbn [stringify stringify_num].
  destruct (toString_head q Hq) as (c & t & -> & [->|Hc%digit_cases]).
  - by eexists _, _.
  - eexists _, _. split; [done|]. lia.
Qed.

Lemma blank_nil : blank [].
Proof. by left. Qed.
#[local] Hint Resolve blank_nil : js.

Lemma json_ok_parses v : json_ok v → parses stringify v.
Proof.
  induction v as [|b|x|s|l IH|l IH] using json_ind; intros Hok f r Hf Hr;
    (destruct f as [|f]; [cbn in Hf; lia|]).
  - done.
  - by destruct b.
  - inversion Hok; subst. by apply parse_value_num.
  - inversion Hok; subst. by apply parse_value_str.
  - inversion Hok as [| | | |l' Hl|]; subst. destruct l as [|v l]; [done|].
    cbn [stringify app]. rewrite <- app_assoc.
    apply (parse_arr_text stringify [] []); auto with js.
    + apply Forall_cons in Hl as [Hv _]. by apply stringify_head.
    + rewrite Forall_forall in *. auto.
  - inversion Hok as [| | | | |l' Hl Hnd]; subst. destruct l as [|kv l]; [done|].
    rewrite stringify_obj, <- !app_assoc.
    apply (parse_obj_text stringify [] [] []); auto with js.
    rewrite Forall_forall in *. intros kv' Hkv. destruct (Hl kv' Hkv). auto.
Qed.

Lemma need_length v : json_ok v → (need v <= length (stringify v))%nat.
Proof.
  induction v as [|b|x|s|l IH|l IH] using json_ind; intros Hok; cbn [need].
  1-4: destruct (stringify_head _ Hok) as (c & t & -> & _); cbn; lia.
  - inversion Hok as [| | | |l' Hl|]; subst. cbn [stringify].
    rewrite !length_app. cbn [length].
    enough (list_sum (map (λ v, S (need v)) l) <= S (length (join (map stringify l) [44%N])))%nat
      by lia.
    apply join_length. rewrite Forall_forall in *. auto.
  - inversion Hok as [| | | | |l' Hl Hnd]; subst. rewrite stringify_obj, !length_app.
    cbn [length].
    enough (list_sum (map (λ kv, S (need kv.2)) l)
            <= S (length (join (map (member_text stringify []) l) [44%N])))%nat by lia.
    apply members_length. rewrite Forall_forall in *.
    intros kv Hkv. destruct (Hl kv Hkv). by apply IH.
Qed.

(** [JSON.parse(JSON.stringify(v))] is [v]. *)
Theorem parse_stringify v : json_ok v → parse (stringify v) = Some v.
Proof.
  intros Hok. unfold parse.
  pose proof (json_ok_parses v Hok (S (length (stringify v))) []
    ltac:(pose proof (need_length v Hok); lia) ltac:(by left)) as Hp.
  rewrite app_nil_r in Hp. by rewrite Hp.
Qed.
