(* ===== verification/Pretty.v ===== *)
(** * Indented JSON

    [JSON.stringify(v, null, 2)], in which the bot shows launch configurations and the
    Twitter client saves its cookies, and that [JSON.parse] reads it back. *)

From S2P Require Import Prelude JsString JsNum Json.

Local Open Scope N_scope.

Fixpoint pretty (indent : jsstr) (v : json) : jsstr :=
  let deeper := indent ++ js "  " in
  match v with
  | JArr ((_ :: _) as l) =>
      js "[" ++ [10] ++ deeper
      ++ join (map (pretty deeper) l) (js "," ++ [10] ++ deeper)
      ++ [10] ++ indent ++ js "]"
  | JObj ((_ :: _) as l) =>
      js "{" ++ [10] ++ deeper
      ++ join (map (λ kv, quote kv.1 ++ js ": " ++ pretty deeper kv.2) l)
              (js "," ++ [10] ++ deeper)
      ++ [10] ++ indent ++ js "}"
  | v => stringify v
  end.

Definition spaces (s : jsstr) : Prop := Forall (λ c, c = 32) s.

Definition deeper (indent : jsstr) : jsstr := indent ++ js "  ".

Lemma deeper_spaces i : spaces i → spaces (deeper i).
Proof. intros Hi. apply Forall_app. split; [done|]. by repeat constructor. Qed.

Lemma blank_line i : spaces i → blank (10 :: i).
Proof. intros Hi. right. eauto. Qed.

#[local] Hint Resolve deeper_spaces blank_line : js.

(** The layout of a non-empty array and of a non-empty object. *)
Lemma pretty_arr i v l r :
  pretty i (JArr (v :: l)) ++ r
  = 91 :: (10 :: deeper i) ++ join (map (pretty (deeper i)) (v :: l)) (44 :: 10 :: deeper i)
    ++ (10 :: i) ++ 93 :: r.
Proof. cbn [pretty]. fold (deeper i). rewrite <- !app_assoc. done. Qed.

Lemma pretty_obj i kv l r :
  pretty i (JObj (kv :: l)) ++ r
  = 123 :: (10 :: deeper i)
    ++ join (map (member_text (pretty (deeper i)) [32]) (kv :: l)) (44 :: 10 :: deeper i)
    ++ (10 :: i) ++ 125 :: r.
Proof. cbn [pretty]. fold (deeper i). rewrite <- !app_assoc. done. Qed.

Lemma pretty_head i v : json_ok v → opens (pretty i v).
Proof.
  intros Hok. destruct v as [| [] |x|s|[|v l]|[|kv l]];
    first [by apply (stringify_head _ Hok)|by eexists _, _; repeat split].
Qed.

Lemma pretty_parses i v : spaces i → json_ok v → parses (pretty i) v.
Proof.
  revert i. induction v as [|b|x|s|l IH|l IH] using json_ind; intros i Hi Hok f r Hf Hr.
  1-4: by apply json_ok_parses.
  - inversion Hok as [| | | |l' Hl|]; subst. destruct l as [|v l]; [by apply json_ok_parses|].
    rewrite pretty_arr. apply parse_arr_text; auto with js.
    + apply Forall_cons in Hl as [Hv _]. by apply pretty_head.
    + rewrite Forall_forall in *. auto with js.
  - inversion Hok as [| | | | |l' Hl Hnd]; subst. destruct l as [|kv l]; [by apply json_ok_parses|].
    rewrite pretty_obj. apply (parse_obj_text (pretty (deeper i))); auto with js.
    rewrite Forall_forall in *. intros kv' Hkv. destruct (Hl kv' Hkv). auto with js.
Qed.

Lemma pretty_need i v : json_ok v → (need v <= length (pretty i v))%nat.
Proof.
  revert i. induction v as [|b|x|s|l IH|l IH] using json_ind; intros i Hok.
  1-4: by apply need_length.
  - inversion Hok as [| | | |l' Hl|]; subst. destruct l as [|v l]; [by apply need_length|].
    rewrite <- (app_nil_r (pretty _ _)), pretty_arr. cbn [need length].
    pose proof (join_length (10 :: deeper i) need (pretty (deeper i)) (v :: l)) as Hj.
    rewrite !length_app. cbn [length]. rewrite Forall_forall in *.
    specialize (Hj ltac:(auto)). lia.
  - inversion Hok as [| | | | |l' Hl Hnd]; subst. destruct l as [|kv l]; [by apply need_length|].
    rewrite <- (app_nil_r (pretty _ _)), pretty_obj. cbn [need length].
    pose proof (members_length (pretty (deeper i)) (10 :: deeper i) [32] (kv :: l)) as Hj.
    rewrite !length_app. cbn [length]. rewrite Forall_forall in *.
    lapply Hj; [lia|]. intros kv' Hkv. destruct (Hl kv' Hkv). by apply IH.
Qed.

(** [JSON.parse(JSON.stringify(v, null, 2))] is [v]. *)
Lemma parse_pretty v : json_ok v → parse (pretty [] v) = Some v.
Proof.
  intros Hok. unfold parse.
  pose proof (pretty_parses [] v ltac:(constructor) Hok (S (length (pretty [] v))) []
    ltac:(pose proof (pretty_need [] v Hok); lia) ltac:(by left)) as Hp.
  rewrite app_nil_r in Hp. by rewrite Hp.
Qed.
