(* ===== verification/JsonText.v ===== *)
(** * JSON as other programs write it

    The texts the JSON grammar has for an object, with any white space, number and
    escape, and with the commas before closing brackets that language models add to it.
    [show] prints such a text with or without these commas; without them [JSON.parse]
    reads the value. *)

From S2P Require Import Prelude JsString JsNum JsText Json.

Local Open Scope N_scope.

(** ** Texts *)

Definition ws (s : jsstr) : Prop := Forall (λ c, c = 32 ∨ c = 9 ∨ c = 10 ∨ c = 13) s.

#[export] Instance ws_dec s : Decision (ws s).
Proof. unfold ws. solve_decision. Defined.

(** The name of a member and its colon: white space, the characters between the quotes,
    what they stand for, and white space around the colon. *)
Record label := Label {
  l_before : jsstr; l_body : jsstr; l_key : jsstr; l_colon : jsstr; l_after : jsstr
}.

Definition label_text (l : label) : jsstr :=
  l_before l ++ (34 :: l_body l ++ [34]) ++ l_colon l ++ [58] ++ l_after l.

(** A text, as a tree: words are strings, numbers and the three names; an element has white
    space on both sides; [trail] is a comma after the last element and what follows it. *)
Inductive doc :=
  | Word (t : jsstr) (v : json)
  | EmptyArr (b : jsstr)
  | EmptyObj (b : jsstr)
  | Arr (es : elems)
  | Obj (ms : members)
with elems :=
  | Elem (a : jsstr) (d : doc) (b : jsstr) (trail : option jsstr)
  | Elems (a : jsstr) (d : doc) (b : jsstr) (es : elems)
with members :=
  | Member (l : label) (d : doc) (b : jsstr) (trail : option jsstr)
  | Members (l : label) (d : doc) (b : jsstr) (ms : members).

Scheme doc_mut := Induction for doc Sort Prop
  with elems_mut := Induction for elems Sort Prop
  with members_mut := Induction for members Sort Prop.
Combined Scheme docs_ind from doc_mut, elems_mut, members_mut.

Definition trail_text (keep : bool) (trail : option jsstr) : jsstr :=
  match trail with Some t => if keep then 44 :: t else [] | None => [] end.

(** The text; [keep] tells for a closing bracket whether the commas before it are kept. *)
Fixpoint show (keep : N → bool) (d : doc) : jsstr :=
  match d with
  | Word t _ => t
  | EmptyArr b => 91 :: b ++ [93]
  | EmptyObj b => 123 :: b ++ [125]
  | Arr es => 91 :: show_elems keep es
  | Obj ms => 123 :: show_members keep ms
  end
with show_elems (keep : N → bool) (es : elems) : jsstr :=
  match es with
  | Elem a d b trail => a ++ show keep d ++ b ++ trail_text (keep 93) trail ++ [93]
  | Elems a d b es => a ++ show keep d ++ b ++ 44 :: show_elems keep es
  end
with show_members (keep : N → bool) (ms : members) : jsstr :=
  match ms with
  | Member l d b trail => label_text l ++ show keep d ++ b ++ trail_text (keep 125) trail ++ [125]
  | Members l d b ms => label_text l ++ show keep d ++ b ++ 44 :: show_members keep ms
  end.

(** The value; a repeated name takes the last of its values. *)
Fixpoint value (d : doc) : json :=
  match d with
  | Word _ v => v
  | EmptyArr _ => JArr []
  | EmptyObj _ => JObj []
  | Arr es => JArr (values es)
  | Obj ms => JObj (fields [] ms)
  end
with values (es : elems) : list json :=
  match es with
  | Elem _ d _ _ => [value d]
  | Elems _ d _ es => value d :: values es
  end
with fields (acc : list (jsstr * json)) (ms : members) : list (jsstr * json) :=
  match ms with
  | Member l d _ _ => obj_set acc (l_key l) (value d)
  | Members l d _ ms => fields (obj_set acc (l_key l) (value d)) ms
  end.

(** ** Well-formed texts *)

Definition string_lit (b s : jsstr) : Prop := parse_string (b ++ [34]) = Some (s, []).

Definition word (t : jsstr) (v : json) : Prop :=
  (t = js "null" ∧ v = JNull) ∨ (t = js "true" ∧ v = JBool true) ∨ (t = js "false" ∧ v = JBool false)
  ∨ (∃ x, parse_number t = Some (x, []) ∧ v = JNum x)
  ∨ (∃ b s, t = 34 :: b ++ [34] ∧ string_lit b s ∧ v = JStr s).

(** Every comma of the text is followed, after white space, by a character of it that is no
    closing bracket. *)
Fixpoint closes_nothing (t : jsstr) : bool :=
  match t with
  | [] => true
  | c :: t' =>
      (if c =? 44 then match trimStart t' with
                       | y :: _ => negb (y =? 93) && negb (y =? 125)
                       | [] => false
                       end
       else true) && closes_nothing t'
  end.

Definition label_ok (l : label) : Prop :=
  ws (l_before l) ∧ ws (l_colon l) ∧ ws (l_after l) ∧ string_lit (l_body l) (l_key l)
  ∧ closes_nothing (34 :: l_body l ++ [34]) = true.

Definition trail_ok (trail : option jsstr) : Prop :=
  match trail with Some t => ws t | None => True end.

Fixpoint doc_ok (d : doc) : Prop :=
  match d with
  | Word t v => word t v ∧ closes_nothing t = true
  | EmptyArr b | EmptyObj b => ws b
  | Arr es => elems_ok es
  | Obj ms => members_ok ms
  end
with elems_ok (es : elems) : Prop :=
  match es with
  | Elem a d b trail => ws a ∧ doc_ok d ∧ ws b ∧ trail_ok trail
  | Elems a d b es => ws a ∧ doc_ok d ∧ ws b ∧ elems_ok es
  end
with members_ok (ms : members) : Prop :=
  match ms with
  | Member l d b trail => label_ok l ∧ doc_ok d ∧ ws b ∧ trail_ok trail
  | Members l d b ms => label_ok l ∧ doc_ok d ∧ ws b ∧ members_ok ms
  end.

(** ** Literals in front of other text *)

Lemma parse_string_app t s u r : parse_string t = Some (s, u) → parse_string (t ++ r) = Some (s, u ++ r).
Proof.
  revert s u. induction t as [t IH] using (induction_ltof1 _ (@length N)); unfold ltof in IH.
  intros s u. destruct t as [|c t]; [done|]. cbn [app parse_string].
  destruct (c =? 34); [by intros [= <- <-]|]. destruct (c =? 92).
  - destruct t as [|e t]; [done|]. cbn [app]. destruct (e =? 117).
    + destruct t as [|h1 [|h2 [|h3 [|h4 t]]]]; try done. cbn [app].
      destruct (hex4_val h1 h2 h3 h4) as [x|]; [|done]. cbn [mbind option_bind].
      destruct (parse_string t) as [[s' u']|] eqn:Ep; [|done].
      rewrite (IH t ltac:(cbn; lia) _ _ Ep). cbn. by intros [= <- <-].
    + destruct (unescape e) as [x|]; [|done]. cbn [mbind option_bind].
      destruct (parse_string t) as [[s' u']|] eqn:Ep; [|done].
      rewrite (IH t ltac:(cbn; lia) _ _ Ep). cbn. by intros [= <- <-].
  - destruct (c <? 32); [done|]. destruct (parse_string t) as [[s' u']|] eqn:Ep; [|done].
    cbn [mbind option_bind]. rewrite (IH t ltac:(cbn; lia) _ _ Ep). cbn. by intros [= <- <-].
Qed.

Lemma read_digits_more t r d u :
  (∀ c, head r = Some c → is_digit c = false) → read_digits t = (d, u) → read_digits (t ++ r) = (d, u ++ r).
Proof.
  intros Hr. revert d. induction t as [|c t IH]; intros d; cbn [read_digits app].
  - intros [= <- <-]. destruct r as [|c r]; [done|]. cbn. by rewrite (Hr c eq_refl).
  - destruct (is_digit c); [|by intros [= <- <-]].
    destruct (read_digits t) as [d' u'] eqn:Ed. intros [= <- <-]. by rewrite (IH d' eq_refl).
Qed.

(** The literal patterns of the parser, as conditions. *)
Lemma parse_int_other c t : c ≠ 48 → parse_int (c :: t) = read_digits (c :: t).
Proof. intros H. unfold parse_int. repeat (case_match; try done). Qed.

Lemma parse_frac_other s : head s ≠ Some 46 → parse_frac s = Some ([], s).
Proof.
  intros H. destruct s as [|c s]; [done|]. cbn in H. unfold parse_frac.
  repeat (case_match; try done).
Qed.

Lemma parse_exp_other s : head s ≠ Some 101 → head s ≠ Some 69 → parse_exp s = Some (0%Z, s).
Proof.
  intros H1 H2. destruct s as [|c s]; [done|]. cbn in H1, H2. unfold parse_exp.
  repeat (case_match; try done).
Qed.

Lemma parse_exp_some c s : c = 101 ∨ c = 69 →
  parse_exp (c :: s) = let '(e, r) := read_exponent (c :: s) in
                       if bool_decide (r = c :: s) then None else Some (e, r).
Proof. by intros [->| ->]. Qed.

Definition sign_of (s : jsstr) : bool * jsstr :=
  match s with 45 :: t => (true, t) | 43 :: t => (false, t) | _ => (false, s) end.

Lemma sign_of_app s r : s ≠ [] → sign_of (s ++ r) = ((sign_of s).1, (sign_of s).2 ++ r).
Proof. destruct s as [|c s]; [done|]. intros _. cbn. repeat (case_match; try done). Qed.

Lemma read_exponent_more s r e u :
  (∀ c, head r = Some c → is_digit c = false) → read_exponent s = (e, u) → u ≠ s →
  read_exponent (s ++ r) = (e, u ++ r).
Proof.
  intros Hr. destruct s as [|c s]; [by intros [= <- <-]|]. cbn [app]. unfold read_exponent.
  change (match s with 45 :: t => (true, t) | 43 :: t => (false, t) | _ => (false, s) end)
    with (sign_of s).
  change (match s ++ r with 45 :: t => (true, t) | 43 :: t => (false, t) | _ => (false, s ++ r) end)
    with (sign_of (s ++ r)).
  destruct (_ || _); [|by intros [= <- <-]].
  destruct s as [|c' s]; [by intros [= <- <-]|]. rewrite sign_of_app by done.
  destruct (sign_of (c' :: s)) as [neg s'']. cbn [fst snd].
  destruct (read_digits s'') as [ds rest] eqn:Ed. rewrite (read_digits_more _ r _ _ Hr Ed).
  destruct ds; intros [= <- <-]; done.
Qed.

Lemma parse_exp_more s r e u :
  delim r → parse_exp s = Some (e, u) → parse_exp (s ++ r) = Some (e, u ++ r).
Proof.
  intros Hr H. destruct s as [|c s].
  { injection H as <- <-. apply parse_exp_other; cbn [app]; by delim_cases Hr. }
  destruct (decide (c = 101 ∨ c = 69)) as [Hc|Hc].
  - cbn [app]. rewrite parse_exp_some in H |- * by done. change (c :: s ++ r) with ((c :: s) ++ r).
    destruct (read_exponent (c :: s)) as [e' u'] eqn:Er.
    case_bool_decide as Hu; [done|]. injection H as <- <-.
    rewrite (read_exponent_more _ r _ _ ltac:(eauto using delim_not_digit) Er Hu).
    rewrite bool_decide_false; [done|]. by intros Hx%app_inv_tail.
  - rewrite parse_exp_other in H by (cbn; naive_solver). injection H as <- <-.
    apply parse_exp_other; cbn; naive_solver.
Qed.

Lemma parse_frac_more s r f u :
  delim r → parse_frac s = Some (f, u) → parse_frac (s ++ r) = Some (f, u ++ r).
Proof.
  intros Hr H. destruct (decide (head s = Some 46)) as [Hs|Hs].
  - destruct s as [|c s]; [done|]. cbn in Hs. injection Hs as ->. cbn [app parse_frac] in *.
    destruct (read_digits s) as [d u'] eqn:Ed.
    rewrite (read_digits_more _ r _ _ ltac:(eauto using delim_not_digit) Ed).
    case_bool_decide; [done|]. by injection H as <- <-.
  - rewrite parse_frac_other in H by done. injection H as <- <-. apply parse_frac_other.
    destruct s; [|done]. cbn [app]. by delim_cases Hr.
Qed.

Lemma parse_int_more s r i u :
  delim r → i ≠ [] → parse_int s = (i, u) → parse_int (s ++ r) = (i, u ++ r).
Proof.
  intros Hr Hi H. destruct s as [|c s]; [by injection H as <- <-|].
  destruct (decide (c = 48)) as [->|Hc]; [by injection H as <- <-|]. cbn [app].
  rewrite parse_int_other in H |- * by done.
  exact (read_digits_more _ r _ _ ltac:(eauto using delim_not_digit) H).
Qed.

Definition minus_of (s : jsstr) : bool * jsstr :=
  match s with 45 :: t => (true, t) | _ => (false, s) end.

Lemma minus_of_app s r : s ≠ [] → minus_of (s ++ r) = ((minus_of s).1, (minus_of s).2 ++ r).
Proof. destruct s as [|c s]; [done|]. intros _. cbn. repeat (case_match; try done). Qed.

(** A number of the grammar is read in front of anything that may follow it. *)
Lemma parse_number_more s r x :
  delim r → parse_number s = Some (x, []) → parse_number (s ++ r) = Some (x, r).
Proof.
  intros Hr H. assert (s ≠ []) as Hs by (intros ->; done). unfold parse_number in *.
  fold (minus_of s) in H. fold (minus_of (s ++ r)). rewrite minus_of_app by done.
  destruct (minus_of s) as [neg t]. cbn [fst snd].
  destruct (parse_int t) as [i u] eqn:Ei. case_bool_decide as Hi; [done|].
  rewrite (parse_int_more _ r _ _ Hr Hi Ei). rewrite bool_decide_false by done.
  destruct (parse_frac u) as [[f u']|] eqn:Ef; [|done]. cbn [mbind option_bind] in H.
  rewrite (parse_frac_more _ r _ _ Hr Ef). cbn [mbind option_bind].
  destruct (parse_exp u') as [[e u'']|] eqn:Ee; [|done]. cbn [mbind option_bind] in H.
  rewrite (parse_exp_more _ r _ _ Hr Ee). cbn [mbind option_bind].
  by injection H as <- ->.
Qed.

(** A number starts with a digit or a minus. *)
Lemma parse_number_head s x u : parse_number s = Some (x, u) →
  ∃ c t, s = c :: t ∧ (c = 45 ∨ is_digit c = true).
Proof.
  destruct s as [|c t]; [done|]. intros H. exists c, t. split; [done|].
  destruct (decide (c = 45)) as [->|Hc]; [by left|]. right.
  destruct (decide (c = 48)) as [->|Hc']; [done|]. unfold parse_number in H.
  fold (minus_of (c :: t)) in H.
  assert (minus_of (c :: t) = (false, c :: t)) as Hm by (cbn; repeat (case_match; try done)).
  rewrite Hm, parse_int_other in H by done. cbn [read_digits] in H.
  by destruct (is_digit c).
Qed.

(** ** Reading a text *)

Lemma skip_ws_ws b s : ws b → skip_ws (b ++ s) = skip_ws s.
Proof.
  induction 1 as [|c b Hc _ IH]; [done|]. cbn [app skip_ws].
  by destruct Hc as [->|[->|[->| ->]]].
Qed.

Lemma delim_ws b r : ws b → delim r → delim (b ++ r).
Proof.
  intros Hb Hr. destruct Hb as [|c b Hc _]; [done|]. right. exists c, (b ++ r). split; [done|]. lia.
Qed.

(** A text starts with a character that is no white space and no closing bracket. *)
Definition starts (t : jsstr) : Prop :=
  ∃ c t', t = c :: t' ∧ is_space c = false ∧ c ≠ 93 ∧ c ≠ 125.

Lemma starts_app t r : starts t → starts (t ++ r).
Proof. intros (c & t' & -> & H). by exists c, (t' ++ r). Qed.

Lemma skip_ws_starts t : starts t → skip_ws t = t.
Proof.
  intros (c & t' & -> & Hs & _). apply skip_ws_head; intros ->; discriminate Hs.
Qed.

Lemma word_starts t v : word t v → starts t.
Proof.
  intros [[-> _]|[[-> _]|[[-> _]|[(x & Hx & _)|(b & s & -> & _)]]]]; try by eexists _, _.
  apply parse_number_head in Hx as (c & t' & -> & [->|Hc%digit_cases]); [by eexists _, _|].
  exists c, t'. split; [done|]. by destruct_or!; subst c.
Qed.

Lemma doc_starts keep d : doc_ok d → starts (show keep d).
Proof. destruct d; [intros [H _]; by eapply word_starts|intros _; by eexists _, _..]. Qed.

Lemma label_starts l : label_ok l → ∃ t, label_text l = l_before l ++ 34 :: t.
Proof. intros _. unfold label_text. by eexists. Qed.

Lemma parse_word f t v r : word t v → delim r → parse_value (S f) (t ++ r) = Some (v, r).
Proof.
  intros Hw Hr. destruct Hw as [[-> ->]|[[-> ->]|[[-> ->]|[(x & Hx & ->)|(b & s & -> & Hb & ->)]]]];
    [done..| |].
  - pose proof (parse_number_more t r x Hr Hx) as Hp.
    apply parse_number_head in Hx as (c & t' & -> & Hc). cbn [app] in *. cbn [parse_value].
    destruct Hc as [->|Hc%digit_cases]; [by rewrite skip_ws_head, Hp by done|].
    by destruct_or!; subst c; rewrite skip_ws_head, Hp by done.
  - unfold string_lit in Hb. pose proof (parse_string_app _ _ _ r Hb) as Hp.
    cbn [app parse_value]. rewrite skip_ws_head by done. cbn [N.eqb Pos.eqb].
    by rewrite Hp.
Qed.

Lemma parse_elems_ws f b s : ws b → parse_elems f (b ++ s) = parse_elems f s.
Proof.
  intros Hb. destruct f; [done|]. cbn [parse_elems].
  by rewrite parse_value_ws by (by apply skip_ws_ws).
Qed.

(** A name and its value. *)
Lemma parse_label f acc l v t r :
  label_ok l → parse_value f (t ++ r) = Some (v, r) →
  parse_members (S f) acc (label_text l ++ t ++ r)
  = match skip_ws r with
    | 44 :: r => parse_members f (obj_set acc (l_key l) v) r
    | 125 :: r => Some (obj_set acc (l_key l) v, r)
    | _ => None
    end.
Proof.
  intros (Hb & Hc & Ha & Hk & _) Hv. unfold label_text. rewrite <- !app_assoc. cbn [parse_members].
  rewrite skip_ws_ws by done. cbn [app]. rewrite skip_ws_head by done. cbv iota.
  pose proof (parse_string_app _ _ _ (l_colon l ++ 58 :: l_after l ++ t ++ r) Hk) as Hp.
  cbn [app] in Hp. rewrite <- app_assoc in *. cbn [app] in *. rewrite Hp. cbn [mbind option_bind].
  rewrite skip_ws_ws by done. rewrite skip_ws_head by done. cbv iota.
  rewrite parse_value_ws by (by apply skip_ws_ws). rewrite Hv. done.
Qed.

Section Reading.
Context (keep : N → bool) (K93 : keep 93 = false) (K125 : keep 125 = false).

(** Texts without extra commas, with fuel for their length. *)
Definition reads_doc (d : doc) : Prop :=
  doc_ok d → ∀ f r, (length (show keep d) <= f)%nat → delim r →
  parse_value f (show keep d ++ r) = Some (value d, r).
Definition reads_elems (es : elems) : Prop :=
  elems_ok es → ∀ f r, (length (show_elems keep es) <= f)%nat →
  parse_elems f (show_elems keep es ++ r) = Some (values es, r).
Definition reads_members (ms : members) : Prop :=
  members_ok ms → ∀ acc f r, (length (show_members keep ms) <= f)%nat →
  parse_members f acc (show_members keep ms ++ r) = Some (fields acc ms, r).

Lemma no_trail k trail : keep k = false → trail_text (keep k) trail = [].
Proof. intros ->. by destruct trail. Qed.

Lemma elems_start es : elems_ok es → ∃ a t, show_elems keep es = a ++ t ∧ ws a ∧ starts t.
Proof.
  destruct es as [a d b trail|a d b es]; intros (Ha & Hd & _);
    (eexists a, _; split; [done|]; split; [done|]; by apply starts_app, doc_starts).
Qed.

Lemma members_start ms : members_ok ms → ∃ a t, show_members keep ms = a ++ 34 :: t ∧ ws a.
Proof.
  destruct ms as [l d b trail|l d b ms]; intros (Hl & _);
    (eexists (l_before l), _; split; [|apply Hl]);
    cbn [show_members]; unfold label_text; by rewrite <- !app_assoc.
Qed.

Lemma reads_arr es : reads_elems es → reads_doc (Arr es).
Proof.
  intros IH Hok f r Hf Hr. destruct f as [|f]; [cbn in Hf; lia|]. cbn [show app value parse_value].
  rewrite skip_ws_head by done. cbn [N.eqb Pos.eqb].
  rewrite IH by (done || cbn in Hf; lia).
  destruct (elems_start es Hok) as (a & t & -> & Ha & Ht). rewrite <- app_assoc, skip_ws_ws by done.
  rewrite skip_ws_starts by (by apply starts_app). destruct Ht as (c & t' & -> & _ & H93 & _).
  cbn [app mbind option_bind]. by repeat (case_match; try done).
Qed.

Lemma reads_obj ms : reads_members ms → reads_doc (Obj ms).
Proof.
  intros IH Hok f r Hf Hr. destruct f as [|f]; [cbn in Hf; lia|]. cbn [show app value parse_value].
  rewrite skip_ws_head by done. cbn [N.eqb Pos.eqb].
  rewrite IH by (done || cbn in Hf; lia).
  destruct (members_start ms Hok) as (a & t & -> & Ha). rewrite <- app_assoc, skip_ws_ws by done.
  cbn [app]. by rewrite skip_ws_head by done.
Qed.

Lemma delim_close c r : c = 44 ∨ c = 93 ∨ c = 125 → delim (c :: r).
Proof. intros H. right. exists c, r. split; [done|]. lia. Qed.

Lemma reads_empty (b : jsstr) f r : ws b → delim r →
  parse_value (S f) ((91 :: b ++ [93]) ++ r) = Some (JArr [], r)
  ∧ parse_value (S f) ((123 :: b ++ [125]) ++ r) = Some (JObj [], r).
Proof.
  intros Hb Hr. cbn [app parse_value]. rewrite <- !app_assoc, !skip_ws_head by done.
  cbn [N.eqb Pos.eqb app]. rewrite !skip_ws_ws by done. by rewrite !skip_ws_head.
Qed.

(** An element, up to what follows it. *)
Lemma parse_elem f a d b c r :
  reads_doc d → doc_ok d → ws a → ws b → (length (show keep d) <= f)%nat → c = 44 ∨ c = 93 →
  parse_elems (S f) (a ++ show keep d ++ b ++ c :: r)
  = if c =? 44 then '(l, r) ← parse_elems f r; Some (value d :: l, r) else Some ([value d], r).
Proof.
  intros IH Hd Ha Hb Hf Hc. rewrite parse_elems_ws by done. cbn [parse_elems].
  rewrite IH; [|done|done|apply delim_ws, delim_close; [done|lia]].
  cbn [mbind option_bind]. rewrite skip_ws_ws by done.
  by destruct Hc as [->| ->]; rewrite skip_ws_head.
Qed.

(** A member, up to what follows it. *)
Lemma parse_member f acc l d b c r :
  reads_doc d → doc_ok d → label_ok l → ws b → (length (show keep d) <= f)%nat → c = 44 ∨ c = 125 →
  parse_members (S f) acc (label_text l ++ show keep d ++ b ++ c :: r)
  = let acc' := obj_set acc (l_key l) (value d) in
    if c =? 44 then parse_members f acc' r else Some (acc', r).
Proof.
  intros IH Hd Hl Hb Hf Hc. rewrite (parse_label f acc l (value d)); [|done|].
  2: { apply IH; [done|done|]. apply delim_ws, delim_close; [done|lia]. }
  rewrite skip_ws_ws by done. by destruct Hc as [->| ->]; rewrite skip_ws_head.
Qed.

Lemma reads_texts : (∀ d, reads_doc d) ∧ (∀ es, reads_elems es) ∧ (∀ ms, reads_members ms).
Proof.
  apply docs_ind; try (intros b Hb [|f] r Hf Hr; [cbn in Hf; lia|by apply reads_empty]).
  - intros t v [Hw _] f r Hf Hr. destruct (word_starts t v Hw) as (c & t' & -> & _).
    destruct f; [cbn in Hf; lia|]. by apply parse_word.
  - apply reads_arr.
  - apply reads_obj.
  - intros a d IH b trail (Ha & Hd & Hb & _) [|f] r Hf; cbn [show_elems values] in *;
      rewrite no_trail in * by done; cbn [app] in *; rewrite !length_app in Hf; cbn [length] in Hf; [lia|].
    rewrite <- !app_assoc. cbn [app]. by rewrite parse_elem by (done || lia).
  - intros a d IH b es IHes (Ha & Hd & Hb & Hes) [|f] r Hf; cbn [show_elems values] in *;
      rewrite !length_app in Hf; cbn [length] in Hf; [lia|].
    rewrite <- !app_assoc. cbn [app]. rewrite parse_elem by (done || lia). cbn [N.eqb Pos.eqb].
    by rewrite IHes by (done || lia).
  - intros l d IH b trail (Hl & Hd & Hb & _) acc [|f] r Hf; cbn [show_members fields] in *;
      rewrite no_trail in * by done; cbn [app] in *; rewrite !length_app in Hf; cbn [length] in Hf; [lia|].
    rewrite <- !app_assoc. cbn [app]. by rewrite parse_member by (done || lia).
  - intros l d IH b ms IHms (Hl & Hd & Hb & Hms) acc [|f] r Hf; cbn [show_members fields] in *;
      rewrite !length_app in Hf; cbn [length] in Hf; [lia|].
    rewrite <- !app_assoc. cbn [app]. rewrite parse_member by (done || lia). cbn [N.eqb Pos.eqb].
    by rewrite IHms by (done || lia).
Qed.

(** [JSON.parse] of a text without extra commas. *)
Lemma parse_show d : doc_ok d → parse (show keep d) = Some (value d).
Proof.
  intros Hd. unfold parse. destruct reads_texts as [H _].
  specialize (H d Hd (S (length (show keep d))) [] ltac:(lia) ltac:(by left)).
  rewrite app_nil_r in H. by rewrite H.
Qed.
End Reading.
