(* ===== verification/Bytes.v ===== *)
(** * Buffers: UTF-8, base64, base64url, hex

    The encodings of Node's [Buffer] the program uses.  Bytes are [N] below
    256.  The decoders accept what Node accepts (both base64 alphabets, other
    characters skipped, malformed UTF-8 replaced by U+FFFD); the round trips
    are the facts the wallet store and the tokens rely on. *)

From S2P Require Import Prelude JsString.

Local Open Scope N_scope.

Abbreviation bytes := (list N).

Definition bytes_ok (bs : bytes) : Prop := Forall (λ b, b < 256) bs.
Definition ascii_ok (s : jsstr) : Prop := Forall (λ c, c < 128) s.

(** ** UTF-8 *)

Definition utf8_char (c : N) : bytes :=
  if c <? 128 then [c]
  else if c <? 2048 then [192 + c / 64; 128 + c mod 64]
  else if c <? 65536 then [224 + c / 4096; 128 + c / 64 mod 64; 128 + c mod 64]
  else [240 + c / 262144; 128 + c / 4096 mod 64; 128 + c / 64 mod 64; 128 + c mod 64].

(** [Buffer.from(s)]: surrogate pairs are combined, lone ones replaced. *)
Fixpoint utf8_encode (s : jsstr) : bytes :=
  match s with
  | [] => []
  | c :: s' =>
      if (55296 <=? c) && (c <=? 56319) then
        match s' with
        | d :: s'' =>
            if (56320 <=? d) && (d <=? 57343) then
              utf8_char (65536 + (c - 55296) * 1024 + (d - 56320)) ++ utf8_encode s''
            else utf8_char 65533 ++ utf8_encode s'
        | [] => utf8_char 65533
        end
      else if (56320 <=? c) && (c <=? 57343) then utf8_char 65533 ++ utf8_encode s'
      else utf8_char c ++ utf8_encode s'
  end.

Definition in_range (lo hi b : N) : bool := (lo <=? b) && (b <=? hi).

(** Bounds of the second byte of a sequence starting with [b]. *)
Definition second_lo (b : N) : N :=
  if b =? 224 then 160 else if b =? 240 then 144 else 128.
Definition second_hi (b : N) : N :=
  if b =? 237 then 159 else if b =? 244 then 143 else 191.

(** [buf.toString()]: malformed sequences become U+FFFD. *)
Fixpoint utf8_decode (bs : bytes) : jsstr :=
  match bs with
  | [] => []
  | b :: r =>
      if b <? 128 then b :: utf8_decode r
      else if in_range 194 223 b then
        match r with
        | c :: r' =>
            if in_range 128 191 c then ((b - 192) * 64 + (c - 128)) :: utf8_decode r'
            else 65533 :: utf8_decode r
        | [] => [65533]
        end
      else if in_range 224 239 b then
        match r with
        | c :: ((d :: r'') as r') =>
            if in_range (second_lo b) (second_hi b) c then
              if in_range 128 191 d then
                ((b - 224) * 4096 + (c - 128) * 64 + (d - 128)) :: utf8_decode r''
              else 65533 :: utf8_decode r'
            else 65533 :: utf8_decode r
        | [c] =>
            if in_range (second_lo b) (second_hi b) c then [65533]
            else 65533 :: utf8_decode r
        | [] => [65533]
        end
      else if in_range 240 244 b then
        match r with
        | c :: ((d :: ((e :: r''') as r'')) as r') =>
            if in_range (second_lo b) (second_hi b) c then
              if in_range 128 191 d then
                if in_range 128 191 e then
                  let cp := (b - 240) * 262144 + (c - 128) * 4096
                            + (d - 128) * 64 + (e - 128) - 65536 in
                  (55296 + cp / 1024) :: (56320 + cp mod 1024) :: utf8_decode r'''
                else 65533 :: utf8_decode r''
              else 65533 :: utf8_decode r'
            else 65533 :: utf8_decode r
        | c :: (([d]) as r') =>
            if in_range (second_lo b) (second_hi b) c then
              if in_range 128 191 d then [65533] else 65533 :: utf8_decode r'
            else 65533 :: utf8_decode r
        | [c] =>
            if in_range (second_lo b) (second_hi b) c then [65533]
            else 65533 :: utf8_decode r
        | [] => [65533]
        end
      else 65533 :: utf8_decode r
  end.

(** ** Base64 *)

Definition b64_unit (url : bool) (d : N) : N :=
  if d <? 26 then d + 65
  else if d <? 52 then d + 71
  else if d <? 62 then d - 4
  else if d =? 62 then (if url then 45 else 43)
  else (if url then 95 else 47).

(** A character of either alphabet. *)
Definition b64_val (c : N) : option N :=
  if is_upper c then Some (c - 65)
  else if is_lower c then Some (c - 71)
  else if is_digit c then Some (c + 4)
  else if (c =? 43) || (c =? 45) then Some 62
  else if (c =? 47) || (c =? 95) then Some 63
  else None.

Definition pad (url : bool) (n : nat) : jsstr := if url then [] else replicate n 61.

(** [buf.toString('base64')] and [buf.toString('base64url')]. *)
Fixpoint b64_encode (url : bool) (bs : bytes) : jsstr :=
  match bs with
  | a :: b :: c :: r =>
      b64_unit url (a / 4) :: b64_unit url (a mod 4 * 16 + b / 16)
      :: b64_unit url (b mod 16 * 4 + c / 64) :: b64_unit url (c mod 64)
      :: b64_encode url r
  | [a; b] =>
      [b64_unit url (a / 4); b64_unit url (a mod 4 * 16 + b / 16);
       b64_unit url (b mod 16 * 4)] ++ pad url 1
  | [a] => [b64_unit url (a / 4); b64_unit url (a mod 4 * 16)] ++ pad url 2
  | [] => []
  end.

Fixpoint b64_bytes (ds : list N) : bytes :=
  match ds with
  | a :: b :: c :: d :: r =>
      (a * 4 + b / 16) :: (b mod 16 * 16 + c / 4) :: (c mod 4 * 64 + d) :: b64_bytes r
  | [a; b; c] => [a * 4 + b / 16; b mod 16 * 16 + c / 4]
  | [a; b] => [a * 4 + b / 16]
  | _ => []
  end.

(** [Buffer.from(s, 'base64')]; characters outside the alphabets are skipped. *)
Definition b64_decode (s : jsstr) : bytes := b64_bytes (omap b64_val s).

(** ** Hex *)

(** [Buffer.from(s, 'hex')]: stops at the first pair that is not hex. *)
Definition hex_val (c : N) : option N :=
  if is_digit c then Some (c - 48)
  else if in_range 97 102 c then Some (c - 87)
  else if in_range 65 70 c then Some (c - 55)
  else None.

Fixpoint hex_decode (s : jsstr) : bytes :=
  match s with
  | a :: b :: r =>
      match hex_val a, hex_val b with
      | Some x, Some y => (x * 16 + y) :: hex_decode r
      | _, _ => []
      end
  | _ => []
  end.

Definition hex_char (d : N) : N := if d <? 10 then d + 48 else d + 87.

(** [buf.toString('hex')] *)
Definition hex_encode (bs : bytes) : jsstr :=
  concat (map (λ b, [hex_char (b / 16); hex_char (b mod 16)]) bs).

(** ** Facts *)

Lemma utf8_encode_ascii s : ascii_ok s → utf8_encode s = s.
Proof.
  induction 1 as [|c s Hc _ IH]; [done|]. cbn [utf8_encode].
  replace ((55296 <=? c) && (c <=? 56319)) with false.
  2: { symmetry. apply andb_false_iff; left. apply N.leb_gt. lia. }
  replace ((56320 <=? c) && (c <=? 57343)) with false.
  2: { symmetry. apply andb_false_iff; left. apply N.leb_gt. lia. }
  unfold utf8_char. apply N.ltb_lt in Hc as ->. cbn. by rewrite IH.
Qed.

Lemma utf8_decode_ascii s : ascii_ok s → utf8_decode s = s.
Proof.
  induction 1 as [|c s Hc _ IH]; [done|]. cbn [utf8_decode].
  apply N.ltb_lt in Hc as ->. by rewrite IH.
Qed.

(** The 64 digits, checked one by one. *)
Lemma b64_unit_val url d : d < 64 → b64_val (b64_unit url d) = Some d.
Proof.
  apply (N_below_forall (λ d, b64_val (b64_unit url d) = Some d) 64).
  destruct url; vm_compute; by repeat constructor.
Qed.

Lemma b64_unit_alphabet d : d < 64 →
  is_word (b64_unit true d) || (b64_unit true d =? 45) = true.
Proof.
  apply (N_below_forall (λ d, is_word (b64_unit true d) || (b64_unit true d =? 45) = true) 64).
  vm_compute; by repeat constructor.
Qed.

Lemma omap_pad url n : omap b64_val (pad url n) = [].
Proof. destruct url; [done|]. by induction n. Qed.

Lemma b64_group a b c :
  a < 256 → b < 256 → c < 256 →
  let s0 := a / 4 in let s1 := a mod 4 * 16 + b / 16 in
  let s2 := b mod 16 * 4 + c / 64 in let s3 := c mod 64 in
  (s0 < 64 ∧ s1 < 64 ∧ s2 < 64 ∧ s3 < 64) ∧
  s0 * 4 + s1 / 16 = a ∧ s1 mod 16 * 16 + s2 / 4 = b ∧ s2 mod 4 * 64 + s3 = c.
Proof.
  intros Ha Hb Hc s0 s1 s2 s3. subst s0 s1 s2 s3.
  repeat split; div_lia.
Qed.

Lemma bytes_ind3 (P : bytes → Prop) :
  P [] → (∀ a, P [a]) → (∀ a b, P [a; b]) →
  (∀ a b c r, P r → P (a :: b :: c :: r)) → ∀ l, P l.
Proof.
  intros H0 H1 H2 H3 l. induction l as [l IH] using (induction_ltof1 _ (@length N)).
  unfold ltof in IH. destruct l as [|a [|b [|c r]]]; [done..|].
  apply H3, IH. cbn. lia.
Qed.

Lemma b64_roundtrip url bs : bytes_ok bs → b64_decode (b64_encode url bs) = bs.
Proof.
  unfold b64_decode. induction bs as [|a|a b|a b c r IH] using bytes_ind3; intros Hok.
  - done.
  - apply Forall_cons in Hok as [Ha _].
    destruct (b64_group a 0 0 Ha ltac:(done) ltac:(done)) as ((H0 & H1 & _) & E0 & _).
    rewrite N.Div0.div_0_l, N.add_0_r in *. cbn [b64_encode app omap list_omap].
    rewrite !b64_unit_val by done. cbn [omap list_omap].
    setoid_rewrite omap_pad. cbn. by rewrite E0.
  - apply Forall_cons in Hok as [Ha [Hb _]%Forall_cons].
    destruct (b64_group a b 0 Ha Hb ltac:(done)) as ((H0 & H1 & H2 & _) & E0 & E1 & _).
    rewrite N.Div0.div_0_l, N.add_0_r in *. cbn [b64_encode app omap list_omap].
    rewrite !b64_unit_val by done. cbn [omap list_omap].
    setoid_rewrite omap_pad. cbn. by rewrite E0, E1.
  - apply Forall_cons in Hok as [Ha [Hb [Hc Hr]%Forall_cons]%Forall_cons].
    destruct (b64_group a b c Ha Hb Hc) as ((H0 & H1 & H2 & H3) & E0 & E1 & E2).
    cbn [b64_encode omap list_omap]. rewrite !b64_unit_val by done.
    cbn [b64_bytes]. rewrite E0, E1, E2. f_equal. f_equal. f_equal. by apply IH.
Qed.

(** What base64url prints is free of dots, so a token splits into its parts. *)
Lemma b64url_no_dot bs : bytes_ok bs → Forall (λ c, c ≠ 46) (b64_encode true bs).
Proof.
  assert (∀ d, d < 64 → b64_unit true d ≠ 46) as Hu.
  { intros d Hd E. pose proof (b64_unit_alphabet d Hd) as H. by rewrite E in H. }
  induction bs as [|a|a b|a b c r IH] using bytes_ind3; intros Hok; cbn [b64_encode].
  - constructor.
  - apply Forall_cons in Hok as [Ha _].
    destruct (b64_group a 0 0 Ha ltac:(done) ltac:(done)) as ((H0 & H1 & _) & _).
    rewrite N.Div0.div_0_l, N.add_0_r in *. repeat constructor; auto.
  - apply Forall_cons in Hok as [Ha [Hb _]%Forall_cons].
    destruct (b64_group a b 0 Ha Hb ltac:(done)) as ((H0 & H1 & H2 & _) & _).
    rewrite N.Div0.div_0_l, N.add_0_r in *. repeat constructor; auto.
  - apply Forall_cons in Hok as [Ha [Hb [Hc Hr]%Forall_cons]%Forall_cons].
    destruct (b64_group a b c Ha Hb Hc) as ((H0 & H1 & H2 & H3) & _).
    repeat constructor; auto.
Qed.

Lemma hex_encode_length bs : length (hex_encode bs) = (2 * length bs)%nat.
Proof. unfold hex_encode. induction bs; cbn in *; [done|]. lia. Qed.
