(* ===== verification/Assoc.v ===== *)
(** * Objects and maps with string keys

    A JavaScript object or [Map] as an association list in insertion order:
    reading, writing and deleting a key. *)

From S2P Require Import Prelude JsString.

Section Assoc.
Context {V : Type}.

(** [m.get(k)] *)
Fixpoint kv_lookup (l : list (jsstr * V)) (k : jsstr) : option V :=
  match l with
  | [] => None
  | (g, v) :: l => if bool_decide (g = k) then Some v else kv_lookup l k
  end.

(** [delete m.k] *)
Definition kv_delete (l : list (jsstr * V)) (k : jsstr) : list (jsstr * V) :=
  filter (λ kv, kv.1 ≠ k) l.

(** [m.set(k, v)]; an existing key keeps its place. *)
Fixpoint kv_set (l : list (jsstr * V)) (k : jsstr) (v : V) : list (jsstr * V) :=
  match l with
  | [] => [(k, v)]
  | (g, x) :: l => if bool_decide (g = k) then (g, v) :: l else (g, x) :: kv_set l k v
  end.

(** ** Facts *)

Lemma kv_lookup_Some (l : list (jsstr * V)) f v :
  NoDup l.*1 → kv_lookup l f = Some v ↔ (f, v) ∈ l.
Proof.
  induction l as [|[g x] l IH]; intros Hnd; cbn; [set_solver|].
  apply NoDup_cons in Hnd as [Hg Hnd]. rewrite elem_of_cons.
  case_bool_decide as Hgf.
  - subst g. split; [naive_solver|]. intros [[= ->]|Hin]; [done|].
    exfalso. apply Hg. cbn. apply list_elem_of_fmap. by exists (f, v).
  - rewrite IH by done. naive_solver.
Qed.

Lemma kv_lookup_not_in (l : list (jsstr * V)) f : f ∉ l.*1 → kv_lookup l f = None.
Proof.
  induction l as [|[g x] l IH]; intros Hf; cbn in *; [done|].
  apply not_elem_of_cons in Hf as [? ?]. rewrite bool_decide_false by done. auto.
Qed.

Lemma kv_lookup_delete (l : list (jsstr * V)) k f :
  kv_lookup (kv_delete l k) f = if bool_decide (f = k) then None else kv_lookup l f.
Proof.
  unfold kv_delete. induction l as [|[g x] l IH]; [by case_bool_decide|].
  rewrite filter_cons. destruct (decide _) as [Hg|Hg]; cbn [fst kv_lookup] in *.
  - rewrite IH. repeat case_bool_decide; congruence.
  - apply dec_stable in Hg. rewrite IH. repeat case_bool_decide; congruence.
Qed.

Lemma kv_lookup_set (l : list (jsstr * V)) k v f :
  kv_lookup (kv_set l k v) f = if bool_decide (f = k) then Some v else kv_lookup l f.
Proof.
  induction l as [|[g x] l IH]; cbn.
  - repeat case_bool_decide; congruence.
  - destruct (bool_decide_reflect (g = k)); cbn; [|rewrite IH];
      repeat case_bool_decide; congruence.
Qed.

Lemma kv_delete_nodup (l : list (jsstr * V)) k : NoDup l.*1 → NoDup (kv_delete l k).*1.
Proof.
  unfold kv_delete. induction l as [|[g x] l IH]; [done|]. rewrite fmap_cons.
  intros [Hg Hnd]%NoDup_cons. rewrite filter_cons. destruct (decide _); [|by apply IH].
  rewrite fmap_cons. apply NoDup_cons. split; [|by apply IH]. intros Hin. apply Hg.
  apply list_elem_of_fmap in Hin as ([g' x'] & -> & Hin). apply list_elem_of_fmap.
  apply list_elem_of_filter in Hin as [_ Hin]. by exists (g', x').
Qed.

Lemma kv_set_keys (l : list (jsstr * V)) k v g : g ∈ (kv_set l k v).*1 → g = k ∨ g ∈ l.*1.
Proof.
  induction l as [|[g' x] l IH]; cbn; [set_solver|].
  destruct (bool_decide_reflect (g' = k)); cbn; set_solver.
Qed.

Lemma kv_set_nodup (l : list (jsstr * V)) k v : NoDup l.*1 → NoDup (kv_set l k v).*1.
Proof.
  induction l as [|[g x] l IH]; cbn.
  - intros _. apply NoDup_singleton.
  - intros [Hg Hnd]%NoDup_cons. destruct (bool_decide_reflect (g = k)) as [|Hk]; cbn; apply NoDup_cons; [done|].
    split; [|by apply IH]. intros [->|Hin]%kv_set_keys; done.
Qed.

End Assoc.

#[export] Hint Resolve kv_delete_nodup kv_set_nodup : js.
