(* ===== verification/Effects.v ===== *)
(** * Effects: errors, the clock, Redis, the network

    A handler of the program is a [prog A]: a function from the [world] to a
    result and a new world.  The result is a value, a thrown error or
    [process.exit].  The world holds what outlives one handler: the clock, the
    Redis keyspace, the module-level variables of the process and the log of
    what the process did to the outside.

    What is outside the repository is a parameter: [Env] is the environment the
    process runs in (its variables, the time that passes, the answers of the
    RPC node, of HTTP servers and of Redis when it rejects a command), and
    [RedisEntry] is the documented behaviour of the Redis commands on the value
    at one key, with its laws.  Answers are indexed by the number of external
    interactions so far, so they may differ from call to call. *)

From S2P Require Import Prelude JsString JsNum Json Bytes Assoc.

(** ** Errors and results *)

Inductive exn_kind :=
  | KError | KTypeError | KReferenceError | KSyntaxError | KRangeError | KURIError
  | KExternal   (* rejected by a library or a service *)
  | KUndefined. (* [throw undefined] *)

Record exn := Exn { kind : exn_kind; message : jsstr }.

Definition Error (msg : jsstr) : exn := Exn KError msg.

Inductive result (A : Type) :=
  | Ok (a : A)
  | Throw (e : exn)
  | Exit (code : Z).
Arguments Ok {A} _.
Arguments Throw {A} _.
Arguments Exit {A} _.

(** ** Redis *)

(** The value at one key: the commands the program issues, on an abstract
    entry.  Times are milliseconds, expiries seconds, as in the protocol. *)
Class RedisEntry (E : Type) := {
  e_none : E;                                       (* no such key *)
  e_get : Z → E → option jsstr;                     (* GET at a time *)
  e_set : Z → jsstr → option Z → E;                 (* SET, or SETEX *)
  e_incr : Z → E → E;                               (* INCR *)
  e_expire : Z → Z → E → E;                         (* EXPIRE *)
  e_hset : list (jsstr * jsstr) → E → E;            (* HSET *)
  e_hget : jsstr → E → option jsstr;                (* HGET *)
  e_hgetall : E → list (jsstr * jsstr);             (* HGETALL *)
  e_sadd : jsstr → E → E;                           (* SADD *)
  e_smembers : E → list jsstr;                      (* SMEMBERS *)
  e_xadd : Z → list (jsstr * jsstr) → E → E;        (* XADD key * *)
  e_stream : Z → E → list (list (jsstr * jsstr));   (* XREVRANGE key + - *)
  e_expiry : Z → E → option Z;                      (* when the key expires *)
}.

(** The documented behaviour the program relies on. *)
Class RedisLaws (E : Type) `{RedisEntry E} := {
  get_none now : e_get now e_none = None;
  get_set now now' v : e_get now (e_set now' v None) = Some v;
  get_setex now now' v ttl :
    e_get now (e_set now' v (Some ttl))
    = if (now <? now' + 1000 * ttl)%Z then Some v else None;
  hget_none f : e_hget f e_none = None;
  hget_hset f kvs e :
    NoDup kvs.*1 →
    e_hget f (e_hset kvs e) = match kv_lookup kvs f with
                              | Some v => Some v
                              | None => e_hget f e
                              end;
  hgetall_lookup f e : kv_lookup (e_hgetall e) f = e_hget f e;
  hgetall_nodup e : NoDup (e_hgetall e).*1;
  smembers_none : e_smembers e_none = [];
  smembers_sadd x y e : x ∈ e_smembers (e_sadd y e) ↔ x = y ∨ x ∈ e_smembers e;
  smembers_nodup e : NoDup (e_smembers e);
  stream_none now : e_stream now e_none = [];
  expiry_none now : e_expiry now e_none = None;
  expiry_expire now now' ttl e t :
    e_expiry now' (e_expire now ttl e) = Some t → t = (now + 1000 * ttl)%Z;
  expiry_xadd now now' kvs e t :
    e_expiry now' (e_xadd now kvs e) = Some t → e_expiry now e = Some t;
  stream_xadd now now' kvs e :
    (now <= now')%Z → (∀ t, e_expiry now e = Some t → (now' < t)%Z) →
    e_stream now' (e_xadd now kvs e) = kvs :: e_stream now e;
  stream_expire now now' ttl e :
    (now <= now')%Z →
    e_stream now' (e_expire now ttl e)
    = if (now' <? now + 1000 * ttl)%Z then e_stream now e else [];
}.

(** ** The environment *)

(** HTTP requests of the program and their answers. *)
Record request := Request { url : jsstr; method : jsstr; body : option jsstr }.
Record response := Response { res_ok : bool; statusText : jsstr; res_text : jsstr }.

(** A Solana key pair: the address in base58 and the 64 secret bytes. *)
Record keypair := Keypair { publicKey : jsstr; secretKey : bytes }.

(** The JSON-RPC queries. *)
Inductive rpc_call :=
  | GetBalance (owner : jsstr)
  | GetParsedAccountInfo (mint : jsstr)
  | GetParsedTokenAccountsByOwner (owner : jsstr)
  | GetLatestBlockhash.

(** What a launchpad pool is created with. *)
Record platform_config := PlatformConfig {
  pc_owner : jsstr; feeRate : Z; creatorScale : Z; platformScale : Z; burnScale : Z
}.

Record pool_params := PoolParams {
  tokenAMint : jsstr; tokenBMint : jsstr; pool_decimals : option json; supply : option json;
  totalSellA : option json; totalFundRaisingB : option json; totalLockedAmount : option json;
  cliffPeriod : option json; unlockPeriod : option json; startTime : json;
  platformID : jsstr; platformFeeRate : Z; migrateType : jsstr; curveType : option json
}.

(** A transaction of the program: an SPL [TransferChecked], the swap transaction
    Jupiter built, signed by the user, and those of a token launch.  The chain
    answers with what the library call returns: the address of a new mint or
    account, or a signature. *)
Inductive transaction :=
  | TransferChecked (source mint destination owner : jsstr) (amount : num)
      (decimals : option json)
  | SwapTx (raw : bytes) (signer : jsstr)
  | CreateMint (payer authority : jsstr) (decimals : option json)
  | CreateAccount (payer mint owner : jsstr)
  | MintTo (payer mint destination authority : jsstr) (amount : num)
  | LaunchpadPool (payer : jsstr) (params : pool_params) (config : platform_config)
      (programId : jsstr)
  | LaunchpadBuy (payer poolId account programId : jsstr) (amountB : option json)
  | LaunchpadSell (payer poolId account programId : jsstr) (amountA : option json).

(** Calls of the Telegram client; a menu is its rows of labels and callback data. *)
Definition menu : Type := list (list (jsstr * jsstr)).

Inductive tg_call :=
  | AnswerCbQuery
  | EditMessageText (chat msg text : jsstr) (m : menu)
  | TgReply (text : jsstr) (m : menu)
  | ReplyWithPhoto (url : option json) (caption : jsstr) (m : menu)
  | SendMessage (chat text : jsstr).

Class Env := {
  env_var : jsstr → option jsstr;               (* process.env *)
  elapsed : nat → N;                            (* milliseconds of one interaction *)
  redis_fault : nat → option exn;               (* Redis rejects the command *)
  fetch_answer : nat → request → exn + response;
  rpc_answer : nat → rpc_call → exn + json;
  account_answer : nat → jsstr → exn + option bytes; (* getAccountInfo: the data *)
  send_answer : nat → transaction → exn + jsstr;
  random_answer : nat → nat → bytes;            (* crypto.randomBytes *)
  generate_answer : nat → keypair;              (* Keypair.generate() *)
  fromSecretKey : bytes → exn + keypair;        (* Keypair.fromSecretKey *)
  publicKey_fault : jsstr → option exn;         (* new PublicKey(s) *)
  ata_address : jsstr → jsstr → exn + jsstr;    (* getAssociatedTokenAddressSync *)
  transfer_fault : num → option json → option exn;
                                 (* createTransferCheckedInstruction: amount, decimals *)
  sign_fault : option json → option exn;        (* tx.sign, by recentBlockhash *)
  tx_sign : bytes → jsstr → option exn;
                                 (* Transaction.from, partialSign by a key, serialize *)
  js_pow10 : num → num;                         (* 10 ** x, implementation-approximated *)
  client_has : jsstr → bool;                    (* methods of the Redis client object *)
  gcm_seal : bytes → bytes → bytes → bytes * bytes;
                                 (* AES-256-GCM: key, iv, plaintext; ciphertext and tag *)
  gcm_open : bytes → bytes → bytes → bytes → exn + bytes;
                                 (* key, iv, tag, ciphertext; fails on a wrong tag *)
  hmac_sha256 : bytes → bytes → bytes;          (* key, data *)
  hkdf_sha256 : bytes → bytes → exn + bytes;    (* secret, info; empty salt, 32 bytes *)
  csurf_fault : jsstr → option jsstr → json → option jsstr → json → list (jsstr * jsstr) →
                option exn;
       (* the csurf middleware: method, secret cookie, body, x-csrf-token, query, other headers *)
}.

(** The documented behaviour of Node's [crypto] and of [Keypair] the program
    relies on. *)
Class EnvLaws `{EN : Env} := {
  random_length n k : length (random_answer n k) = k;
  random_bytes n k : bytes_ok (random_answer n k);
  seal_bytes key iv p : bytes_ok (gcm_seal key iv p).1 ∧ bytes_ok (gcm_seal key iv p).2;
  seal_tag key iv p : length (gcm_seal key iv p).2 = 16%nat;
  open_seal key iv p :
    length key = 32%nat → length iv = 12%nat → bytes_ok p →
    gcm_open key iv (gcm_seal key iv p).2 (gcm_seal key iv p).1 = inr p;
  generate_secret n :
    length (secretKey (generate_answer n)) = 64%nat
    ∧ bytes_ok (secretKey (generate_answer n))
    ∧ fromSecretKey (secretKey (generate_answer n)) = inr (generate_answer n);
  hmac_length key d : length (hmac_sha256 key d) = 32%nat;
  hmac_bytes key d : bytes_ok (hmac_sha256 key d);
}.

(** ** The world *)

(** A user as [commands.js] keeps it in memory. *)
Record user := User {
  wallet : keypair;
  sol : num;
  tierBal : num;
  auto : bool;
  risk : jsstr;
}.

(** What the process does to the outside, in order. *)
Inductive event :=
  | Publish (channel msg : jsstr)
  | Enqueue (queue name : jsstr) (payload : json)
  | Send (tx : transaction)
  | Fetch (r : request)
  | Reply (text : jsstr)
  | Watch (account handle : jsstr)
  | Telegram (c : tg_call)
  | Exec (cmd : jsstr)                  (* a shell command or a child process *)
  | WriteFile (path text : jsstr)
  | Login (credentials : list (option jsstr))
  | Tweet (text : jsstr) (media : list (bytes * jsstr))
  | DirectMessage (userId text : jsstr)
  | Unhandled (e : exn)  (* a promise nobody awaits was rejected *)
  | WillExit (code : Z). (* a promise nobody awaits calls [process.exit] *)

(** The exit code of a process that ends apart from the handler that is running: Node
    ends it with code 1 when a rejection goes unhandled, as no process of the program
    installs a handler for that. *)
Definition ends_process (ev : event) : option Z :=
  match ev with
  | Unhandled _ => Some 1%Z
  | WillExit c => Some c
  | _ => None
  end.

Record world (E : Type) := World {
  now : Z;                       (* wall clock, milliseconds *)
  tick : nat;                    (* external interactions so far *)
  redis : gmap jsstr E;          (* the keyspace *)
  hp : num;                      (* firewall.js *)
  lastIncident : Z;              (* firewall.js *)
  users : list (jsstr * user);   (* commands.js *)
  decimalsCache : gmap jsstr json; (* utils-solana.js *)
  subscribed : list jsstr;       (* utils-solana.js *)
  awaitingManual : list jsstr;   (* telegram-client.js *)
  lastConfigs : list (jsstr * json); (* telegram-client.js *)
  log : list event;              (* newest last *)
}.
Arguments World {E}.
Arguments now {E}.
Arguments tick {E}.
Arguments redis {E}.
Arguments hp {E}.
Arguments lastIncident {E}.
Arguments users {E}.
Arguments decimalsCache {E}.
Arguments subscribed {E}.
Arguments awaitingManual {E}.
Arguments lastConfigs {E}.
Arguments log {E}.

Section Updates.
Context {E : Type}.
Implicit Types w : world E.

Definition set_time (t : Z) (n : nat) w : world E :=
  World t n (redis w) (hp w) (lastIncident w) (users w) (decimalsCache w)
        (subscribed w) (awaitingManual w) (lastConfigs w) (log w).
Definition set_redis (r : gmap jsstr E) w : world E :=
  World (now w) (tick w) r (hp w) (lastIncident w) (users w) (decimalsCache w)
        (subscribed w) (awaitingManual w) (lastConfigs w) (log w).
Definition set_firewall (h : num) (t : Z) w : world E :=
  World (now w) (tick w) (redis w) h t (users w) (decimalsCache w)
        (subscribed w) (awaitingManual w) (lastConfigs w) (log w).
Definition set_users (u : list (jsstr * user)) w : world E :=
  World (now w) (tick w) (redis w) (hp w) (lastIncident w) u (decimalsCache w)
        (subscribed w) (awaitingManual w) (lastConfigs w) (log w).
Definition set_decimals (d : gmap jsstr json) w : world E :=
  World (now w) (tick w) (redis w) (hp w) (lastIncident w) (users w) d
        (subscribed w) (awaitingManual w) (lastConfigs w) (log w).
Definition set_subscribed (s : list jsstr) w : world E :=
  World (now w) (tick w) (redis w) (hp w) (lastIncident w) (users w)
        (decimalsCache w) s (awaitingManual w) (lastConfigs w) (log w).
Definition set_dialogue (a : list jsstr) (c : list (jsstr * json)) w : world E :=
  World (now w) (tick w) (redis w) (hp w) (lastIncident w) (users w)
        (decimalsCache w) (subscribed w) a c (log w).
Definition add_event (ev : event) w : world E :=
  World (now w) (tick w) (redis w) (hp w) (lastIncident w) (users w)
        (decimalsCache w) (subscribed w) (awaitingManual w) (lastConfigs w) (log w ++ [ev]).
End Updates.

(** ** Programs *)

Definition prog (E A : Type) : Type := world E → result A * world E.

Section Programs.
Context {E : Type} `{RE : RedisEntry E} `{EN : Env}.

Definition ret {A} (a : A) : prog E A := λ w, (Ok a, w).
Definition throw {A} (e : exn) : prog E A := λ w, (Throw e, w).
Definition exit {A} (code : Z) : prog E A := λ w, (Exit code, w).

Definition bind {A B} (m : prog E A) (k : A → prog E B) : prog E B := λ w,
  match m w with
  | (Ok a, w') => k a w'
  | (Throw e, w') => (Throw e, w')
  | (Exit c, w') => (Exit c, w')
  end.

(** [try { m } catch (e) { h }] *)
Definition try_catch {A} (m : prog E A) (h : exn → prog E A) : prog E A := λ w,
  match m w with
  | (Throw e, w') => h e w'
  | r => r
  end.

(** A promise that is not awaited: its effects up to its first [await] come before
    those of the caller, which goes on in any case.  How the promise ends, if not well,
    is an event: the process ends when the event loop gets to it, so that of what the
    caller does after its own next [await] only a first part may happen. *)
Definition detach (m : prog E unit) : prog E unit := λ w,
  match m w with
  | (Ok _, w') => (Ok tt, w')
  | (Throw e, w') => (Ok tt, add_event (Unhandled e) w')
  | (Exit c, w') => (Ok tt, add_event (WillExit c) w')
  end.

Definition gets {A} (f : world E → A) : prog E A := λ w, (Ok (f w), w).
Definition modify (f : world E → world E) : prog E unit := λ w, (Ok tt, f w).
Definition emit (ev : event) : prog E unit := modify (add_event ev).

(** One external interaction: its number, while time passes. *)
Definition interact : prog E nat := λ w,
  (Ok (tick w), set_time (now w + Z.of_N (elapsed (tick w))) (S (tick w)) w).

(** [Date.now()] *)
Definition date_now : prog E Z := bind interact (λ _, gets now).

(** [await new Promise(r => setTimeout(r, ms))] *)
Definition sleep (ms : Z) : prog E unit :=
  bind interact (λ _, modify (λ w, set_time (now w + ms) (tick w) w)).

(** A value or a rejection of the outside. *)
Definition lift {A} (r : exn + A) : prog E A :=
  match r with inl e => throw e | inr a => ret a end.

Definition entry_at (w : world E) (key : jsstr) : E := default e_none (redis w !! key).

(** Redis commands: rejected, or carried out on the entry at the key. *)
Definition redis_read {A} (key : jsstr) (f : Z → E → A) : prog E A :=
  bind interact (λ n,
    match redis_fault n with
    | Some e => throw e
    | None => gets (λ w, f (now w) (entry_at w key))
    end).

Definition redis_write (key : jsstr) (f : Z → E → E) : prog E unit :=
  bind interact (λ n,
    match redis_fault n with
    | Some e => throw e
    | None => modify (λ w, set_redis (<[key := f (now w) (entry_at w key)]> (redis w)) w)
    end).

Definition redis_get key := redis_read key e_get.
Definition redis_set key v ttl := redis_write key (λ t _, e_set t v ttl).

(** [redis.setEx(key, ttl, v)]: a method name of node-redis; calling a method
    the client object lacks is a TypeError. *)
Definition redis_setEx (key : jsstr) (ttl : Z) (v : jsstr) : prog E unit :=
  if client_has (js "setEx") then redis_set key v (Some ttl)
  else throw (Exn KTypeError (js "redis.setEx is not a function")).
Definition redis_del key := redis_write key (λ _ _, e_none).
Definition redis_incr key := redis_write key e_incr.
Definition redis_expire key ttl := redis_write key (λ t, e_expire t ttl).
Definition redis_hset key kvs := redis_write key (λ _, e_hset kvs).
Definition redis_hget key f := redis_read key (λ _, e_hget f).
Definition redis_hgetall key := redis_read key (λ _, e_hgetall).
Definition redis_sadd key x := redis_write key (λ _, e_sadd x).
Definition redis_smembers key := redis_read key (λ _, e_smembers).
Definition redis_xadd key kvs := redis_write key (λ t, e_xadd t kvs).
Definition redis_xrevrange key (count : nat) :=
  redis_read key (λ t e, take count (e_stream t e)).

(** [redis.publish(channel, msg)] *)
Definition redis_publish (channel msg : jsstr) : prog E unit :=
  bind interact (λ n,
    match redis_fault n with
    | Some e => throw e
    | None => emit (Publish channel msg)
    end).

(** [await fetch(...)] *)
Definition fetch (r : request) : prog E response :=
  bind (emit (Fetch r)) (λ _, bind interact (λ n, lift (fetch_answer n r))).

(** [await res.json()] *)
Definition syntax_error : exn := Exn KSyntaxError (js "Unexpected token in JSON").
Definition json_parse (s : jsstr) : prog E json :=
  match parse s with Some v => ret v | None => throw syntax_error end.

(** An RPC query. *)
Definition rpc (c : rpc_call) : prog E json := bind interact (λ n, lift (rpc_answer n c)).

(** [conn.getAccountInfo]: the data of an account, or null. *)
Definition getAccountInfo (account : jsstr) : prog E (option bytes) :=
  bind interact (λ n, lift (account_answer n account)).

(** [sendAndConfirmRawTransaction] *)
Definition send_and_confirm (tx : transaction) : prog E jsstr :=
  bind (emit (Send tx)) (λ _, bind interact (λ n, lift (send_answer n tx))).

Definition env (k : jsstr) : option jsstr := env_var k.
End Programs.

Declare Scope prog_scope.
Delimit Scope prog_scope with prog.
Bind Scope prog_scope with prog.
Notation "x <- m ;; k" := (bind m (λ x, k))
  (at level 100, m at next level, right associativity) : prog_scope.
Notation "'let*' p ':=' m 'in' k" := (bind m (λ x, match x with p => k end))
  (at level 100, p pattern, m at next level, right associativity) : prog_scope.
Notation "m ;; k" := (bind m (λ _, k)) (at level 100, right associativity) : prog_scope.

(** ** Reasoning about programs *)

Section Laws.
Context {E : Type} `{RE : RedisEntry E} `{EN : Env}.

Lemma bind_ok {A B} (m : prog E A) (k : A → prog E B) w a w' :
  m w = (Ok a, w') → bind m k w = k a w'.
Proof. intros Hm. unfold bind. by rewrite Hm. Qed.

Lemma bind_throw {A B} (m : prog E A) (k : A → prog E B) w e w' :
  m w = (Throw e, w') → bind m k w = (Throw e, w').
Proof. intros Hm. unfold bind. by rewrite Hm. Qed.

Lemma bind_exit {A B} (m : prog E A) (k : A → prog E B) w c w' :
  m w = (Exit c, w') → bind m k w = (Exit c, w').
Proof. intros Hm. unfold bind. by rewrite Hm. Qed.

Lemma bind_assoc {A B C} (m : prog E A) (f : A → prog E B) (g : B → prog E C) w :
  bind (bind m f) g w = bind m (λ a, bind (f a) g) w.
Proof. unfold bind. by destruct (m w) as [[]]. Qed.

(** What a program that returned has done. *)
Lemma bind_inv {A B} (m : prog E A) (k : A → prog E B) w b w' :
  bind m k w = (Ok b, w') → ∃ a w1, m w = (Ok a, w1) ∧ k a w1 = (Ok b, w').
Proof. unfold bind. destruct (m w) as [[] w1]; naive_solver. Qed.

Lemma lift_inv {A} (r : exn + A) (w : world E) a w' : lift r w = (Ok a, w') → r = inr a.
Proof. destruct r; cbv; congruence. Qed.

(** A relation between worlds that every step respects is respected by the
    composition, whatever the outcome. *)
Definition respects {A} (P : world E → world E → Prop) (m : prog E A) : Prop :=
  ∀ w, P w (m w).2.

Lemma respects_ret {A} P (a : A) : (∀ w, P w w) → respects P (ret a).
Proof. by intros HP w. Qed.

Lemma respects_throw {A} P e : (∀ w, P w w) → respects (A:=A) P (throw e).
Proof. by intros HP w. Qed.

Lemma respects_exit {A} P c : (∀ w, P w w) → respects (A:=A) P (exit c).
Proof. by intros HP w. Qed.

Lemma respects_gets {A} P (f : world E → A) : (∀ w, P w w) → respects P (gets f).
Proof. by intros HP w. Qed.

Lemma respects_modify P f : (∀ w, P w (f w)) → respects P (modify f).
Proof. by intros HP w. Qed.

Lemma respects_bind {A B} P (m : prog E A) (k : A → prog E B) :
  Transitive P → respects P m → (∀ a, respects P (k a)) → respects P (bind m k).
Proof.
  intros HT Hm Hk w. unfold bind. specialize (Hm w).
  destruct (m w) as [[a|e|c] w1]; cbn in *; [|done..].
  etransitivity; [exact Hm|apply Hk].
Qed.

Lemma respects_try {A} P (m : prog E A) h :
  Transitive P → respects P m → (∀ e, respects P (h e)) → respects P (try_catch m h).
Proof.
  intros HT Hm Hh w. unfold try_catch. specialize (Hm w).
  destruct (m w) as [[a|e|c] w1]; cbn in *; [done| |done].
  etransitivity; [exact Hm|apply Hh].
Qed.

(** ** One command at a time *)

(** The world after one interaction that changed nothing. *)
Definition pass (w : world E) : world E :=
  set_time (now w + Z.of_N (elapsed (tick w))) (S (tick w)) w.

(** The world after a write of the entry at a key. *)
Definition put (key : jsstr) (e : E) (w : world E) : world E :=
  set_redis (<[key := e]> (redis w)) w.

Lemma date_now_eq (w : world E) : date_now w = (Ok (now (pass w)), pass w).
Proof. done. Qed.

Lemma read_eq {A} key (f : Z → E → A) (w : world E) :
  redis_read key f w
  = (match redis_fault (tick w) with
     | Some e => Throw e
     | None => Ok (f (now (pass w)) (entry_at w key))
     end, pass w).
Proof. unfold redis_read, bind. cbn. by destruct (redis_fault (tick w)). Qed.

Lemma write_eq key (f : Z → E → E) (w : world E) :
  redis_write key f w
  = match redis_fault (tick w) with
    | Some e => (Throw e, pass w)
    | None => (Ok tt, put key (f (now (pass w)) (entry_at w key)) (pass w))
    end.
Proof. unfold redis_write, bind. cbn. by destruct (redis_fault (tick w)). Qed.

Lemma read_ok {A} key (f : Z → E → A) (w : world E) :
  redis_fault (tick w) = None →
  redis_read key f w = (Ok (f (now (pass w)) (entry_at w key)), pass w).
Proof. intros Hf. by rewrite read_eq, Hf. Qed.

Lemma write_ok key (f : Z → E → E) (w : world E) :
  redis_fault (tick w) = None →
  redis_write key f w = (Ok tt, put key (f (now (pass w)) (entry_at w key)) (pass w)).
Proof. intros Hf. by rewrite write_eq, Hf. Qed.

Lemma entry_put key e (w : world E) : entry_at (put key e w) key = e.
Proof. unfold entry_at, put. cbn. by rewrite lookup_insert_eq. Qed.

Lemma entry_put_ne key key' e (w : world E) :
  key ≠ key' → entry_at (put key e w) key' = entry_at w key'.
Proof. intros Hne. unfold entry_at, put. cbn. by rewrite lookup_insert_ne. Qed.

Lemma entry_pass key (w : world E) : entry_at (pass w) key = entry_at w key.
Proof. done. Qed.

(** Redis accepts the next [k] commands. *)
Definition quiet (k : nat) (w : world E) : Prop :=
  ∀ i, (i < k)%nat → redis_fault (tick w + i) = None.

Lemma quiet_now k w : quiet (S k) w → redis_fault (tick w) = None.
Proof. intros Hq. rewrite <- (Nat.add_0_r (tick w)). apply Hq. lia. Qed.

Lemma quiet_at k i n w :
  quiet k w → (i < k)%nat → n = (tick w + i)%nat → redis_fault n = None.
Proof. intros Hq Hi ->. by apply Hq. Qed.

Lemma quiet_next k w w' : quiet (S k) w → tick w' = S (tick w) → quiet k w'.
Proof.
  intros Hq Ht i Hi. rewrite Ht.
  replace (S (tick w) + i)%nat with (tick w + S i)%nat by lia. apply Hq. lia.
Qed.

Lemma quiet_skip i k w w' :
  quiet (i + k) w → tick w' = (tick w + i)%nat → quiet k w'.
Proof.
  intros Hq Ht j Hj. rewrite Ht, <- Nat.add_assoc. apply Hq. lia.
Qed.

Lemma quiet_le k k' w : quiet k w → (k' <= k)%nat → quiet k' w.
Proof. intros Hq Hk i Hi. apply Hq. lia. Qed.

(** ** Invariants *)

(** The program keeps [I], whatever its outcome. *)
Definition keeps {A} (I : world E → Prop) (m : prog E A) : Prop :=
  respects (λ w w', I w → I w') m.

Lemma keeps_ret {A} I (a : A) : keeps I (ret a).
Proof. by intros w. Qed.

Lemma keeps_throw {A} I e : keeps (A:=A) I (throw e).
Proof. by intros w. Qed.

Lemma keeps_gets {A} I (f : world E → A) : keeps I (gets f).
Proof. by intros w. Qed.

Lemma keeps_bind {A B} I (m : prog E A) (k : A → prog E B) :
  keeps I m → (∀ a, keeps I (k a)) → keeps I (bind m k).
Proof. apply respects_bind. intros x y z; auto. Qed.

Lemma keeps_try {A} I (m : prog E A) h :
  keeps I m → (∀ e, keeps I (h e)) → keeps I (try_catch m h).
Proof. apply respects_try. intros x y z; auto. Qed.

Lemma keeps_read {A} I key (f : Z → E → A) :
  (∀ w, I w → I (pass w)) → keeps I (redis_read key f).
Proof. intros HI w Hw. rewrite read_eq. by apply HI. Qed.

Lemma keeps_write I key (f : Z → E → E) :
  (∀ w, I w → I (pass w)) →
  (∀ w t, I w → I (put key (f t (entry_at w key)) w)) →
  keeps I (redis_write key f).
Proof.
  intros HI HP w Hw. rewrite write_eq. destruct (redis_fault _); cbn; [by apply HI|].
  by apply (HP (pass w)), HI.
Qed.

(** ** What was sent *)

Definition sends (l : list event) : list transaction :=
  omap (λ ev, match ev with Send tx => Some tx | _ => None end) l.

Lemma sends_app l l' : sends (l ++ l') = sends l ++ sends l'.
Proof. apply omap_app. Qed.

(** Nothing was sent between the two worlds. *)
Definition unsent (w w' : world E) : Prop := sends (log w') = sends (log w).

#[export] Instance unsent_refl : Reflexive unsent.
Proof. by intros w. Qed.
#[export] Instance unsent_trans : Transitive unsent.
Proof. intros w1 w2 w3 H1 H2. unfold unsent in *. congruence. Qed.

Lemma unsent_interact : respects unsent interact.
Proof. by intros w. Qed.

Lemma unsent_sleep ms : respects unsent (sleep ms).
Proof. by intros w. Qed.

Lemma unsent_date_now : respects unsent date_now.
Proof. by intros w. Qed.

Lemma unsent_lift {A} (r : exn + A) : respects unsent (lift r).
Proof. by destruct r. Qed.

Lemma unsent_read {A} key (f : Z → E → A) : respects unsent (redis_read key f).
Proof. intros w. by rewrite read_eq. Qed.

Lemma unsent_write key f : respects unsent (redis_write key f).
Proof. intros w. rewrite write_eq. by destruct (redis_fault _). Qed.

Lemma unsent_emit ev : (∀ tx, ev ≠ Send tx) → respects unsent (emit ev).
Proof.
  intros Hev w. unfold unsent. cbn. rewrite sends_app. cbn.
  destruct ev; cbn; rewrite ?app_nil_r; try done. by destruct (Hev tx).
Qed.

Lemma unsent_publish c m : respects unsent (redis_publish c m).
Proof.
  apply respects_bind; [apply _|apply unsent_interact|]. intros n.
  destruct (redis_fault n); [by apply respects_throw|by apply unsent_emit].
Qed.

Lemma unsent_rpc c : respects unsent (rpc c).
Proof.
  apply respects_bind; [apply _|apply unsent_interact|]. intros n. apply unsent_lift.
Qed.

Lemma unsent_detach m : respects unsent m → respects unsent (detach m).
Proof.
  intros Hm w. specialize (Hm w). unfold detach. destruct (m w) as [[[]|e|c] w']; [done|..].
  - etransitivity; [exact Hm|]. by apply (unsent_emit (Unhandled e)).
  - etransitivity; [exact Hm|]. by apply (unsent_emit (WillExit c)).
Qed.

(** ** Programs that do not end the process *)

Definition no_exit {A} (m : prog E A) : Prop := ∀ w c, (m w).1 ≠ Exit c.

Lemma no_exit_ret {A} (a : A) : no_exit (ret a).
Proof. done. Qed.
Lemma no_exit_throw {A} e : no_exit (A:=A) (throw e).
Proof. done. Qed.
Lemma no_exit_lift {A} (r : exn + A) : no_exit (lift r).
Proof. by destruct r. Qed.
Lemma no_exit_gets {A} (f : world E → A) : no_exit (gets f).
Proof. done. Qed.
Lemma no_exit_modify f : no_exit (modify f).
Proof. done. Qed.
Lemma no_exit_interact : no_exit interact.
Proof. done. Qed.

Lemma no_exit_bind {A B} (m : prog E A) (k : A → prog E B) :
  no_exit m → (∀ a, no_exit (k a)) → no_exit (bind m k).
Proof.
  intros Hm Hk w c. unfold bind. specialize (Hm w c).
  destruct (m w) as [[a|e|c'] w1]; [apply Hk|done|]. intros [= ->]. by destruct Hm.
Qed.

Lemma no_exit_try {A} (m : prog E A) h :
  no_exit m → (∀ e, no_exit (h e)) → no_exit (try_catch m h).
Proof.
  intros Hm Hh w c. unfold try_catch. specialize (Hm w c).
  destruct (m w) as [[a|e|c'] w1]; [done|apply Hh|done].
Qed.

Lemma no_exit_read {A} key (f : Z → E → A) : no_exit (redis_read key f).
Proof. intros w c. rewrite read_eq. by destruct (redis_fault _). Qed.
Lemma no_exit_write key f : no_exit (redis_write key f).
Proof. intros w c. rewrite write_eq. by destruct (redis_fault _). Qed.

Lemma no_exit_fetch r : no_exit (fetch r).
Proof.
  apply no_exit_bind; [done|]. intros _. apply no_exit_bind; [done|]. intros n.
  apply no_exit_lift.
Qed.

(** A program that catches everything returns. *)
Lemma try_returns {A} (m : prog E A) (h : exn → A) w :
  no_exit m → ∃ a w', try_catch m (λ e, ret (h e)) w = (Ok a, w').
Proof.
  intros Hm. unfold try_catch. specialize (Hm w).
  destruct (m w) as [[a|e|c] w1]; [by exists a, w1|by exists (h e), w1|by destruct (Hm c)].
Qed.

(** The users are the same in both worlds. *)
Definition same_users (w w' : world E) : Prop := users w' = users w.

#[export] Instance same_users_refl : Reflexive same_users.
Proof. by intros w. Qed.
#[export] Instance same_users_trans : Transitive same_users.
Proof. intros w1 w2 w3 H1 H2. unfold same_users in *. congruence. Qed.

Lemma users_interact : respects same_users interact.
Proof. by intros w. Qed.

Lemma users_date_now : respects same_users date_now.
Proof. by intros w. Qed.

Lemma users_lift {A} (r : exn + A) : respects same_users (lift r).
Proof. by destruct r. Qed.

Lemma users_read {A} key (f : Z → E → A) : respects same_users (redis_read key f).
Proof. intros w. by rewrite read_eq. Qed.

Lemma users_write key f : respects same_users (redis_write key f).
Proof. intros w. rewrite write_eq. by destruct (redis_fault _). Qed.

Lemma users_emit ev : respects same_users (emit ev).
Proof. by intros w. Qed.

(** What one submission does to the log. *)
Lemma send_log tx (w : world E) :
  sends (log (send_and_confirm tx w).2) = sends (log w) ++ [tx].
Proof.
  unfold send_and_confirm, bind. cbn. destruct (send_answer _ _); cbn; by rewrite sends_app.
Qed.
End Laws.

#[export] Hint Resolve respects_ret respects_throw respects_exit respects_gets
  respects_modify respects_bind respects_try keeps_ret keeps_throw keeps_gets keeps_bind
  keeps_try keeps_read : eff.
#[export] Hint Resolve unsent_interact unsent_sleep unsent_date_now unsent_lift unsent_read
  unsent_write unsent_publish unsent_rpc unsent_detach users_interact users_date_now users_lift users_read
  users_write users_emit no_exit_ret no_exit_throw no_exit_lift no_exit_gets no_exit_modify
  no_exit_interact no_exit_bind no_exit_try no_exit_read no_exit_write no_exit_fetch : eff.
#[export] Hint Rewrite @entry_put @entry_pass : eff.

(** Redis accepts fewer commands than it is known to accept. *)
Ltac quiet_weaken := eapply quiet_le; [eassumption|lia].

(** Walks a program step by step, for a preorder whose primitive facts are in the
    database [eff]. *)
Ltac respects_step :=
  match goal with
  | |- respects _ (bind _ _) => apply respects_bind; [solve [apply _]| |intros ?]
  | |- respects _ (try_catch _ _) => apply respects_try; [solve [apply _]| |intros ?]
  | |- respects _ (if ?b then _ else _) => destruct b
  | |- respects _ (match ?x with _ => _ end) => destruct x
  | |- respects _ (ret _) => apply respects_ret; reflexivity
  | |- respects _ (throw _) => apply respects_throw; reflexivity
  | |- respects _ (exit _) => apply respects_exit; reflexivity
  | |- respects _ (gets _) => apply respects_gets; reflexivity
  | |- respects _ (modify _) => apply respects_modify; reflexivity
  | |- _ => solve [auto with eff]
  end.
Ltac respects_walk := repeat respects_step.
