(* ===== verification/Uint8.v ===== *)
(** * Conversions between JSON values and typed arrays

    [String(v)], [Number(v)] and [Uint8Array.from(v)] of a parsed JSON value,
    the JSON text of a byte array, and the little-endian 64-bit read of an
    account's data. *)

From Stdlib Require Import QArith Qround.
From S2P Require Import Prelude JsString JsNum JsText Json Bytes Effects.

(** ** Coercions of JSON values *)

(** [String(v)]; null elements of an array print as nothing. *)
Fixpoint json_toString (v : json) : jsstr :=
  match v with
  | JNull => js "null"
  | JBool true => js "true"
  | JBool false => js "false"
  | JNum x => toString x
  | JStr s => s
  | JArr l =>
      join (map (λ v, match v with JNull => [] | v => json_toString v end) l) (js ",")
  | JObj _ => js "[object Object]"
  end.

(** [Number(v)] *)
Definition json_toNumber (v : json) : num :=
  match v with
  | JNull => Fin 0
  | JBool b => if b then num_of_Z 1 else Fin 0
  | JNum x => x
  | v => toNumber (json_toString v)
  end.

(** Truthiness of a value. *)
Definition json_truthy (v : json) : bool :=
  match v with
  | JNull => false
  | JBool b => b
  | JNum x => num_truthy x
  | JStr s => match s with [] => false | _ => true end
  | JArr _ | JObj _ => true
  end.

(** ** [Uint8Array.from] *)

Definition truncate (q : Q) : Z := if Qle_bool 0 q then Qfloor q else (- Qfloor (- q))%Z.

(** The element conversion: truncation modulo 256, non-finite numbers are 0. *)
Definition to_uint8 (x : num) : N :=
  match x with
  | Fin q => Z.to_N (truncate q mod 256)
  | _ => 0%N
  end.

(** The strings a string iterates over: one per code point. *)
Fixpoint code_points (s : jsstr) : list jsstr :=
  match s with
  | c :: ((d :: s'') as s') =>
      if is_high c && is_low d then [c; d] :: code_points s'' else [c] :: code_points s'
  | [c] => [[c]]
  | [] => []
  end.

Definition to_length (x : num) : nat :=
  match x with
  | Fin q => Z.to_nat (Z.max 0 (truncate q))
  | Inf false => Z.to_nat (2 ^ 53 - 1)
  | _ => O
  end.

(** The elements [from] takes of its argument: of an array, of a string, of an
    array-like object; other values have none and [null] throws. *)
Definition elements_of (v : json) : exn + list num :=
  match v with
  | JNull => inl (Exn KTypeError (js "object null is not iterable"))
  | JArr l => inr (json_toNumber <$> l)
  | JStr s => inr (toNumber <$> code_points s)
  | JObj o =>
      match assoc o (js "length") with
      | Some n =>
          inr ((λ i, match assoc o (toString (num_of_Z (Z.of_nat i))) with
                     | Some x => json_toNumber x
                     | None => NaN
                     end) <$> seq 0 (to_length (json_toNumber n)))
      | None => inr []
      end
  | _ => inr []
  end.

Definition uint8_from (v : json) : exn + bytes :=
  match elements_of v with
  | inl e => inl e
  | inr xs => inr (to_uint8 <$> xs)
  end.

(** [Array.from(bytes)] as a JSON array. *)
Definition json_bytes (bs : bytes) : json :=
  JArr ((λ b, JNum (num_of_Z (Z.of_N b))) <$> bs).

(** ** Reading properties *)

Definition read_of (what key : jsstr) : exn :=
  Exn KTypeError (js "Cannot read properties of " ++ what ++ js " (reading '" ++ key ++ js "')").

(** [v.key]; [None] is [undefined]. *)
Definition prop (v : option json) (key : jsstr) : exn + option json :=
  match v with
  | None => inl (read_of (js "undefined") key)
  | Some JNull => inl (read_of (js "null") key)
  | Some v => inr (field v key)
  end.

(** [v?.key] *)
Definition opt_prop (v : option json) (key : jsstr) : option json :=
  match v with
  | None | Some JNull => None
  | Some v => field v key
  end.

(** [v?.[0]] *)
Definition opt_first (v : option json) : option json :=
  match v with
  | Some (JArr (x :: _)) => Some x
  | Some (JStr (c :: _)) => Some (JStr [c])
  | Some (JObj o) => assoc o (js "0")
  | _ => None
  end.

(** [v.k1.k2...]: the first read of undefined or null throws. *)
Fixpoint props (v : option json) (keys : list jsstr) : exn + option json :=
  match keys with
  | [] => inr v
  | k :: keys => match prop v k with inl e => inl e | inr x => props x keys end
  end.

Definition opt_truthy (v : option json) : bool :=
  match v with Some v => json_truthy v | None => false end.

(** [Number(v)], NaN for undefined. *)
Definition opt_toNumber (v : option json) : num :=
  match v with Some v => json_toNumber v | None => NaN end.

(** [`${v}`] *)
Definition opt_toString (v : option json) : jsstr :=
  match v with Some v => json_toString v | None => js "undefined" end.

(** A field that is undefined is left out of the JSON text. *)
Definition json_fields (l : list (jsstr * option json)) : json :=
  JObj (omap (λ kv, match kv.2 with Some v => Some (kv.1, v) | None => None end) l).

(** [Buffer.from(v, 'base64')]: the encoding matters for strings only. *)
Definition buffer_fault : exn :=
  Exn KTypeError (js "The first argument must be of type string or an instance of Buffer").

Definition buffer_from_base64 (v : option json) : exn + bytes :=
  match v with
  | Some (JStr s) => inr (b64_decode s)
  | Some (JArr l) => inr (to_uint8 ∘ json_toNumber <$> l)
  | Some (JObj o as x) =>
      match assoc o (js "length"), assoc o (js "type"), assoc o (js "data") with
      | Some (JNum _), _, _ => uint8_from x
      | Some _, _, _ => inr []
      | None, Some (JStr t), Some (JArr l) =>
          if bool_decide (t = js "Buffer") then inr (to_uint8 ∘ json_toNumber <$> l)
          else inl buffer_fault
      | None, _, _ => inl buffer_fault
      end
  | _ => inl buffer_fault
  end.

(** ** Little-endian reads *)

Fixpoint le_value (bs : bytes) : Z :=
  match bs with
  | [] => 0
  | b :: bs => Z.of_N b + 256 * le_value bs
  end.

(** [buf.readBigUInt64LE(off)]: a RangeError past the end. *)
Definition readBigUInt64LE (buf : bytes) (off : nat) : exn + Z :=
  let w := take 8 (drop off buf) in
  if bool_decide (length w = 8%nat) then inr (le_value w)
  else inl (Exn KRangeError (js "Attempt to access memory outside buffer bounds")).

(** ** Facts *)

Lemma byte_num b : (b < 256)%N → num_of_Z (Z.of_N b) = Fin (inject_Z (Z.of_N b)).
Proof. intros Hb. apply num_of_Z_small. lia. Qed.

Lemma to_uint8_byte b : (b < 256)%N → to_uint8 (num_of_Z (Z.of_N b)) = b.
Proof.
  intros Hb. rewrite byte_num by done. unfold to_uint8, truncate.
  replace (Qle_bool 0 (inject_Z (Z.of_N b))) with true.
  2: { symmetry. apply Qle_bool_iff. change 0%Q with (inject_Z 0). rewrite <- Zle_Qle. lia. }
  rewrite Qfloor_Z, Z.mod_small by lia. apply N2Z.id.
Qed.

Lemma json_bytes_ok bs : bytes_ok bs → json_ok (json_bytes bs).
Proof.
  intros Hb. apply ok_arr, Forall_fmap. eapply Forall_impl; [exact Hb|].
  intros b Hlt. cbn in *. rewrite byte_num by done. apply ok_num. cbn. apply fl_Z. lia.
Qed.

(** A byte array survives [JSON.stringify], [JSON.parse], [Uint8Array.from]. *)
Lemma uint8_roundtrip bs :
  bytes_ok bs →
  ∃ v, parse (stringify (json_bytes bs)) = Some v ∧ uint8_from v = inr bs.
Proof.
  intros Hb. exists (json_bytes bs). split; [by apply parse_stringify, json_bytes_ok|].
  cbn. f_equal. rewrite <- !list_fmap_compose. rewrite <- (list_fmap_id bs) at 2.
  apply list_fmap_ext. intros i b Hi. cbn. apply to_uint8_byte.
  by eapply Forall_lookup_1 in Hb.
Qed.

Lemma join_ascii l sep : Forall ascii_ok l → ascii_ok sep → ascii_ok (join l sep).
Proof.
  intros Hl Hs. induction Hl as [|p l Hp Hl IH]; [constructor|].
  cbn. destruct l; [done|]. apply Forall_app; split; [done|]. by apply Forall_app.
Qed.

(** The text of a byte array is ASCII. *)
Lemma json_bytes_ascii bs : bytes_ok bs → ascii_ok (stringify (json_bytes bs)).
Proof.
  intros Hb. cbn [json_bytes stringify]. apply Forall_app; split; [by repeat constructor|].
  apply Forall_app; split; [|by repeat constructor].
  apply join_ascii; [|by repeat constructor].
  rewrite <- list_fmap_compose. apply Forall_fmap. eapply Forall_impl; [exact Hb|].
  intros b Hlt. cbn in Hlt. cbn [compose stringify].
  pose proof (N_below_forallb
    (λ b, forallb (λ c, c <? 128)%N (stringify_num (num_of_Z (Z.of_N b)))) 256
    ltac:(vm_compute; reflexivity) b Hlt) as Hc. cbn beta in Hc.
  rewrite forallb_forall in Hc. apply Forall_forall. intros c Hin.
  by apply N.ltb_lt, Hc, list_elem_of_In.
Qed.

Lemma le_value_bounds bs :
  bytes_ok bs → (0 <= le_value bs < 256 ^ Z.of_nat (length bs))%Z.
Proof.
  induction 1 as [|b bs Hb _ IH]; [cbn; lia|].
  cbn [length le_value]. rewrite Nat2Z.inj_succ, Z.pow_succ_r by lia. cbn in Hb. lia.
Qed.

Lemma readBigUInt64LE_bounds buf off v :
  bytes_ok buf → readBigUInt64LE buf off = inr v → (0 <= v < 2 ^ 64)%Z.
Proof.
  unfold readBigUInt64LE. intros Hb. case_bool_decide as Hl; [|done]. intros [= <-].
  assert (bytes_ok (take 8 (drop off buf))) as Hw by (apply Forall_take, Forall_drop, Hb).
  pose proof (le_value_bounds _ Hw) as Hv. rewrite Hl in Hv. exact Hv.
Qed.

(** ** ASCII texts *)

Lemma digits_ascii ds : all_digits ds → ascii_ok ds.
Proof.
  intros H. eapply Forall_impl; [exact H|]. intros c Hc. cbn in *. unfold is_digit in Hc.
  apply andb_true_iff in Hc as [_ Hc%N.leb_le]. lia.
Qed.

Lemma print_pos_ascii q : num_wf (Fin q) → (0 < q)%Q → ascii_ok (print_pos q).
Proof.
  intros Hq Hp. destruct (print_pos_text q Hq Hp) as (ip & fp & x & e & -> & H1 & _ & H3 & H4 & _).
  apply Forall_app; split; [by apply digits_ascii|]. apply Forall_app; split.
  - destruct fp as [|c fp]; [constructor|]. rewrite frac_text_cons.
    apply Forall_app; split; [by repeat constructor|by apply digits_ascii].
  - destruct H4 as [[-> _]| ->]; [constructor|]. unfold exponent_text.
    apply Forall_app; split; [destruct (_ <? _)%Z; by repeat constructor|].
    apply digits_ascii. apply digits_spec. lia.
Qed.

Lemma toString_ascii x : num_wf x → ascii_ok (toString x).
Proof.
  intros Hx. destruct x as [| [] |q]; try by repeat constructor.
  cbn [toString]. destruct (Qeq_bool q 0) eqn:E0; [by repeat constructor|].
  apply Qeq_bool_false in E0. destruct (Qle_bool 0 q) eqn:E1.
  - apply Qle_bool_iff in E1. apply print_pos_ascii; [done|].
    destruct (Qlt_le_dec 0 q) as [|Hle]; [done|]. destruct E0. by apply Qle_antisym.
  - constructor; [done|]. apply print_pos_ascii; [by apply fl_opp|].
    destruct (Qlt_le_dec q 0) as [Hlt|Hle].
    + change (0 < - q)%Q. apply Qopp_lt_compat in Hlt. exact Hlt.
    + apply Qle_bool_iff in Hle. congruence.
Qed.

Lemma quote_ascii s : ascii_ok s → ascii_ok (quote s).
Proof.
  intros Hs. unfold quote. apply Forall_app; split; [by repeat constructor|].
  apply Forall_app; split; [|by repeat constructor].
  induction Hs as [|c s Hc _ IH]; [constructor|]. cbn in Hc. cbn [quote_body].
  replace (is_high c) with false.
  2: { symmetry. unfold is_high. apply andb_false_iff. left. apply N.leb_gt. lia. }
  replace (is_low c) with false.
  2: { symmetry. unfold is_low. apply andb_false_iff. left. apply N.leb_gt. lia. }
  apply Forall_app; split; [|exact IH].
  pose proof (N_below_forallb (λ c, forallb (λ x, x <? 128)%N (escape_unit c)) 128
    ltac:(vm_compute; reflexivity) c Hc) as He. cbn beta in He.
  rewrite forallb_forall in He. apply Forall_forall. intros x Hx.
  by apply N.ltb_lt, He, list_elem_of_In.
Qed.

Lemma obj_ascii l :
  Forall (λ kv, ascii_ok kv.1 ∧ ascii_ok (stringify kv.2)) l → ascii_ok (stringify (JObj l)).
Proof.
  intros Hl. cbn [stringify]. apply Forall_app; split; [by repeat constructor|].
  apply Forall_app; split; [|by repeat constructor]. apply join_ascii; [|by repeat constructor].
  induction Hl as [|kv l [H1 H2] _ IH]; [constructor|]. constructor; [|exact IH].
  apply Forall_app; split; [by apply quote_ascii|].
  apply Forall_app; split; [by repeat constructor|done].
Qed.
