(* ===== verification/Utf8.v ===== *)
(** * Text files

    A string without lone surrogates survives UTF-8; the JSON printers give only such
    strings, since they escape lone surrogates.  So what is written to a file as JSON
    is what is read back from it. *)

From S2P Require Import Prelude JsString JsNum JsText Json Pretty Bytes Assoc Effects Uint8.

Local Open Scope N_scope.

(** Surrogates come in pairs. *)
Fixpoint paired (s : jsstr) : bool :=
  match s with
  | [] => true
  | c :: s' =>
      if is_high c then match s' with d :: s'' => is_low d && paired s'' | [] => false end
      else negb (is_low c) && paired s'
  end.

(** ** Decoding what was encoded *)

Ltac in_range_true :=
  match goal with
  | |- context [in_range ?a ?b ?c] =>
      replace (in_range a b c) with true by
        (symmetry; unfold in_range; apply andb_true_iff; split; apply N.leb_le; lia)
  end.
Ltac in_range_false :=
  match goal with
  | |- context [in_range ?a ?b ?c] =>
      replace (in_range a b c) with false by
        (symmetry; unfold in_range; apply andb_false_iff; rewrite !N.leb_gt; lia)
  end.
Ltac ltb_false :=
  match goal with
  | |- context [?a <? ?b] => replace (a <? b) with false by (symmetry; apply N.ltb_ge; lia)
  end.

(** A quotient and a remainder in [0, 64), as variables. *)
Lemma split64 c : ∃ q r, c / 64 = q ∧ c mod 64 = r ∧ c = 64 * q + r ∧ r < 64.
Proof.
  exists (c / 64), (c mod 64). pose proof (N.div_mod c 64 ltac:(lia)).
  pose proof (N.mod_lt c 64 ltac:(lia)). auto.
Qed.

Lemma div4096 c : c / 4096 = c / 64 / 64.
Proof. by rewrite N.Div0.div_div. Qed.
Lemma div262144 c : c / 262144 = c / 64 / 64 / 64.
Proof. by rewrite !N.Div0.div_div. Qed.

Lemma second_range b c :
  128 <= c <= 191 → (b = 224 → 160 <= c) → (b = 240 → 144 <= c) → (b = 237 → c <= 159) →
  (b = 244 → c <= 143) → in_range (second_lo b) (second_hi b) c = true.
Proof.
  intros H H1 H2 H3 H4. unfold in_range, second_lo, second_hi. apply andb_true_iff.
  rewrite !N.leb_le. repeat case_match; bool_to_prop; lia.
Qed.

Lemma decode_two c r : 128 <= c < 2048 →
  utf8_decode ([192 + c / 64; 128 + c mod 64] ++ r) = c :: utf8_decode r.
Proof.
  intros Hc. destruct (split64 c) as (q & m & -> & -> & -> & Hm). cbn [app utf8_decode].
  ltb_false. do 2 in_range_true. f_equal. lia.
Qed.

Lemma decode_three c r : 2048 <= c < 65536 → is_high c = false → is_low c = false →
  utf8_decode ([224 + c / 4096; 128 + c / 64 mod 64; 128 + c mod 64] ++ r) = c :: utf8_decode r.
Proof.
  intros Hc Hh Hl. unfold is_high, is_low in *.
  assert (c < 55296 ∨ 57343 < c) as Hs.
  { apply andb_false_iff in Hh, Hl. rewrite !N.leb_gt in *. lia. } clear Hh Hl.
  rewrite div4096. destruct (split64 c) as (q & m & -> & -> & -> & Hm).
  destruct (split64 q) as (q' & m' & -> & -> & -> & Hm'). cbn [app utf8_decode].
  ltb_false. in_range_false. in_range_true. rewrite second_range by lia. in_range_true. f_equal. lia.
Qed.

Lemma decode_four c r : 65536 <= c < 1114112 →
  utf8_decode ([240 + c / 262144; 128 + c / 4096 mod 64; 128 + c / 64 mod 64; 128 + c mod 64] ++ r)
  = 55296 + (c - 65536) / 1024 :: 56320 + (c - 65536) mod 1024 :: utf8_decode r.
Proof.
  intros Hc. rewrite div262144, div4096. remember (c - 65536) as cp eqn:Hcp.
  destruct (split64 c) as (q & m & -> & -> & -> & Hm).
  destruct (split64 q) as (q' & m' & -> & -> & -> & Hm').
  destruct (split64 q') as (q'' & m'' & -> & -> & -> & Hm''). cbn [app utf8_decode].
  ltb_false. do 2 in_range_false. in_range_true. rewrite second_range by lia. do 2 in_range_true.
  by replace (_ - 65536) with cp by lia.
Qed.

Lemma decode_char c r : c < 65536 → is_high c = false → is_low c = false →
  utf8_decode (utf8_char c ++ r) = c :: utf8_decode r.
Proof.
  intros Hc Hh Hl. unfold utf8_char. destruct (c <? 128) eqn:E1; [cbn; by rewrite E1|].
  destruct (c <? 2048) eqn:E2; bool_to_prop; [by apply decode_two|].
  destruct (c <? 65536) eqn:E3; bool_to_prop; [by apply decode_three|lia].
Qed.

Lemma decode_pair c d r : is_high c = true → is_low d = true →
  utf8_decode (utf8_char (65536 + (c - 55296) * 1024 + (d - 56320)) ++ r)
  = c :: d :: utf8_decode r.
Proof.
  intros Hc Hd. unfold is_high, is_low in *. bool_to_prop.
  set (x := 65536 + (c - 55296) * 1024 + (d - 56320)). unfold utf8_char.
  assert (65536 <= x < 1114112) as Hx by (subst x; lia). do 3 ltb_false.
  rewrite decode_four by done. replace (x - 65536) with ((d - 56320) + (c - 55296) * 1024) by lia.
  rewrite N.div_add, N.Div0.mod_add, N.div_small, N.mod_small by lia. repeat f_equal; lia.
Qed.

Lemma utf8_roundtrip s : unit16 s → paired s = true → utf8_decode (utf8_encode s) = s.
Proof.
  induction s as [s IH] using (induction_ltof1 _ (@length N)); unfold ltof in IH.
  destruct s as [|c s]; [done|]. intros [Hc Hs]%Forall_cons. cbn [paired utf8_encode].
  change ((55296 <=? c) && (c <=? 56319)) with (is_high c).
  change ((56320 <=? c) && (c <=? 57343)) with (is_low c).
  destruct (is_high c) eqn:Eh.
  - destruct s as [|d s]; [done|]. apply Forall_cons in Hs as [Hd Hs].
    change ((56320 <=? d) && (d <=? 57343)) with (is_low d). intros [Hl Hp]%andb_true_iff.
    rewrite Hl, decode_pair by done. do 2 f_equal. apply IH; [cbn; lia|done|done].
  - intros [Hl%negb_true_iff Hp]%andb_true_iff. rewrite Hl, decode_char by done. f_equal.
    apply IH; [cbn; lia|done|done].
Qed.

(** Encoded text is made of bytes. *)
Lemma utf8_char_bytes c : c < 1114112 → bytes_ok (utf8_char c).
Proof.
  intros Hc. unfold utf8_char.
  assert (∀ a, a mod 64 < 64) as Hm by (intros a; apply N.mod_lt; lia).
  pose proof (Hm c). pose proof (Hm (c / 64)). pose proof (Hm (c / 4096)).
  destruct (c <? 128) eqn:E1; [|destruct (c <? 2048) eqn:E2; [|destruct (c <? 65536) eqn:E3]];
    bool_to_prop; repeat (apply Forall_cons_2 || apply Forall_nil_2); try lia.
  - assert (c / 64 < 32) by (apply N.Div0.div_lt_upper_bound; lia). lia.
  - assert (c / 4096 < 16) by (apply N.Div0.div_lt_upper_bound; lia). lia.
  - assert (c / 262144 < 5) by (apply N.Div0.div_lt_upper_bound; lia). lia.
Qed.

Lemma utf8_bytes s : unit16 s → bytes_ok (utf8_encode s).
Proof.
  induction s as [s IH] using (induction_ltof1 _ (@length N)); unfold ltof in IH.
  destruct s as [|c s]; [constructor|]. intros [Hc Hs]%Forall_cons. cbn [utf8_encode].
  assert (bytes_ok (utf8_encode s)) as Ht by (apply IH; [cbn; lia|done]).
  destruct ((55296 <=? c) && (c <=? 56319)) eqn:Eh.
  - destruct s as [|d s]; [by apply utf8_char_bytes|]. apply Forall_cons in Hs as [Hd Hs].
    destruct ((56320 <=? d) && (d <=? 57343)) eqn:El.
    + apply Forall_app. split; [|apply IH; [cbn; lia|done]].
      bool_to_prop. apply utf8_char_bytes. lia.
    + apply Forall_app. split; [by apply utf8_char_bytes|done].
  - destruct ((56320 <=? c) && (c <=? 57343));
      (apply Forall_app; split; [apply utf8_char_bytes; lia|done]).
Qed.

(** ** The printers write whole text *)

Definition whole (s : jsstr) : Prop := unit16 s ∧ paired s = true.

Lemma paired_app a b : paired a = true → paired (a ++ b) = paired b.
Proof.
  induction a as [a IH] using (induction_ltof1 _ (@length N)); unfold ltof in IH.
  destruct a as [|c a]; [done|]. cbn [paired app]. destruct (is_high c).
  - destruct a as [|d a]; [done|]. intros [Hl Hp]%andb_true_iff. cbn [app]. rewrite Hl.
    apply IH; [cbn; lia|done].
  - intros [Hl Hp]%andb_true_iff. rewrite Hl. apply IH; [cbn; lia|done].
Qed.

Lemma whole_app a b : whole a → whole b → whole (a ++ b).
Proof.
  intros [Ha Hpa] [Hb Hpb]. split; [by apply Forall_app|by rewrite paired_app].
Qed.

Lemma whole_plain c : c < 55296 → whole [c].
Proof.
  intros Hc. split; [repeat constructor; lia|]. cbn. unfold is_high, is_low.
  destruct (55296 <=? c) eqn:E1, (56320 <=? c) eqn:E2; bool_to_prop; try lia; done.
Qed.

Lemma whole_ascii s : ascii_ok s → whole s.
Proof.
  induction 1 as [|c s Hc _ IH]; [by split; [constructor|]|].
  apply (whole_app [c]); [apply whole_plain; lia|done].
Qed.

Lemma whole_join l sep : Forall whole l → whole sep → whole (join l sep).
Proof.
  intros Hl Hs. induction Hl as [|s l Hw Hl IH]; [by split; [constructor|]|].
  destruct l as [|t l]; [done|]. rewrite join_cons. auto using whole_app.
Qed.

Lemma hex_unit_ascii d : d < 16 → hex_unit d < 128.
Proof. intros Hd. unfold hex_unit. destruct (d <? 10); lia. Qed.

Lemma whole_escape c : c < 65536 → whole ([92; 117] ++ hex4 c).
Proof.
  intros Hc. apply whole_ascii. unfold hex4.
  assert (c / 4096 < 16) by (apply N.Div0.div_lt_upper_bound; lia).
  repeat apply Forall_cons_2; try lia; try apply hex_unit_ascii; try done;
    try (by apply N.mod_lt); constructor.
Qed.

Lemma whole_escape_unit c : c < 65536 → is_high c = false → is_low c = false → whole (escape_unit c).
Proof.
  intros Hc Hh Hl. unfold escape_unit.
  repeat (case_match; [by apply whole_ascii; repeat constructor|]).
  case_match; [by apply whole_escape|]. split; [by repeat constructor|]. cbn. by rewrite Hh, Hl.
Qed.

Lemma whole_quote_body s : unit16 s → whole (quote_body s).
Proof.
  induction s as [s IH] using (induction_ltof1 _ (@length N)); unfold ltof in IH.
  destruct s as [|c s]; [by split; [constructor|]|]. intros [Hc Hs]%Forall_cons. cbn [quote_body].
  assert (whole (quote_body s)) as Hb by (apply IH; [cbn; lia|done]).
  destruct (is_high c) eqn:Eh.
  - destruct s as [|d s]; [by apply whole_escape|]. apply Forall_cons in Hs as [Hd Hs].
    destruct (is_low d) eqn:El; [|by apply whole_app; [apply whole_escape|]].
    apply (whole_app [c; d]); [|apply IH; [cbn; lia|done]].
    split; [by repeat constructor|]. cbn. by rewrite Eh, El.
  - destruct (is_low c) eqn:El; apply whole_app; auto using whole_escape, whole_escape_unit.
Qed.

Lemma whole_quote s : unit16 s → whole (quote s).
Proof.
  intros Hs. unfold quote.
  apply whole_app; [|apply whole_app]; [|by apply whole_quote_body|]; by apply whole_ascii; repeat constructor.
Qed.

Lemma whole_scalar v :
  json_ok v → match v with JArr (_ :: _) | JObj (_ :: _) => True | _ => whole (stringify v) end.
Proof.
  intros Hok. destruct v as [|[]|x|s|[|]|[|]]; try done; try by apply whole_ascii; repeat constructor.
  - inversion Hok; subst. by apply whole_ascii, toString_ascii.
  - inversion Hok; subst. by apply whole_quote.
Qed.

Lemma spaces_ascii i : spaces i → ascii_ok i.
Proof. intros Hi. eapply Forall_impl; [done|]. intros c ->. lia. Qed.

(** What surrounds the members of an array or an object. *)
Lemma whole_layout (o c : N) i l :
  o < 55296 → c < 55296 → spaces i → Forall whole l →
  whole (o :: (10 :: deeper i) ++ join l (44 :: 10 :: deeper i) ++ (10 :: i) ++ [c]).
Proof.
  intros Ho Hc Hi Hl. pose proof (whole_ascii _ (spaces_ascii _ (deeper_spaces _ Hi))) as Hd.
  pose proof (whole_ascii _ (spaces_ascii _ Hi)) as Hw.
  assert (whole (10 :: deeper i)) as Hb by (apply (whole_app [10]); [by apply whole_plain|done]).
  assert (whole (44 :: 10 :: deeper i)) as Hs by (apply (whole_app [44]); [by apply whole_plain|done]).
  apply (whole_app [o]); [by apply whole_plain|]. apply whole_app; [done|].
  apply whole_app; [by apply whole_join|]. apply (whole_app (10 :: i)); [|by apply whole_plain].
  apply (whole_app [10]); [by apply whole_plain|done].
Qed.

Lemma pretty_whole i v : spaces i → json_ok v → whole (pretty i v).
Proof.
  revert i. induction v as [|b|x|s|l IH|l IH] using json_ind; intros i Hi Hok;
    try exact (whole_scalar _ Hok).
  - destruct l as [|v l]; [exact (whole_scalar _ Hok)|]. inversion Hok as [| | | |l' Hl|]; subst.
    rewrite <- (app_nil_r (pretty _ _)), pretty_arr. apply whole_layout; try done.
    apply Forall_fmap. rewrite Forall_forall in *. intros w Hw. apply IH; auto using deeper_spaces.
  - destruct l as [|kv l]; [exact (whole_scalar _ Hok)|]. inversion Hok as [| | | | |l' Hl Hnd]; subst.
    rewrite <- (app_nil_r (pretty _ _)), pretty_obj. apply whole_layout; try done.
    apply Forall_fmap. rewrite Forall_forall in *. intros w Hw. destruct (Hl w Hw) as [Hk Hv].
    cbn beta. unfold member_text. apply whole_app; [by apply whole_quote|].
    apply (whole_app [58; 32]); [by apply whole_ascii; repeat constructor|].
    apply IH; auto using deeper_spaces.
Qed.

(** A JSON file that was written is read back. *)
Lemma file_roundtrip v : json_ok v → parse (utf8_decode (utf8_encode (pretty [] v))) = Some v.
Proof.
  intros Hok. destruct (pretty_whole [] v ltac:(constructor) Hok).
  rewrite utf8_roundtrip by done. by apply parse_pretty.
Qed.
