(* ===== verification/RedisModel.v ===== *)
(** * A concrete Redis and environment

    [RedisEntry] and [Env] are interfaces; this file gives one concrete
    instance of each, so that every theorem about them has an input it speaks
    about.  [entry] keeps a string, a hash, a set or a stream with its expiry,
    and satisfies the laws; [calm] is an environment in which nothing fails. *)

From S2P Require Import Prelude JsString JsNum JsText Json Bytes Assoc Effects.

Inductive entry :=
  | ENone
  | EStr (v : jsstr) (expiry : option Z)
  | EHash (fields : gmap jsstr jsstr)
  | ESet (members : gset jsstr)
  | EStream (entries : list (list (jsstr * jsstr))) (expiry : option Z).

Definition live (now : Z) (expiry : option Z) : bool :=
  match expiry with Some t => (now <? t)%Z | None => true end.

Definition hash_fields (e : entry) : gmap jsstr jsstr :=
  match e with EHash m => m | _ => ∅ end.

Definition set_members (e : entry) : gset jsstr :=
  match e with ESet s => s | _ => ∅ end.

Definition stream_of (now : Z) (e : entry) : list (list (jsstr * jsstr)) :=
  match e with
  | EStream l x => if live now x then l else []
  | _ => []
  end.

Definition expiry_of (now : Z) (e : entry) : option Z :=
  match e with
  | EStr _ x | EStream _ x => if live now x then x else None
  | _ => None
  end.

Definition hset_all (kvs : list (jsstr * jsstr)) (m : gmap jsstr jsstr) : gmap jsstr jsstr :=
  foldl (λ m kv, <[kv.1 := kv.2]> m) m kvs.

Definition incr_entry (now : Z) (e : entry) : entry :=
  match e with
  | EStr v x =>
      if live now x then EStr (toString (num_add (toNumber v) (num_of_Z 1))) x
      else EStr (js "1") None
  | _ => EStr (js "1") None
  end.

Definition expire_entry (now ttl : Z) (e : entry) : entry :=
  let t := (now + 1000 * ttl)%Z in
  match e with
  | EStr v x => if live now x then EStr v (Some t) else ENone
  | EStream l x => EStream (if live now x then l else []) (Some t)
  | e => e
  end.

#[export] Instance entry_redis : RedisEntry entry := {|
  e_none := ENone;
  e_get now e := match e with
                 | EStr v x => if live now x then Some v else None
                 | _ => None
                 end;
  e_set now v ttl := EStr v ((λ t, now + 1000 * t)%Z <$> ttl);
  e_incr := incr_entry;
  e_expire := expire_entry;
  e_hset kvs e := EHash (hset_all kvs (hash_fields e));
  e_hget f e := hash_fields e !! f;
  e_hgetall e := map_to_list (hash_fields e);
  e_sadd x e := ESet ({[x]} ∪ set_members e);
  e_smembers e := elements (set_members e);
  e_xadd now kvs e := EStream (kvs :: stream_of now e) (expiry_of now e);
  e_stream := stream_of;
  e_expiry := expiry_of;
|}.

(** ** The laws *)

Lemma kv_lookup_map (m : gmap jsstr jsstr) f : kv_lookup (map_to_list m) f = m !! f.
Proof.
  pose proof (NoDup_fst_map_to_list m) as Hnd.
  destruct (m !! f) as [v|] eqn:E.
  - apply kv_lookup_Some; [done|]. by apply elem_of_map_to_list.
  - destruct (kv_lookup _ f) as [v|] eqn:E'; [|done].
    apply kv_lookup_Some in E'; [|done]. apply elem_of_map_to_list in E'. congruence.
Qed.

Lemma hset_all_lookup kvs m f :
  NoDup kvs.*1 →
  hset_all kvs m !! f = match kv_lookup kvs f with Some v => Some v | None => m !! f end.
Proof.
  unfold hset_all. revert m; induction kvs as [|[g x] kvs IH]; intros m Hnd; [done|].
  cbn in *. apply NoDup_cons in Hnd as [Hg Hnd]. rewrite IH by done.
  case_bool_decide as Hgf.
  - subst g. rewrite kv_lookup_not_in by done. by rewrite lookup_insert_eq.
  - destruct (kv_lookup kvs f); [done|]. by rewrite lookup_insert_ne.
Qed.

#[export] Instance entry_laws : RedisLaws entry.
Proof.
  split; cbn.
  - done.
  - done.
  - done.
  - intros. apply lookup_empty.
  - intros. by apply hset_all_lookup.
  - intros. apply kv_lookup_map.
  - intros. apply NoDup_fst_map_to_list.
  - done.
  - set_solver.
  - intros. apply NoDup_elements.
  - done.
  - done.
  - intros now now' ttl e t. destruct e as [|v x| | |l x]; cbn; repeat case_match; cbn;
      repeat case_match; congruence.
  - intros now now' kvs e t. cbn. case_match; congruence.
  - intros now now' kvs e Hle Hx. destruct (expiry_of now e) as [t|]; cbn; [|done].
    specialize (Hx t eq_refl). by apply Z.ltb_lt in Hx as ->.
  - intros now now' ttl e Hle. destruct e as [|v x| | |l x]; cbn.
    5: done.
    all: repeat case_match; done.
Qed.

(** ** A calm environment *)

(** The digest of a secret key stands for its public key. *)
Definition calm_key (seed : N) : keypair :=
  Keypair (js "Key" ++ [65 + seed mod 256 mod 26]%N) (replicate 64 (seed mod 256)%N).

Definition calm_from (sk : bytes) : exn + keypair :=
  match sk with
  | s :: _ => if bool_decide (length sk = 64%nat) then inr (calm_key s)
              else inl (Exn KExternal (js "bad secret key size"))
  | [] => inl (Exn KExternal (js "bad secret key size"))
  end.

Lemma calm_key_ok seed :
  length (secretKey (calm_key seed)) = 64%nat ∧ bytes_ok (secretKey (calm_key seed))
  ∧ calm_from (secretKey (calm_key seed)) = inr (calm_key seed).
Proof.
  unfold calm_key. cbn [secretKey]. repeat split.
  - apply Forall_replicate. by apply N.mod_lt.
  - cbn -[N.modulo]. unfold calm_key. by rewrite N.Div0.mod_mod.
Qed.

(** A node that knows every mint, with nine decimals, and no balances. *)
Definition calm_rpc (c : rpc_call) : json :=
  match c with
  | GetBalance _ => JNum (num_of_Z 2500000000)
  | GetParsedAccountInfo _ =>
      JObj [(js "value", JObj [(js "data", JObj [(js "parsed",
        JObj [(js "info", JObj [(js "decimals", JNum (num_of_Z 9))])])])])]
  | GetParsedTokenAccountsByOwner _ => JObj [(js "value", JArr [])]
  | GetLatestBlockhash => JObj [(js "blockhash", JStr (js "hash"))]
  end.

Definition calm_fetch (r : request) : response := Response true (js "OK") (js "{}").

(** The variables a deployment sets; those of the firewall keep their defaults. *)
Definition calm_vars : list (jsstr * jsstr) := [
  (js "WALLET_CIPHER_KEY", repeat_unit (code "a") 64);
  (js "AGENT_NAME", js "Nexus");
  (js "AGENT_PERSONA", js "You are %AGENT%.");
  (js "AGENT_GOALS", js "Trade well");
  (js "AGENT_TW_HANDLE", js "NexusAgent");
  (js "AGENT_MINT", js "AgentMint");
  (js "NXR_MINT", js "NxrMint");
  (js "USDC_MINT", js "UsdcMint");
  (js "MIN_NXR_SOL", js "0.01");
  (js "NXR_BURN_PCT", js "0.5");
  (js "OLLAMA_URL", js "http://localhost:11434/api/generate");
  (js "OLLAMA_MODEL", js "llama3");
  (js "API_SECRET", js "secret");
  (js "DEV_LAUNCHPAD_PROGRAM", js "LaunchProgram");
  (js "IMAGE_API_ROOT", js "http://images");
  (js "METADATA_BASE_URL", js "https://meta");
  (js "RECAPTCHA_SECRET", js "captcha secret");
  (js "LAUNCH_TOTAL_RAISE_SOL", js "85")
].

(** The environment in which every request is answered by [answer]. *)
Definition calm_with (answer : request → response) : Env := {|
  env_var := kv_lookup calm_vars;
  elapsed _ := 1%N;
  redis_fault _ := None;
  fetch_answer _ r := inr (answer r);
  rpc_answer _ c := inr (calm_rpc c);
  account_answer _ _ := inr None;
  send_answer n _ := inr (js "sig");
  random_answer n k := replicate k (N.of_nat n mod 256)%N;
  generate_answer n := calm_key (N.of_nat n);
  fromSecretKey := calm_from;
  publicKey_fault _ := None;
  ata_address mint owner := inr (mint ++ owner);
  transfer_fault _ _ := None;
  sign_fault _ := None;
  tx_sign _ _ := None;
  js_pow10 _ := NaN;
  client_has m := bool_decide (m = js "setEx");
  gcm_seal key iv p := ((λ b, (b + List.hd 0 iv) mod 256)%N <$> p, replicate 16 7%N);
  gcm_open key iv tag c :=
    if bool_decide (tag = replicate 16 7%N)
    then inr ((λ b, (b + (256 - List.hd 0 iv mod 256)) mod 256)%N <$> c)
    else inl (Exn KError (js "Unsupported state or unable to authenticate data"));
  hmac_sha256 key d := replicate 32 (foldr N.add 0 (key ++ d) mod 256)%N;
  hkdf_sha256 secret info := inr (take 32 (info ++ secret ++ replicate 32 0%N));
  csurf_fault _ _ _ _ _ _ := None;
|}.

#[export] Instance calm : Env := calm_with calm_fetch.

Lemma calm_with_laws answer : EnvLaws (EN:=calm_with answer).
Proof.
  split; cbn -[N.modulo N.sub N.add].
  - intros. apply length_replicate.
  - intros. apply Forall_replicate. by apply N.mod_lt.
  - intros key iv p. split; [|by repeat constructor].
    apply Forall_fmap, Forall_true. intros b. by apply N.mod_lt.
  - done.
  - intros key iv p _ _ Hp. f_equal. rewrite <- list_fmap_compose.
    rewrite <- (list_fmap_id p) at 2. apply list_fmap_ext. intros i b Hb.
    apply Forall_lookup_1 with (i:=i) (x:=b) in Hp; [|done]. cbn.
    generalize (List.hd 0%N iv). intros h. rewrite <- (N.Div0.add_mod_idemp_r b h).
    pose proof (N.mod_lt h 256 ltac:(done)). set (r := (h mod 256)%N) in *.
    rewrite N.Div0.add_mod_idemp_l. replace (b + r + (256 - r))%N with (b + 1 * 256)%N by lia.
    rewrite N.Div0.mod_add. by apply N.mod_small.
  - intros n. apply calm_key_ok.
  - done.
  - intros key d. apply (Forall_replicate _ 32). by apply N.mod_lt.
Qed.

#[export] Instance calm_laws : EnvLaws := calm_with_laws calm_fetch.

Definition world0 : world entry :=
  World 1700000000000 0 ∅ (num_of_Z 20) 0 [] ∅ [] [] [] [].
