(* ===== verification/Db.v ===== *)
(** * db.js: the user store with encrypted wallets

    A user is a Redis hash [user:<handle>], listed in the set [users]; the
    [wallet] field holds ["enc:"] and the base64 of iv, tag and ciphertext.
    AES-256-GCM, the random bytes and Redis are parameters with their laws
    ([EnvLaws], [RedisLaws]).  Wiping a buffer ([fill(0)]) has no effect the
    model can observe. *)

From S2P Require Import Prelude JsString JsNum JsText Json Bytes Assoc Effects Uint8 RedisModel.

Local Open Scope prog_scope.

Definition non_empty (s : jsstr) : bool := match s with [] => false | _ => true end.

Section Db.
Context {E : Type} `{RE : RedisEntry E} `{EN : Env}.

Definition USERS_SET : jsstr := js "users".
Definition user_key (handle : jsstr) : jsstr := js "user:" ++ handle.
Definition enc_prefix : jsstr := js "enc:".

Definition CIPHER_KEY : bytes := hex_decode (default [] (env_var (js "WALLET_CIPHER_KEY"))).

(** Loading the module: a key that is not 32 bytes ends the process. *)
Definition db_load : prog E unit :=
  if bool_decide (length CIPHER_KEY = 32%nat) then ret tt else exit 1.

Definition encrypt (buf : bytes) : prog E jsstr :=
  n <- interact ;;
  let iv := random_answer n 12 in
  let '(cipher, tag) := gcm_seal CIPHER_KEY iv buf in
  ret (b64_encode false (iv ++ tag ++ cipher)).

Definition decrypt (b64 : jsstr) : prog E bytes :=
  let raw := b64_decode b64 in
  let iv := take 12 raw in
  let tag := take 16 (drop 12 raw) in
  let cip := drop 28 raw in
  lift (gcm_open CIPHER_KEY iv tag cip).

(** [chatId] is stored as it is, and leaves the object. *)
Definition store_chatId (key : jsstr) (data : list (jsstr * jsstr))
  : prog E (list (jsstr * jsstr)) :=
  match kv_lookup data (js "chatId") with
  | Some c =>
      if non_empty c
      then redis_hset key [(js "chatId", c)] ;; ret (kv_delete data (js "chatId"))
      else ret data
  | None => ret data
  end.

(** A wallet that looks like plaintext is replaced by its encryption. *)
Definition encrypt_wallet (data : list (jsstr * jsstr)) : prog E (list (jsstr * jsstr)) :=
  match kv_lookup data (js "wallet") with
  | Some v =>
      if non_empty v && negb (startsWith v enc_prefix)
      then c <- encrypt (utf8_encode v) ;;
           ret (kv_set data (js "wallet") (enc_prefix ++ c))
      else ret data
  | None => ret data
  end.

(** [redis.hset(key, data)], skipped for an empty object. *)
Definition hset_object (key : jsstr) (data : list (jsstr * jsstr)) : prog E unit :=
  match data with
  | [] => ret tt
  | _ => redis_hset key data
  end.

(** The fields are strings, as every caller passes them. *)
Definition upsertUser (handle : jsstr) (data : list (jsstr * jsstr)) : prog E unit :=
  let key := user_key handle in
  data <- store_chatId key data ;;
  data <- encrypt_wallet data ;;
  redis_sadd USERS_SET handle ;;
  hset_object key data.

(** [arr] is [Array.from] of the argument. *)
Definition setWalletSecret (handle : jsstr) (arr : json) : prog E unit :=
  let plainBuf := utf8_encode (stringify arr) in
  c <- encrypt plainBuf ;;
  redis_sadd USERS_SET handle ;;
  redis_hset (user_key handle) [(js "wallet", enc_prefix ++ c)].

Definition getUser (handle : jsstr) : prog E (option (list (jsstr * jsstr))) :=
  data <- redis_hgetall (user_key handle) ;;
  match data with
  | [] => ret None
  | _ => ret (Some (kv_delete data (js "wallet")))
  end.

(** The secret an encrypted field holds. *)
Definition open_secret (enc : jsstr) : prog E bytes :=
  plain <- decrypt (slice enc 4 None) ;;
  v <- json_parse (utf8_decode plain) ;;
  lift (uint8_from v).

Definition getWalletSecret (handle : jsstr) : prog E (option bytes) :=
  enc <- redis_hget (user_key handle) (js "wallet") ;;
  match enc with
  | Some enc =>
      if startsWith enc enc_prefix then secret <- open_secret enc ;; ret (Some secret)
      else ret None
  | None => ret None
  end.

(** Secret and legacy text. *)
Definition getWalletCompat (handle : jsstr) : prog E (option bytes * option jsstr) :=
  enc <- redis_hget (user_key handle) (js "wallet") ;;
  match enc with
  | Some enc =>
      if startsWith enc enc_prefix then secret <- open_secret enc ;; ret (Some secret, None)
      else if non_empty enc then ret (None, Some enc) else ret (None, None)
  | None => ret (None, None)
  end.

Definition getAllUsers : prog E (list jsstr) := redis_smembers USERS_SET.
End Db.

(** ** Facts *)

Lemma user_key_inj h h' : user_key h = user_key h' → h = h'.
Proof. apply app_inv_head. Qed.

Lemma user_key_ne h : user_key h ≠ USERS_SET.
Proof. intros H. by vm_compute in H. Qed.

Lemma enc_prefix_slice s : slice (enc_prefix ++ s) 4 None = s.
Proof.
  pose proof (slice_drop (enc_prefix ++ s) 4) as H. change (Z.of_nat 4) with 4%Z in H.
  rewrite H; [done|]. rewrite length_app. change (length enc_prefix) with 4%nat. lia.
Qed.


Section Facts.
Context {E : Type} `{RE : RedisEntry E} `{RL : !RedisLaws E} `{EN : Env} `{EL : !EnvLaws}.
Implicit Types w : world E.

Definition key_ok : Prop := length CIPHER_KEY = 32%nat.

(** What [encrypt] prints of a buffer with the randomness of interaction [n]. *)
Definition sealed (n : nat) (buf : bytes) : jsstr :=
  let iv := random_answer n 12 in
  let c := gcm_seal CIPHER_KEY iv buf in
  b64_encode false (iv ++ c.2 ++ c.1).

Lemma encrypt_eq buf w : encrypt buf w = (Ok (sealed (tick w) buf), pass w).
Proof.
  unfold encrypt, sealed, bind. cbn. by destruct (gcm_seal _ _ _).
Qed.

Lemma decrypt_sealed n buf w :
  key_ok → bytes_ok buf → decrypt (sealed n buf) w = (Ok buf, w).
Proof.
  intros Hk Hb. unfold decrypt, sealed.
  pose proof (random_length n 12) as Hiv. pose proof (random_bytes n 12) as Hivb.
  set (iv := random_answer n 12) in *.
  pose proof (seal_tag CIPHER_KEY iv buf) as Ht.
  destruct (seal_bytes CIPHER_KEY iv buf) as [Hc1 Hc2].
  pose proof (open_seal CIPHER_KEY iv buf Hk Hiv Hb) as Ho.
  destruct (gcm_seal CIPHER_KEY iv buf) as [c t]. cbn [fst snd] in *.
  rewrite b64_roundtrip by (repeat (apply Forall_app; split); done).
  rewrite take_app_length', drop_app_length', take_app_length' by done.
  replace 28%nat with (length (iv ++ t)) by (rewrite length_app; lia).
  rewrite app_assoc, drop_app_length. by rewrite Ho.
Qed.

(** The secret key that the field written for [sk] opens to. *)
Lemma open_secret_sealed n sk w :
  key_ok → bytes_ok sk →
  open_secret (enc_prefix ++ sealed n (utf8_encode (stringify (json_bytes sk)))) w
  = (Ok sk, w).
Proof.
  intros Hk Hs. unfold open_secret. rewrite enc_prefix_slice.
  pose proof (json_bytes_ascii sk Hs) as Ha. rewrite utf8_encode_ascii by done.
  erewrite bind_ok; [|apply decrypt_sealed; [done|]].
  2: { eapply Forall_impl; [exact Ha|]. cbn. lia. }
  rewrite utf8_decode_ascii by done.
  destruct (uint8_roundtrip sk Hs) as (v & Hp & Hu).
  unfold json_parse. rewrite Hp. unfold bind, ret, lift. by rewrite Hu.
Qed.

(** ** What the operations write *)

Lemma hset_ok key kvs w :
  quiet 1 w →
  redis_hset key kvs w = (Ok tt, put key (e_hset kvs (entry_at w key)) (pass w)).
Proof. intros Hq%quiet_now. by apply (write_ok key (λ _, _)). Qed.

Lemma sadd_ok key x w :
  quiet 1 w →
  redis_sadd key x w = (Ok tt, put key (e_sadd x (entry_at w key)) (pass w)).
Proof. intros Hq%quiet_now. by apply (write_ok key (λ _, _)). Qed.

(** The field [upsertUser] stores for a field of its argument, encrypted with
    the randomness of interaction [n]. *)
Definition stored (n : nat) (f v : jsstr) : jsstr :=
  if bool_decide (f = js "wallet") && (non_empty v && negb (startsWith v enc_prefix))
  then enc_prefix ++ sealed n (utf8_encode v) else v.

Lemma encrypt_wallet_eq data w :
  NoDup data.*1 →
  ∃ data' w', encrypt_wallet data w = (Ok data', w') ∧ redis w' = redis w
    ∧ (w' = w ∨ w' = pass w) ∧ NoDup data'.*1
    ∧ ∀ f, kv_lookup data' f = stored (tick w) f <$> kv_lookup data f.
Proof.
  intros Hnd. unfold encrypt_wallet, stored.
  destruct (kv_lookup data (js "wallet")) as [v|] eqn:Ew.
  - destruct (non_empty v && negb (startsWith v enc_prefix)) eqn:Ep.
    + unfold bind. rewrite encrypt_eq. eexists _, _. split; [done|].
      split; [done|]. split; [by right|]. split; [by apply kv_set_nodup|].
      intros f. rewrite kv_lookup_set. destruct (bool_decide_reflect (f = js "wallet")) as [->|Hf].
      * rewrite Ew. cbn. by rewrite Ep.
      * by destruct (kv_lookup data f).
    + eexists _, _. repeat split; [by left|done|]. intros f.
      destruct (bool_decide_reflect (f = js "wallet")) as [->|Hf].
      * rewrite Ew. cbn. by rewrite Ep.
      * by destruct (kv_lookup data f).
  - eexists _, _. repeat split; [by left|done|]. intros f.
    destruct (bool_decide_reflect (f = js "wallet")) as [->|Hf].
    + by rewrite Ew.
    + by destruct (kv_lookup data f).
Qed.

(** [hset] of an object, which skips the command when it has no field. *)
Lemma hset_fields key (data : list (jsstr * jsstr)) w :
  quiet 1 w → NoDup data.*1 →
  ∃ w', hset_object key data w = (Ok tt, w') ∧ (tick w' <= S (tick w))%nat
    ∧ (∀ f, e_hget f (entry_at w' key) = match kv_lookup data f with
                                         | Some v => Some v
                                         | None => e_hget f (entry_at w key)
                                         end)
    ∧ ∀ k, k ≠ key → entry_at w' k = entry_at w k.
Proof.
  intros Hq Hnd. unfold hset_object.
  destruct data as [|kv data'] eqn:Ed; [by eexists; split; [|split; [|done]]; [done|lia]|].
  rewrite <- Ed in *. rewrite hset_ok by done. eexists. split; [done|]. split; [done|]. split.
  - intros f. rewrite entry_put. by apply hget_hset.
  - intros k Hk. by rewrite entry_put_ne.
Qed.

Lemma store_chatId_eq key data w :
  quiet 1 w → NoDup data.*1 →
  ∃ data' w', store_chatId key data w = (Ok data', w') ∧ NoDup data'.*1
    ∧ (w' = w ∨ tick w' = S (tick w))
    ∧ (∀ k, k ≠ key → entry_at w' k = entry_at w k)
    ∧ kv_lookup data' (js "wallet") = kv_lookup data (js "wallet")
    ∧ ∀ f, match kv_lookup data' f with
           | Some v => Some v
           | None => e_hget f (entry_at w' key)
           end = match kv_lookup data f with
                 | Some v => Some v
                 | None => e_hget f (entry_at w key)
                 end.
Proof.
  intros Hq Hnd. unfold store_chatId.
  destruct (kv_lookup data (js "chatId")) as [c|] eqn:Ec; [|eexists _, _; by eauto 10].
  destruct (non_empty c); [|eexists _, _; by eauto 10].
  unfold bind. rewrite hset_ok by done. eexists _, _. split; [done|].
  split; [by apply kv_delete_nodup|]. split; [by right|].
  split; [intros k Hk; by rewrite entry_put_ne|].
  split; [by rewrite kv_lookup_delete|]. intros f.
  rewrite kv_lookup_delete, entry_put.
  rewrite hget_hset by apply NoDup_singleton. cbn.
  destruct (bool_decide_reflect (f = js "chatId")) as [->|Hf].
  - by rewrite Ec, bool_decide_true.
  - rewrite bool_decide_false by done. by destruct (kv_lookup data f).
Qed.

(** ** The theorems *)

(** The set of users has one more member. *)
Definition lists_also (handle : jsstr) w w' : Prop :=
  ∀ x, x ∈ e_smembers (entry_at w' USERS_SET) ↔ x = handle ∨ x ∈ e_smembers (entry_at w USERS_SET).

Lemma lists_also_self handle w w' :
  lists_also handle w w' → handle ∈ e_smembers (entry_at w' USERS_SET).
Proof. intros H. apply H. by left. Qed.

(** The world after a stored secret. *)
Lemma setWalletSecret_run handle sk w :
  quiet 3 w →
  ∃ w1, setWalletSecret handle (json_bytes sk) w = (Ok tt, w1)
    ∧ tick w1 = (tick w + 3)%nat
    ∧ (∀ f, e_hget f (entry_at w1 (user_key handle))
            = if bool_decide (f = js "wallet")
              then Some (enc_prefix ++ sealed (tick w) (utf8_encode (stringify (json_bytes sk))))
              else e_hget f (entry_at w (user_key handle)))
    ∧ lists_also handle w w1
    ∧ ∀ k, k ≠ user_key handle → k ≠ USERS_SET → entry_at w1 k = entry_at w k.
Proof.
  intros Hq. unfold setWalletSecret, bind. rewrite encrypt_eq.
  set (c := sealed _ _). pose proof (quiet_next _ _ (pass w) Hq eq_refl) as Hq1.
  rewrite sadd_ok by quiet_weaken.
  set (w1 := put USERS_SET _ _). pose proof (quiet_next _ _ w1 Hq1 eq_refl) as Hq2.
  rewrite hset_ok by quiet_weaken.
  eexists. split; [done|]. split; [cbn; lia|]. split; [|split].
  - intros f. rewrite entry_put, hget_hset by apply NoDup_singleton. cbn [kv_lookup].
    destruct (bool_decide_reflect (f = js "wallet")) as [->|Hf].
    + by rewrite bool_decide_true.
    + rewrite bool_decide_false by done. subst w1.
      by rewrite entry_put_ne by (apply not_eq_sym, user_key_ne).
  - intros x. rewrite entry_put_ne by apply user_key_ne. rewrite entry_pass.
    subst w1. rewrite entry_put. apply smembers_sadd.
  - intros k Hk1 Hk2. rewrite entry_put_ne, entry_pass by done.
    subst w1. by rewrite entry_put_ne.
Qed.

(** Reading a field that holds the encryption of [sk]. *)
Lemma read_wallet handle n sk w :
  key_ok → bytes_ok sk → quiet 1 w →
  e_hget (js "wallet") (entry_at w (user_key handle))
  = Some (enc_prefix ++ sealed n (utf8_encode (stringify (json_bytes sk)))) →
  getWalletSecret handle w = (Ok (Some sk), pass w)
  ∧ getWalletCompat handle w = (Ok (Some sk, None), pass w).
Proof.
  intros Hk Hs Hq%quiet_now Hw. unfold getWalletSecret, getWalletCompat, redis_hget, bind.
  rewrite read_ok by done. rewrite Hw, startsWith_app.
  by rewrite (open_secret_sealed _ sk) by done.
Qed.

(** C1. A wallet secret that was stored reads back as the same bytes, through both
    readers; the handle is listed, and no other key has changed. *)
Theorem wallet_roundtrip handle sk w :
  key_ok → bytes_ok sk → quiet 4 w →
  ∃ w1 w2, setWalletSecret handle (json_bytes sk) w = (Ok tt, w1)
    ∧ getWalletSecret handle w1 = (Ok (Some sk), w2)
    ∧ getWalletCompat handle w1 = (Ok (Some sk, None), w2)
    ∧ handle ∈ e_smembers (entry_at w1 USERS_SET)
    ∧ ∀ k, k ≠ user_key handle → k ≠ USERS_SET → entry_at w1 k = entry_at w k.
Proof.
  intros Hk Hs Hq. destruct (setWalletSecret_run handle sk w) as (w1 & H1 & Ht & Hw & Hm & Hf);
    [quiet_weaken|].
  assert (quiet 1 w1) as Hq1 by (by apply (quiet_skip 3 1 w)).
  specialize (Hw (js "wallet")). rewrite bool_decide_true in Hw by done.
  destruct (read_wallet _ _ _ _ Hk Hs Hq1 Hw) as [H2 H3]. apply lists_also_self in Hm.
  by exists w1, (pass w1).
Qed.

(** The world after an upsert. *)
Lemma upsertUser_run handle data w :
  NoDup data.*1 → quiet 4 w →
  ∃ n w', upsertUser handle data w = (Ok tt, w') ∧ (tick w' <= tick w + 4)%nat
    ∧ lists_also handle w w'
    ∧ (∀ f, e_hget f (entry_at w' (user_key handle))
            = match kv_lookup data f with
              | Some v => Some (stored n f v)
              | None => e_hget f (entry_at w (user_key handle))
              end)
    ∧ ∀ k, k ≠ user_key handle → k ≠ USERS_SET → entry_at w' k = entry_at w k.
Proof.
  intros Hnd Hq. unfold upsertUser.
  destruct (store_chatId_eq (user_key handle) data w) as
    (d1 & w1 & Hs1 & Hn1 & Ht1 & Hk1 & Hw1 & Hf1); [quiet_weaken|done|].
  assert (quiet 3 w1) as Hq1.
  { destruct Ht1 as [->|Ht1]; [quiet_weaken|by eapply quiet_next]. }
  destruct (encrypt_wallet_eq d1 w1 Hn1) as (d2 & w2 & Hs2 & Hr2 & Ht2 & Hn2 & Hf2).
  assert (quiet 2 w2) as Hq2.
  { destruct Ht2 as [->| ->]; [quiet_weaken|by eapply quiet_next]. }
  assert (∀ k, entry_at w2 k = entry_at w1 k) as He2 by (intros k; unfold entry_at; by rewrite Hr2).
  unfold bind. rewrite Hs1, Hs2, sadd_ok by quiet_weaken.
  set (w3 := put USERS_SET _ _).
  destruct (hset_fields (user_key handle) d2 w3) as (w4 & -> & Ht4 & Hf4 & Hk4);
    [by eapply quiet_next|done|].
  exists (tick w1), w4. split; [done|]. split.
  { change (tick w3) with (S (tick w2)) in Ht4.
    destruct Ht1 as [->|?], Ht2 as [->| ->]; cbn in *; lia. }
  split; [|split].
  - intros x. rewrite Hk4 by (apply not_eq_sym, user_key_ne). subst w3. rewrite entry_put.
    rewrite smembers_sadd, He2, Hk1 by (apply not_eq_sym, user_key_ne). done.
  - intros f. rewrite Hf4. subst w3. rewrite entry_put_ne, entry_pass, He2, Hf2
      by (apply not_eq_sym, user_key_ne). specialize (Hf1 f).
    destruct (bool_decide_reflect (f = js "wallet")) as [->|Hne].
    + rewrite Hw1 in *. by destruct (kv_lookup data (js "wallet")).
    + unfold stored in *. rewrite bool_decide_false in * by done. cbn.
      by destruct (kv_lookup d1 f), (kv_lookup data f).
  - intros k Hk Hk'. rewrite Hk4 by done. subst w3.
    rewrite entry_put_ne, entry_pass, He2 by done. by apply Hk1.
Qed.

(** [upsertUser] succeeds while Redis accepts its commands: it lists the handle,
    sets exactly the given fields, a plaintext wallet to its encryption, and
    leaves the other fields and the other users as they were. *)
Theorem upsertUser_spec handle data w :
  NoDup data.*1 → quiet 4 w →
  ∃ n w', upsertUser handle data w = (Ok tt, w')
    ∧ handle ∈ e_smembers (entry_at w' USERS_SET)
    ∧ (∀ f, e_hget f (entry_at w' (user_key handle))
            = match kv_lookup data f with
              | Some v => Some (stored n f v)
              | None => e_hget f (entry_at w (user_key handle))
              end)
    ∧ ∀ k, k ≠ user_key handle → k ≠ USERS_SET → entry_at w' k = entry_at w k.
Proof.
  intros Hnd Hq. destruct (upsertUser_run handle data w Hnd Hq) as (n & w' & H & _ & Hm & Hr).
  apply lists_also_self in Hm. by exists n, w'.
Qed.

Lemma upsertUser_users handle data : respects same_users (upsertUser handle data).
Proof.
  unfold upsertUser, store_chatId, encrypt_wallet, encrypt, hset_object, redis_hset, redis_sadd.
  respects_walk.
Qed.

(** What [getUser] reads. *)
Lemma getUser_run handle w :
  quiet 1 w →
  match e_hgetall (entry_at w (user_key handle)) with
  | [] => getUser handle w = (Ok None, pass w)
  | _ => ∃ data, getUser handle w = (Ok (Some data), pass w)
         ∧ kv_lookup data (js "wallet") = None
         ∧ ∀ f, f ≠ js "wallet" →
             kv_lookup data f = e_hget f (entry_at w (user_key handle))
  end.
Proof.
  intros Hq%quiet_now. unfold getUser, redis_hgetall, bind. rewrite read_ok by done.
  destruct (e_hgetall _) as [|kv l] eqn:El; [done|].
  eexists. split; [done|]. split.
  - rewrite kv_lookup_delete. by rewrite bool_decide_true.
  - intros f Hf. rewrite kv_lookup_delete, bool_decide_false by done.
    by rewrite <- hgetall_lookup, El.
Qed.

(** A user with some field is found. *)
Lemma getUser_some handle w f v :
  quiet 1 w → e_hget f (entry_at w (user_key handle)) = Some v →
  ∃ data, getUser handle w = (Ok (Some data), pass w)
    ∧ ∀ g, g ≠ js "wallet" → kv_lookup data g = e_hget g (entry_at w (user_key handle)).
Proof.
  intros Hq Hv. pose proof (getUser_run handle w Hq) as H.
  destruct (e_hgetall _) as [|kv l] eqn:El.
  - by rewrite <- hgetall_lookup, El in Hv.
  - destruct H as (data & H1 & _ & H2). by exists data.
Qed.

(** [getUser] returns null exactly for a user without fields; otherwise every
    field of the user except the wallet, which it never returns. *)
Theorem getUser_spec handle w :
  quiet 1 w →
  match e_hgetall (entry_at w (user_key handle)) with
  | [] => getUser handle w = (Ok None, pass w)
  | _ => ∃ data, getUser handle w = (Ok (Some data), pass w)
         ∧ kv_lookup data (js "wallet") = None
         ∧ ∀ f, f ≠ js "wallet" →
             kv_lookup data f = e_hget f (entry_at w (user_key handle))
  end.
Proof. apply getUser_run. Qed.

(** ** Wallets at rest *)

(** From [w] to [w'] the wallet fields are the same, except that the one of [handle] may
    be one that satisfies [P]. *)
Definition wallets_but (handle : jsstr) (P : jsstr → Prop) w w' : Prop :=
  ∀ h, e_hget (js "wallet") (entry_at w' (user_key h)) = e_hget (js "wallet") (entry_at w (user_key h))
       ∨ h = handle ∧ ∃ v, e_hget (js "wallet") (entry_at w' (user_key h)) = Some v ∧ P v.

#[export] Instance wallets_but_refl handle P : Reflexive (wallets_but handle P).
Proof. intros w h. by left. Qed.

#[export] Instance wallets_but_trans handle P : Transitive (wallets_but handle P).
Proof.
  intros w1 w2 w3 H1 H2 h. destruct (H2 h) as [->|H]; [apply H1|by right].
Qed.

Lemma wallets_hset handle P kvs :
  NoDup kvs.*1 → (∀ v, kv_lookup kvs (js "wallet") = Some v → P v) →
  respects (wallets_but handle P) (redis_hset (user_key handle) kvs).
Proof.
  intros Hnd HP w h. unfold redis_hset. rewrite write_eq.
  destruct (redis_fault _); [by left|]. cbn [snd].
  destruct (decide (h = handle)) as [->|Hne].
  - rewrite entry_put, hget_hset by done.
    destruct (kv_lookup kvs _) eqn:Ek; [right|by left]. split; [done|]. by eauto.
  - left. rewrite entry_put_ne; [done|]. by intros <-%user_key_inj.
Qed.

Lemma wallets_sadd handle P x : respects (wallets_but handle P) (redis_sadd USERS_SET x).
Proof.
  intros w h. left. unfold redis_sadd. rewrite write_eq. destruct (redis_fault _); [done|].
  cbn [snd]. by rewrite entry_put_ne by (apply not_eq_sym, user_key_ne).
Qed.

Lemma wallets_chatId handle P data :
  respects (wallets_but handle P) (store_chatId (user_key handle) data).
Proof.
  unfold store_chatId. destruct (kv_lookup data _); [|by apply respects_ret].
  destruct (non_empty _); [|by apply respects_ret].
  apply respects_bind; [apply _|apply wallets_hset; [apply NoDup_singleton|]|].
  - intros v. by vm_compute.
  - intros []. by apply respects_ret.
Qed.

Lemma store_chatId_rest key data w d w' :
  NoDup data.*1 → store_chatId key data w = (Ok d, w') →
  NoDup d.*1 ∧ kv_lookup d (js "wallet") = kv_lookup data (js "wallet")
  ∧ (tick w <= tick w')%nat.
Proof.
  intros Hnd. unfold store_chatId. destruct (kv_lookup data (js "chatId")) as [c|]; [|by intros [= <- <-]].
  destruct (non_empty c); [|by intros [= <- <-]].
  unfold redis_hset, bind. rewrite write_eq. destruct (redis_fault _); [done|].
  intros [= <- <-]. split; [by apply kv_delete_nodup|].
  rewrite kv_lookup_delete, bool_decide_false by done. split; [done|cbn; lia].
Qed.

Lemma wallets_hset_object handle P kvs :
  NoDup kvs.*1 → (∀ v, kv_lookup kvs (js "wallet") = Some v → P v) →
  respects (wallets_but handle P) (hset_object (user_key handle) kvs).
Proof.
  intros Hnd HP. unfold hset_object. destruct kvs; [by apply respects_ret|by apply wallets_hset].
Qed.

(** The field an upsert with the wallet [given] may store: its AES-256-GCM encryption under
    the key of the process and twelve random bytes drawn during the call; or the given
    text, if it is empty or marked as encrypted already. *)
Definition upserted_wallet w (given field : jsstr) : Prop :=
  if non_empty given && negb (startsWith given enc_prefix)
  then ∃ n, (tick w <= n)%nat ∧ field = enc_prefix ++ sealed n (utf8_encode given)
  else field = given.

(** C20. Whichever commands Redis rejects, the writers of [db.js] change no wallet field
    but that of their user, and what they store in it is an encryption.  [upsertUser]
    stores, of a wallet among the fields it is given, the AES-256-GCM encryption under
    the key of the process and a random iv, unless that text is empty or carries the mark
    of an encrypted one, in which case it is stored as it is; without a wallet among the
    fields it changes none.  [setWalletSecret] stores the encryption of its argument. *)
Theorem writers_keep_wallets_encrypted handle data arr w :
  NoDup data.*1 →
  wallets_but handle
    (λ field, ∃ given, kv_lookup data (js "wallet") = Some given ∧ upserted_wallet w given field)
    w (upsertUser handle data w).2
  ∧ wallets_but handle
      (λ field, field = enc_prefix ++ sealed (tick w) (utf8_encode (stringify arr)))
      w (setWalletSecret handle arr w).2.
Proof.
  intros Hnd. split.
  - unfold upsertUser. unfold bind at 1. set (P := λ field, _).
    pose proof (wallets_chatId handle P data w) as Hc.
    destruct (store_chatId _ data w) as [[d1|e|c] w1] eqn:E1; [|done..]. cbn [snd] in Hc.
    destruct (store_chatId_rest _ _ _ _ _ Hnd E1) as (Hn1 & Hd1 & Ht1).
    etransitivity; [exact Hc|]. unfold bind at 1.
    destruct (encrypt_wallet_eq d1 w1 Hn1) as (d2 & w2 & -> & Hr & _ & Hn2 & Hf2).
    assert (wallets_but handle P w1 w2) as H2 by (intros h; left; unfold entry_at; by rewrite Hr).
    etransitivity; [exact H2|].
    apply respects_bind; [apply _|apply wallets_sadd|]. intros _. apply wallets_hset_object; [done|].
    intros v. rewrite Hf2, Hd1. destruct (kv_lookup data _) as [given|] eqn:Eg; [|done].
    intros [= <-]. exists given. split; [done|]. unfold upserted_wallet, stored.
    rewrite bool_decide_true by done. cbn [andb]. destruct (_ && _); [|done]. by exists (tick w1).
  - unfold setWalletSecret. unfold bind at 1. rewrite encrypt_eq.
    set (P := λ field, _). assert (wallets_but handle P w (pass w)) as H1 by (intros h; by left).
    etransitivity; [exact H1|]. apply respects_bind; [apply _|apply wallets_sadd|]. intros [].
    apply wallets_hset; [apply NoDup_singleton|]. intros v. cbn.
    rewrite bool_decide_true by done. by intros [= <-].
Qed.

(** [getWalletCompat] never returns both a secret and a legacy text: a legacy
    text comes only from a non-empty field without the prefix. *)
Theorem getWalletCompat_exclusive handle w s l w' :
  getWalletCompat handle w = (Ok (s, l), w') →
  (s = None ∨ l = None)
  ∧ ∀ t, l = Some t →
      e_hget (js "wallet") (entry_at w (user_key handle)) = Some t
      ∧ t ≠ [] ∧ startsWith t enc_prefix = false.
Proof.
  unfold getWalletCompat, redis_hget. intros H. apply bind_inv in H as (enc & w1 & Hr & H).
  rewrite read_eq in Hr. destruct (redis_fault _); [done|]. injection Hr as Hr <-.
  destruct enc as [enc|]; [|injection H as <- <- _; by split; [left|]].
  destruct (startsWith enc enc_prefix) eqn:Es.
  - apply bind_inv in H as (x & w2 & _ & H). injection H as <- <- _. by split; [right|].
  - destruct enc as [|c enc]; injection H as <- <- _; [by split; [left|]|]. split; [by left|].
    intros t [= <-]. by rewrite Hr.
Qed.
End Facts.

(** ** Concrete runs *)

Lemma calm_key_len : key_ok.
Proof. by vm_compute. Qed.

Lemma calm_quiet k (w : world entry) : quiet k w.
Proof. by intros i _. Qed.

Definition sk0 : bytes := secretKey (calm_key 7).

Lemma sk0_ok : bytes_ok sk0.
Proof. apply calm_key_ok. Qed.

Lemma wallet_roundtrip_witness :
  ∃ w1 w2, setWalletSecret (js "ann") (json_bytes sk0) world0 = (Ok tt, w1)
    ∧ getWalletSecret (js "ann") w1 = (Ok (Some sk0), w2).
Proof.
  destruct (wallet_roundtrip (js "ann") sk0 world0 calm_key_len sk0_ok (calm_quiet 4 _))
    as (w1 & w2 & H1 & H2 & _). exists w1, w2. split; [exact H1|exact H2].
Defined.

Definition ann_data : list (jsstr * jsstr) :=
  [(js "chatId", js "42"); (js "wallet", js "[1,2]"); (js "risk", js "low")].

Lemma ann_data_nodup : NoDup ann_data.*1.
Proof. apply (bool_decide_eq_true_1 (NoDup ann_data.*1)). by vm_compute. Qed.

Lemma upsertUser_spec_witness :
  ∃ w', upsertUser (js "ann") ann_data world0 = (Ok tt, w')
    ∧ e_hget (js "risk") (entry_at w' (user_key (js "ann"))) = Some (js "low").
Proof.
  destruct (upsertUser_spec (js "ann") ann_data world0 ann_data_nodup (calm_quiet 4 _))
    as (n & w' & H1 & _ & H3 & _). exists w'. split; [exact H1|].
  rewrite H3. vm_compute. reflexivity.
Defined.

(** A world in which ann is stored. *)
Definition ann_world : world entry := (upsertUser (js "ann") ann_data world0).2.

Lemma getUser_spec_witness :
  ∃ data, getUser (js "ann") ann_world = (Ok (Some data), pass ann_world)
          ∧ kv_lookup data (js "wallet") = None.
Proof.
  pose proof (getUser_spec (js "ann") ann_world (calm_quiet 1 _)) as H.
  destruct (e_hgetall (entry_at ann_world (user_key (js "ann")))) as [|kv l] eqn:El.
  - exfalso. vm_compute in El. discriminate El.
  - destruct H as (data & H1 & H2 & _). exists data. split; [exact H1|exact H2].
Defined.

Lemma writers_keep_wallets_encrypted_witness :
  wallets_but (js "ann")
    (λ field, ∃ given, kv_lookup ann_data (js "wallet") = Some given
                       ∧ upserted_wallet world0 given field)
    world0 (upsertUser (js "ann") ann_data world0).2.
Proof.
  exact (proj1 (writers_keep_wallets_encrypted (js "ann") ann_data (json_bytes sk0) world0
    ann_data_nodup)).
Defined.

(** A wallet left in the clear by an older version. *)
Definition legacy_world : world entry :=
  put (user_key (js "bob")) (e_hset [(js "wallet", js "[1]")] e_none) world0.

Lemma legacy_read :
  getWalletCompat (js "bob") legacy_world = (Ok (None, Some (js "[1]")), pass legacy_world).
Proof. vm_compute. reflexivity. Qed.

Lemma getWalletCompat_exclusive_witness : startsWith (js "[1]") enc_prefix = false.
Proof.
  destruct (getWalletCompat_exclusive (js "bob") legacy_world _ _ _ legacy_read) as [_ H].
  exact (proj2 (proj2 (H (js "[1]") eq_refl))).
Defined.
