(* ===== verification/Store.v ===== *)
(** * The user store as an abstract data type

    What [db.js] promises its clients, without Redis and without AES: a finite map from
    handles to accounts, an account being a wallet and public fields.  The Redis keyspace
    represents such a map, and every operation of [db.js] carries out the abstract one,
    answers and failures included. *)

From S2P Require Import Prelude JsString JsNum JsText Json Bytes Assoc Effects Uint8 Utf8 RedisModel Db.

Local Open Scope prog_scope.

(** ** The abstract store *)

(** A wallet: a secret key; the text of an upsert, which was encrypted; or a field that
    is kept as it is, since it is empty, or marked as encrypted by the caller, or from a
    time before the encryption. *)
Inductive wallet_state :=
  | Key (sk : bytes)
  | Text (t : jsstr)
  | Raw (v : jsstr).

Record account := Account { a_wallet : option wallet_state; a_fields : gmap jsstr jsstr }.

Abbreviation store := (gmap jsstr account).

Definition empty_account : account := Account None ∅.

Inductive store_op :=
  | Upsert (h : jsstr) (data : list (jsstr * jsstr))
  | SetSecret (h : jsstr) (sk : bytes)
  | GetUser (h : jsstr)
  | GetSecret (h : jsstr)
  | GetCompat (h : jsstr)
  | GetAll.

(** What can be asked at all: an object has a field once, its strings consist of 16-bit
    units, and a [Uint8Array] of bytes. *)
Definition op_ok (o : store_op) : Prop :=
  match o with
  | Upsert _ data => NoDup data.*1 ∧ Forall (λ kv, unit16 kv.2) data
  | SetSecret _ sk => bytes_ok sk
  | _ => True
  end.

Definition account_at (s : store) (h : jsstr) : account := default empty_account (s !! h).

(** The wallet an upsert leaves, if it has one: text that is not marked is encrypted. *)
Definition wallet_of_text (v : jsstr) : wallet_state :=
  if non_empty v && negb (startsWith v enc_prefix) then Text v else Raw v.

Definition abs_op (o : store_op) (s : store) : store :=
  match o with
  | Upsert h data =>
      let a := account_at s h in
      <[h := Account (match kv_lookup data (js "wallet") with
                      | Some v => Some (wallet_of_text v)
                      | None => a_wallet a
                      end)
                     (list_to_map (kv_delete data (js "wallet")) ∪ a_fields a)]> s
  | SetSecret h sk => <[h := Account (Some (Key sk)) (a_fields (account_at s h))]> s
  | _ => s
  end.

Inductive outcome :=
  | Done
  | Profile (p : option (list (jsstr * jsstr)))
  | Secret (sk : option bytes)
  | Compat (sk : option bytes) (legacy : option jsstr)
  | Handles (l : list jsstr)
  | Failed (e : exn).

(** The secret a JSON text holds. *)
Definition opened (t : jsstr) : exn + bytes :=
  match parse t with Some v => uint8_from v | None => inl syntax_error end.

Section Abstract.
Context `{EN : Env}.

(** What a field that its writer has marked as encrypted decrypts to: the writer need not
    be this program. *)
Definition marked_secret (v : jsstr) : exn + bytes :=
  let raw := b64_decode (slice v 4 None) in
  match gcm_open CIPHER_KEY (take 12 raw) (take 16 (drop 12 raw)) (drop 28 raw) with
  | inl e => inl e
  | inr plain => opened (utf8_decode plain)
  end.

(** The secret of a wallet, if it has one; text goes through UTF-8. *)
Definition wallet_secret (wl : option wallet_state) : exn + option bytes :=
  match wl with
  | None => inr None
  | Some (Key sk) => inr (Some sk)
  | Some (Text t) =>
      match opened (utf8_decode (utf8_encode t)) with inl e => inl e | inr sk => inr (Some sk) end
  | Some (Raw v) =>
      if startsWith v enc_prefix
      then match marked_secret v with inl e => inl e | inr sk => inr (Some sk) end
      else inr None
  end.

(** The text of a wallet that was never encrypted. *)
Definition wallet_legacy (wl : option wallet_state) : option jsstr :=
  match wl with
  | Some (Raw v) => if non_empty v && negb (startsWith v enc_prefix) then Some v else None
  | _ => None
  end.

(** The answer an operation must give: a profile is null only for an account that has
    nothing, and has the public fields otherwise; the two readers of the wallet give its
    secret or fail alike, and at most one of them a text. *)
Definition abs_answer (o : store_op) (s : store) (r : outcome) : Prop :=
  match o with
  | Upsert _ _ | SetSecret _ _ => r = Done
  | GetUser h =>
      match r with
      | Profile None => account_at s h = empty_account
      | Profile (Some l) =>
          account_at s h ≠ empty_account ∧ ∀ f, kv_lookup l f = a_fields (account_at s h) !! f
      | _ => False
      end
  | GetSecret h =>
      r = match wallet_secret (a_wallet (account_at s h)) with
          | inl e => Failed e
          | inr sk => Secret sk
          end
  | GetCompat h =>
      r = match wallet_secret (a_wallet (account_at s h)) with
          | inl e => Failed e
          | inr sk => Compat sk (wallet_legacy (a_wallet (account_at s h)))
          end
  | GetAll => match r with Handles l => NoDup l ∧ ∀ h, h ∈ l ↔ is_Some (s !! h) | _ => False end
  end.
End Abstract.

Section Store.
Context {E : Type} `{RE : RedisEntry E} `{RL : !RedisLaws E} `{EN : Env} `{EL : !EnvLaws}.
Implicit Types w : world E.

(** ** The representation *)

(** The wallet field of an account: absent, encrypted with some randomness, or as is. *)
Definition seals (wl : option wallet_state) (field : option jsstr) : Prop :=
  match wl with
  | None => field = None
  | Some (Key sk) => bytes_ok sk ∧ ∃ n, field
      = Some (enc_prefix ++ sealed n (utf8_encode (stringify (json_bytes sk))))
  | Some (Text t) => unit16 t ∧ ∃ n, field = Some (enc_prefix ++ sealed n (utf8_encode t))
  | Some (Raw v) => field = Some v
  end.

Definition represents (s : store) w : Prop :=
  (∀ h, h ∈ e_smembers (entry_at w USERS_SET) ↔ is_Some (s !! h))
  ∧ (∀ h f, f ≠ js "wallet" →
       e_hget f (entry_at w (user_key h)) = a_fields (account_at s h) !! f)
  ∧ (∀ h, a_fields (account_at s h) !! js "wallet" = None)
  ∧ ∀ h, seals (a_wallet (account_at s h)) (e_hget (js "wallet") (entry_at w (user_key h))).

(** The operations of [db.js], and what a caller that catches their errors sees. *)
Definition op_body (o : store_op) : prog E outcome :=
  match o with
  | Upsert h data => upsertUser h data ;; ret Done
  | SetSecret h sk => setWalletSecret h (json_bytes sk) ;; ret Done
  | GetUser h => p <- getUser h ;; ret (Profile p)
  | GetSecret h => sk <- getWalletSecret h ;; ret (Secret sk)
  | GetCompat h => let* (sk, l) := getWalletCompat h in ret (Compat sk l)
  | GetAll => l <- getAllUsers ;; ret (Handles l)
  end.

Definition run_op (o : store_op) : prog E outcome :=
  try_catch (op_body o) (λ e, ret (Failed e)).

Lemma run_op_ok o w r w' : op_body o w = (Ok r, w') → run_op o w = (Ok r, w').
Proof. intros H. unfold run_op, try_catch. by rewrite H. Qed.

Lemma run_op_failed o w e w' : op_body o w = (Throw e, w') → run_op o w = (Ok (Failed e), w').
Proof. intros H. unfold run_op, try_catch. by rewrite H. Qed.

Lemma account_insert s h a g :
  account_at (<[h := a]> s) g = if bool_decide (g = h) then a else account_at s g.
Proof.
  unfold account_at. case_bool_decide as Hg; [subst g; by rewrite lookup_insert_eq|].
  by rewrite lookup_insert_ne.
Qed.

Lemma kv_list_to_map (data : list (jsstr * jsstr)) f :
  (list_to_map data : gmap jsstr jsstr) !! f = kv_lookup data f.
Proof.
  induction data as [|[k v] data IH]; cbn; [apply lookup_empty|].
  case_bool_decide as Hk; [subst k; apply lookup_insert_eq|by rewrite lookup_insert_ne].
Qed.

(** A write to one account and the list of handles. *)
Lemma represents_write s w w' h a :
  represents s w → lists_also h w w' →
  (∀ k, k ≠ user_key h → k ≠ USERS_SET → entry_at w' k = entry_at w k) →
  (∀ f, f ≠ js "wallet" → e_hget f (entry_at w' (user_key h)) = a_fields a !! f) →
  a_fields a !! js "wallet" = None →
  seals (a_wallet a) (e_hget (js "wallet") (entry_at w' (user_key h))) →
  represents (<[h := a]> s) w'.
Proof.
  intros (Hm & Hf & Hn & Hs) Hl Hk Ha Haw Hsec.
  assert (∀ g, g ≠ h → entry_at w' (user_key g) = entry_at w (user_key g)) as Hother.
  { intros g Hg. apply Hk; [intros H; by apply user_key_inj in H|apply user_key_ne]. }
  split; [|split; [|split]].
  - intros g. rewrite (Hl g), Hm. destruct (decide (g = h)) as [->|Hg].
    + rewrite lookup_insert_eq. naive_solver.
    + rewrite lookup_insert_ne by done. naive_solver.
  - intros g f Hw. rewrite account_insert. case_bool_decide as Hg; [subst g; auto|].
    rewrite Hother by done. auto.
  - intros g. rewrite account_insert. by case_bool_decide.
  - intros g. rewrite account_insert. case_bool_decide as Hg; [by subst g|].
    rewrite Hother by done. auto.
Qed.

Lemma represents_pass s w : represents s w → represents s (pass w).
Proof. done. Qed.

Lemma upsert_refines s w h data :
  represents s w → op_ok (Upsert h data) → quiet 4 w →
  ∃ w', run_op (Upsert h data) w = (Ok Done, w') ∧ represents (abs_op (Upsert h data) s) w'.
Proof.
  intros Hr [Hnd Hu] Hq. destruct (upsertUser_run h data w Hnd Hq) as (n & w' & H & _ & Hl & Hf & Hk).
  exists w'. split; [apply run_op_ok; cbn [op_body]; by rewrite (bind_ok _ _ _ _ _ H)|].
  pose proof Hr as (_ & Hfs & Hn & Hs).
  apply (represents_write s w); [done..| | |].
  - intros f Hw. rewrite Hf. cbn.
    rewrite lookup_union, kv_list_to_map, kv_lookup_delete, bool_decide_false, <- Hfs by done.
    unfold stored. rewrite bool_decide_false by done. cbn.
    destruct (kv_lookup data f), (e_hget f _); done.
  - cbn. rewrite lookup_union, kv_list_to_map, kv_lookup_delete, bool_decide_true, Hn by done. done.
  - rewrite Hf. cbn [a_wallet]. destruct (kv_lookup data (js "wallet")) as [v|] eqn:Ev; [|apply Hs].
    unfold stored, wallet_of_text. rewrite bool_decide_true by done. cbn [andb].
    destruct (_ && _); [|done]. split; [|by exists n].
    apply kv_lookup_Some in Ev; [|done]. rewrite Forall_forall in Hu. by apply Hu in Ev.
Qed.

Lemma secret_refines s w h sk :
  represents s w → op_ok (SetSecret h sk) → quiet 3 w →
  ∃ w', run_op (SetSecret h sk) w = (Ok Done, w') ∧ represents (abs_op (SetSecret h sk) s) w'.
Proof.
  intros Hr Hsk Hq. destruct (setWalletSecret_run h sk w Hq) as (w' & H & _ & Hf & Hl & Hk).
  exists w'. split; [apply run_op_ok; cbn [op_body]; by rewrite (bind_ok _ _ _ _ _ H)|].
  pose proof Hr as (_ & Hfs & Hn & _). apply (represents_write s w); [done..| | |].
  - intros f Hw. rewrite Hf, bool_decide_false by done. by apply Hfs.
  - apply Hn.
  - rewrite Hf, bool_decide_true by done. split; [done|]. by eexists.
Qed.

Lemma hgetall_nil h w f :
  e_hgetall (entry_at w (user_key h)) = [] → e_hget f (entry_at w (user_key h)) = None.
Proof. intros Hn. by rewrite <- hgetall_lookup, Hn. Qed.

(** A hash without fields is the empty account. *)
Lemma represents_nil s w h :
  represents s w →
  e_hgetall (entry_at w (user_key h)) = [] ↔ account_at s h = empty_account.
Proof.
  intros (_ & Hf & Hn & Hs). split.
  - intros He. specialize (Hf h). specialize (Hs h). specialize (Hn h).
    destruct (account_at s h) as [sk fs]. cbn in *. unfold empty_account. f_equal.
    + rewrite (hgetall_nil _ _ _ He) in Hs.
      destruct sk as [[sk|t|v]|]; cbn in Hs; [by destruct Hs as (_ & n & [=])..|done|done].
    + apply map_eq. intros f. rewrite lookup_empty. destruct (decide (f = js "wallet")) as [->|Hw]; [done|].
      by rewrite <- Hf, (hgetall_nil _ _ _ He).
  - intros Ha. destruct (e_hgetall _) as [|[f v] l] eqn:El; [done|].
    pose proof (hgetall_lookup f (entry_at w (user_key h))) as Hg. rewrite El in Hg. cbn in Hg.
    rewrite bool_decide_true in Hg by done. specialize (Hs h). rewrite Ha in Hs. cbn in Hs.
    destruct (decide (f = js "wallet")) as [->|Hw]; [by rewrite Hs in Hg|].
    rewrite Hf, Ha in Hg by done. cbn in Hg. by rewrite lookup_empty in Hg.
Qed.

Lemma getUser_refines s w h :
  represents s w → quiet 1 w →
  ∃ p, run_op (GetUser h) w = (Ok (Profile p), pass w) ∧ abs_answer (GetUser h) s (Profile p).
Proof.
  intros Hr Hq. pose proof (getUser_run h w Hq) as Hg. pose proof (represents_nil s w h Hr) as Hnil.
  destruct (e_hgetall _) as [|kv l].
  - exists None. split; [|by apply Hnil].
    apply run_op_ok. cbn [op_body]. by rewrite (bind_ok _ _ _ _ _ Hg).
  - destruct Hg as (data & Hg & Hw & Hf). exists (Some data).
    split; [apply run_op_ok; cbn [op_body]; by rewrite (bind_ok _ _ _ _ _ Hg)|]. split; [by intros Ha%Hnil|].
    destruct Hr as (_ & Hfs & Hn & _). intros f. destruct (decide (f = js "wallet")) as [->|Hne].
    + by rewrite Hw, Hn.
    + by rewrite Hf, Hfs.
Qed.

(** Opening a marked field. *)
Lemma open_secret_eq v w : open_secret v w = lift (marked_secret v) w.
Proof.
  unfold open_secret, marked_secret, decrypt, opened, json_parse, bind.
  destruct (gcm_open _ _ _ _) as [e|plain]; unfold lift, ret; [done|].
  by destruct (parse (utf8_decode plain)).
Qed.

Lemma marked_sealed n t :
  key_ok → unit16 t →
  marked_secret (enc_prefix ++ sealed n (utf8_encode t)) = opened (utf8_decode (utf8_encode t)).
Proof.
  intros Hk Ht. pose proof (λ w, decrypt_sealed (E:=E) n (utf8_encode t) w Hk (utf8_bytes t Ht)) as Hd.
  unfold marked_secret. rewrite enc_prefix_slice. unfold decrypt in Hd.
  destruct (gcm_open _ _ _ _) as [e|plain].
  - specialize (Hd (World 0 0 ∅ NaN 0 [] ∅ [] [] [] [])). discriminate Hd.
  - specialize (Hd (World 0 0 ∅ NaN 0 [] ∅ [] [] [] [])). by injection Hd as ->.
Qed.

(** What both readers find in the field of a wallet. *)
Lemma field_secret wl field :
  key_ok → seals wl field →
  match field with
  | Some v =>
      if startsWith v enc_prefix
      then wallet_secret wl = match marked_secret v with inl e => inl e | inr sk => inr (Some sk) end
           ∧ wallet_legacy wl = None
      else wallet_secret wl = inr None
           ∧ wallet_legacy wl = if non_empty v then Some v else None
  | None => wallet_secret wl = inr None ∧ wallet_legacy wl = None
  end.
Proof.
  intros Hk. destruct wl as [[sk|t|v]|]; cbn [seals].
  - intros (Hb & n & ->). rewrite startsWith_app.
    assert (unit16 (stringify (json_bytes sk))) as Hu.
    { eapply Forall_impl; [by apply json_bytes_ascii|]. cbn. lia. }
    rewrite marked_sealed by done. rewrite utf8_encode_ascii, utf8_decode_ascii
      by by apply json_bytes_ascii. destruct (uint8_roundtrip sk Hb) as (v & Hp & Hv).
    unfold opened. by rewrite Hp, Hv.
  - intros (Hu & n & ->). rewrite startsWith_app. by rewrite marked_sealed.
  - intros ->. cbn. destruct (startsWith v enc_prefix); [by rewrite andb_false_r|].
    by rewrite andb_true_r.
  - by intros ->.
Qed.

Lemma getSecret_refines s w h :
  key_ok → represents s w → quiet 1 w →
  ∃ r, run_op (GetSecret h) w = (Ok r, pass w) ∧ abs_answer (GetSecret h) s r.
Proof.
  intros Hk (_ & _ & _ & Hs) Hq%quiet_now. specialize (Hs h). apply (field_secret _ _ Hk) in Hs.
  eexists. split; [|reflexivity].
  unfold run_op, try_catch, op_body, getWalletSecret, redis_hget, bind. rewrite read_ok by done.
  destruct (e_hget _ _) as [v|]; [|by destruct Hs as [-> _]].
  destruct (startsWith v enc_prefix); destruct Hs as [-> _]; [|done].
  rewrite open_secret_eq. by destruct (marked_secret v).
Qed.

Lemma getCompat_refines s w h :
  key_ok → represents s w → quiet 1 w →
  ∃ r, run_op (GetCompat h) w = (Ok r, pass w) ∧ abs_answer (GetCompat h) s r.
Proof.
  intros Hk (_ & _ & _ & Hs) Hq%quiet_now. specialize (Hs h). apply (field_secret _ _ Hk) in Hs.
  eexists. split; [|reflexivity].
  unfold run_op, try_catch, op_body, getWalletCompat, redis_hget, bind. rewrite read_ok by done.
  destruct (e_hget _ _) as [v|]; [|by destruct Hs as [-> ->]].
  destruct (startsWith v enc_prefix); destruct Hs as [-> ->]; [|by destruct v].
  rewrite open_secret_eq. by destruct (marked_secret v).
Qed.

(** One operation. *)
Lemma op_refines o s w :
  key_ok → represents s w → op_ok o → quiet 4 w →
  ∃ r w', run_op o w = (Ok r, w') ∧ abs_answer o s r ∧ represents (abs_op o s) w'.
Proof.
  intros Hk Hr Ho Hq. destruct o as [h data|h sk|h|h|h|].
  - destruct (upsert_refines s w h data Hr Ho Hq) as (w' & H & H'). by exists Done, w'.
  - destruct (secret_refines s w h sk Hr Ho) as (w' & H & H'); [quiet_weaken|]. by exists Done, w'.
  - destruct (getUser_refines s w h Hr) as (p & H & H'); [quiet_weaken|].
    exists (Profile p), (pass w). split; [done|]. by split.
  - destruct (getSecret_refines s w h Hk Hr) as (r & H & H'); [quiet_weaken|].
    by exists r, (pass w).
  - destruct (getCompat_refines s w h Hk Hr) as (r & H & H'); [quiet_weaken|].
    by exists r, (pass w).
  - eexists _, _. split.
    + apply run_op_ok. cbn [op_body]. unfold getAllUsers, redis_smembers.
      erewrite bind_ok; [reflexivity|]. by eapply read_ok, quiet_now.
    + split; [|done]. split; [apply smembers_nodup|apply Hr].
Qed.

(** ** Sequences of operations *)

Fixpoint run_ops (os : list store_op) : prog E (list outcome) :=
  match os with
  | [] => ret []
  | o :: os => r <- run_op o ;; rs <- run_ops os ;; ret (r :: rs)
  end.

(** The answers of a sequence, each for the store it was asked of. *)
Fixpoint abs_answers (os : list store_op) (s : store) (rs : list outcome) : Prop :=
  match os, rs with
  | [], [] => True
  | o :: os, r :: rs => abs_answer o s r ∧ abs_answers os (abs_op o s) rs
  | _, _ => False
  end.

(** C5. While Redis accepts its commands, and with an encryption key of the right length,
    [db.js] implements the abstract store: every sequence of its operations, upserts of
    wallets and reads that fail included, gives the answers of the abstract store and ends
    in a keyspace that represents its final state. *)
Theorem store_refines os s w :
  key_ok → (∀ n, redis_fault n = None) → represents s w → Forall op_ok os →
  ∃ rs w', run_ops os w = (Ok rs, w') ∧ abs_answers os s rs
    ∧ represents (foldl (λ s o, abs_op o s) s os) w'.
Proof.
  intros Hk Hf. revert s w. induction os as [|o os IH]; intros s w Hr Hos; [by exists [], w|].
  apply Forall_cons in Hos as [Ho Hos].
  destruct (op_refines o s w Hk Hr Ho) as (r & w1 & H1 & Ha & Hr1); [intros i _; apply Hf|].
  destruct (IH _ _ Hr1 Hos) as (rs & w2 & H2 & Has & Hr2).
  exists (r :: rs), w2. split; [|by split]. cbn [run_ops].
  by rewrite (bind_ok _ _ _ _ _ H1), (bind_ok _ _ _ _ _ H2).
Qed.
End Store.

(** Ann is stored, given a secret and read back, from an empty keyspace; a wallet in text
    is upserted for her, read, and replaced by one that is no JSON. *)
Definition ann_ops : list store_op :=
  [Upsert (js "ann") [(js "sol", js "1"); (js "chatId", js "42")]; SetSecret (js "ann") [1; 2; 3]%N;
   GetUser (js "ann"); GetSecret (js "ann");
   Upsert (js "ann") [(js "wallet", js "[4,5]")]; GetCompat (js "ann");
   Upsert (js "ann") [(js "wallet", js "nonsense")]; GetSecret (js "ann"); GetAll].

Lemma world0_represents : represents ∅ world0.
Proof.
  split; [|split; [|split]].
  - intros h. split; [intros H; by inversion H|intros [a Ha]; by rewrite lookup_empty in Ha].
  - intros h f _. unfold account_at. rewrite lookup_empty. cbn. by rewrite lookup_empty.
  - intros h. unfold account_at. rewrite lookup_empty. apply lookup_empty.
  - intros h. unfold account_at. by rewrite lookup_empty.
Qed.

Lemma ann_ops_ok : Forall op_ok ann_ops.
Proof.
  repeat constructor; cbn; try done; try (refine (bool_decide_unpack _ _); vm_compute; exact I).
Qed.

Lemma store_refines_witness :
  ∃ rs w', run_ops ann_ops world0 = (Ok rs, w') ∧ abs_answers ann_ops ∅ rs.
Proof.
  destruct (store_refines ann_ops ∅ world0 (ltac:(vm_compute; reflexivity) : key_ok (EN:=calm)) (λ _, eq_refl) world0_represents ann_ops_ok)
    as (rs & w' & H & Ha & _).
  exists rs, w'. split; [exact H|exact Ha].
Defined.
