(* ===== verification/Memory.v ===== *)
(** * memory.js: the conversation memory

    [remember] appends to the stream [memory:<handle>] and renews its expiry of
    one day; [recall] reads the newest entries and returns them oldest first.
    The file read at load time into [data] is never used. *)

From S2P Require Import Prelude JsString JsNum JsText Json Bytes Assoc Effects Uint8 RedisModel Db.

Local Open Scope prog_scope.

Section Memory.
Context {E : Type} `{RE : RedisEntry E} `{EN : Env}.

Definition STREAM_PREFIX : jsstr := js "memory:".
Definition MEMORY_TTL : Z := 24 * 60 * 60.

Record memo := Msg { m_text : jsstr; m_ts : num }.

Definition fields_of (m : memo) : list (jsstr * jsstr) :=
  [(js "text", m_text m); (js "ts", toString (m_ts m))].

Definition remember (handle : jsstr) (m : memo) : prog E unit :=
  let key := STREAM_PREFIX ++ handle in
  redis_xadd key (fields_of m) ;;
  redis_expire key MEMORY_TTL.

(** An entry's field list as an object. *)
Definition object_of (fields : list (jsstr * jsstr)) : list (jsstr * jsstr) :=
  foldl (λ obj kv, kv_set obj kv.1 kv.2) [] fields.

Definition recall (handle : jsstr) (limit : nat) : prog E (list (list (jsstr * jsstr))) :=
  let key := STREAM_PREFIX ++ handle in
  raw <- redis_xrevrange key limit ;;
  ret (rev (object_of <$> raw)).
End Memory.

Section Facts.
Context {E : Type} `{RE : RedisEntry E} `{RL : !RedisLaws E} `{EN : Env}.
Implicit Types w : world E.

(** [ms] is remembered one message after the other. *)
Fixpoint remember_all (handle : jsstr) (ms : list memo) : prog E unit :=
  match ms with
  | [] => ret tt
  | m :: ms => remember handle m ;; remember_all handle ms
  end.

(** The stream holds [l], newest first, and lives beyond [T]. *)
Definition holds (handle : jsstr) (T : Z) (l : list (list (jsstr * jsstr))) w : Prop :=
  let e := entry_at w (STREAM_PREFIX ++ handle) in
  (∀ t, (now w <= t <= T)%Z → e_stream t e = l)
  ∧ ∀ x t, e_expiry x e = Some t → (T < t)%Z.

Lemma pass_time w : (now w <= now (pass w))%Z.
Proof. cbn. lia. Qed.

Lemma remember_eq handle m w :
  quiet 2 w →
  ∃ w', remember handle m w = (Ok tt, w')
    ∧ (now w <= now w')%Z ∧ tick w' = S (S (tick w))
    ∧ (∀ k, k ≠ STREAM_PREFIX ++ handle → entry_at w' k = entry_at w k)
    ∧ ∀ T l, (now w' <= T < now w + 1000 * MEMORY_TTL)%Z →
        holds handle T l w → holds handle T (fields_of m :: l) w'.
Proof.
  intros Hq. set (key := STREAM_PREFIX ++ handle).
  unfold remember, bind, redis_xadd, redis_expire. cbv zeta. fold key.
  rewrite write_ok by (by eapply quiet_now). set (w1 := put _ _ _).
  assert (quiet 1 w1) as Hq1 by (by eapply quiet_next).
  rewrite write_ok by (by eapply quiet_now).
  pose proof (pass_time w) as Ht1. pose proof (pass_time w1) as Ht2.
  change (now w1) with (now (pass w)) in Ht2.
  eexists. split; [done|]. change (now (put _ _ (pass w1))) with (now (pass w1)).
  split; [lia|]. split; [done|]. split.
  { intros k Hk. rewrite entry_put_ne, entry_pass by done. subst w1.
    by rewrite entry_put_ne. }
  intros T l HT [Hs He]. unfold holds. fold key in Hs, He |- *. rewrite entry_put.
  change (now (put _ _ (pass w1))) with (now (pass w1)). split.
  - intros t Ht. rewrite stream_expire by lia.
    replace (t <? now (pass w1) + 1000 * MEMORY_TTL)%Z with true
      by (symmetry; apply Z.ltb_lt; lia).
    subst w1. rewrite entry_put, stream_xadd; [|lia|].
    + f_equal. apply Hs. lia.
    + intros x Hx. apply He in Hx. lia.
  - intros x t Hx. apply expiry_expire in Hx. lia.
Qed.

Lemma remember_all_eq handle ms w :
  quiet (2 * length ms) w →
  ∃ w', remember_all handle ms w = (Ok tt, w')
    ∧ (now w <= now w')%Z ∧ tick w' = (tick w + 2 * length ms)%nat
    ∧ (∀ k, k ≠ STREAM_PREFIX ++ handle → entry_at w' k = entry_at w k)
    ∧ ∀ T l, (now w' <= T < now w + 1000 * MEMORY_TTL)%Z →
        holds handle T l w → holds handle T (rev (fields_of <$> ms) ++ l) w'.
Proof.
  revert w; induction ms as [|m ms IH]; intros w Hq.
  { exists w. split; [done|]. split; [lia|]. split; [cbn; lia|]. by split. }
  cbn [remember_all length] in *.
  destruct (remember_eq handle m w) as (w1 & H1 & Ht1 & Hn1 & Hk1 & Hh1); [quiet_weaken|].
  assert (quiet (2 * length ms) w1) as Hq1.
  { intros i Hi. rewrite Hn1. replace (S (S (tick w)) + i)%nat with (tick w + (2 + i))%nat by lia.
    apply Hq. lia. }
  destruct (IH w1 Hq1) as (w2 & H2 & Ht2 & Hn2 & Hk2 & Hh2).
  exists w2. unfold bind. rewrite H1. split; [done|]. split; [lia|]. split; [lia|]. split.
  - intros k Hk. by rewrite Hk2, Hk1.
  - intros T l HT Hl. rewrite fmap_cons. cbn [rev]. rewrite <- app_assoc.
    apply Hh2; [lia|]. apply Hh1; [lia|done].
Qed.

Lemma object_of_fields m : object_of (fields_of m) = fields_of m.
Proof. reflexivity. Qed.

Lemma recent_objects ms limit :
  rev (object_of <$> take limit (rev (fields_of <$> ms)))
  = drop (length ms - limit) (fields_of <$> ms).
Proof.
  rewrite fmap_take. setoid_rewrite map_rev. rewrite <- list_fmap_compose.
  replace (object_of ∘ fields_of <$> ms) with (fields_of <$> ms)
    by (apply list_fmap_ext; intros i m _; by rewrite <- object_of_fields).
  rewrite firstn_rev, rev_involutive, length_fmap. done.
Qed.

(** C27. After [ms] is remembered for a handle without history, [recall] within a
    day of the first message returns the last [limit] of them, oldest first;
    the memory of other handles is untouched. *)
Theorem remember_recall handle ms limit w :
  quiet (2 * length ms + 1) w → entry_at w (STREAM_PREFIX ++ handle) = e_none →
  ∃ w1 w2 l, remember_all handle ms w = (Ok tt, w1)
    ∧ recall handle limit w1 = (Ok l, w2)
    ∧ ((now w2 < now w + 86400000)%Z → l = drop (length ms - limit) (fields_of <$> ms))
    ∧ ∀ h, h ≠ handle →
        entry_at w1 (STREAM_PREFIX ++ h) = entry_at w (STREAM_PREFIX ++ h).
Proof.
  intros Hq Hn. destruct (remember_all_eq handle ms w) as (w1 & H1 & Ht1 & Hn1 & Hk1 & Hh1);
    [quiet_weaken|].
  assert (redis_fault (tick w1) = None) as Hf by (rewrite Hn1; apply Hq; lia).
  exists w1, (pass w1). unfold recall, redis_xrevrange, bind. rewrite read_ok by done.
  eexists. split; [done|]. split; [done|]. split.
  - intros Ht. pose proof (pass_time w1) as Hp.
    destruct (Hh1 (now (pass w1)) []) as [Hs _].
    { unfold MEMORY_TTL. lia. }
    { split; [intros t _|intros x t]; rewrite Hn; [apply stream_none|by rewrite expiry_none]. }
    rewrite Hs, app_nil_r by lia. rewrite <- (recent_objects ms limit). done.
  - intros h Hh. apply Hk1. intros Heq. by apply app_inv_head in Heq.
Qed.
End Facts.

(** ** A concrete run *)

Definition chat : list memo :=
  [Msg (js "hi") (num_of_Z 1); Msg (js "buy") (num_of_Z 2); Msg (js "bye") (num_of_Z 3)].

Lemma remember_recall_witness :
  ∃ w1 w2, remember_all (js "ann") chat world0 = (Ok tt, w1)
    ∧ recall (js "ann") 2 w1
      = (Ok [fields_of (Msg (js "buy") (num_of_Z 2)); fields_of (Msg (js "bye") (num_of_Z 3))], w2).
Proof.
  destruct (remember_recall (js "ann") chat 2 world0 (calm_quiet _ _) eq_refl)
    as (w1 & w2 & l & H1 & H2 & H3 & _).
  exists w1, w2. split; [exact H1|]. rewrite H2, H3; [reflexivity|].
  assert (w2 = (recall (js "ann") 2 w1).2) as -> by (by rewrite H2).
  assert (w1 = (remember_all (js "ann") chat world0).2) as -> by (by rewrite H1).
  vm_compute. reflexivity.
Defined.
