(* ===== verification/Retry.v ===== *)
(** * retry.js: [withRetry]

    The loop of [withRetry], its exact outcomes, and the time it spends in
    back-off.  The function to retry is any program. *)

From S2P Require Import Prelude JsString JsNum Json Bytes Effects RedisModel.

Local Open Scope prog_scope.

Record retry_opts := RetryOpts { attempts : nat; delay : Z; factor : Z }.

Definition default_opts : retry_opts := RetryOpts 3 800 2.

(** [lastErr] before any attempt. *)
Definition undefined_exn : exn := Exn KUndefined [].

Section Retry.
Context {E A : Type} `{RE : RedisEntry E} `{EN : Env}.
Implicit Types fn : prog E A.

Definition backoff (o : retry_opts) (i : nat) : Z := delay o * factor o ^ Z.of_nat i.

(** The [for] loop at index [i] with [rem] iterations to go. *)
Fixpoint retry_loop fn (o : retry_opts) (i rem : nat) (lastErr : exn) : prog E A :=
  match rem with
  | O => throw lastErr
  | S rem => λ w,
      match fn w with
      | (Ok a, w') => (Ok a, w')
      | (Exit c, w') => (Exit c, w')
      | (Throw e, w') => (sleep (backoff o i) ;; retry_loop fn o (S i) rem e) w'
      end
  end.

Definition withRetry fn (o : retry_opts) : prog E A :=
  retry_loop fn o 0 (attempts o) undefined_exn.

(** [k] failed attempts from index [i], each followed by its back-off; [e] is
    the error of the last one. *)
Inductive failures fn (o : retry_opts) (i : nat) (e0 : exn)
  : nat → world E → exn → world E → Prop :=
  | failures_none w : failures fn o i e0 0 w e0 w
  | failures_more k w e1 w1 e2 w2 w3 :
      failures fn o i e0 k w e1 w1 →
      fn w1 = (Throw e2, w2) →
      sleep (backoff o (i + k)) w2 = (Ok tt, w3) →
      failures fn o i e0 (S k) w e2 w3.

Lemma sleep_ok (ms : Z) (w : world E) : ∃ w', sleep ms w = (Ok tt, w').
Proof. by eexists. Qed.

Lemma failures_left fn o i e0 k w e1 w1 w2 e2 w3 :
  fn w = (Throw e1, w1) → sleep (backoff o i) w1 = (Ok tt, w2) →
  failures fn o (S i) e1 k w2 e2 w3 → failures fn o i e0 (S k) w e2 w3.
Proof.
  intros Hf Hs. induction 1 as [v|k v e w' e' w'' w''' _ IH Hf' Hs'].
  - eapply failures_more; [constructor|done|by rewrite Nat.add_0_r].
  - eapply failures_more; [by apply IH|done|].
    by replace (i + S k)%nat with (S i + k)%nat by lia.
Qed.

(** Every run of the loop is of one of three forms. *)
Lemma retry_loop_cases fn o i rem e0 w :
  (∃ j a e1 w1 w2, (j < rem)%nat ∧ failures fn o i e0 j w e1 w1 ∧
     fn w1 = (Ok a, w2) ∧ retry_loop fn o i rem e0 w = (Ok a, w2))
  ∨ (∃ j c e1 w1 w2, (j < rem)%nat ∧ failures fn o i e0 j w e1 w1 ∧
     fn w1 = (Exit c, w2) ∧ retry_loop fn o i rem e0 w = (Exit c, w2))
  ∨ (∃ e1 w1, failures fn o i e0 rem w e1 w1 ∧
     retry_loop fn o i rem e0 w = (Throw e1, w1)).
Proof.
  revert i e0 w; induction rem as [|rem IH]; intros i e0 w.
  { right; right. exists e0, w. split; [constructor|done]. }
  cbn [retry_loop]. destruct (fn w) as [[a|e|c] w1] eqn:Hf.
  - left. exists O, a, e0, w, w1. repeat split; [lia|constructor|done].
  - destruct (sleep_ok (backoff o i) w1) as [w2 Hs].
    unfold bind at 1 2 3. rewrite Hs.
    destruct (IH (S i) e w2) as [(j & a & e1 & w3 & w4 & Hj & Hfs & Hok & ->)
      |[(j & c & e1 & w3 & w4 & Hj & Hfs & Hex & ->)|(e1 & w3 & Hfs & ->)]].
    + left. exists (S j), a, e1, w3, w4. repeat split; [lia| |done].
      by eapply failures_left.
    + right; left. exists (S j), c, e1, w3, w4. repeat split; [lia| |done].
      by eapply failures_left.
    + right; right. exists e1, w3. split; [by eapply failures_left|done].
  - right; left. exists O, c, e0, w, w1. repeat split; [lia|constructor|done].
Qed.

(** The outcome of a given sequence of failures. *)
Lemma retry_loop_failures fn o i rem e0 k w e1 w1 :
  failures fn o i e0 k w e1 w1 → (k <= rem)%nat →
  retry_loop fn o i rem e0 w = retry_loop fn o (i + k) (rem - k) e1 w1.
Proof.
  induction 1 as [v|k v e w1 e' w2 w3 _ IH Hf Hs]; intros Hk.
  - by rewrite Nat.add_0_r, Nat.sub_0_r.
  - rewrite IH by lia. replace (rem - k)%nat with (S (rem - S k)) by lia.
    cbn [retry_loop]. rewrite Hf. unfold bind. rewrite Hs.
    by replace (i + S k)%nat with (S (i + k)) by lia.
Qed.

(** A failed attempt, its back-off, and the rest of the loop. *)
Lemma retry_loop_step fn o i rem e0 w e w1 :
  fn w = (Throw e, w1) →
  retry_loop fn o i (S rem) e0 w = retry_loop fn o (S i) rem e (sleep (backoff o i) w1).2.
Proof. intros Hf. cbn [retry_loop]. by rewrite Hf. Qed.

(** The clock never goes back. *)
Definition clock_le (w w' : world E) : Prop := (now w <= now w')%Z.

Lemma sleep_now (ms : Z) (w w' : world E) :
  sleep ms w = (Ok tt, w') → (now w + ms <= now w')%Z.
Proof.
  unfold sleep, interact, bind, modify. cbn. intros [= <-]. cbn. lia.
Qed.

(** The sum of the first [k] back-offs. *)
Definition total_backoff (o : retry_opts) (i k : nat) : Z :=
  foldr Z.add 0%Z (map (λ j, backoff o (i + j)) (seq 0 k)).

Lemma total_backoff_S o i k :
  total_backoff o i (S k) = (total_backoff o i k + backoff o (i + k))%Z.
Proof.
  unfold total_backoff. rewrite seq_S, map_app, foldr_app. cbn.
  generalize (map (λ j, backoff o (i + j)) (seq 0 k)) as l.
  intros l. rewrite Z.add_0_r. induction l as [|x l IH]; cbn; lia.
Qed.

Lemma failures_time fn o i e0 k w e1 w1 :
  respects clock_le fn → failures fn o i e0 k w e1 w1 →
  (now w + total_backoff o i k <= now w1)%Z.
Proof.
  intros Hfn. induction 1 as [v|k v e w1 e' w2 w3 _ IH Hf Hs]; [cbn; lia|].
  rewrite total_backoff_S. apply sleep_now in Hs.
  pose proof (Hfn w1) as Hc. rewrite Hf in Hc. unfold clock_le in Hc. cbn in Hc. lia.
Qed.

(** C28. [withRetry] returns the first success, after fewer than [attempts]
    failures; otherwise it has made exactly [attempts] attempts and throws the
    error of the last one. *)
Theorem withRetry_outcome fn o w :
  (∃ j a e1 w1 w2, (j < attempts o)%nat ∧ failures fn o 0 undefined_exn j w e1 w1 ∧
     fn w1 = (Ok a, w2) ∧ withRetry fn o w = (Ok a, w2))
  ∨ (∃ j c e1 w1 w2, (j < attempts o)%nat ∧ failures fn o 0 undefined_exn j w e1 w1 ∧
     fn w1 = (Exit c, w2) ∧ withRetry fn o w = (Exit c, w2))
  ∨ (∃ e1 w1, failures fn o 0 undefined_exn (attempts o) w e1 w1 ∧
     withRetry fn o w = (Throw e1, w1)).
Proof. apply retry_loop_cases. Qed.

(** Giving up takes at least the whole back-off, the one after the last
    attempt included. *)
Theorem withRetry_gives_up_late fn o w e w' :
  respects clock_le fn → withRetry fn o w = (Throw e, w') →
  (now w + total_backoff o 0 (attempts o) <= now w')%Z.
Proof.
  unfold withRetry. intros Hfn Hr.
  destruct (retry_loop_cases fn o 0 (attempts o) undefined_exn w) as [(j & a & e1 & w1 & w2 & _ & _ & _ & Hk)
    |[(j & c & e1 & w1 & w2 & _ & _ & _ & Hk)|(e1 & w1 & Hfs & Hk)]];
    rewrite Hr in Hk; [done|done|].
  injection Hk as <- <-. by eapply failures_time.
Qed.
End Retry.

(** With the defaults of the program giving up takes 5.6 seconds of back-off. *)
Example default_total_backoff : total_backoff default_opts 0 3 = 5600%Z.
Proof. reflexivity. Qed.

(** A service that always rejects. *)
Definition always_fails : prog entry unit := throw (Error (js "down")).

Lemma withRetry_gives_up_late_witness :
  ∃ w', withRetry always_fails default_opts world0 = (Throw (Error (js "down")), w')
        ∧ (now world0 + 5600 <= now w')%Z.
Proof.
  eexists. split; [vm_compute; reflexivity|].
  refine (withRetry_gives_up_late always_fails default_opts world0 _ _ _ _).
  - intros w. unfold clock_le. reflexivity.
  - vm_compute. reflexivity.
Defined.
