(* ===== verification/Firewall.v ===== *)
(** * firewall.js: the bubble firewall

    The configuration read from the environment, the health counter with its
    incidents and its healing, the status bar, and what is published.  The
    sequential handlers [record_incident] and [heal_tick] are programs; the machine
    [fw_step] splits an incident at its [await], so that incidents, healing and
    pending checks interleave in any order. *)

From Stdlib Require Import QArith Qround Lqa.
From S2P Require Import Prelude JsString JsNum JsText Json Bytes Effects RedisModel.

Local Open Scope prog_scope.

Inductive incident := IError | IRpcFail | ISpam | ICritical.

Definition type_name (t : incident) : jsstr :=
  match t with
  | IError => js "error"
  | IRpcFail => js "rpcFail"
  | ISpam => js "spam"
  | ICritical => js "critical"
  end.

Section Firewall.
Context {E : Type} `{RE : RedisEntry E} `{EN : Env}.

(** [+process.env.NAME]; an unset variable gives NaN. *)
Definition env_number (name : jsstr) : num :=
  match env_var name with Some s => toNumber s | None => NaN end.

Definition MAX_HP : num := num_or (env_number (js "FW_MAX_HP")) (num_of_Z 20).

Definition weight (t : incident) : num :=
  match t with
  | IError => num_or (env_number (js "FW_WEIGHT_ERROR")) (num_of_Z 2)
  | IRpcFail => num_or (env_number (js "FW_WEIGHT_RPCFAIL")) (num_of_Z 5)
  | ISpam => num_or (env_number (js "FW_WEIGHT_SPAM")) (num_of_Z 1)
  | ICritical => num_or (env_number (js "FW_WEIGHT_CRITICAL")) (num_of_Z 10)
  end.

Definition HEAL_RATE : num := num_or (env_number (js "FW_HEAL_RATE")) (num_of_Z 1).
Definition HEAL_INTERVAL : num :=
  num_mul (num_or (env_number (js "FW_HEAL_INTERVAL")) (num_of_Z 300)) (num_of_Z 1000).
Definition BAR_LEN : num := num_or (env_number (js "FW_BAR_LENGTH")) (num_of_Z 20).
Definition AUTO_EXIT : bool := negb (bool_decide (env_var (js "FW_AUTO_EXIT") = Some (js "false"))).

(** ** The bar *)

Definition range_error : exn := Exn KRangeError (js "Invalid count value").

(** [c.repeat(n)]: negative and infinite counts throw, fractions truncate. *)
Definition js_repeat (c : N) (n : num) : exn + jsstr :=
  match n with
  | NaN => inr []
  | Inf _ => inl range_error
  | Fin q => if Qle_bool q (-1) then inl range_error
             else inr (repeat_unit c (Z.to_nat (Qfloor q)))
  end.

Definition block : N := code "█".

Definition bar (h : num) : exn + jsstr :=
  match js_repeat block (Math_round (num_mul (num_div h MAX_HP) BAR_LEN)) with
  | inl e => inl e
  | inr filled =>
      match js_repeat 32 (num_sub BAR_LEN (num_of_Z (Z.of_nat (length filled)))) with
      | inl e => inl e
      | inr empty =>
          inr (js "[" ++ filled ++ empty ++ js "] " ++ toString h ++ js "/"
               ++ toString MAX_HP)
      end
  end.

(** ** Incidents and healing *)

(** The health after an incident and after a healing step. *)
Definition damaged (t : incident) (h : num) : num :=
  Math_max (Fin 0) (num_sub h (num_or (weight t) (num_of_Z 1))).
Definition healed (h : num) : num := Math_min MAX_HP (num_add h HEAL_RATE).

(** [Date.now() - lastIncident > HEAL_INTERVAL && hp < MAX_HP] *)
Definition may_heal (t last : Z) (h : num) : bool :=
  num_gt (num_of_Z (t - last)) HEAL_INTERVAL && num_lt h MAX_HP.

Definition event_json (type : jsstr) (h : num) : json :=
  JObj [(js "event", JStr (js "firewall")); (js "type", JStr type); (js "hp", JNum h)].

Definition channel : jsstr := js "nexus.events".

(** [record(type, msg)] *)
Definition record_incident (t : incident) : prog E unit :=
  h <- gets hp ;;
  last <- gets lastIncident ;;
  modify (set_firewall (damaged t h) last) ;;
  n <- date_now ;;
  modify (set_firewall (damaged t h) n) ;;
  _ <- lift (bar (damaged t h)) ;;
  redis_publish channel (stringify (event_json (type_name t) (damaged t h))) ;;
  h' <- gets hp ;;
  if num_eq h' (Fin 0) && AUTO_EXIT then exit 1 else ret tt.

(** The callback of [setInterval], run every thirty seconds. *)
Definition heal_tick : prog E unit :=
  n <- date_now ;;
  last <- gets lastIncident ;;
  h <- gets hp ;;
  if may_heal n last h then
    modify (set_firewall (healed h) last) ;;
    _ <- lift (bar (healed h)) ;;
    redis_publish channel (stringify (event_json (js "heal") (healed h)))
  else ret tt.

(** The exported object. *)
Definition onError : prog E unit := record_incident IError.
Definition onRpcFail : prog E unit := record_incident IRpcFail.
Definition onSpam : prog E unit := record_incident ISpam.
Definition onCritical : prog E unit := record_incident ICritical.
Definition statusBar : prog E jsstr := h <- gets hp ;; lift (bar h).
Definition state : prog E (num * num * jsstr) :=
  h <- gets hp ;; b <- lift (bar h) ;; ret (h, MAX_HP, slice b 1 (Some (-1)%Z)).
Definition isAlive : prog E bool := h <- gets hp ;; ret (num_gt h (Fin 0)).

(** ** Interleavings *)

(** The module's variables, the incidents whose publication is awaited, and
    whether the process has exited. *)
Record fw_state := Fw { f_hp : num; f_last : Z; f_pending : nat; f_exited : bool }.

Inductive fw_step : fw_state → fw_state → Prop :=
  | step_record t n h l p :
      fw_step (Fw h l p false) (Fw (damaged t h) n (S p) false)
  | step_published h l p :
      fw_step (Fw h l (S p) false)
              (Fw h l p (num_eq h (Fin 0) && AUTO_EXIT))
  | step_rejected h l p :
      fw_step (Fw h l (S p) false) (Fw h l p false)
  | step_heal n h l p :
      may_heal n l h = true →
      fw_step (Fw h l p false) (Fw (healed h) l p false).

Definition fw_init (t : Z) : fw_state := Fw MAX_HP t 0 false.
End Firewall.

(** ** Facts *)

Section Facts.
Context {E : Type} `{RE : RedisEntry E} `{EN : Env}.
Local Open Scope Q_scope.

(** The configuration the firewall is meant to run with: a positive maximum
    and amounts that are not negative. *)
Definition amount_ok (x : num) : Prop := ∃ q, x = Fin q ∧ 0 <= q.
Definition config_ok : Prop :=
  (∃ m, MAX_HP = Fin m ∧ num_wf (Fin m) ∧ 0 < m)
  ∧ (∀ t, amount_ok (num_or (weight t) (num_of_Z 1)))
  ∧ amount_ok HEAL_RATE.

(** Health is a double between zero and the maximum. *)
Definition hp_ok (h : num) : Prop :=
  ∃ q m, h = Fin q ∧ MAX_HP = Fin m ∧ num_wf (Fin q) ∧ 0 <= q /\ q <= m.

Lemma fl_nonneg_le q m :
  0 <= q → q <= m → num_wf (Fin m) → ∃ r, fl q = Fin r ∧ num_wf (Fin r) ∧ 0 <= r /\ r <= m.
Proof.
  intros H0 H1 Hm. pose proof (num_wf_rnd _ Hm) as Hr.
  pose proof (rnd_nonneg q H0). pose proof (rnd_mono q m H0 H1) as Hle. rewrite Hr in Hle.
  assert (fl q = Fin (rnd q)) as Hq.
  { apply fl_of_rnd. rewrite Qabs.Qabs_pos by done.
    unfold num_wf, fl in Hm. destruct (Qle_bool (pow2 1024) _) eqn:Eb; [done|].
    assert (Qabs.Qabs (rnd m) < pow2 1024).
    { apply Qnot_le_lt. intros Hc%Qle_bool_iff. congruence. }
    rewrite Hr, Qabs.Qabs_pos in H2 by lra. lra. }
  exists (rnd q). repeat split; [done| |done|done].
  pose proof (fl_wf q) as Hwf. by rewrite Hq in Hwf.
Qed.

Lemma fl_neg q : q < 0 → fl q = Inf true ∨ ∃ r, fl q = Fin r ∧ r <= 0.
Proof.
  intros Hq. destruct (fl q) as [|s|r] eqn:Ef.
  - unfold fl in Ef. by destruct (Qle_bool _ _).
  - left. unfold fl in Ef. destruct (Qle_bool (pow2 1024) _); [|done].
    injection Ef as <-. destruct (Qle_bool 0 q) eqn:Eq; [|done].
    apply Qle_bool_iff in Eq. lra.
  - right. exists r. split; [done|]. pose proof (fl_inv _ _ Ef) as ->.
    pose proof (rnd_nonneg (- q) ltac:(lra)) as Hn. rewrite rnd_opp in Hn. lra.
Qed.

Lemma wf_zero : num_wf (Fin 0).
Proof. reflexivity. Qed.

Lemma damaged_ok t h : config_ok → hp_ok h → hp_ok (damaged t h).
Proof.
  intros ((m & Hm & Hmwf & Hm0) & Hw & _) (q & m' & -> & Hm' & Hq & H0 & H1).
  rewrite Hm in Hm'. injection Hm' as <-.
  destruct (Hw t) as (wt & Hwt & Hw0). unfold damaged. rewrite Hwt.
  unfold num_sub, num_neg, num_add.
  assert (q + Qred (- wt) == q - wt) as Hs by (by rewrite Qred_correct).
  rewrite (fl_proper _ _ Hs). unfold hp_ok.
  destruct (Qlt_le_dec (q - wt) 0) as [Hlt|Hge].
  - exists 0, m. destruct (fl_neg _ Hlt) as [->|(r & -> & Hr)].
    + repeat split; [done|lra|lra].
    + unfold Math_max, num_compare. destruct (Qcompare_spec 0 r) as [Hc|Hc|Hc];
        [|lra|]; repeat split; done || lra.
  - destruct (fl_nonneg_le (q - wt) m Hge ltac:(lra) Hmwf) as (r & -> & Hrwf & Hr0 & Hr1).
    unfold Math_max, num_compare. destruct (Qcompare_spec 0 r) as [Hc|Hc|Hc].
    + exists 0, m. repeat split; done || lra.
    + exists r, m. repeat split; done || lra.
    + exists 0, m. repeat split; done || lra.
Qed.

Lemma healed_ok h : config_ok → hp_ok h → hp_ok (healed h).
Proof.
  intros ((m & Hm & Hmwf & Hm0) & _ & (k & Hk & Hk0)) (q & m' & -> & Hm' & Hq & H0 & H1).
  rewrite Hm in Hm'. injection Hm' as <-. unfold healed, num_add. rewrite Hk, Hm.
  unfold hp_ok. rewrite Hm. assert (0 <= q + k) as Hs by lra.
  destruct (fl (q + k)) as [|s|r] eqn:Ef.
  - unfold fl in Ef. by destruct (Qle_bool _ _).
  - unfold fl in Ef. destruct (Qle_bool (pow2 1024) _); [|done]. injection Ef as <-.
    rewrite (proj2 (Qle_bool_iff _ _) Hs). cbn. exists m, m. repeat split; done || lra.
  - pose proof (fl_inv _ _ Ef) as Hr. pose proof (rnd_nonneg _ Hs) as Hr0.
    rewrite <- Hr in Hr0. pose proof (fl_wf (q + k)) as Hwf. rewrite Ef in Hwf.
    unfold Math_min, num_compare. destruct (Qcompare_spec m r) as [Hc|Hc|Hc].
    + exists m, m. repeat split; done || lra.
    + exists m, m. repeat split; done || lra.
    + exists r, m. repeat split; done || lra.
Qed.

Lemma init_ok : config_ok → hp_ok MAX_HP.
Proof.
  intros ((m & Hm & Hmwf & Hm0) & _). exists m, m. rewrite Hm. repeat split; done || lra.
Qed.

(** What holds in every state the interleavings reach. *)
Definition fw_inv (s : fw_state) : Prop :=
  hp_ok (f_hp s)
  ∧ (f_exited s = true → num_eq (f_hp s) (Fin 0) = true ∧ AUTO_EXIT = true).

Lemma fw_step_inv s s' : config_ok → fw_inv s → fw_step s s' → fw_inv s'.
Proof.
  intros Hc [Hok Hex] Hs. destruct Hs as [t n h l p|h l p|h l p|n h l p Hm];
    unfold fw_inv; cbn in *.
  - split; [by apply damaged_ok|done].
  - split; [done|]. by intros [? ?]%andb_true_iff.
  - done.
  - split; [by apply healed_ok|done].
Qed.

(** C4. Whatever the order of incidents, publications and healing, health stays a
    double between 0 and the maximum, and the process has exited only at zero
    health with the automatic exit enabled. *)
Theorem fw_reachable_inv t s :
  config_ok → rtc fw_step (fw_init t) s →
  hp_ok (f_hp s)
  ∧ (f_exited s = true → num_eq (f_hp s) (Fin 0) = true ∧ AUTO_EXIT = true).
Proof.
  intros Hc Hr. change (fw_inv s). assert (fw_inv (fw_init t)) as H0.
  { split; [by apply init_ok|done]. }
  revert H0. induction Hr as [|s1 s2 s3 Hs _ IH]; [done|].
  intros H1. apply IH. by eapply fw_step_inv.
Qed.

(** ** The bar *)

(** A bar of [n] cells. *)
Definition bar_len_ok (n : Z) : Prop := BAR_LEN = Fin (inject_Z n) ∧ (0 <= n <= 2 ^ 53)%Z.

Lemma js_repeat_Z c n :
  (0 <= n)%Z → js_repeat c (Fin (inject_Z n)) = inr (repeat_unit c (Z.to_nat n)).
Proof.
  intros Hn. unfold js_repeat. rewrite Qfloor_Z.
  destruct (Qle_bool _ _) eqn:Eb; [|done]. apply Qle_bool_iff in Eb.
  change (-1) with (inject_Z (-1)) in Eb. rewrite <- Zle_Qle in Eb. lia.
Qed.

(** The number of filled cells, for a bar of any length. *)
Lemma filled_real h l :
  config_ok → hp_ok h → BAR_LEN = Fin l → num_wf (Fin l) → 0 <= l →
  ∃ k, Math_round (num_mul (num_div h MAX_HP) BAR_LEN) = Fin (inject_Z k)
       ∧ (0 <= k)%Z ∧ inject_Z k <= l + (1 # 2).
Proof.
  intros ((m & Hm & Hmwf & Hm0) & _) (q & m' & -> & Hm' & Hq & H0 & H1) Hb Hlwf Hl0.
  rewrite Hm in Hm'. injection Hm' as <-. rewrite Hm, Hb.
  unfold num_div. replace (Qeq_bool m 0) with false.
  2: { symmetry. apply Qeq_bool_false. lra. }
  assert (0 <= q / m) as Hr0 by (apply Qle_shift_div_l; lra).
  assert (q / m <= 1) as Hr1 by (apply Qle_shift_div_r; lra).
  destruct (fl_nonneg_le (q / m) 1 Hr0 Hr1 eq_refl) as (r & -> & _ & Hr2 & Hr3).
  unfold num_mul.
  destruct (fl_nonneg_le (r * l) l ltac:(nra) ltac:(nra) Hlwf) as (s & -> & _ & Hs0 & Hs1).
  eexists. split; [done|].
  assert (0 <= s + (1 # 2)) as Ha by lra.
  pose proof (Qfloor_resp_le 0 _ Ha) as Hlo. change (Qfloor 0) with 0%Z in Hlo.
  split; [done|]. pose proof (Qfloor_le (s + (1 # 2))). lra.
Qed.

(** The number of filled cells is between zero and the length of the bar. *)
Lemma filled_cells h n :
  config_ok → hp_ok h → bar_len_ok n →
  ∃ k, Math_round (num_mul (num_div h MAX_HP) BAR_LEN) = Fin (inject_Z k)
       ∧ (0 <= k <= n)%Z.
Proof.
  intros Hc Hh (Hb & Hn).
  assert (0 <= inject_Z n) as Hn0 by (change 0 with (inject_Z 0); rewrite <- Zle_Qle; lia).
  assert (num_wf (Fin (inject_Z n))) as Hnwf by (cbn; apply fl_Z; lia).
  destruct (filled_real h _ Hc Hh Hb Hnwf Hn0) as (k & Hk & Hk0 & Hkn).
  exists k. split; [done|]. assert (inject_Z k < inject_Z (n + 1)) as Hlt.
  { rewrite inject_Z_plus. change (inject_Z 1) with 1. lra. }
  rewrite <- Zlt_Qlt in Hlt. lia.
Qed.

Lemma bar_shape h n :
  config_ok → hp_ok h → bar_len_ok n →
  ∃ k, (0 <= k <= n)%Z ∧
    bar h = inr (js "[" ++ repeat_unit block (Z.to_nat k)
                 ++ repeat_unit 32 (Z.to_nat (n - k)) ++ js "] "
                 ++ toString h ++ js "/" ++ toString MAX_HP).
Proof.
  intros Hc Hh Hb. destruct (filled_cells h n Hc Hh Hb) as (k & Hk & Hkn).
  exists k. split; [done|]. unfold bar. rewrite Hk. rewrite js_repeat_Z by lia.
  destruct Hb as [-> Hn]. unfold repeat_unit at 1.
  rewrite length_replicate, Z2Nat.id by lia.
  rewrite num_of_Z_small, num_sub_Z, js_repeat_Z by lia. done.
Qed.

(** A bar whose length is no whole number has cells to fill or half a cell too many, and
    does not throw either. *)
Lemma bar_returns h l :
  config_ok → hp_ok h → BAR_LEN = Fin l → num_wf (Fin l) → 0 <= l → l <= inject_Z (2 ^ 53) →
  ∃ t, bar h = inr t.
Proof.
  intros Hc Hh Hb Hwf Hl0 Hl. destruct (filled_real h l Hc Hh Hb Hwf Hl0) as (k & Hk & Hk0 & Hkl).
  assert (k <= 2 ^ 53)%Z as Hk53.
  { assert (inject_Z k < inject_Z (2 ^ 53 + 1)) as Hlt.
    { rewrite inject_Z_plus. change (inject_Z 1) with 1. lra. }
    rewrite <- Zlt_Qlt in Hlt. lia. }
  assert (∃ x, num_sub (Fin l) (num_of_Z k) = Fin x ∧ -(1 # 2) <= x) as (x & Hx & Hx2).
  { rewrite num_of_Z_small by lia. unfold num_sub, num_neg, num_add.
    assert (0 <= inject_Z k) by (change 0 with (inject_Z 0); by rewrite <- Zle_Qle).
    assert (l + Qred (- inject_Z k) == l - inject_Z k) as Hs by (by rewrite Qred_correct).
    rewrite (fl_proper _ _ Hs). destruct (Qlt_le_dec (l - inject_Z k) 0).
    - destruct (fl_nonneg_le (- (l - inject_Z k)) (1 # 2) ltac:(lra) ltac:(lra) eq_refl)
        as (x & Hx & _ & _ & H1). exists (- x). split; [|lra].
      apply fl_opp in Hx. rewrite <- Hx. apply fl_proper. ring.
    - destruct (fl_nonneg_le (l - inject_Z k) l ltac:(lra) ltac:(lra) Hwf) as (x & Hx & _ & H0 & _).
      exists x. split; [done|lra]. }
  unfold bar. rewrite Hk, js_repeat_Z by done. unfold repeat_unit at 1.
  rewrite length_replicate, Z2Nat.id, Hb, Hx by done. cbn [js_repeat].
  destruct (Qle_bool x (-1)) eqn:Ex; [|by eexists]. apply Qle_bool_iff in Ex. lra.
Qed.

(** The status bar never throws: it shows exactly [n] cells, then the health
    and the maximum. *)
Theorem bar_total h n :
  config_ok → hp_ok h → bar_len_ok n →
  ∃ cells, bar h = inr (js "[" ++ cells ++ js "] " ++ toString h ++ js "/" ++ toString MAX_HP)
           ∧ length cells = Z.to_nat n
           ∧ Forall (λ c, c = block ∨ c = 32%N) cells.
Proof.
  intros Hc Hh Hb. destruct (bar_shape h n Hc Hh Hb) as (k & Hk & ->).
  eexists (repeat_unit block (Z.to_nat k) ++ repeat_unit 32 (Z.to_nat (n - k))).
  split; [by rewrite <- app_assoc|]. unfold repeat_unit. split.
  - rewrite length_app, !length_replicate. lia.
  - apply Forall_app; split; apply Forall_replicate; auto.
Qed.

(** ** One incident, one healing step *)

Lemma slice_inner (c d : N) (s : jsstr) : slice (c :: s ++ [d]) 1 (Some (-1)%Z) = s.
Proof.
  unfold slice, slice_index. cbn [default from_option id].
  rewrite length_cons, length_app. cbn [length].
  replace (1 <? 0)%Z with false by done. replace (-1 <? 0)%Z with true by done.
  replace (Z.to_nat (Z.min 1 (Z.of_nat (S (length s + 1))))) with 1%nat by lia.
  replace (Z.to_nat (Z.max 0 (Z.of_nat (S (length s + 1)) + -1)) - 1)%nat
    with (length s) by lia.
  change (drop 1 (c :: s ++ [d])) with (s ++ [d]). by rewrite take_app_length.
Qed.

(** [state().bar] drops the opening bracket, but at the other end it drops the
    last digit of the maximum instead of the closing bracket. *)
Theorem state_bar_loses_digit (w : world E) n ms d :
  config_ok → hp_ok (hp w) → bar_len_ok n → toString MAX_HP = ms ++ [d] →
  ∃ cells, length cells = Z.to_nat n ∧
    state w = (Ok (hp w, MAX_HP,
                   cells ++ js "] " ++ toString (hp w) ++ js "/" ++ ms), w).
Proof.
  intros Hc Hh Hb Hms. destruct (bar_shape (hp w) n Hc Hh Hb) as (k & Hk & Hbar).
  exists (repeat_unit block (Z.to_nat k) ++ repeat_unit 32 (Z.to_nat (n - k))).
  split; [unfold repeat_unit; rewrite length_app, !length_replicate; lia|].
  unfold state, bind, gets, lift, ret. rewrite Hbar, Hms.
  change (js "[") with [91%N]. cbn [app].
  set (cells := repeat_unit block (Z.to_nat k)). set (emp := repeat_unit 32 (Z.to_nat (n - k))).
  replace (cells ++ emp ++ js "] " ++ toString (hp w) ++ js "/" ++ ms ++ [d])
    with ((cells ++ emp ++ js "] " ++ toString (hp w) ++ js "/" ++ ms) ++ [d])
    by (by rewrite <- !app_assoc).
  by rewrite slice_inner, <- app_assoc.
Qed.

(** One run of [record_incident]. *)
Lemma record_run t (w : world E) n :
  config_ok → hp_ok (hp w) → bar_len_ok n →
  ∃ w', record_incident t w =
          (match redis_fault (S (tick w)) with
           | Some e => Throw e
           | None => if num_eq (damaged t (hp w)) (Fin 0) && AUTO_EXIT then Exit 1 else Ok tt
           end, w')
    ∧ hp w' = damaged t (hp w) ∧ hp_ok (hp w')
    ∧ lastIncident w' = (now w + Z.of_N (elapsed (tick w)))%Z
    ∧ tick w' = S (S (tick w))
    ∧ log w' = log w ++ match redis_fault (S (tick w)) with
                        | Some _ => []
                        | None => [Publish channel
                            (stringify (event_json (type_name t) (damaged t (hp w))))]
                        end.
Proof.
  intros Hc Hh Hb. pose proof (damaged_ok t _ Hc Hh) as Hd.
  destruct (bar_shape _ n Hc Hd Hb) as (k & _ & Hbar).
  unfold record_incident, date_now, bind, gets, modify, interact, lift, redis_publish, emit.
  cbn. rewrite Hbar. cbn. destruct (redis_fault (S (tick w))) as [e|].
  - eexists. split; [done|]. cbn. rewrite app_nil_r. done.
  - cbn. destruct (num_eq (damaged t (hp w)) (Fin 0) && AUTO_EXIT); by eexists.
Qed.

(** C29. What [record] does: the health is lowered and stored before anything is
    awaited; a rejected publication rejects the handler and skips the exit
    check; otherwise exactly one event with the new health is published, and
    the process exits with code 1 exactly at zero health with AUTO_EXIT. *)
Theorem record_incident_spec t (w : world E) n :
  config_ok → hp_ok (hp w) → bar_len_ok n →
  ∃ w', record_incident t w =
          (match redis_fault (S (tick w)) with
           | Some e => Throw e
           | None => if num_eq (damaged t (hp w)) (Fin 0) && AUTO_EXIT then Exit 1 else Ok tt
           end, w')
    ∧ hp w' = damaged t (hp w) ∧ hp_ok (hp w')
    ∧ lastIncident w' = (now w + Z.of_N (elapsed (tick w)))%Z
    ∧ tick w' = S (S (tick w))
    ∧ log w' = log w ++ match redis_fault (S (tick w)) with
                        | Some _ => []
                        | None => [Publish channel
                            (stringify (event_json (type_name t) (damaged t (hp w))))]
                        end.
Proof. apply record_run. Qed.

(** What the healing timer does: before the interval has passed without an
    incident, or at full health, nothing; otherwise it raises the health by
    the heal rate, capped at the maximum, and publishes it. *)
Theorem heal_tick_spec (w : world E) n :
  config_ok → hp_ok (hp w) → bar_len_ok n → redis_fault (S (tick w)) = None →
  ∃ w', heal_tick w = (Ok tt, w') ∧ hp_ok (hp w') ∧ lastIncident w' = lastIncident w ∧
    let t := (now w + Z.of_N (elapsed (tick w)))%Z in
    if may_heal t (lastIncident w) (hp w) then
      hp w' = healed (hp w)
      ∧ log w' = log w ++ [Publish channel (stringify (event_json (js "heal") (healed (hp w))))]
    else hp w' = hp w ∧ log w' = log w.
Proof.
  intros Hc Hh Hb Hf. pose proof (healed_ok _ Hc Hh) as Hd.
  destruct (bar_shape _ n Hc Hd Hb) as (k & _ & Hbar).
  unfold heal_tick, date_now, bind, gets, modify, interact, lift, redis_publish, emit. cbn.
  destruct (may_heal _ _ _) eqn:Em; [|by eexists].
  rewrite Hbar. cbn. rewrite Hf. cbn. eexists. repeat split; done.
Qed.

(** ** Recovery *)

(** [n] firings of the timer, thirty seconds apart. *)
Fixpoint heal_ticks (n : nat) : prog E unit :=
  match n with
  | O => ret tt
  | S n => sleep 30000 ;; heal_tick ;; heal_ticks n
  end.

(** The last incident is long enough ago at the time [t]. *)
Definition due (t last : Z) : Prop := num_gt (num_of_Z (t - last)) HEAL_INTERVAL = true.

Lemma due_later t t' last : (last <= t)%Z → (t <= t')%Z → due t last → due t' last.
Proof.
  intros H0 H1. apply fl_gt_mono.
  - change 0 with (inject_Z 0). rewrite <- Zle_Qle. lia.
  - rewrite <- Zle_Qle. lia.
Qed.

Lemma heal_clock (w : world E) : (now w <= now (heal_tick w).2)%Z.
Proof.
  unfold heal_tick, date_now, bind, gets, modify, interact, lift, redis_publish, emit. cbn.
  destruct (may_heal _ _ _); cbn; [|lia]. destruct (bar _); cbn; [lia|].
  destruct (redis_fault _); cbn; lia.
Qed.

(** Two doubles of the same value are the same. *)
Lemma double_eq p q : num_wf (Fin p) → num_wf (Fin q) → p == q → Fin p = Fin q.
Proof. intros <- <- H. by rewrite H. Qed.

(** What the timer needs to heal: a bar that can be printed, and a rate that is not lost
    when it is added to a health. *)
Definition heal_ok (m r l : Q) : Prop :=
  MAX_HP = Fin m ∧ HEAL_RATE = Fin r ∧ num_wf (Fin r) ∧ 0 < r ∧ m + r <= pow2 52 * r
  ∧ BAR_LEN = Fin l ∧ num_wf (Fin l) ∧ 0 <= l ∧ l <= inject_Z (2 ^ 53).

(** A healing step gives at least half of the rate, or the maximum. *)
Lemma healed_half m r l q :
  config_ok → heal_ok m r l → hp_ok (Fin q) →
  ∃ q', healed (Fin q) = Fin q' ∧ (m <= q' ∨ q + r * (1 # 2) <= q').
Proof.
  intros Hc (Hm & Hr & Hrwf & Hr0 & Hmr & _) (q0 & m' & [= <-] & Hm' & Hq & H0 & H1).
  rewrite Hm in Hm'. injection Hm' as <-.
  pose proof (rnd_add_lower q r H0 Hrwf Hr0 ltac:(lra)) as Hs.
  unfold healed. rewrite Hm, Hr. unfold num_add. destruct (fl (q + r)) as [|s|x] eqn:Ef.
  - unfold fl in Ef. by destruct (Qle_bool _ _).
  - unfold fl in Ef. destruct (Qle_bool (pow2 1024) _); [|done]. injection Ef as <-.
    rewrite (proj2 (Qle_bool_iff _ _)) by lra. exists m. split; [done|left; lra].
  - pose proof (fl_inv _ _ Ef) as ->. unfold Math_min, num_compare.
    destruct (Qcompare_spec m (rnd (q + r))).
    + exists m. split; [done|left; lra].
    + exists m. split; [done|left; lra].
    + eexists. split; [done|by right].
Qed.

(** One firing. *)
Lemma heal_once (w : world E) m r l q :
  config_ok → heal_ok m r l → (∀ i, redis_fault i = None) →
  hp w = Fin q → hp_ok (hp w) → (lastIncident w <= now w)%Z → due (now w) (lastIncident w) →
  ∃ w' q', heal_tick w = (Ok tt, w') ∧ hp w' = Fin q' ∧ hp_ok (hp w')
    ∧ lastIncident w' = lastIncident w ∧ (m <= q' ∨ q + r * (1 # 2) <= q').
Proof.
  intros Hc Hok Hf Hh Hhp Hl Hd. pose proof (healed_ok _ Hc Hhp) as Hd'.
  pose proof (healed_half m r l q Hc Hok ltac:(by rewrite <- Hh)) as (q' & Hq' & Hge).
  destruct Hok as (Hm & Hr & Hrwf & Hr0 & Hmr & Hb & Hlwf & Hl0 & Hl53).
  destruct (bar_returns _ l Hc Hd' Hb Hlwf Hl0 Hl53) as (t & Hbar).
  pose proof (due_later (now w) (now w + Z.of_N (elapsed (tick w))) _ Hl ltac:(lia) Hd) as Hd2.
  unfold heal_tick, date_now, bind, gets, modify, interact, lift, redis_publish, emit. cbn.
  unfold due in Hd2. unfold may_heal. rewrite Hd2. cbn [andb].
  rewrite Hh in *. rewrite Hm. destruct (num_lt (Fin q) (Fin m)) eqn:El.
  - rewrite Hbar. cbn. rewrite Hf. cbn. eexists _, q'. by rewrite Hq' in *.
  - eexists _, q. split; [done|]. split; [done|]. split; [by rewrite <- Hh in Hhp|]. split; [done|].
    left. unfold num_lt, num_compare in El. destruct (Qcompare_spec q m); [lra|done|lra].
Qed.

(** C21. Once the incidents stop, health comes back: for any positive maximum and rate
    that are doubles, the rate at least about the 2^52-th part of the maximum so that
    adding it is not lost to rounding, and while Redis takes the events, after the
    interval has passed without an incident the firings of the timer bring any health
    back to exactly the maximum, where it stays.  Twice as many firings are enough as
    exact arithmetic needs. *)
Theorem heals_fully (w : world E) m r l q k :
  config_ok → heal_ok m r l → (∀ i, redis_fault i = None) →
  hp w = Fin q → hp_ok (hp w) → (lastIncident w <= now w)%Z → due (now w) (lastIncident w) →
  m <= q + inject_Z (Z.of_nat k) * (r * (1 # 2)) →
  ∃ w', heal_ticks k w = (Ok tt, w') ∧ hp w' = MAX_HP.
Proof.
  intros Hc Hok Hf. assert (0 < r) as Hr0 by apply Hok.
  revert w q. induction k as [|k IH]; intros w q Hh Hhp Hl Hd Hk.
  { exists w. split; [done|]. destruct Hhp as (q0 & m' & Hq0 & Hm' & Hwf & _ & H1).
    rewrite Hh in Hq0 |- *. injection Hq0 as <-.
    destruct Hok as (Hm & _), Hc as ((m0 & Hm0 & Hmwf & _) & _).
    rewrite Hm in Hm', Hm0 |- *. injection Hm' as <-. injection Hm0 as <-.
    apply double_eq; [done..|]. change (inject_Z (Z.of_nat 0)) with 0 in Hk. lra. }
  cbn [heal_ticks]. erewrite bind_ok by reflexivity. set (w1 := set_time _ _ _).
  assert (now w <= now w1)%Z as Ht by (cbn; lia).
  destruct (heal_once w1 m r l q) as (w2 & q2 & H2 & Hh2 & Hhp2 & Hl2 & Hge);
    try done; [cbn in *; lia|by apply (due_later (now w))|].
  rewrite (bind_ok _ _ _ _ _ H2).
  assert (now w1 <= now w2)%Z as Ht2.
  { pose proof (heal_clock w1) as Hcl. by rewrite H2 in Hcl. }
  change (lastIncident w1) with (lastIncident w) in Hl2.
  apply (IH w2 q2 Hh2 Hhp2); [lia|rewrite Hl2; apply (due_later (now w)); [done|lia|done]|].
  replace (Z.of_nat (S k)) with (Z.of_nat k + 1)%Z in Hk by lia.
  rewrite inject_Z_plus in Hk. change (inject_Z 1) with 1 in Hk.
  assert (0 <= inject_Z (Z.of_nat k)) by (change 0 with (inject_Z 0); rewrite <- Zle_Qle; lia).
  destruct Hge as [Hge|Hge]; [nra|lra].
Qed.
End Facts.

(** ** The default configuration *)

Lemma calm_config_ok : config_ok.
Proof.
  split; [|split].
  - exists 20%Q. by repeat split.
  - intros []; (eexists; split; [vm_compute; reflexivity|done]).
  - eexists; split; [vm_compute; reflexivity|done].
Qed.

Lemma calm_bar_len_ok : bar_len_ok 20.
Proof. by split. Qed.

Lemma calm_hp_ok : hp_ok (hp world0).
Proof. exists 20%Q, 20%Q. by repeat split. Qed.

(** Two critical incidents whose publications complete pop the bubble. *)
Definition popped : fw_state := Fw (Fin 0) 9 1 true.

Lemma popped_reachable : rtc fw_step (fw_init 5) popped.
Proof.
  eapply rtc_l; [apply (step_record ICritical 7)|].
  eapply rtc_l; [apply (step_record ICritical 9)|].
  eapply rtc_l; [apply step_published|].
  match goal with |- rtc _ ?s popped => replace s with popped by (by vm_compute) end.
  apply rtc_refl.
Qed.

Lemma fw_reachable_inv_witness :
  hp_ok (f_hp popped) ∧ (f_exited popped = true → AUTO_EXIT = true).
Proof.
  destruct (fw_reachable_inv 5 popped calm_config_ok popped_reachable) as [H1 H2].
  split; [exact H1|]. intros Hx. exact (proj2 (H2 Hx)).
Defined.

Lemma bar_total_witness :
  ∃ cells, bar (num_of_Z 20)
           = inr (js "[" ++ cells ++ js "] " ++ toString (num_of_Z 20) ++ js "/" ++ toString MAX_HP)
           ∧ length cells = 20%nat ∧ Forall (λ c, c = block ∨ c = 32%N) cells.
Proof. exact (bar_total _ 20 calm_config_ok calm_hp_ok calm_bar_len_ok). Defined.

Lemma state_bar_loses_digit_witness :
  ∃ cells, length cells = 20%nat ∧
    state world0 = (Ok (hp world0, MAX_HP,
      cells ++ js "] " ++ toString (hp world0) ++ js "/" ++ js "2"), world0).
Proof.
  exact (state_bar_loses_digit world0 20 (js "2") (code "0") calm_config_ok calm_hp_ok
    calm_bar_len_ok ltac:(vm_compute; reflexivity)).
Defined.

Lemma record_incident_spec_witness :
  ∃ w', (record_incident IRpcFail world0).2 = w' ∧ hp w' = num_of_Z 15.
Proof.
  destruct (record_incident_spec IRpcFail world0 20 calm_config_ok calm_hp_ok calm_bar_len_ok)
    as (w' & Hr & Hhp & _).
  exists w'. rewrite Hr. split; [reflexivity|]. rewrite Hhp. vm_compute. reflexivity.
Defined.

(** Five minutes and a second after an incident the timer heals one point. *)
Definition hurt : world entry :=
  World 301000 0 ∅ (num_of_Z 15) 0 [] ∅ [] [] [] [].

Lemma heal_tick_spec_witness :
  ∃ w', heal_tick hurt = (Ok tt, w') ∧ hp w' = num_of_Z 16.
Proof.
  assert (hp_ok (hp hurt)) as Hok by (exists 15%Q, 20%Q; by repeat split).
  destruct (heal_tick_spec hurt 20 calm_config_ok Hok calm_bar_len_ok eq_refl)
    as (w' & Hr & _ & _ & Hc).
  exists w'. split; [exact Hr|]. cbv zeta in Hc.
  replace (may_heal _ _ _) with true in Hc by (vm_compute; reflexivity).
  destruct Hc as [-> _]. vm_compute. reflexivity.
Defined.

Lemma calm_heal_ok : heal_ok 20 1 20.
Proof. repeat split; vm_compute; done || discriminate. Qed.

Lemma heals_fully_witness : ∃ w', heal_ticks 10 hurt = (Ok tt, w') ∧ hp w' = MAX_HP.
Proof.
  apply (heals_fully hurt 20 1 20 15 10 calm_config_ok calm_heal_ok (λ _, eq_refl)).
  - vm_compute. reflexivity.
  - exists 15%Q, 20%Q. repeat split; vm_compute; done || discriminate.
  - vm_compute. discriminate.
  - vm_compute. reflexivity.
  - vm_compute. discriminate.
Defined.
