(* ===== verification/Solana.v ===== *)
(** * utils-solana.js: quotes, swaps, burn and balances

    The Jupiter quote with its Redis cache, the swap and the SPL transfer with
    their retries and failure events, the split of the fuel between burn and
    developer, the balances and the deposit watchers.  The RPC node, Jupiter and
    the Solana libraries are the parameters of [Env]. *)

From Stdlib Require Import QArith.
From S2P Require Import Prelude JsString JsNum JsText Json Bytes Assoc Effects Uint8.
From S2P Require Import RedisModel Retry Firewall.

Local Open Scope prog_scope.

(** The constants the module computes when it is loaded. *)
Record solana := Solana { NXR_MINT : jsstr; DEV_WALLET : keypair }.

Section Solana.
Context {E : Type} `{RE : RedisEntry E} `{EN : Env}.

(** [new PublicKey(process.env.NAME)] *)
Definition env_publicKey (name : jsstr) : prog E jsstr :=
  match env_var name with
  | None => throw (Exn KTypeError (js "Invalid public key input"))
  | Some s => match publicKey_fault s with Some e => throw e | None => ret s end
  end.

(** [Keypair.fromSecretKey(Uint8Array.from(JSON.parse(s)))]; parsing
    [undefined] is a syntax error. *)
Definition keypair_of_text (s : option jsstr) : prog E keypair :=
  v <- json_parse (default (js "undefined") s) ;;
  sk <- lift (uint8_from v) ;;
  lift (fromSecretKey sk).

(** Loading the module. *)
Definition solana_load : prog E solana :=
  mint <- env_publicKey (js "NXR_MINT") ;;
  dev <- keypair_of_text (env_var (js "DEV_WALLET_SK")) ;;
  ret (Solana mint dev).

Definition BURN_WALLET : jsstr := js "11111111111111111111111111111111".
Definition SOL_MINT : jsstr := js "So11111111111111111111111111111111111111112".
Definition JUP_Q : jsstr := js "https://quote-api.jup.ag/v6/quote".
Definition JUP_S : jsstr := js "https://quote-api.jup.ag/v6/swap".
Definition CACHE_TTL : Z := 60.
Definition LAMPORTS_PER_SOL : num := num_of_Z 1000000000.

(** ** Decimals *)

Definition decimals_path : list jsstr :=
  [js "value"; js "data"; js "parsed"; js "info"; js "decimals"].

Definition decimalsOf (mint : jsstr) : prog E (option json) :=
  cache <- gets decimalsCache ;;
  if opt_truthy (cache !! mint) then ret (cache !! mint)
  else
    info <- rpc (GetParsedAccountInfo mint) ;;
    d <- lift (props (Some info) decimals_path) ;;
    modify (λ w, set_decimals (partial_alter (λ _, d) mint (decimalsCache w)) w) ;;
    ret d.

(** ** Quotes *)

Definition quote_key (mint : jsstr) (lamports : num) : jsstr :=
  js "quote:" ++ mint ++ js ":" ++ toString lamports.

Definition quote_url (mint : jsstr) (lamports : num) : jsstr :=
  JUP_Q ++ js "?inputMint=" ++ SOL_MINT ++ js "&outputMint=" ++ mint
  ++ js "&amount=" ++ toString lamports ++ js "&slippageBps=100".

Definition GET (u : jsstr) : request := Request u (js "GET") None.

(** [fetch(url).then(r => r.json())] *)
Definition fetch_json (r : request) : prog E json :=
  res <- fetch r ;; json_parse (res_text res).

Definition quoteSOLto (mint : jsstr) (lamports : num) : prog E (option json) :=
  let cacheKey := quote_key mint lamports in
  cached <- redis_get cacheKey ;;
  match cached with
  | Some (c :: s) => v <- json_parse (c :: s) ;; ret (Some v)
  | _ =>
      j <- try_catch (fetch_json (GET (quote_url mint lamports))) (λ _, ret JNull) ;;
      let result := opt_first (opt_prop (Some j) (js "data")) in
      if opt_truthy result then
        redis_setEx cacheKey CACHE_TTL (stringify (default JNull result)) ;; ret result
      else ret None
  end.

(** ** Swaps *)

Definition swap_body (route : json) (pk : jsstr) : json :=
  JObj [(js "route", route); (js "userPublicKey", JStr pk); (js "wrapAndUnwrapSol", JBool true)].

Definition swap_request (route : json) (pk : jsstr) : request :=
  Request JUP_S (js "POST") (Some (stringify (swap_body route pk))).

(** One attempt: build, sign, send. *)
Definition swap_attempt (route : json) (kp : keypair) : prog E unit :=
  r <- fetch_json (swap_request route (publicKey kp)) ;;
  t <- lift (prop (Some r) (js "swapTransaction")) ;;
  raw <- lift (buffer_from_base64 t) ;;
  match tx_sign raw (publicKey kp) with
  | Some e => throw e
  | None => send_and_confirm (SwapTx raw (publicKey kp)) ;; ret tt
  end.

(** [{ attempts: 3 }] over the defaults. *)
Definition three_attempts : retry_opts := RetryOpts 3 800 2.

(** The handler of a failure: the firewall is told, not awaited, then the event
    is published and the error thrown again. *)
Definition report_failure {A} (ev : exn → json) (e : exn) : prog E A :=
  detach onRpcFail ;;
  redis_publish (js "nexus.events") (stringify (ev e)) ;;
  throw e.

Definition swap_failure (pk : jsstr) (e : exn) : json :=
  JObj [(js "event", JStr (js "swap_failure")); (js "wallet", JStr pk);
        (js "error", JStr (message e))].

Definition executeSwap (route : option json) (kp : keypair) : prog E unit :=
  match route with
  | Some r =>
      if json_truthy r then
        try_catch (withRetry (swap_attempt r kp) three_attempts)
                  (report_failure (swap_failure (publicKey kp)))
      else ret tt
  | None => ret tt
  end.

(** ** Transfers *)

Definition transfer_failure (from to : jsstr) (e : exn) : json :=
  JObj [(js "event", JStr (js "transfer_failure")); (js "from", JStr from);
        (js "to", JStr to); (js "error", JStr (message e))].

Definition transfer (mint : jsstr) (fromKp : keypair) (dest : jsstr) (lamports : num)
  : prog E unit :=
  srcAta <- lift (ata_address mint (publicKey fromKp)) ;;
  decimals <- decimalsOf mint ;;
  match transfer_fault lamports decimals with
  | Some e => throw e
  | None =>
      let tx := TransferChecked srcAta mint dest (publicKey fromKp) lamports decimals in
      b <- rpc GetLatestBlockhash ;;
      bh <- lift (prop (Some b) (js "blockhash")) ;;
      match sign_fault bh with
      | Some e => throw e
      | None =>
          try_catch (withRetry (send_and_confirm tx) three_attempts ;; ret tt)
                    (report_failure (transfer_failure (publicKey fromKp) dest))
      end
  end.

Definition burn_part (lamports pctBurn : num) : num := Math_floor (num_mul lamports pctBurn).
Definition dev_part (lamports pctBurn : num) : num :=
  num_sub lamports (burn_part lamports pctBurn).

Definition burnAndDev (c : solana) (fromKp : keypair) (lamports pctBurn : num) : prog E unit :=
  transfer (NXR_MINT c) fromKp BURN_WALLET (burn_part lamports pctBurn) ;;
  transfer (NXR_MINT c) fromKp (publicKey (DEV_WALLET c)) (dev_part lamports pctBurn).

(** ** Balances *)

(** SOL and raw agent tokens of a wallet. *)
Definition refreshBalances (owner agentMint : jsstr) : prog E (num * num) :=
  b <- rpc (GetBalance owner) ;;
  let sol := num_div (json_toNumber b) LAMPORTS_PER_SOL in
  ata <- lift (ata_address agentMint owner) ;;
  info <- getAccountInfo ata ;;
  match info with
  | Some data => v <- lift (readBigUInt64LE data 64) ;; ret (sol, num_of_Z v)
  | None => ret (sol, Fin 0)
  end.

(** ** Watchers *)

(** The two callbacks [watchDeposits] registers for a user, by account. *)
Definition set_sol (u : user) (x : num) : user :=
  User (wallet u) x (tierBal u) (auto u) (risk u).
Definition set_tier (u : user) (x : num) : user :=
  User (wallet u) (sol u) x (auto u) (risk u).

Definition put_user (handle : jsstr) (u : user) : prog E unit :=
  modify (λ w, set_users (kv_set (users w) handle u) w).

(** The user's object is shared with the map, so a write to it shows there; the
    field is written after the balances were awaited. *)
Definition change_user (handle : jsstr) (f : user → user) : prog E unit :=
  us <- gets users ;;
  match kv_lookup us handle with
  | Some u => put_user handle (f u)
  | None => ret tt
  end.

Definition on_sol_change (agentMint handle : jsstr) (u : user)
    (onUpdate : jsstr → prog E unit) : prog E unit :=
  let* (sol, _) := refreshBalances (publicKey (wallet u)) agentMint in
  change_user handle (λ u, set_sol u sol) ;;
  detach (onUpdate handle).

Definition on_token_change (agentMint handle : jsstr) (u : user)
    (onUpdate : jsstr → prog E unit) : prog E unit :=
  let* (_, lamports) := refreshBalances (publicKey (wallet u)) agentMint in
  change_user handle (λ u, set_tier u lamports) ;;
  detach (onUpdate handle).

(** The body of [forEach] for one user. *)
Definition watch_user (agentMint handle : jsstr) (u : user) : prog E unit :=
  s <- gets subscribed ;;
  if bool_decide (handle ∈ s) then ret tt
  else
    modify (λ w, set_subscribed (subscribed w ++ [handle]) w) ;;
    emit (Watch (publicKey (wallet u)) handle) ;;
    ata <- lift (ata_address agentMint (publicKey (wallet u))) ;;
    emit (Watch ata handle).

Fixpoint watch_users (agentMint : jsstr) (us : list (jsstr * user)) : prog E unit :=
  match us with
  | [] => ret tt
  | (handle, u) :: us => detach (watch_user agentMint handle u) ;; watch_users agentMint us
  end.

Definition watchDeposits (agentMint : jsstr) : prog E unit :=
  us <- gets users ;; watch_users agentMint us.
End Solana.

Section Facts.
Context {E : Type} `{RE : RedisEntry E} `{EN : Env}.
Implicit Types w : world E.

(** ** Conservation of the fuel *)

(** C11. Of an integral amount of at most 2^53 lamports and a fraction in [0, 1], the
    burned part and the developer's part are non-negative integers whose sum is
    the amount: no lamport is lost or made by rounding. *)
Theorem burn_dev_conservation l p :
  (0 <= l <= 2 ^ 53)%Z → (0 <= p)%Q → (p <= 1)%Q →
  ∃ b d, burn_part (Fin (inject_Z l)) (Fin p) = Fin (inject_Z b)
    ∧ dev_part (Fin (inject_Z l)) (Fin p) = Fin (inject_Z d)
    ∧ (0 <= b)%Z ∧ (0 <= d)%Z ∧ (b + d = l)%Z.
Proof.
  intros Hl Hp0 Hp1. destruct (mul_floor_bounds l p Hl Hp0 Hp1) as (b & Hb & Hbl).
  exists b, (l - b)%Z. unfold dev_part, burn_part. rewrite Hb.
  rewrite num_sub_Z by lia. repeat split; lia.
Qed.

(** ** What is sent *)

Lemma retry_sends tx o i rem e0 w :
  ∃ k, (k <= rem)%nat
    ∧ sends (log (retry_loop (send_and_confirm tx) o i rem e0 w).2)
      = sends (log w) ++ replicate k tx
    ∧ ∀ s, (retry_loop (send_and_confirm tx) o i rem e0 w).1 = Ok s → (1 <= k)%nat.
Proof.
  revert i e0 w; induction rem as [|rem IH]; intros i e0 w.
  { exists O. cbn. by rewrite app_nil_r. }
  pose proof (send_log tx w) as Hs.
  destruct (send_and_confirm tx w) as [[s|e|c] w1] eqn:Ht; cbn [snd] in Hs.
  - exists 1%nat. cbn [retry_loop]. rewrite Ht. split; [lia|]. done.
  - rewrite (retry_loop_step _ _ _ _ _ _ _ _ Ht).
    destruct (IH (S i) e (sleep (backoff o i) w1).2) as (k & Hk & Hl & _).
    exists (S k). split; [lia|]. rewrite Hl. split; [|lia].
    rewrite (unsent_sleep (backoff o i) w1), Hs, <- app_assoc. done.
  - exists 1%nat. cbn [retry_loop]. rewrite Ht. split; [lia|]. done.
Qed.

Lemma unsent_record t : respects unsent (record_incident (E:=E) t).
Proof. unfold record_incident. respects_walk. Qed.

Lemma unsent_report {A} ev e : respects unsent (report_failure (E:=E) (A:=A) ev e).
Proof.
  unfold report_failure. respects_walk.
  apply unsent_detach, unsent_record.
Qed.

Lemma unsent_decimalsOf mint : respects unsent (decimalsOf (E:=E) mint).
Proof. unfold decimalsOf. respects_walk. Qed.

(** The amount and destination of a transfer. *)
Definition pays (tx : transaction) (mint dest : jsstr) (amount : num) : Prop :=
  ∃ src owner decimals, tx = TransferChecked src mint dest owner amount decimals.

(** A program that, whatever happens, submits one transaction at most [n]
    times, one satisfying [P], and at least once if it returns. *)
Definition sends_some {A} (P : transaction → Prop) (n : nat) (m : prog E A) : Prop :=
  ∀ w, ∃ k tx, (k <= n)%nat ∧ ((1 <= k)%nat → P tx)
    ∧ sends (log (m w).2) = sends (log w) ++ replicate k tx
    ∧ ∀ a, (m w).1 = Ok a → (1 <= k)%nat.

Lemma sends_none {A} P n (m : prog E A) w :
  sends (log (m w).2) = sends (log w) → (∀ a, (m w).1 ≠ Ok a) →
  ∃ k tx, (k <= n)%nat ∧ ((1 <= k)%nat → P tx)
    ∧ sends (log (m w).2) = sends (log w) ++ replicate k tx
    ∧ ∀ a, (m w).1 = Ok a → (1 <= k)%nat.
Proof.
  intros Hs Hn. exists O, (SwapTx [] []). rewrite Hs, app_nil_r.
  split; [lia|]. split; [lia|]. split; [done|]. intros a Ha. by destruct (Hn a).
Qed.

Lemma sends_some_before {A B} P n (m : prog E A) (k : A → prog E B) :
  respects unsent m → (∀ a w w1, m w = (Ok a, w1) → sends_some P n (k a)) →
  sends_some P n (bind m k).
Proof.
  intros Hm Hk w. specialize (Hm w). unfold unsent in Hm.
  destruct (m w) as [[a|e|c] w1] eqn:Ew; cbn in Hm.
  - rewrite (bind_ok _ _ _ _ _ Ew), <- Hm. by eapply Hk.
  - apply sends_none; rewrite (bind_throw _ _ _ _ _ Ew); done.
  - apply sends_none; rewrite (bind_exit _ _ _ _ _ Ew); done.
Qed.

Lemma sends_some_throw {A} P n e : sends_some (A:=A) P n (throw e).
Proof. intros w. by apply sends_none. Qed.

Lemma sends_some_retry (P : transaction → Prop) tx :
  P tx → sends_some P 3 (withRetry (send_and_confirm (E:=E) tx) three_attempts).
Proof.
  intros HP w. destruct (retry_sends tx three_attempts 0 3 undefined_exn w) as (k & Hk & Hs & Hok).
  by exists k, tx.
Qed.

Lemma transfer_sends mint fromKp dest amount :
  sends_some (λ tx, pays tx mint dest amount) 3 (transfer (E:=E) mint fromKp dest amount).
Proof.
  unfold transfer.
  apply sends_some_before; [apply unsent_lift|]. intros src _ _ _.
  apply sends_some_before; [apply unsent_decimalsOf|]. intros d _ _ _.
  destruct (transfer_fault amount d); [apply sends_some_throw|].
  apply sends_some_before; [apply unsent_rpc|]. intros b _ _ _.
  apply sends_some_before; [apply unsent_lift|]. intros bh _ _ _.
  destruct (sign_fault bh); [apply sends_some_throw|].
  intros w. set (tx := TransferChecked _ _ _ _ _ _).
  destruct (sends_some_retry (λ tx, pays tx mint dest amount) tx
    ltac:(by eexists _, _, _) w) as (k & t & Hk & Ht & Hs & Hok).
  exists k, t. split; [done|]. split; [done|]. unfold try_catch, bind.
  destruct (withRetry _ _ w) as [[s|e|c] w1]; cbn [fst snd] in *.
  - split; [done|]. intros _ _. by apply (Hok s).
  - split; [by rewrite (unsent_report (A:=unit) _ e w1)|].
    unfold report_failure, bind. intros a.
    destruct (detach onRpcFail w1) as [[[]|?|?] w2]; [|done..].
    by destruct (redis_publish _ _ w2) as [[[]|?|?] w3].
  - done.
Qed.

(** C10. Whatever the node and Redis do, [burnAndDev] only ever submits transfers of
    the burned part to the burn wallet, then transfers of the developer's part
    to the developer, at most three of each; nothing goes to the developer
    unless the burn returned, and it returns only if both were submitted. *)
Theorem burnAndDev_sends c fromKp l p w :
  ∃ k1 k2 t1 t2, (k1 <= 3)%nat ∧ (k2 <= 3)%nat
    ∧ ((1 <= k1)%nat → pays t1 (NXR_MINT c) BURN_WALLET (burn_part l p))
    ∧ ((1 <= k2)%nat → pays t2 (NXR_MINT c) (publicKey (DEV_WALLET c)) (dev_part l p))
    ∧ sends (log (burnAndDev c fromKp l p w).2)
      = sends (log w) ++ replicate k1 t1 ++ replicate k2 t2
    ∧ ((1 <= k2)%nat →
       (transfer (NXR_MINT c) fromKp BURN_WALLET (burn_part l p) w).1 = Ok tt ∧ (1 <= k1)%nat)
    ∧ ((burnAndDev c fromKp l p w).1 = Ok tt → (1 <= k1)%nat ∧ (1 <= k2)%nat).
Proof.
  destruct (transfer_sends (NXR_MINT c) fromKp BURN_WALLET (burn_part l p) w)
    as (k1 & t1 & Hk1 & Ht1 & Hs1 & Ho1).
  unfold burnAndDev, bind.
  destruct (transfer _ _ _ _ w) as [[[]|e|x] w1] eqn:Hw; cbn [fst snd] in *.
  - destruct (transfer_sends (NXR_MINT c) fromKp (publicKey (DEV_WALLET c)) (dev_part l p) w1)
      as (k2 & t2 & Hk2 & Ht2 & Hs2 & Ho2).
    exists k1, k2, t1, t2. rewrite Hs2, Hs1, <- app_assoc. naive_solver.
  - exists k1, O, t1, t1. cbn. rewrite app_nil_r.
    split; [done|]. split; [lia|]. split; [done|]. split; [lia|]. split; [done|]. split; [lia|done].
  - exists k1, O, t1, t1. cbn. rewrite app_nil_r.
    split; [done|]. split; [lia|]. split; [done|]. split; [lia|]. split; [done|]. split; [lia|done].
Qed.

(** ** Quotes *)

(** What [fetch_json] does with an answer. *)
Lemma fetch_json_ok r res v w :
  fetch_answer (tick w) r = inr res → parse (res_text res) = Some v →
  fetch_json r w = (Ok v, pass (add_event (Fetch r) w)).
Proof.
  intros Hf Hp. unfold fetch_json, fetch, bind. cbn. rewrite Hf. cbn.
  unfold json_parse. by rewrite Hp.
Qed.

Lemma stringify_cons v : json_ok v → ∃ c s, stringify v = c :: s.
Proof. intros (c & s & Hs & _)%stringify_head. by exists c, s. Qed.

Context `{RL : !RedisLaws E}.

(** A quote the service answers is returned and cached: for sixty seconds the
    same question is answered from the cache, with the same route and without
    another request, as long as the client has a [setEx] method. *)
Theorem quote_cached mint l j v res w :
  client_has (js "setEx") = true → quiet 3 w →
  e_get (now (pass w)) (entry_at w (quote_key mint l)) = None →
  fetch_answer (S (tick w)) (GET (quote_url mint l)) = inr res →
  parse (res_text res) = Some j → opt_first (opt_prop (Some j) (js "data")) = Some v →
  json_truthy v = true → json_ok v →
  ∃ w1, quoteSOLto mint l w = (Ok (Some v), w1)
    ∧ ∀ w2, entry_at w2 (quote_key mint l) = entry_at w1 (quote_key mint l) →
        quiet 1 w2 → (now (pass w2) < now w1 + 60000)%Z →
        quoteSOLto mint l w2 = (Ok (Some v), pass w2).
Proof.
  intros Hc Hq He Hf Hp Hd Ht Hok. unfold quoteSOLto, redis_get, redis_setEx.
  destruct (stringify_cons v Hok) as (c & s & Hs).
  erewrite bind_ok by (apply read_ok; by eapply quiet_now). rewrite He.
  erewrite bind_ok by (unfold try_catch; by erewrite fetch_json_ok).
  rewrite Hd. cbn [opt_truthy default from_option]. rewrite Ht, Hc. unfold redis_set.
  erewrite bind_ok by (apply write_ok; eapply (quiet_at 3 2); [done|lia|cbn; lia]).
  eexists. split; [done|].
  intros w2 Hw2 Hq2 Hn. erewrite bind_ok by (apply read_ok; by eapply quiet_now).
  rewrite Hw2, entry_put, get_setex. unfold CACHE_TTL.
  cbn [now put set_redis] in Hn. rewrite (proj2 (Z.ltb_lt _ _)) by lia.
  unfold id. rewrite Hs. cbn [bind]. unfold json_parse. rewrite <- Hs, parse_stringify by done.
  done.
Qed.

(** A client without [setEx], as ioredis is, rejects every fresh quote that has
    a route: without a cached answer no route is ever returned. *)
Theorem quote_without_setEx mint l w v w' :
  client_has (js "setEx") = false →
  e_get (now (pass w)) (entry_at w (quote_key mint l)) = None →
  quoteSOLto mint l w ≠ (Ok (Some v), w').
Proof.
  intros Hc He Hq. unfold quoteSOLto, redis_get, redis_setEx in Hq.
  apply bind_inv in Hq as (cached & w1 & Hr & Hq). rewrite read_eq in Hr.
  destruct (redis_fault _); [done|]. rewrite He in Hr. injection Hr as <- _.
  apply bind_inv in Hq as (j & w2 & _ & Hq). rewrite Hc in Hq.
  destruct (opt_truthy _); [|done]. by apply bind_inv in Hq as (? & ? & ? & _).
Qed.

(** ** Watchers *)

(** The watchers of one user. *)
Definition watches (agentMint handle : jsstr) (u : user) : list event :=
  Watch (publicKey (wallet u)) handle ::
  match ata_address agentMint (publicKey (wallet u)) with
  | inr ata => [Watch ata handle]
  | inl e => [Unhandled e]
  end.

Definition add_events (l : list event) w : world E :=
  World (now w) (tick w) (redis w) (hp w) (lastIncident w) (users w) (decimalsCache w)
        (subscribed w) (awaitingManual w) (lastConfigs w) (log w ++ l).

(** The users of [us] that [s] does not list yet. *)
Definition unwatched (s : list jsstr) (us : list (jsstr * user)) : list (jsstr * user) :=
  filter (λ hu, hu.1 ∉ s) us.

Lemma watch_user_eq agentMint handle u w :
  detach (watch_user agentMint handle u) w
  = (Ok tt, if bool_decide (handle ∈ subscribed w) then w
            else add_events (watches agentMint handle u)
                   (set_subscribed (subscribed w ++ [handle]) w)).
Proof.
  unfold detach, watch_user, watches, bind. cbn [gets].
  destruct (bool_decide _); [done|]. cbn.
  destruct (ata_address _ _); cbn; unfold add_event, add_events; cbn; by rewrite <- app_assoc.
Qed.

Lemma add_events_nil w : add_events [] w = w.
Proof. destruct w. unfold add_events. cbn. by rewrite app_nil_r. Qed.

Lemma unwatched_more s h us : h ∉ us.*1 → unwatched (s ++ [h]) us = unwatched s us.
Proof.
  unfold unwatched. induction us as [|[g u] us IH]; [done|]. rewrite fmap_cons.
  intros [Hg Hus]%not_elem_of_cons. rewrite !filter_cons, IH by done. cbn [fst] in *.
  destruct (decide (g ∉ s ++ [h])) as [H1|H1], (decide (g ∉ s)) as [H2|H2];
    [done|exfalso; set_solver..|done].
Qed.

Lemma watch_users_eq agentMint us w :
  NoDup us.*1 →
  watch_users agentMint us w
  = (Ok tt, add_events (concat ((λ hu, watches agentMint hu.1 hu.2) <$> unwatched (subscribed w) us))
              (set_subscribed (subscribed w ++ (unwatched (subscribed w) us).*1) w)).
Proof.
  revert w; induction us as [|[h u] us IH]; intros w Hnd.
  { cbn. rewrite add_events_nil, app_nil_r. by destruct w. }
  rewrite fmap_cons in Hnd. apply NoDup_cons in Hnd as [Hh Hnd].
  cbn [watch_users]. erewrite bind_ok by apply watch_user_eq.
  unfold unwatched. rewrite filter_cons. destruct (decide _) as [Hn|Hn]; cbn [fst] in Hn.
  - rewrite bool_decide_false by done. rewrite IH by done. cbn [subscribed add_events set_subscribed].
    replace (unwatched (subscribed w ++ [h]) us) with (unwatched (subscribed w) us).
    2: { by rewrite unwatched_more. }
    f_equal. unfold add_events. cbn. by rewrite <- !app_assoc.
  - apply dec_stable in Hn. rewrite bool_decide_true by done. by apply IH.
Qed.

Lemma unwatched_all s us : (∀ h, h ∈ us.*1 → h ∈ s) → unwatched s us = [].
Proof.
  unfold unwatched. induction us as [|[h u] us IH]; intros Hall; [done|].
  rewrite filter_cons. rewrite fmap_cons in Hall. cbn [fst] in *.
  destruct (decide (h ∉ s)) as [Hn|]; [|apply IH; set_solver].
  destruct Hn. apply Hall. by left.
Qed.

(** [watchDeposits] registers the two watchers of every user not watched yet, in
    the order of the map, marks them all as subscribed even where the token
    account cannot be derived, and a second call registers nothing. *)
Theorem watchDeposits_once agentMint w :
  NoDup (users w).*1 →
  ∃ w1, watchDeposits agentMint w = (Ok tt, w1)
    ∧ log w1 = log w ++ concat ((λ hu, watches agentMint hu.1 hu.2)
                                <$> unwatched (subscribed w) (users w))
    ∧ (∀ h, h ∈ subscribed w1 ↔ h ∈ subscribed w ∨ h ∈ (users w).*1)
    ∧ watchDeposits agentMint w1 = (Ok tt, w1).
Proof.
  intros Hnd. unfold watchDeposits. unfold bind. cbn [gets].
  rewrite watch_users_eq by done. eexists. split; [done|]. split; [done|].
  cbn [users subscribed add_events set_subscribed].
  assert (∀ h, h ∈ subscribed w ++ (unwatched (subscribed w) (users w)).*1
               ↔ h ∈ subscribed w ∨ h ∈ (users w).*1) as Hs.
  { intros h. rewrite elem_of_app. unfold unwatched. split.
    - intros [?|([g u] & -> & Hin)%list_elem_of_fmap]; [by left|].
      apply list_elem_of_filter in Hin as [_ Hin]. right.
      apply list_elem_of_fmap. by exists (g, u).
    - intros [?|([g u] & -> & Hin)%list_elem_of_fmap]; [by left|]. cbn.
      destruct (decide (g ∈ subscribed w)); [by left|right].
      apply list_elem_of_fmap. exists (g, u). split; [done|]. by apply list_elem_of_filter. }
  split; [done|]. rewrite watch_users_eq by done. cbn [subscribed add_events set_subscribed].
  rewrite unwatched_all by (intros h Hh; apply Hs; by right).
  cbn. rewrite add_events_nil, app_nil_r. done.
Qed.

(** ** Failures *)

(** What the failure handler does while Redis accepts commands: the firewall
    takes the damage of a failed RPC and publishes it, the failure event follows and
    the error is thrown again; if the damage is deadly the process will exit. *)
Lemma report_failure_run {A} ev e n w :
  config_ok → hp_ok (hp w) → bar_len_ok n → quiet 3 w →
  let dead := num_eq (damaged IRpcFail (hp w)) (Fin 0) && AUTO_EXIT in
  ∃ w', report_failure (A:=A) ev e w = (Throw e, w')
    ∧ hp w' = damaged IRpcFail (hp w)
    ∧ log w' = log w
        ++ Publish channel (stringify (event_json (type_name IRpcFail) (damaged IRpcFail (hp w))))
        :: (if dead then [WillExit 1] else []) ++ [Publish (js "nexus.events") (stringify (ev e))].
Proof.
  intros Hc Hh Hb Hq dead.
  destruct (record_run IRpcFail w n Hc Hh Hb) as (w1 & Hr & Hhp & _ & _ & Ht & Hl).
  rewrite (quiet_at 3 1 _ w Hq) in Hr, Hl by lia.
  unfold report_failure, detach, onRpcFail, bind. rewrite Hr. fold dead.
  unfold redis_publish, bind. destruct dead; cbn [interact add_event tick];
    rewrite Ht, (quiet_at 3 2 _ w Hq) by lia;
    (eexists; split; [done|]; cbn; rewrite Hl, <- !app_assoc; done).
Qed.

(** C32. A swap whose three attempts failed costs the firewall one RPC failure; the
    failure is published after that, with the wallet and the last error, and that
    error is thrown to the caller.  If the damage is deadly, the report that nobody
    awaits ends the process apart from that. *)
Theorem executeSwap_failure r kp n w e w1 :
  config_ok → bar_len_ok n → json_truthy r = true →
  withRetry (swap_attempt r kp) three_attempts w = (Throw e, w1) →
  hp_ok (hp w1) → quiet 3 w1 →
  let dead := num_eq (damaged IRpcFail (hp w1)) (Fin 0) && AUTO_EXIT in
  ∃ w2, executeSwap (Some r) kp w = (Throw e, w2)
    ∧ hp w2 = damaged IRpcFail (hp w1)
    ∧ log w2 = log w1
        ++ Publish channel (stringify (event_json (type_name IRpcFail) (damaged IRpcFail (hp w1))))
        :: (if dead then [WillExit 1] else [])
        ++ [Publish (js "nexus.events") (stringify (swap_failure (publicKey kp) e))].
Proof.
  intros Hc Hb Hr Hw Hh Hq. unfold executeSwap, try_catch. rewrite Hr, Hw.
  by apply (report_failure_run _ _ n).
Qed.
End Facts.

(** ** Concrete runs *)

Lemma burn_dev_conservation_witness :
  ∃ b d, burn_part (Fin (inject_Z 1000001)) (Fin (1 # 2)) = Fin (inject_Z b)
    ∧ dev_part (Fin (inject_Z 1000001)) (Fin (1 # 2)) = Fin (inject_Z d) ∧ (b + d = 1000001)%Z.
Proof.
  destruct (burn_dev_conservation 1000001 (1 # 2) ltac:(lia) ltac:(discriminate) ltac:(discriminate))
    as (b & d & H1 & H2 & _ & _ & H3).
  exists b, d. split; [exact H1|]. split; [exact H2|exact H3].
Defined.

(** A Jupiter that answers every request with the same route. *)
Definition jup_route : json := JObj [(js "outAmount", JStr (js "1000"))].
Definition jup_response : response :=
  Response true (js "OK") (stringify (JObj [(js "data", JArr [jup_route])])).

Definition jupiter (setEx : bool) : Env := {|
  env_var := kv_lookup calm_vars;
  elapsed _ := 1%N;
  redis_fault _ := None;
  fetch_answer _ _ := inr jup_response;
  rpc_answer _ c := inr (calm_rpc c);
  account_answer _ _ := inr None;
  send_answer n _ := inr (js "sig");
  random_answer n k := replicate k 0%N;
  generate_answer n := calm_key (N.of_nat n);
  fromSecretKey := calm_from;
  publicKey_fault _ := None;
  ata_address mint owner := inr (mint ++ owner);
  transfer_fault _ _ := None;
  sign_fault _ := None;
  tx_sign _ _ := None;
  js_pow10 _ := NaN;
  client_has _ := setEx;
  gcm_seal key iv p := (p, replicate 16 7%N);
  gcm_open key iv tag c := inr c;
  hmac_sha256 key d := replicate 32 0%N;
  hkdf_sha256 _ _ := inr (replicate 32 0%N);
  csurf_fault _ _ _ _ _ _ := None;
|}.

Lemma jup_route_ok : json_ok jup_route.
Proof.
  apply ok_obj; [|apply NoDup_singleton]. constructor; [|constructor]. cbn.
  split; [by repeat constructor|]. apply ok_str. by repeat constructor.
Qed.

Definition one_sol : num := num_of_Z 1000000000.

Lemma quote_cached_witness :
  ∃ w1, quoteSOLto (EN:=jupiter true) (js "M") one_sol world0 = (Ok (Some jup_route), w1).
Proof.
  destruct (quote_cached (EN:=jupiter true) (js "M") one_sol
    (JObj [(js "data", JArr [jup_route])]) jup_route jup_response world0 eq_refl
    ltac:(intros i _; reflexivity) eq_refl eq_refl ltac:(vm_compute; reflexivity) eq_refl
    eq_refl jup_route_ok) as (w1 & H & _).
  exists w1. exact H.
Defined.

(** The world after the same question to a client without [setEx]. *)
Definition unquoted : world entry :=
  (quoteSOLto (EN:=jupiter false) (js "M") one_sol world0).2.

Lemma quote_without_setEx_witness :
  quoteSOLto (EN:=jupiter false) (js "M") one_sol world0 ≠ (Ok (Some jup_route), unquoted).
Proof.
  exact (quote_without_setEx (EN:=jupiter false) (js "M") one_sol world0 jup_route unquoted
    eq_refl eq_refl).
Defined.

Definition two_users : world entry :=
  set_users [(js "ann", User (calm_key 1) (Fin 0) (Fin 0) false (js "med"));
             (js "bob", User (calm_key 2) (Fin 0) (Fin 0) true (js "low"))] world0.

Lemma watchDeposits_once_witness :
  ∃ w1, watchDeposits (js "AgentMint") two_users = (Ok tt, w1)
        ∧ watchDeposits (js "AgentMint") w1 = (Ok tt, w1).
Proof.
  destruct (watchDeposits_once (js "AgentMint") two_users
    ltac:(apply (bool_decide_eq_true_1 (NoDup (users two_users).*1)); vm_compute; reflexivity))
    as (w1 & H1 & _ & _ & H2).
  exists w1. split; [exact H1|exact H2].
Defined.

(** The calm environment's answers carry no swap transaction, so a swap fails. *)
Definition failed_swap : result unit * world entry :=
  withRetry (swap_attempt jup_route (calm_key 1)) three_attempts world0.

Definition swap_exn : exn := match failed_swap.1 with Throw e => e | _ => undefined_exn end.

Lemma failed_swap_eq : failed_swap = (Throw swap_exn, failed_swap.2).
Proof. vm_compute. reflexivity. Qed.

Lemma failed_swap_hp : hp_ok (hp failed_swap.2).
Proof.
  replace (hp failed_swap.2) with (hp world0) by (vm_compute; reflexivity). exact calm_hp_ok.
Qed.

Lemma executeSwap_failure_witness :
  ∃ w2, executeSwap (Some jup_route) (calm_key 1) world0 = (Throw swap_exn, w2).
Proof.
  destruct (executeSwap_failure jup_route (calm_key 1) 20 world0 swap_exn failed_swap.2
    calm_config_ok calm_bar_len_ok eq_refl failed_swap_eq failed_swap_hp
    ltac:(intros i _; reflexivity)) as (w2 & H & _).
  exists w2. exact H.
Defined.
