(* ===== verification/Token.v ===== *)
(** * utils-token.js: SPL token utilities

    Decimals with their Redis cache, the associated account, the balance of an
    owner and the transfer of an amount, with its rounding to raw units. *)

From Stdlib Require Import QArith.
From S2P Require Import Prelude JsString JsNum JsText Json Bytes Assoc Effects Uint8.
From S2P Require Import RedisModel Retry Firewall Solana.

Local Open Scope prog_scope.

Section Token.
Context {E : Type} `{RE : RedisEntry E} `{EN : Env}.

Definition DECIMALS_TTL : Z := 300.

Definition decimalsCacheKey (mint : jsstr) : jsstr := js "decimals:" ++ mint.

Definition getDecimals (mint : jsstr) : prog E json :=
  let key := decimalsCacheKey mint in
  cached <- redis_get key ;;
  match cached with
  | Some (c :: s) => ret (JNum (parseInt10 (c :: s)))
  | _ =>
      info <- rpc (GetParsedAccountInfo mint) ;;
      decimals <- lift (props (Some info) decimals_path) ;;
      match decimals with
      | None => throw (read_of (js "undefined") (js "toString"))
      | Some JNull => throw (read_of (js "null") (js "toString"))
      | Some d => redis_setEx key DECIMALS_TTL (json_toString d) ;; ret d
      end
  end.

Definition getATA (mint owner : jsstr) : exn + jsstr := ata_address mint owner.

(** [10 ** d]: exact for the exponents whose power is a double. *)
Definition pow_of_ten (d : num) : num :=
  match num_int d with
  | Some z => if ((0 <=? z) && (z <=? 22))%Z then pow10 z else js_pow10 d
  | None => js_pow10 d
  end.

Definition getTokenBalance (owner mint : jsstr) : prog E num :=
  ata <- lift (getATA mint owner) ;;
  info <- getAccountInfo ata ;;
  match info with
  | None => ret (Fin 0)
  | Some data =>
      rawAmount <- lift (readBigUInt64LE data 64) ;;
      decimals <- getDecimals mint ;;
      ret (num_div (num_of_Z rawAmount) (pow_of_ten (json_toNumber decimals)))
  end.

Definition raw_amount (amount : num) (decimals : json) : num :=
  Math_floor (num_mul amount (pow_of_ten (json_toNumber decimals))).

Definition transferToken (mint : jsstr) (fromKeypair : keypair) (toPubkey : jsstr)
    (amount : num) : prog E jsstr :=
  fromATA <- lift (getATA mint (publicKey fromKeypair)) ;;
  toATA <- lift (getATA mint toPubkey) ;;
  decimals <- getDecimals mint ;;
  let raw := raw_amount amount decimals in
  match transfer_fault raw (Some decimals) with
  | Some e => throw e
  | None =>
      let tx := TransferChecked fromATA mint toATA (publicKey fromKeypair) raw (Some decimals) in
      b <- rpc GetLatestBlockhash ;;
      bh <- lift (prop (Some b) (js "blockhash")) ;;
      match sign_fault bh with
      | Some e => throw e
      | None => withRetry (send_and_confirm tx) three_attempts
      end
  end.
End Token.

Section Facts.
Context {E : Type} `{RE : RedisEntry E} `{RL : !RedisLaws E} `{EN : Env}.
Implicit Types w : world E.

(** ** The caches of decimals *)

(** The answer of the node for a mint of [d] decimals. *)
Definition mint_decimals (n : nat) (mint : jsstr) (d : N) : Prop :=
  ∃ info, rpc_answer n (GetParsedAccountInfo mint) = inr info
    ∧ props (Some info) decimals_path = inr (Some (JNum (num_of_Z (Z.of_N d)))).

Definition small_int_test (d : N) : bool :=
  let t := toString (num_of_Z (Z.of_N d)) in
  bool_decide (parseInt10 t = num_of_Z (Z.of_N d))
  && match t with [] => false | _ => true end.

Lemma small_int_text d :
  (d < 256)%N →
  parseInt10 (toString (num_of_Z (Z.of_N d))) = num_of_Z (Z.of_N d)
  ∧ ∃ c s, toString (num_of_Z (Z.of_N d)) = c :: s.
Proof.
  intros Hd. pose proof (N_below_forallb small_int_test 256 ltac:(vm_compute; reflexivity) d Hd) as H.
  unfold small_int_test in H. cbv zeta in H.
  apply andb_true_iff in H as [H1 H2]. apply bool_decide_eq_true in H1. split; [done|].
  destruct (toString _) as [|c s]; [done|]. by exists c, s.
Qed.

(** [getDecimals] asks the node once: for three hundred seconds the same mint is
    answered from Redis with the same number, a mint of zero decimals included. *)
Theorem getDecimals_cached mint d w :
  client_has (js "setEx") = true → quiet 3 w → (d < 256)%N →
  e_get (now (pass w)) (entry_at w (decimalsCacheKey mint)) = None →
  mint_decimals (S (tick w)) mint d →
  ∃ w1, getDecimals mint w = (Ok (JNum (num_of_Z (Z.of_N d))), w1)
    ∧ ∀ w2, entry_at w2 (decimalsCacheKey mint) = entry_at w1 (decimalsCacheKey mint) →
        quiet 1 w2 → (now (pass w2) < now w1 + 300000)%Z →
        getDecimals mint w2 = (Ok (JNum (num_of_Z (Z.of_N d))), pass w2).
Proof.
  intros Hc Hq Hd He (info & Hi & Hp). unfold getDecimals, redis_get, redis_setEx.
  destruct (small_int_text d Hd) as (Hpi & c & s & Hs).
  erewrite bind_ok by (apply read_ok; by eapply quiet_now). rewrite He.
  erewrite bind_ok by (unfold rpc, bind; cbn; by rewrite Hi).
  erewrite bind_ok by (by rewrite Hp). rewrite Hc. unfold redis_set.
  erewrite bind_ok by (apply write_ok; eapply (quiet_at 3 2); [done|lia|cbn; lia]).
  eexists. split; [done|]. intros w2 Hw2 Hq2 Hn.
  erewrite bind_ok by (apply read_ok; by eapply quiet_now).
  rewrite Hw2, entry_put, get_setex. unfold DECIMALS_TTL.
  cbn [now put set_redis] in Hn. rewrite (proj2 (Z.ltb_lt _ _)) by lia.
  cbn [json_toString]. rewrite Hs, <- Hs, Hpi. done.
Qed.

(** The in-memory cache of utils-solana.js: a mint of [d > 0] decimals is asked
    once, and then answered without touching the world; a mint of zero decimals
    is never taken from the cache, since zero is falsy. *)
Theorem decimalsOf_cache mint d w :
  (d < 256)%N → decimalsCache w !! mint = None → mint_decimals (tick w) mint d →
  ∃ w1, decimalsOf mint w = (Ok (Some (JNum (num_of_Z (Z.of_N d)))), w1)
    ∧ if bool_decide (d = 0%N)
      then tick (decimalsOf mint w1).2 = S (tick w1)
      else decimalsOf mint w1 = (Ok (Some (JNum (num_of_Z (Z.of_N d)))), w1).
Proof.
  intros Hd Hn (info & Hi & Hp). unfold decimalsOf.
  erewrite bind_ok by done. rewrite Hn. cbn [opt_truthy].
  erewrite bind_ok by (unfold rpc, bind; cbn; by rewrite Hi).
  erewrite bind_ok by (by rewrite Hp). erewrite bind_ok by done.
  eexists. split; [done|]. set (w1 := set_decimals _ _).
  assert (decimalsCache w1 !! mint = Some (JNum (num_of_Z (Z.of_N d)))) as Hc.
  { subst w1. cbn. apply lookup_partial_alter_eq. }
  assert (opt_truthy (Some (JNum (num_of_Z (Z.of_N d)))) = negb (bool_decide (d = 0%N))) as Ht.
  { cbn. unfold num_of_Z. rewrite fl_Z by lia. unfold num_truthy.
    destruct d as [|p]; [done|]. rewrite bool_decide_false by done.
    apply negb_true_iff, Qeq_bool_false. unfold inject_Z, Qeq. cbn. lia. }
  destruct (bool_decide _) eqn:Eb.
  - erewrite bind_ok by done. rewrite Hc, Ht. cbn [negb].
    unfold rpc, bind at 1. unfold bind at 1. cbn [interact].
    destruct (rpc_answer (tick w1) _) as [|j]; [done|]. cbn [lift ret]. unfold bind.
    by destruct (props (Some j) _).
  - unfold bind at 1. cbn [gets]. rewrite Hc, Ht. done.
Qed.

(** ** Transfers *)

Lemma unsent_getDecimals mint : respects unsent (getDecimals (E:=E) mint).
Proof.
  unfold getDecimals, redis_get, redis_setEx, redis_set. respects_walk.
Qed.

(** C33. Whatever the node and Redis do, [transferToken] submits at most three times
    the same transfer: from the sender's associated account to the
    recipient's, of the floor of the amount in raw units. *)
Theorem transferToken_sends mint from to amount :
  sends_some (λ tx, ∃ src dst d,
      getATA mint (publicKey from) = inr src ∧ getATA mint to = inr dst
      ∧ tx = TransferChecked src mint dst (publicKey from) (raw_amount amount d) (Some d))
    3 (transferToken (E:=E) mint from to amount).
Proof.
  unfold transferToken.
  apply sends_some_before; [apply unsent_lift|]. intros src w w1 Hsrc.
  apply sends_some_before; [apply unsent_lift|]. intros dst w' w1' Hdst.
  apply sends_some_before; [apply unsent_getDecimals|]. intros d _ _ _. cbv zeta.
  destruct (transfer_fault _ _); [apply sends_some_throw|].
  apply sends_some_before; [apply unsent_rpc|]. intros b _ _ _.
  apply sends_some_before; [apply unsent_lift|]. intros bh _ _ _.
  destruct (sign_fault bh); [apply sends_some_throw|].
  apply sends_some_retry. exists src, dst, d.
  apply lift_inv in Hsrc, Hdst. by split.
Qed.
End Facts.

(** The floor can lose a raw unit of an amount that has a short decimal text:
    1.001 tokens of nine decimals become 1000999999 units, not 1001000000. *)
Theorem raw_amount_loses_unit :
  raw_amount (EN:=calm) (parseFloat (js "1.001")) (JNum (num_of_Z 9)) = num_of_Z 1000999999.
Proof. vm_compute. reflexivity. Qed.

(** ** Concrete runs *)

Lemma calm_mint n mint : mint_decimals n mint 9.
Proof. eexists. split; [reflexivity|]. vm_compute. reflexivity. Qed.

Lemma getDecimals_cached_witness :
  ∃ w1, getDecimals (js "M") world0 = (Ok (JNum (num_of_Z 9)), w1).
Proof.
  destruct (getDecimals_cached (EN:=calm) (js "M") 9 world0 ltac:(vm_compute; reflexivity) ltac:(intros i _; reflexivity)
    ltac:(lia) eq_refl (calm_mint _ _)) as (w1 & H & _).
  exists w1. exact H.
Defined.

Lemma decimalsOf_cache_witness :
  ∃ w1, decimalsOf (js "M") world0 = (Ok (Some (JNum (num_of_Z 9))), w1)
        ∧ decimalsOf (js "M") w1 = (Ok (Some (JNum (num_of_Z 9))), w1).
Proof.
  destruct (decimalsOf_cache (EN:=calm) (js "M") 9 world0 ltac:(lia) eq_refl (calm_mint _ _))
    as (w1 & H1 & H2).
  exists w1. split; [exact H1|exact H2].
Defined.
