(* ===== verification/Commands.v ===== *)
(** * commands.js: users, commands, prices and the portfolio

    The in-memory users and their persistence, the parser of text commands, the
    price sources, the portfolio, the preference setters and the top-level
    handler.  The module's map of users is [users] of the world; the objects in
    it are shared, so a change to a user is a change of the map's entry. *)

From Stdlib Require Import QArith.
From S2P Require Import Prelude JsString Regex JsNum JsText Json Bytes Assoc Effects Uint8.
From S2P Require Import RedisModel Db Memory Retry Firewall Solana.

Local Open Scope prog_scope.

(** ** Command patterns *)

Definition any_of (rs : list rx) : rx :=
  match rs with
  | [] => REmpty
  | r :: rs => foldl RAlt r rs
  end.

Definition is_amount (c : N) : bool := is_digit c || (c =? 46)%N.

(** [\s+([A-Za-z0-9]{32,44})\s+([\d.]+)] *)
Definition trade_tail : rx :=
  rseq [RMany is_space 1; RGroup (RRep is_alnum 32 44); RMany is_space 1;
        RGroup (RMany is_amount 1)].

Definition BUY_RX : rx := RSeq (any_of [lit "/buy"; lit "buy"]) trade_tail.
Definition SELL_RX : rx := RSeq (any_of [lit "/sell"; lit "sell"]) trade_tail.
Definition DEP_RX : rx :=
  rseq [RWordB; RGroup (any_of [lit "deposit"; lit "wallet"]); RWordB].
Definition BAL_RX : rx := rseq [RWordB; lit "balance"; RWordB].
Definition PORT_RX : rx :=
  rseq [RWordB; any_of [lit "holdings"; lit "portfolio"; lit "how much i hold"]; RWordB].
Definition PRICE_RX : rx :=
  rseq [RWordB;
        any_of [rseq [lit "sol"; ROpt (lit "ana"); lit " price"]; lit "price of solana"];
        RWordB].
Definition AUTO_RX : rx :=
  rseq [RWordB; lit "auto"; ROpt (lit "trade"); RMany is_space 0;
        RGroup (any_of [lit "on"; lit "off"]); RWordB].
Definition RISK_RX : rx :=
  rseq [RWordB; lit "risk"; RMany is_space 0;
        RGroup (any_of [lit "low"; lit "med"; lit "high"]); RWordB].

Inductive side := Buy | Sell.
Definition side_name (t : side) : jsstr := match t with Buy => js "buy" | Sell => js "sell" end.

Inductive command :=
  | CTrade (t : side) (mint : jsstr) (sol : num)
  | CDeposit | CBalance | CPortfolio | CPrice
  | CAuto (val : jsstr)
  | CRisk (val : jsstr).

(** The captures of a trade pattern as a command. *)
Definition trade_of (t : side) (caps : list jsstr) : option command :=
  match caps with
  | [m; s] => Some (CTrade t m (toNumber s))
  | _ => None
  end.

(** The chain of tests; a risk level overrides an auto switch. *)
Definition parse_command (clean : jsstr) : option command :=
  match exec BUY_RX clean with
  | Some caps => trade_of Buy caps
  | None =>
  match exec SELL_RX clean with
  | Some caps => trade_of Sell caps
  | None =>
  if test DEP_RX clean then Some CDeposit
  else if test BAL_RX clean then Some CBalance
  else if test PORT_RX clean then Some CPortfolio
  else if test PRICE_RX clean then Some CPrice
  else
    let a := match exec AUTO_RX clean with Some [v] => Some (CAuto v) | _ => None end in
    match exec RISK_RX clean with Some [v] => Some (CRisk v) | _ => a end
  end end.

(** ** The job queue *)

Section Commands.
Context {E : Type} `{RE : RedisEntry E} `{EN : Env}.

(** [queue.add(name, payload)] *)
Definition queue_add (queue name : jsstr) (payload : json) : prog E unit :=
  n <- interact ;;
  match redis_fault n with
  | Some e => throw e
  | None => emit (Enqueue queue name payload)
  end.

Definition enqueueTrade (payload : json) : prog E unit :=
  queue_add (js "trades") (js "execute-trade") payload.
Definition enqueueLLM (payload : json) : prog E unit :=
  queue_add (js "llm") (js "llm-task") payload.
Definition enqueueAPITask (payload : json) : prog E unit :=
  queue_add (js "apiTasks") (js "api-task") payload.

(** A trade job: an undefined handle is no field of the JSON text. *)
Definition trade_job (t : side) (mint : jsstr) (sol : num) (handle : option jsstr) : json :=
  JObj ((js "cmd", JObj [(js "t", JStr (side_name t)); (js "mint", JStr mint); (js "sol", JNum sol)])
        :: match handle with Some h => [(js "handle", JStr h)] | None => [] end).

(** ** Configuration *)

Definition TW_HANDLE : jsstr := toLowerCase (default [] (env_var (js "AGENT_TW_HANDLE"))).

(** The handle is a Twitter name, so its pattern is a literal. *)
Definition stripMention (txt : jsstr) : jsstr :=
  match TW_HANDLE with
  | [] => txt
  | h => trim (replace_lit (js "@" ++ h) txt)
  end.

(** [s.replace(p, r)] for strings: the first occurrence. *)
Fixpoint replace_first (p r s : jsstr) : jsstr :=
  if startsWith s p then r ++ drop (length p) s
  else match s with
       | [] => []
       | c :: s => c :: replace_first p r s
       end.

Definition env_text (name : jsstr) : jsstr := default (js "undefined") (env_var name).

Definition PERSONA : jsstr :=
  replace_first (js "%AGENT%") (env_text (js "AGENT_NAME")) (env_text (js "AGENT_PERSONA")).

(** ** Prices *)

Definition BINANCE : jsstr := js "https://api.binance.com/api/v3/ticker/price?symbol=SOLUSDT".
Definition COINGECKO : jsstr :=
  js "https://api.coingecko.com/api/v3/simple/price?ids=solana&vs_currencies=usd".

(** One source: its price if it has one, nothing on any failure. *)
Definition binance_price : prog E (option json) :=
  try_catch
    (j <- fetch_json (GET BINANCE) ;;
     p <- lift (prop (Some j) (js "price")) ;;
     ret (if opt_truthy p then Some (JNum (parseFloat (opt_toString p))) else None))
    (λ _, ret None).

Definition coingecko_price : prog E (option json) :=
  try_catch
    (j <- fetch_json (GET COINGECKO) ;;
     s <- lift (prop (Some j) (js "solana")) ;;
     let p := opt_prop s (js "usd") in
     ret (if opt_truthy p then p else None))
    (λ _, ret None).

Definition jupiter_price : prog E (option json) :=
  try_catch
    (route <- quoteSOLto (env_text (js "USDC_MINT")) LAMPORTS_PER_SOL ;;
     let out := opt_prop route (js "outAmount") in
     ret (if opt_truthy out
          then Some (JNum (num_div (opt_toNumber out) (num_of_Z 1000000))) else None))
    (λ _, ret None).

(** The first source that has a price; [None] is null. *)
Definition fetchSolPrice : prog E (option json) :=
  p <- binance_price ;;
  match p with
  | Some p => ret (Some p)
  | None =>
      p <- coingecko_price ;;
      match p with
      | Some p => ret (Some p)
      | None => jupiter_price
      end
  end.

Definition token_price_url (mints : list jsstr) : jsstr :=
  js "https://api.coingecko.com/api/v3/simple/token_price/solana?contract_addresses="
  ++ join mints (js ",") ++ js "&vs_currencies=usd".

Definition fetchTokenPrices (mints : list jsstr) : prog E json :=
  match mints with
  | [] => ret (JObj [])
  | _ => try_catch (fetch_json (GET (token_price_url mints))) (λ _, ret (JObj []))
  end.

(** ** Users *)

Definition bool_text (b : bool) : jsstr := if b then js "true" else js "false".

(** The fields [persist] writes. *)
Definition user_fields (u : user) : list (jsstr * jsstr) :=
  [(js "sol", toString (sol u)); (js "tierBal", toString (tierBal u));
   (js "auto", bool_text (auto u)); (js "risk", risk u)].

Definition persist (handle : jsstr) (u : user) : prog E unit :=
  upsertUser handle (user_fields u).

(** [Keypair.generate()] *)
Definition generate : prog E keypair := n <- interact ;; ret (generate_answer n).

Definition new_user (kp : keypair) : user := User kp (Fin 0) (Fin 0) false (js "med").

Definition ensure (handle : jsstr) : prog E user :=
  us <- gets users ;;
  match kv_lookup us handle with
  | Some u => ret u
  | None =>
      kp <- generate ;;
      let u := new_user kp in
      put_user handle u ;;
      persist handle u ;;
      ret u
  end.

Definition walletOf (handle : jsstr) : prog E jsstr :=
  u <- ensure handle ;; ret (publicKey (wallet u)).

Definition balanceOf (handle : jsstr) : prog E (jsstr * num) :=
  u <- ensure handle ;; ret (toFixed (sol u) 3, tierBal u).

(** The user a hash of strings describes. *)
Definition hydrate (kp : keypair) (data : list (jsstr * jsstr)) : user :=
  User kp
    (parseFloat (default (js "0") (kv_lookup data (js "sol"))))
    (parseFloat (default (js "0") (kv_lookup data (js "tierBal"))))
    (bool_decide (kv_lookup data (js "auto") = Some (js "true")))
    (default (js "med") (kv_lookup data (js "risk"))).

(** The body of the loop of [initializeUsers] for one handle. *)
Definition load_user (handle : jsstr) : prog E unit :=
  data <- getUser handle ;;
  match data with
  | None => ret tt
  | Some data =>
      let* (secret, legacyStr) := getWalletCompat handle in
      match secret with
      | Some secret =>
          if bool_decide (length secret = 64%nat) then
            kp <- lift (fromSecretKey secret) ;;
            match legacyStr with
            | Some l => setWalletSecret handle (JArr (JStr <$> code_points l))
            | None => ret tt
            end ;;
            put_user handle (hydrate kp data)
          else ret tt
      | None => ret tt
      end
  end.

Fixpoint load_users (handles : list jsstr) : prog E unit :=
  match handles with
  | [] => ret tt
  | h :: hs => load_user h ;; load_users hs
  end.

Definition AGENT_MINT : jsstr := env_text (js "AGENT_MINT").

Definition initializeUsers : prog E unit :=
  handles <- getAllUsers ;;
  load_users handles ;;
  watchDeposits AGENT_MINT.

(** The callback of the deposit watchers. *)
Definition on_deposit (handle : jsstr) : prog E unit :=
  us <- gets users ;;
  match kv_lookup us handle with
  | None => ret tt
  | Some u =>
      put_user handle u ;;
      persist handle u ;;
      if auto u && num_gt (sol u) (parseFloat (js "0.05")) then
        enqueueTrade (trade_job Sell SOL_MINT (parseFloat (js "0.02")) (Some handle))
      else ret tt
  end.

(** Balances from the chain, into the user and into Redis. *)
Definition updateBalances (handle : jsstr) : prog E (num * num) :=
  u <- ensure handle ;;
  let* (s, lamports) := refreshBalances (publicKey (wallet u)) AGENT_MINT in
  change_user handle (λ u, set_tier (set_sol u s) lamports) ;;
  us <- gets users ;;
  persist handle (default (set_tier (set_sol u s) lamports) (kv_lookup us handle)) ;;
  ret (s, lamports).

(** ** The portfolio *)

Record token := Token { t_mint : jsstr; t_amount : num; t_price : json; t_usd : jsstr }.
Record portfolio := Portfolio {
  p_sol : num; p_solUsd : jsstr; p_tokens : list token; p_totalUsd : jsstr
}.

(** The SPL accounts of an owner, as the values to iterate over. *)
Definition accounts_of (raw : json) : exn + list (option json) :=
  match props (Some raw) [js "value"] with
  | inl e => inl e
  | inr (Some (JArr l)) => inr (Some <$> l)
  | inr (Some (JStr s)) => inr ((λ c, Some (JStr c)) <$> code_points s)
  | inr _ => inl (Exn KTypeError (js "raw.value is not iterable"))
  end.

(** One account: a positive amount is added to its mint's balance. *)
Definition add_account (balances : list (jsstr * num)) (acc : option json)
  : exn + list (jsstr * num) :=
  match props acc [js "account"; js "data"; js "parsed"; js "info"] with
  | inl e => inl e
  | inr info =>
      match props info [js "tokenAmount"; js "uiAmountString"] with
      | inl e => inl e
      | inr ui =>
          let amt := parseFloat (opt_toString ui) in
          if num_gt amt (Fin 0) then
            let mint := opt_toString (opt_prop info (js "mint")) in
            let old := num_or (default NaN (kv_lookup balances mint)) (Fin 0) in
            inr (kv_set balances mint (num_add old amt))
          else inr balances
      end
  end.

Fixpoint add_accounts (balances : list (jsstr * num)) (accs : list (option json))
  : exn + list (jsstr * num) :=
  match accs with
  | [] => inr balances
  | acc :: accs =>
      match add_account balances acc with
      | inl e => inl e
      | inr balances => add_accounts balances accs
      end
  end.

(** [priceObj?.usd ?? 0] *)
Definition usd_of (priceObj : option json) : json :=
  match opt_prop priceObj (js "usd") with
  | None | Some JNull => JNum (Fin 0)
  | Some p => p
  end.

Fixpoint value_tokens (prices : json) (balances : list (jsstr * num)) (totalUsd : num)
  : exn + (list token * num) :=
  match balances with
  | [] => inr ([], totalUsd)
  | (mint, amt) :: balances =>
      match prop (Some prices) (toLowerCase mint) with
      | inl e => inl e
      | inr priceObj =>
          let price := usd_of priceObj in
          let usdValue := toFixed (num_mul amt (json_toNumber price)) 2 in
          match value_tokens prices balances (num_add totalUsd (parseFloat usdValue)) with
          | inl e => inl e
          | inr (ts, total) => inr (Token mint amt price usdValue :: ts, total)
          end
      end
  end.

Definition token_json (t : token) : json :=
  JObj [(js "mint", JStr (t_mint t)); (js "amount", JNum (t_amount t));
        (js "price", t_price t); (js "usdValue", JStr (t_usd t))].

Definition snapshot_json (ts : Z) (s : num) (solUsd : jsstr) (tokens : list token) : json :=
  JObj [(js "ts", JNum (num_of_Z ts)); (js "sol", JNum s); (js "solUsd", JStr solUsd);
        (js "tokens", JArr (token_json <$> tokens))].

Definition getPortfolio (handle : jsstr) : prog E portfolio :=
  u <- ensure handle ;;
  solPrice <- fetchSolPrice ;;
  let* (s, _) := updateBalances handle in
  let value := num_mul s (opt_toNumber solPrice) in
  let solUsd := match solPrice with Some _ => toFixed value 2 | None => js "N/A" end in
  raw <- rpc (GetParsedTokenAccountsByOwner (publicKey (wallet u))) ;;
  accs <- lift (accounts_of raw) ;;
  balances <- lift (add_accounts [] accs) ;;
  prices <- fetchTokenPrices balances.*1 ;;
  let* (tokens, totalUsd) :=
    lift (value_tokens prices balances (match solPrice with Some _ => value | None => Fin 0 end)) in
  ts <- date_now ;;
  redis_xadd (js "portfolio_history:" ++ handle)
             [(js "data", stringify (snapshot_json ts s solUsd tokens))] ;;
  ret (Portfolio s solUsd tokens (toFixed totalUsd 2)).

(** ** Preferences *)

Definition riskName (r : jsstr) : jsstr :=
  if bool_decide (r = js "low") then js "conservative"
  else if bool_decide (r = js "high") then js "aggressive"
  else js "balanced".

Definition set_auto (u : user) (b : bool) : user :=
  User (wallet u) (sol u) (tierBal u) b (risk u).
Definition set_risk (u : user) (r : jsstr) : user :=
  User (wallet u) (sol u) (tierBal u) (auto u) r.

Definition set_of_undefined (key : jsstr) : exn :=
  Exn KTypeError (js "Cannot set properties of undefined (setting '" ++ key ++ js "')").

(** [None] is a state that is no boolean.  The user is persisted without waiting. *)
Definition toggleAuto (handle : jsstr) (state : option bool) : prog E (bool * jsstr) :=
  us <- gets users ;;
  match kv_lookup us handle with
  | None => match state with
            | Some _ => throw (set_of_undefined (js "auto"))
            | None => throw (read_of (js "undefined") (js "auto"))
            end
  | Some u =>
      let u := set_auto u (default (negb (auto u)) state) in
      put_user handle u ;;
      detach (persist handle u) ;;
      ret (auto u, riskName (risk u))
  end.

(** An undefined level is the empty string in Redis and in the model. *)
Definition setRisk (handle level : jsstr) : prog E (bool * jsstr) :=
  us <- gets users ;;
  match kv_lookup us handle with
  | None => throw (set_of_undefined (js "risk"))
  | Some u =>
      let u := set_risk u level in
      put_user handle u ;;
      detach (persist handle u) ;;
      ret (auto u, riskName (risk u))
  end.

(** ** Messages *)

(** A reply function hands a text to the platform and returns a promise: what that
    comes to, by the interaction it is called at. *)
Definition reply_fn : Type := nat → jsstr → option exn.

(** A message; it may come without a [reply] function. *)
Record msg := Message {
  m_button : option jsstr; m_body : option jsstr; m_handle : option jsstr;
  m_reply : option reply_fn
}.

(** A key of the map and of Redis; undefined prints as its name. *)
Definition handle_key (h : option jsstr) : jsstr := default (js "undefined") h.

Definition call_reply (ok : option reply_fn) (text : jsstr) : prog E (option exn) :=
  match ok with
  | Some f => n <- gets tick ;; emit (Reply text) ;; ret (f n text)
  | None => throw (Exn KTypeError (js "reply is not a function"))
  end.

(** [return reply(text)]: the handler ends as the promise does. *)
Definition return_reply (ok : option reply_fn) (text : jsstr) : prog E unit :=
  fate <- call_reply ok text ;;
  match fate with Some e => throw e | None => ret tt end.

(** [reply(text);]: nobody awaits the promise. *)
Definition reply (ok : option reply_fn) (text : jsstr) : prog E unit :=
  fate <- call_reply ok text ;;
  match fate with Some e => emit (Unhandled e) | None => ret tt end.

Definition dispatchTrade (t : side) (mint : jsstr) (s : num) (handle : option jsstr)
    (ok : option reply_fn) : prog E unit :=
  enqueueTrade (trade_job t mint s handle) ;;
  match ok with
  | Some _ => reply ok (js "🔄 Trade queued: " ++ side_name t ++ js " " ++ toString s ++ js " SOL")
  | None => ret tt
  end.

(** [v.toFixed(d)] of a JSON value. *)
Definition json_toFixed (v : json) (d : nat) : exn + jsstr :=
  match v with
  | JNum x => inr (toFixed x d)
  | JNull => inl (read_of (js "null") (js "toFixed"))
  | _ => inl (Exn KTypeError (js "price.toFixed is not a function"))
  end.

Definition price_reply (ok : option reply_fn) : prog E unit :=
  price <- fetchSolPrice ;;
  match price with
  | Some p =>
      t <- lift (json_toFixed p 2) ;;
      return_reply ok (js "🚀 SOL is currently $" ++ t ++ js " USD.")
  | None => return_reply ok (js "❌ Could not fetch SOL price right now.")
  end.

Definition ellipsis : jsstr := js "…".

Definition token_line (t : token) : jsstr :=
  js "• " ++ slice (t_mint t) 0 (Some 6%Z) ++ ellipsis ++ js ": " ++ toString (t_amount t)
  ++ js " @ $" ++ json_toString (t_price t) ++ js " → $" ++ t_usd t ++ [10%N].

Definition portfolio_text (p : portfolio) : jsstr :=
  js "**Portfolio (Total $" ++ p_totalUsd p ++ js ")**" ++ [10%N]
  ++ js "• SOL: " ++ toFixed (p_sol p) 3 ++ js " (~$" ++ p_solUsd p ++ js ")" ++ [10%N]
  ++ concat (token_line <$> p_tokens p).

Definition portfolio_reply (handle : jsstr) (ok : option reply_fn) : prog E unit :=
  p <- getPortfolio handle ;; return_reply ok (portfolio_text p).

(** ** The language model *)

Definition fact_line (t : token) : jsstr :=
  slice (t_mint t) 0 (Some 6%Z) ++ ellipsis ++ js " : " ++ toString (t_amount t)
  ++ js " @ $" ++ json_toString (t_price t) ++ js " = $" ++ t_usd t.

Definition facts (p : portfolio) : jsstr :=
  join ((js "SOL:  " ++ toFixed (p_sol p) 3 ++ js "  (~$" ++ p_solUsd p ++ js ")")
        :: (fact_line <$> p_tokens p)) [10%N].

Definition history_line (m : list (jsstr * jsstr)) : jsstr :=
  js "User: " ++ default (js "undefined") (kv_lookup m (js "text")) ++ [10%N].

Definition context_of (history : list (list (jsstr * jsstr))) (text : jsstr)
    (priceNow : option json) (p : portfolio) : jsstr :=
  concat (history_line <$> history)
  ++ js "User: " ++ text ++ [10%N; 10%N]
  ++ js "### Real-time facts" ++ [10%N]
  ++ js "SOL price: $"
  ++ match priceNow with Some v => json_toString v | None => js "N/A" end ++ [10%N]
  ++ js "Portfolio:" ++ [10%N] ++ facts p ++ [10%N]
  ++ js "AI:".

(** An undefined model is no field of the request. *)
Definition ollama_body (prompt : jsstr) : json :=
  JObj (match env_var (js "OLLAMA_MODEL") with Some m => [(js "model", JStr m)] | None => [] end
        ++ [(js "prompt", JStr prompt); (js "stream", JBool false)]).

Definition ollama_request (prompt : jsstr) : request :=
  Request (env_text (js "OLLAMA_URL")) (js "POST") (Some (stringify (ollama_body prompt))).

(** [(await res.json()).response.trim()] *)
Definition trimmed_response (j : json) : exn + jsstr :=
  match prop (Some j) (js "response") with
  | inl e => inl e
  | inr (Some (JStr s)) => inr (trim s)
  | inr None => inl (read_of (js "undefined") (js "trim"))
  | inr (Some JNull) => inl (read_of (js "null") (js "trim"))
  | inr _ => inl (Exn KTypeError (js "trim is not a function"))
  end.

Definition ask_llm (text handle : jsstr) (ok : option reply_fn) : prog E unit :=
  ts <- date_now ;;
  remember handle (Msg text (num_of_Z ts)) ;;
  history <- recall handle 10 ;;
  priceNow <- fetchSolPrice ;;
  port <- getPortfolio handle ;;
  let prompt := PERSONA ++ [10%N] ++ js "Goals: " ++ env_text (js "AGENT_GOALS") ++ [10%N; 10%N]
                ++ context_of history text priceNow port in
  j <- fetch_json (ollama_request prompt) ;;
  answer <- lift (trimmed_response j) ;;
  reply ok answer ;;
  ts <- date_now ;;
  remember handle (Msg answer (num_of_Z ts)).

Definition dispatchAI (text : jsstr) (handle : option jsstr) (ok : option reply_fn) : prog E unit :=
  let clean := stripMention text in
  let h := handle_key handle in
  if test PRICE_RX clean then price_reply ok
  else if test PORT_RX clean then portfolio_reply h ok
  else try_catch (ask_llm text h ok)
                 (λ _, reply ok (js "🤖 …sorry, I had a brain-freeze.")).

(** ** The top-level handler *)

Definition auto_text (on : bool) : jsstr :=
  js "Auto-trading *" ++ (if on then js "ENABLED ✅" else js "DISABLED ❌") ++ js "*".

Definition risk_text (name : jsstr) : jsstr := js "Risk profile → *" ++ name ++ js "*".

Definition auto_reply (h val : jsstr) (ok : option reply_fn) : prog E unit :=
  let* (on, _) := toggleAuto h (Some (bool_decide (val = js "on"))) in
  return_reply ok (auto_text on).

(** A button payload [BTN::act::arg]; [None] when no action matches. *)
Definition handle_button (button : jsstr) (handle : option jsstr) (ok : option reply_fn)
  : option (prog E unit) :=
  let parts := split button (js "::") in
  let act := default (js "undefined") (parts !! 1%nat) in
  let arg := parts !! 2%nat in
  let h := handle_key handle in
  if bool_decide (act = js "AUTO") then Some (auto_reply h (default [] arg) ok)
  else if bool_decide (act = js "RISK") then
    Some (let* (_, name) := setRisk h (default [] arg) in return_reply ok (risk_text name))
  else if bool_decide (act = js "QBUY") || bool_decide (act = js "QSELL") then
    let t := if bool_decide (act = js "QBUY") then Buy else Sell in
    Some (dispatchTrade t (default (js "undefined") arg) (parseFloat (js "0.10")) handle ok)
  else None.

(** [handle] of the risk branch is no variable of the function. *)
Definition reference_error : exn := Exn KReferenceError (js "handle is not defined").

Definition run_command (c : command) (handle : option jsstr) (ok : option reply_fn) : prog E unit :=
  let h := handle_key handle in
  match c with
  | CDeposit =>
      addr <- walletOf h ;; return_reply ok (js "🔑 Deposit address:" ++ [10%N] ++ addr)
  | CBalance =>
      let* (s, tier) := updateBalances h in
      return_reply ok (js "Wallet SOL: " ++ toFixed s 3 ++ [10%N] ++ js "Agent tokens: " ++ toString tier)
  | CPortfolio => portfolio_reply h ok
  | CPrice => price_reply ok
  | CAuto val => auto_reply h val ok
  | CRisk _ => throw reference_error
  | CTrade t mint s => dispatchTrade t mint s handle ok
  end.

Definition handle_text (m : msg) : prog E unit :=
  let txt := default [] (m_body m) in
  match parse_command (stripMention txt) with
  | Some c => run_command c (m_handle m) (m_reply m)
  | None => dispatchAI txt (m_handle m) (m_reply m)
  end.

Definition handleMessage (m : msg) : prog E unit :=
  match m_button m with
  | Some (c :: b) =>
      match handle_button (c :: b) (m_handle m) (m_reply m) with
      | Some p => p
      | None => handle_text m
      end
  | _ => handle_text m
  end.
End Commands.
