(* ===== verification/CommandFacts.v ===== *)
(** * Properties of commands.js

    The command parser, the persistence of users, the preference setters and the
    price fallback. *)

From Stdlib Require Import QArith.
From S2P Require Import Prelude JsString Regex JsNum JsText Json Bytes Assoc Effects Uint8.
From S2P Require Import RedisModel Db Memory Retry Firewall Solana Commands.

Local Open Scope prog_scope.

(** ** The parser *)

Lemma trade_tail_matches p0 s p1 s1 cs :
  rmatches trade_tail p0 s p1 s1 cs →
  ∃ sp1 mint sp2 amt, s = sp1 ++ mint ++ sp2 ++ amt ++ s1 ∧ cs = [mint; amt]
    ∧ forallb is_space sp1 = true ∧ (1 <= length sp1)%nat
    ∧ forallb is_alnum mint = true ∧ (32 <= length mint <= 44)%nat
    ∧ forallb is_space sp2 = true ∧ (1 <= length sp2)%nat
    ∧ forallb is_amount amt = true ∧ (1 <= length amt)%nat.
Proof.
  unfold trade_tail. cbn [rseq].
  intros (p2 & s2 & c1 & c2 & H1 & H & ->)%seq_inv.
  apply many_inv in H1 as (sp1 & -> & Hsp1 & Hl1 & ->).
  apply seq_inv in H as (p3 & s3 & c3 & c4 & H2 & H & ->).
  apply group_inv in H2 as (c & H2 & ->). apply rep_inv in H2 as (mint & -> & Hm & Hlm & ->).
  apply seq_inv in H as (p4 & s4 & c5 & c6 & H3 & H & ->).
  apply many_inv in H3 as (sp2 & -> & Hsp2 & Hl2 & ->).
  apply group_inv in H as (c & H4 & ->). apply many_inv in H4 as (amt & -> & Ha & Hla & ->).
  exists sp1, mint, sp2, amt. rewrite !captured. by eauto 12.
Qed.

(** A trade command has the shape of the pattern: a mint of 32 to 44 letters and
    digits, an amount of digits and dots. *)
Definition trade_text (s kw mint amt : jsstr) : Prop :=
  (∃ pre sp1 sp2 post, s = pre ++ kw ++ sp1 ++ mint ++ sp2 ++ amt ++ post
     ∧ forallb is_space sp1 = true ∧ forallb is_space sp2 = true
     ∧ (1 <= length sp1)%nat ∧ (1 <= length sp2)%nat)
  ∧ forallb is_alnum mint = true ∧ (32 <= length mint <= 44)%nat
  ∧ forallb is_amount amt = true ∧ (1 <= length amt)%nat.

Lemma keyword_inv a b p0 s0 p1 s1 cs :
  rmatches (any_of [lit a; lit b]) p0 s0 p1 s1 cs →
  ∃ kw, s0 = kw ++ s1 ∧ cs = []
        ∧ (toLowerCase kw = toLowerCase (js a) ∨ toLowerCase kw = toLowerCase (js b)).
Proof.
  intros [H|H]%alt_inv; apply lit_inv in H as (kw & -> & Hk & ->); exists kw; auto.
Qed.

Lemma trade_rx_sound a b s caps :
  exec (RSeq (any_of [lit a; lit b]) trade_tail) s = Some caps →
  ∃ kw mint amt, caps = [mint; amt] ∧ trade_text s kw mint amt
    ∧ (toLowerCase kw = toLowerCase (js a) ∨ toLowerCase kw = toLowerCase (js b)).
Proof.
  intros H. apply exec_from_sound in H as (pre & s0 & p1 & s1 & -> & Hm).
  apply seq_inv in Hm as (p2 & s2 & c1 & c2 & H1 & H2 & ->).
  apply keyword_inv in H1 as (kw & -> & -> & Hkw).
  apply trade_tail_matches in H2
    as (sp1 & mint & sp2 & amt & -> & -> & H3 & H4 & H5 & H6 & H7 & H8 & H9 & H10).
  exists kw, mint, amt. split; [done|]. split; [|done]. split; [|done].
  exists pre, sp1, sp2, s1. done.
Qed.

Definition keywords (t : side) : list jsstr :=
  match t with Buy => [js "/buy"; js "buy"] | Sell => [js "/sell"; js "sell"] end.

(** Every trade the parser recognises is written in the message: the keyword in
    any case, a mint of 32 to 44 letters and digits, and an amount of digits
    and dots, separated by blanks; the amount is read as a number. *)
Theorem parse_trade_sound s t mint n :
  parse_command s = Some (CTrade t mint n) →
  ∃ kw amt, trade_text s kw mint amt ∧ toLowerCase kw ∈ keywords t ∧ n = toNumber amt.
Proof.
  unfold parse_command. destruct (exec BUY_RX s) as [caps|] eqn:Eb.
  { apply trade_rx_sound in Eb as (kw & m & amt & -> & Ht & Hk). intros [= <- <- <-].
    exists kw, amt. split; [done|]. split; [|done]. cbn.
    destruct Hk as [-> | ->]; set_solver. }
  destruct (exec SELL_RX s) as [caps|] eqn:Es.
  { apply trade_rx_sound in Es as (kw & m & amt & -> & Ht & Hk). intros [= <- <- <-].
    exists kw, amt. split; [done|]. split; [|done]. cbn.
    destruct Hk as [-> | ->]; set_solver. }
  repeat (destruct (test _ s); [done|]). intros H.
  destruct (exec RISK_RX s) as [[|v [|? ?]]|]; try done;
    destruct (exec AUTO_RX s) as [[|v' [|? ?]]|]; done.
Qed.

Lemma lit_matches l xs p0 s :
  toLowerCase xs = toLowerCase l →
  rmatches (lit_units l) p0 (xs ++ s) (last_or p0 xs) s [].
Proof.
  revert l p0; induction xs as [|x xs IH]; intros [|c l] p0 Hl; try done; [constructor|].
  unfold toLowerCase in Hl. cbn in Hl. injection Hl as Hx Hl. cbn [lit_units app].
  change (@nil jsstr) with (@nil jsstr ++ []). eapply m_seq.
  - apply m_class. unfold same_letter. by apply N.eqb_eq.
  - rewrite <- (last_or_cons p0). by apply IH.
Qed.

Lemma trade_rx_complete a b s kw mint amt :
  trade_text s kw mint amt →
  toLowerCase kw = toLowerCase (js a) ∨ toLowerCase kw = toLowerCase (js b) →
  is_Some (exec (RSeq (any_of [lit a; lit b]) trade_tail) s).
Proof.
  intros ((pre & sp1 & sp2 & post & -> & H1 & H2 & H3 & H4) & H5 & H6 & H7 & H8) Hk.
  eapply exec_from_complete. eapply m_seq.
  - destruct Hk as [Hk|Hk]; [apply m_alt1|apply m_alt2]; by apply lit_matches.
  - unfold trade_tail. cbn [rseq]. eapply m_seq; [by apply m_many|].
    eapply m_seq; [apply m_group; by apply m_rep|]. eapply m_seq; [by apply m_many|].
    apply m_group. by apply m_many.
Qed.

(** C9. The parser recognises a trade exactly when the message contains one, anywhere: the
    keyword in any case, a mint of 32 to 44 letters and digits, and an amount of digits
    and dots, separated by blanks. *)
Theorem trade_recognised s :
  (∃ t mint n, parse_command s = Some (CTrade t mint n))
  ↔ ∃ t kw mint amt, trade_text s kw mint amt ∧ toLowerCase kw ∈ keywords t.
Proof.
  split.
  - intros (t & mint & n & H). apply parse_trade_sound in H as (kw & amt & H1 & H2 & _).
    by exists t, kw, mint, amt.
  - intros (t & kw & mint & amt & Ht & Hk). unfold parse_command.
    destruct (exec BUY_RX s) as [caps|] eqn:Eb.
    { apply trade_rx_sound in Eb as (kw' & m & a & -> & _). by eexists _, _, _. }
    assert (is_Some (exec SELL_RX s)) as [caps Es].
    { destruct t; cbn in Hk.
      - destruct (trade_rx_complete "/buy" "buy" s kw mint amt Ht) as [caps Hc]; [set_solver|].
        unfold BUY_RX in Eb. by rewrite Hc in Eb.
      - apply (trade_rx_complete "/sell" "sell" s kw mint amt Ht). set_solver. }
    rewrite Es. apply trade_rx_sound in Es as (kw' & m & a & -> & _). by eexists _, _, _.
Qed.

(** ** Well-formed commands are recognised *)

Definition plain (c : N) : bool := is_alnum c || is_amount c.

Lemma plain_no_space c : plain c = true → is_space c = false.
Proof.
  unfold plain, is_amount, is_alnum, is_space, is_digit, is_upper, is_lower. intros H.
  rewrite !orb_true_iff, !andb_true_iff, ?N.leb_le, ?N.eqb_eq in H.
  repeat (apply orb_false_iff; split); try (apply andb_false_iff);
    rewrite ?N.leb_gt, ?N.eqb_neq; lia.
Qed.

Definition spaces (s : jsstr) : nat := length (List.filter is_space s).

Lemma spaces_app s t : spaces (s ++ t) = (spaces s + spaces t)%nat.
Proof. unfold spaces. by rewrite List.filter_app, length_app. Qed.

Lemma spaces_all s : forallb is_space s = true → spaces s = length s.
Proof.
  unfold spaces. induction s as [|c s IH]; cbn; [done|].
  intros [-> H]%andb_true_iff. cbn. by rewrite IH.
Qed.

Lemma spaces_none s : forallb plain s = true → spaces s = O.
Proof.
  unfold spaces. induction s as [|c s IH]; cbn; [done|].
  intros [H1 H]%andb_true_iff. rewrite plain_no_space by done. by apply IH.
Qed.

(** The text before the first blank. *)
Fixpoint first_word (s : jsstr) : jsstr :=
  match s with
  | [] => []
  | c :: s => if is_space c then [] else c :: first_word s
  end.

Lemma first_word_app xs c s :
  spaces xs = O → is_space c = true → first_word (xs ++ c :: s) = xs.
Proof.
  unfold spaces. induction xs as [|x xs IH]; intros Hx Hc; cbn in *; [by rewrite Hc|].
  destruct (is_space x); [done|]. by rewrite IH.
Qed.

Lemma alnum_plain s : forallb is_alnum s = true → forallb plain s = true.
Proof.
  rewrite !forallb_forall. intros H c Hc. unfold plain. by rewrite H.
Qed.

Lemma amount_plain s : forallb is_amount s = true → forallb plain s = true.
Proof.
  rewrite !forallb_forall. intros H c Hc. unfold plain. rewrite H by done. apply orb_true_r.
Qed.

(** A trade as the help text tells users to write it. *)
Definition trade_command (kw mint amt : jsstr) : jsstr := kw ++ js " " ++ mint ++ js " " ++ amt.

Lemma sp_len : length (js " ") = 1%nat.
Proof. done. Qed.

Lemma tail_run prev mint amt :
  forallb is_alnum mint = true → (32 <= length mint <= 44)%nat →
  forallb is_amount amt = true → (1 <= length amt)%nat →
  rmatch trade_tail prev (js " " ++ mint ++ js " " ++ amt) [] (λ _ _ caps, Some caps)
  = Some [mint; amt].
Proof.
  intros Hm Hl Ha Hla. unfold trade_tail. cbn [rseq rmatch].
  apply rep_run; [done|rewrite !length_app, sp_len; lia| |].
  { destruct mint as [|c mint]; [cbn in Hl; lia|]. cbn [app]. left.
    apply alnum_plain in Hm. cbn in Hm. apply andb_true_iff in Hm as [Hc _].
    by apply plain_no_space. }
  cbn [last]. apply rep_run; [done|lia|by left|].
  rewrite captured. apply rep_run; [done|rewrite length_app, sp_len; lia| |].
  { destruct amt as [|c amt]; [cbn in Hla; lia|]. left.
    apply amount_plain in Ha. cbn in Ha. apply andb_true_iff in Ha as [Hc _].
    by apply plain_no_space. }
  match goal with |- rep ?p ?mi ?ma ?pr amt ?c ?k = _ =>
    pose proof (rep_run p mi ma pr amt [] c k [mint; amt]) as H end.
  rewrite app_nil_r in H. apply H; [done|lia|done|].
  cbn [length app]. by rewrite Nat.sub_0_r, firstn_all.
Qed.

(** A sell command contains no buy command: the only keyword before its first
    blank is its own. *)
Lemma sell_is_no_buy kw mint amt :
  kw ∈ keywords Sell → forallb is_alnum mint = true → forallb is_amount amt = true →
  exec BUY_RX (trade_command kw mint amt) = None.
Proof.
  intros Hkw Hm Ha. destruct (exec BUY_RX _) as [caps|] eqn:E; [exfalso|done].
  apply trade_rx_sound in E as (kw' & m' & a' & _ & Ht & Hk).
  destruct Ht as [(pre & sp1 & sp2 & post & Heq & Hs1 & Hs2 & Hl1 & Hl2) _].
  assert (spaces (trade_command kw mint amt) = 2%nat) as Hc.
  { unfold trade_command. rewrite !spaces_app.
    rewrite (spaces_none mint), (spaces_none amt) by auto using alnum_plain, amount_plain.
    cbn in Hkw. apply list_elem_of_In in Hkw as [<-|[<-|[]]]; done. }
  pose proof Hc as Hc'. rewrite Heq, !spaces_app, (spaces_all sp1), (spaces_all sp2) in Hc' by done.
  assert (first_word (trade_command kw mint amt) = kw) as Hf1.
  { apply (first_word_app kw 32%N); [|done].
    cbn in Hkw. apply list_elem_of_In in Hkw as [<-|[<-|[]]]; done. }
  assert (first_word (trade_command kw mint amt) = pre ++ kw') as Hf2.
  { destruct sp1 as [|c sp1]; [cbn in Hl1; lia|]. rewrite Heq, app_assoc. cbn [app].
    apply first_word_app; [rewrite spaces_app; lia|]. cbn in Hs1.
    by apply andb_true_iff in Hs1 as [-> _]. }
  rewrite Hf1 in Hf2. apply (f_equal toLowerCase) in Hf2. rewrite toLowerCase_app in Hf2.
  apply (f_equal last) in Hf2. rewrite last_app in Hf2.
  cbn in Hkw. apply list_elem_of_In in Hkw as [<-|[<-|[]]];
    destruct Hk as [Hk|Hk]; rewrite Hk in Hf2; by vm_compute in Hf2.
Qed.

Lemma trade_rx_run a b kw mint amt :
  kw = js a ∨ (kw = js b ∧ head (js a) = Some 47%N ∧ ∃ c l, kw = c :: l ∧ same_letter 47 c = false) →
  forallb is_alnum mint = true → (32 <= length mint <= 44)%nat →
  forallb is_amount amt = true → (1 <= length amt)%nat →
  exec (RSeq (any_of [lit a; lit b]) trade_tail) (trade_command kw mint amt) = Some [mint; amt].
Proof.
  intros Hkw Hm Hl Ha Hla. apply exec_from_here. unfold trade_command.
  cbn [any_of foldl rmatch]. unfold lit.
  destruct Hkw as [->|(-> & Hh & c & l & Hc & Hs)].
  - rewrite lit_run by done. by rewrite tail_run.
  - replace (rmatch (lit_units (js a)) _ _ _ _) with (@None (list jsstr)).
    + rewrite lit_run by done. by apply tail_run.
    + rewrite Hc. destruct (js a) as [|d la]; [done|]. cbn in Hh. injection Hh as ->.
      cbn [lit_units rmatch app]. by rewrite Hs.
Qed.

(** A trade written as the help text says is recognised, with that mint and the
    number its amount denotes. *)
Lemma parse_trade_complete t kw mint amt :
  kw ∈ keywords t → forallb is_alnum mint = true → (32 <= length mint <= 44)%nat →
  forallb is_amount amt = true → (1 <= length amt)%nat →
  parse_command (trade_command kw mint amt) = Some (CTrade t mint (toNumber amt)).
Proof.
  intros Hkw Hm Hl Ha Hla. unfold parse_command.
  destruct t; [|rewrite (sell_is_no_buy kw) by done];
    cbn [keywords] in Hkw; apply list_elem_of_In in Hkw as [<-|[<-|[]]];
    unfold BUY_RX, SELL_RX; (rewrite trade_rx_run; [done| |done..]).
  - by left.
  - right. split; [done|]. split; [done|]. by eexists _, _.
  - by left.
  - right. split; [done|]. split; [done|]. by eexists _, _.
Qed.

(** ** Mentions *)

Lemma remove_lit_absent c l s :
  Forall (λ x, lower_unit x ≠ lower_unit c) s → remove_lit (c :: l) O s = s.
Proof.
  induction 1 as [|x s Hx _ IH]; [done|]. cbn [remove_lit].
  replace (starts_lit (c :: l) (x :: s)) with false; [by rewrite IH|].
  symmetry. unfold starts_lit. apply andb_false_iff. right. apply bool_decide_eq_false.
  cbn [length take]. unfold toLowerCase. rewrite !fmap_cons. intros H. by injection H as ? _.
Qed.

Lemma trimStart_id c s : is_space c = false → trimStart (c :: s) = c :: s.
Proof. intros Hc. cbn. by rewrite Hc. Qed.

Lemma trim_id c s d t :
  is_space c = false → is_space d = false → c :: s = t ++ [d] → trim (c :: s) = c :: s.
Proof.
  intros Hc Hd Heq. unfold trim, trimEnd. rewrite trimStart_id by done.
  rewrite Heq, rev_unit, trimStart_id by done. cbn. by rewrite rev_involutive.
Qed.

(** A text without [@], blank at neither end, is left alone. *)
Lemma stripMention_id `{EN : Env} c s d t :
  is_space c = false → is_space d = false → c :: s = t ++ [d] →
  Forall (λ x, x ≠ 64%N) (c :: s) → stripMention (c :: s) = c :: s.
Proof.
  intros Hc Hd Heq Hat. unfold stripMention. destruct TW_HANDLE as [|h0 h]; [done|].
  unfold replace_lit. change (js "@" ++ h0 :: h) with (64%N :: h0 :: h).
  rewrite remove_lit_absent; [by eapply trim_id|].
  eapply Forall_impl; [exact Hat|]. intros x Hx. cbn in *.
  change (lower_unit 64) with 64%N. unfold lower_unit.
  destruct ((65 <=? x) && (x <=? 90))%N eqn:Eu; [|done].
  apply andb_true_iff in Eu as [H1%N.leb_le H2%N.leb_le]. lia.
Qed.

Lemma plain_no_at x : plain x = true → x ≠ 64%N.
Proof. intros H ->. by vm_compute in H. Qed.

Lemma trade_command_strip `{EN : Env} t kw mint amt :
  kw ∈ keywords t → forallb is_alnum mint = true → forallb is_amount amt = true →
  (1 <= length amt)%nat → stripMention (trade_command kw mint amt) = trade_command kw mint amt.
Proof.
  intros Hkw Hm Ha Hla. destruct (rev amt) as [|d amt'] eqn:Er.
  { apply (f_equal length) in Er. rewrite length_rev in Er. cbn in Er. lia. }
  assert (amt = rev amt' ++ [d]) as Hamt by (rewrite <- (rev_involutive amt), Er; done).
  assert (plain d = true) as Hd.
  { apply amount_plain in Ha. rewrite Hamt, forallb_app in Ha.
    apply andb_true_iff in Ha as [_ Ha]. cbn in Ha. by apply andb_true_iff in Ha as [Ha _]. }
  assert (∀ l, forallb plain l = true → Forall (λ x, x ≠ 64%N) l) as Hat.
  { intros l. rewrite forallb_forall, Forall_forall. intros H x Hx.
    by apply plain_no_at, H, list_elem_of_In. }
  assert (∃ c k, kw = c :: k ∧ is_space c = false ∧ Forall (λ x, x ≠ 64%N) kw) as (c & k & Hk & Hc & Hkat).
  { destruct t; cbn in Hkw; apply list_elem_of_In in Hkw as [<-|[<-|[]]];
      (eexists _, _; split; [reflexivity|]; split; [done|by repeat constructor]). }
  unfold trade_command. rewrite Hk in *. cbn [app].
  eapply (stripMention_id c _ d (kw ++ js " " ++ mint ++ js " " ++ rev amt')).
  - done.
  - by apply plain_no_space.
  - rewrite Hk, Hamt. cbn [app]. by rewrite <- !app_assoc.
  - rewrite Forall_cons in Hkat. destruct Hkat as [Hc1 Hk1]. constructor; [done|].
    repeat (apply Forall_app; split); auto using alnum_plain, amount_plain;
      by repeat constructor.
Qed.

(** ** Users *)

(** ** Button payloads *)

Lemma no_colon s : forallb is_alnum s = true → Forall (λ c, c ≠ 58%N) s.
Proof.
  rewrite forallb_forall, Forall_forall. intros H c Hc ->.
  specialize (H 58%N (proj1 (list_elem_of_In _ _) Hc)). by vm_compute in H.
Qed.

Lemma button_parts code mint h :
  Forall (λ c, c ≠ 58%N) code → Forall (λ c, c ≠ 58%N) mint →
  split (js "BTN::" ++ code ++ js "::" ++ mint ++ js "::" ++ h) (js "::")
  = js "BTN" :: code :: mint :: split h (js "::").
Proof.
  intros Hc Hm. change (js "::") with [58%N; 58%N].
  change (js "BTN::" ++ code ++ [58%N; 58%N] ++ mint ++ [58%N; 58%N] ++ h)
    with (js "BTN" ++ [58%N; 58%N] ++ code ++ [58%N; 58%N] ++ mint ++ [58%N; 58%N] ++ h).
  rewrite !(split_app_sep 58 [58%N]); [done|done|done|by repeat constructor].
Qed.

Section Users.
Context {E : Type} `{RE : RedisEntry E} `{RL : !RedisLaws E} `{EN : Env} `{EL : !EnvLaws}.
Implicit Types w : world E.

Lemma user_fields_nodup u : NoDup (user_fields u).*1.
Proof.
  apply (bool_decide_eq_true_1 (NoDup [js "sol"; js "tierBal"; js "auto"; js "risk"])).
  by vm_compute.
Qed.

(** A Redis hash that describes [u]: the fields [persist] writes and the
    encryption of the secret key. *)
Definition stored_user (u : user) (e : E) : Prop :=
  (∀ f v, kv_lookup (user_fields u) f = Some v → e_hget f e = Some v)
  ∧ ∃ n, e_hget (js "wallet") e
         = Some (enc_prefix ++ sealed n (utf8_encode (stringify (json_bytes (secretKey (wallet u)))))).

(** A user whose balances are doubles and whose key pair the library restores. *)
Definition user_ok (u : user) : Prop :=
  num_wf (sol u) ∧ num_wf (tierBal u)
  ∧ length (secretKey (wallet u)) = 64%nat ∧ bytes_ok (secretKey (wallet u))
  ∧ fromSecretKey (secretKey (wallet u)) = inr (wallet u).

(** [persist] writes the fields of the user and keeps the wallet. *)
Lemma persist_run handle u w :
  quiet 4 w →
  ∃ w', persist handle u w = (Ok tt, w') ∧ (tick w' <= tick w + 4)%nat
    ∧ handle ∈ e_smembers (entry_at w' USERS_SET)
    ∧ (∀ f, e_hget f (entry_at w' (user_key handle))
            = match kv_lookup (user_fields u) f with
              | Some v => Some v
              | None => e_hget f (entry_at w (user_key handle))
              end)
    ∧ ∀ k, k ≠ user_key handle → k ≠ USERS_SET → entry_at w' k = entry_at w k.
Proof.
  intros Hq. destruct (upsertUser_run handle (user_fields u) w (user_fields_nodup u) Hq)
    as (n & w' & H & Ht & Hm%lists_also_self & Hf & Hk).
  exists w'. split; [done|]. split; [done|]. split; [done|]. split; [|done].
  intros f. rewrite Hf. destruct (kv_lookup (user_fields u) f) as [v|] eqn:Ef; [|done].
  unfold stored. destruct (bool_decide_reflect (f = js "wallet")) as [->|]; [|done].
  by vm_compute in Ef.
Qed.

Lemma hydrate_fields u data :
  num_wf (sol u) → num_wf (tierBal u) →
  (∀ f v, kv_lookup (user_fields u) f = Some v → kv_lookup data f = Some v) →
  hydrate (wallet u) data = u.
Proof.
  intros Hs Ht Hf. unfold hydrate.
  rewrite (Hf (js "sol") (toString (sol u)) eq_refl), (Hf (js "tierBal") (toString (tierBal u)) eq_refl),
    (Hf (js "auto") (bool_text (auto u)) eq_refl), (Hf (js "risk") (risk u) eq_refl).
  cbn [default from_option id]. rewrite !parseFloat_toString by done.
  destruct u as [wl s t a r]. cbn. f_equal. by destruct a.
Qed.

(** Restoring a stored user from Redis puts exactly that user in the map. *)
Lemma load_stored handle u w :
  key_ok → user_ok u → quiet 2 w → stored_user u (entry_at w (user_key handle)) →
  load_user handle w
  = (Ok tt, set_users (kv_set (users w) handle u) (pass (pass w))).
Proof.
  intros Hk (Hs & Ht & Hl & Hb & Hfrom) Hq [Hf (n & Hw)].
  assert (quiet 1 (pass w)) as Hq1 by (by eapply quiet_next).
  destruct (read_wallet handle n _ (pass w) Hk Hb Hq1 Hw) as [_ Hc].
  destruct (getUser_some handle w _ _ ltac:(quiet_weaken) Hw) as (data & Hg & Hd).
  unfold load_user. erewrite bind_ok by exact Hg. cbv beta iota.
  erewrite bind_ok by exact Hc. cbv beta iota.
  rewrite bool_decide_true by done. erewrite bind_ok by (by rewrite Hfrom).
  erewrite bind_ok by done. unfold put_user, modify. do 3 f_equal.
  rewrite hydrate_fields; [done|done|done|]. intros f v Hv. rewrite Hd; [by apply Hf|].
  intros ->. by vm_compute in Hv.
Qed.

(** C7. Storing the key and persisting a user survives a restart: the loop of
    [initializeUsers] puts the same user in the map, balances, auto switch, risk
    and key pair included, whatever happened to other keys in between. *)
Theorem persist_restart handle u w :
  key_ok → user_ok u → quiet 7 w →
  ∃ w1 w2, setWalletSecret handle (json_bytes (secretKey (wallet u))) w = (Ok tt, w1)
    ∧ persist handle u w1 = (Ok tt, w2)
    ∧ handle ∈ e_smembers (entry_at w2 USERS_SET)
    ∧ ∀ w3, entry_at w3 (user_key handle) = entry_at w2 (user_key handle) → quiet 2 w3 →
        ∃ w4, load_user handle w3 = (Ok tt, w4) ∧ kv_lookup (users w4) handle = Some u.
Proof.
  intros Hk Hu Hq.
  destruct (setWalletSecret_run handle (secretKey (wallet u)) w) as (w1 & H1 & Ht1 & Hw & _ & _);
    [quiet_weaken|].
  specialize (Hw (js "wallet")). rewrite bool_decide_true in Hw by done.
  destruct (persist_run handle u w1) as (w2 & H2 & _ & Hm & Hf & _); [by apply (quiet_skip 3 4 w)|].
  exists w1, w2. split; [done|]. split; [done|]. split; [done|].
  intros w3 He Hq3. eexists. split.
  - apply (load_stored handle u w3 Hk Hu Hq3). rewrite He. split.
    + intros f v Hv. by rewrite Hf, Hv.
    + eexists. rewrite Hf. by rewrite Hw.
  - cbn. by rewrite kv_lookup_set, bool_decide_true.
Qed.

(** C30. A user [ensure] creates keeps its key pair in memory only: Redis has no
    wallet for it, so after a restart the handle is skipped and its deposit
    address is lost. *)
Theorem ensure_forgets_wallet handle w :
  kv_lookup (users w) handle = None → entry_at w (user_key handle) = e_none → quiet 5 w →
  ∃ w1, ensure handle w = (Ok (new_user (generate_answer (tick w))), w1)
    ∧ kv_lookup (users w1) handle = Some (new_user (generate_answer (tick w)))
    ∧ handle ∈ e_smembers (entry_at w1 USERS_SET)
    ∧ ∀ w2, entry_at w2 (user_key handle) = entry_at w1 (user_key handle) → quiet 2 w2 →
        load_user handle w2 = (Ok tt, pass (pass w2)).
Proof.
  intros Hu He Hq. unfold ensure, generate. erewrite bind_ok by done. rewrite Hu.
  erewrite bind_ok by done. cbv zeta. set (u := new_user _).
  erewrite bind_ok by done. set (w0 := set_users _ _).
  destruct (persist_run handle u w0) as (w1 & H1 & _ & Hm & Hf & _).
  { eapply quiet_next; [exact Hq|done]. }
  pose proof (upsertUser_users handle (user_fields u) w0) as Hsame.
  fold (persist handle u) in Hsame. rewrite H1 in Hsame. cbn in Hsame.
  erewrite bind_ok by exact H1. exists w1. split; [done|]. split; [|split; [done|]].
  { rewrite Hsame. cbn. by rewrite kv_lookup_set, bool_decide_true. }
  intros w2 He2 Hq2.
  assert (e_hget (js "risk") (entry_at w2 (user_key handle)) = Some (js "med")) as Hr
    by (rewrite He2; by rewrite Hf).
  destruct (getUser_some handle w2 _ _ ltac:(quiet_weaken) Hr) as (data & Hg & _).
  unfold load_user. erewrite bind_ok by exact Hg. cbv beta iota.
  unfold getWalletCompat, redis_hget.
  erewrite bind_ok.
  2: { erewrite bind_ok by (apply read_ok; apply (quiet_at 2 1 _ w2); [done|lia|cbn; lia]).
       rewrite entry_pass, He2, Hf.
       change (kv_lookup (user_fields u) (js "wallet")) with (@None jsstr).
       change (entry_at w0 (user_key handle)) with (entry_at w (user_key handle)).
       by rewrite He, hget_none. }
  done.
Qed.
End Users.

(** ** Messages *)

Section Messages.
Context {E : Type} `{RE : RedisEntry E} `{RL : !RedisLaws E} `{EN : Env}.
Implicit Types w : world E.

(** A text message without a button. *)
Definition text_message (text : jsstr) (handle : option jsstr) (f : reply_fn) : msg :=
  Message None (Some text) handle (Some f).

(** What a reply nobody awaits leaves in the world. *)
Definition replied (f : reply_fn) (text : jsstr) w : world E :=
  match f (tick w) text with
  | Some e => add_event (Unhandled e) (add_event (Reply text) w)
  | None => add_event (Reply text) w
  end.

Lemma reply_eq f text w : reply (Some f) text w = (Ok tt, replied f text w).
Proof. unfold reply, call_reply, replied, bind. cbn. by destruct (f (tick w) text). Qed.

(** C8. A trade written as the help text says queues exactly one job, with the side,
    the mint, the number its amount denotes and the sender's handle, and then
    confirms it; nothing else is changed. *)
Theorem handleMessage_trade t kw mint amt handle f w :
  kw ∈ keywords t → forallb is_alnum mint = true → (32 <= length mint <= 44)%nat →
  forallb is_amount amt = true → (1 <= length amt)%nat → quiet 1 w →
  handleMessage (text_message (trade_command kw mint amt) handle f) w
  = (Ok tt,
     replied f (js "🔄 Trade queued: " ++ side_name t ++ js " " ++ toString (toNumber amt)
                ++ js " SOL")
       (add_event (Enqueue (js "trades") (js "execute-trade")
                     (trade_job t mint (toNumber amt) handle)) (pass w))).
Proof.
  intros Hkw Hm Hl Ha Hla Hq%quiet_now. unfold handleMessage, handle_text, text_message.
  cbn [m_button m_body m_handle m_reply default from_option id].
  rewrite (trade_command_strip t), (parse_trade_complete t) by done.
  unfold run_command, dispatchTrade. erewrite bind_ok; [apply reply_eq|].
  unfold enqueueTrade, queue_add, bind. cbn [interact]. by rewrite Hq.
Qed.

(** The text command that sets the risk always fails: its handler names a
    variable that does not exist, so the user's risk never changes. *)
Theorem risk_command_fails text handle f v w :
  parse_command (stripMention text) = Some (CRisk v) →
  handleMessage (text_message text handle f) w = (Throw reference_error, w).
Proof.
  intros Hp. unfold handleMessage, handle_text, text_message.
  cbn [m_button m_body m_handle m_reply default from_option id]. by rewrite Hp.
Qed.

(** ** Preferences *)

Lemma toggleAuto_run handle st u w :
  kv_lookup (users w) handle = Some u → quiet 4 w →
  let b := default (negb (auto u)) st in
  ∃ w', toggleAuto handle st w = (Ok (b, riskName (risk u)), w')
    ∧ kv_lookup (users w') handle = Some (set_auto u b)
    ∧ e_hget (js "auto") (entry_at w' (user_key handle)) = Some (bool_text b).
Proof.
  intros Hu Hq b. unfold toggleAuto. erewrite bind_ok by done. rewrite Hu. cbv zeta. fold b.
  erewrite bind_ok by done. set (w0 := set_users _ _).
  destruct (persist_run handle (set_auto u b) w0) as (w1 & H1 & _ & _ & Hf & _); [exact Hq|].
  pose proof (upsertUser_users handle (user_fields (set_auto u b)) w0) as Hsame.
  fold (persist handle (set_auto u b)) in Hsame. rewrite H1 in Hsame. cbn in Hsame.
  erewrite bind_ok by (unfold detach; by rewrite H1).
  exists w1. split; [done|]. split.
  - rewrite Hsame. cbn. by rewrite kv_lookup_set, bool_decide_true.
  - by rewrite Hf.
Qed.

(** [toggleAuto] of a known user sets or flips the switch, in memory and in
    Redis, and returns it with the name of the risk; of an unknown user it
    throws a TypeError and changes nothing. *)
Theorem toggleAuto_spec handle st w :
  quiet 4 w →
  match kv_lookup (users w) handle with
  | Some u =>
      let b := default (negb (auto u)) st in
      ∃ w', toggleAuto handle st w = (Ok (b, riskName (risk u)), w')
        ∧ kv_lookup (users w') handle = Some (set_auto u b)
        ∧ e_hget (js "auto") (entry_at w' (user_key handle)) = Some (bool_text b)
  | None => ∃ e, toggleAuto handle st w = (Throw e, w) ∧ kind e = KTypeError
  end.
Proof.
  intros Hq. destruct (kv_lookup (users w) handle) as [u|] eqn:Hu.
  - by apply toggleAuto_run.
  - unfold toggleAuto. setoid_rewrite bind_ok; [|done]. rewrite Hu.
    destruct st; by eexists.
Qed.

(** "auto ON" is matched without regard to case but compared with "on": instead
    of enabling auto-trading it disables it. *)
Theorem auto_ON_disables handle f u w :
  kv_lookup (users w) handle = Some u → quiet 4 w →
  ∃ r w', handleMessage (text_message (js "auto ON") (Some handle) f) w = (r, w')
    ∧ kv_lookup (users w') handle = Some (set_auto u false).
Proof.
  intros Hu Hq. unfold handleMessage, handle_text, text_message.
  cbn [m_button m_body m_handle m_reply default from_option id].
  rewrite (stripMention_id (code "a") (js "uto ON") (code "N") (js "auto O"))
    by (done || by repeat constructor).
  replace (parse_command _) with (Some (CAuto (js "ON"))) by (by vm_compute).
  destruct (toggleAuto_run handle (Some false) u w Hu Hq) as (w' & H1 & H2 & _).
  unfold run_command, auto_reply. cbn [handle_key default from_option id].
  replace (bool_decide (js "ON" = js "on")) with false by (by vm_compute).
  erewrite bind_ok by exact H1. unfold return_reply, call_reply, bind. cbn.
  destruct (f (tick w') _); by eexists _, _.
Qed.

(** ** Prices *)

Lemma no_exit_fetch_json r : no_exit (E:=E) (fetch_json r).
Proof.
  apply no_exit_bind; [apply no_exit_fetch|]. intros res. unfold json_parse.
  destruct (parse _); auto with eff.
Qed.

Lemma no_exit_quote mint l : no_exit (E:=E) (quoteSOLto mint l).
Proof.
  unfold quoteSOLto. apply no_exit_bind; [apply no_exit_read|]. intros cached.
  assert (no_exit (E:=E)
    (j <- try_catch (fetch_json (GET (quote_url mint l))) (λ _, ret JNull) ;;
     let result := opt_first (opt_prop (Some j) (js "data")) in
     if opt_truthy result then
       redis_setEx (quote_key mint l) CACHE_TTL (stringify (default JNull result)) ;; ret result
     else ret None)) as Hfresh.
  { apply no_exit_bind; [apply no_exit_try; auto using no_exit_fetch_json with eff|].
    intros j. cbv zeta. destruct (opt_truthy _); [|done]. apply no_exit_bind; [|done].
    unfold redis_setEx, redis_set. destruct (client_has _); auto with eff. }
  destruct cached as [[|c s]|]; [exact Hfresh| |exact Hfresh].
  apply no_exit_bind; [|done]. unfold json_parse. destruct (parse _); auto with eff.
Qed.

(** One source never fails: it gives a price or nothing. *)
Lemma sources_return w :
  (∃ p w', binance_price w = (Ok p, w'))
  ∧ (∃ p w', coingecko_price w = (Ok p, w'))
  ∧ (∃ p w', jupiter_price w = (Ok p, w')).
Proof.
  split; [|split]; apply (try_returns _ (λ _, None));
    (apply no_exit_bind; [auto using no_exit_fetch_json, no_exit_quote|intros j]);
    auto with eff.
Qed.

(** C40. [fetchSolPrice] never throws, whatever the three services, Redis and the
    parser do; it returns the price of the first source that has one, and asks
    a later source only when every earlier one had none. *)
Theorem fetchSolPrice_total w :
  ∃ p w1, binance_price w = (Ok p, w1) ∧
    match p with
    | Some v => fetchSolPrice w = (Ok (Some v), w1)
    | None => ∃ q w2, coingecko_price w1 = (Ok q, w2) ∧
        match q with
        | Some v => fetchSolPrice w = (Ok (Some v), w2)
        | None => ∃ r w3, jupiter_price w2 = (Ok r, w3) ∧ fetchSolPrice w = (Ok r, w3)
        end
    end.
Proof.
  destruct (sources_return w) as [(p & w1 & Hp) _]. exists p, w1. split; [done|].
  unfold fetchSolPrice. rewrite (bind_ok _ _ _ _ _ Hp). destruct p as [v|]; [done|].
  destruct (sources_return w1) as [_ [(q & w2 & Hq) _]]. exists q, w2. split; [done|].
  rewrite (bind_ok _ _ _ _ _ Hq). destruct q as [v|]; [done|].
  destruct (sources_return w2) as [_ [_ (r & w3 & Hr)]]. by exists r, w3.
Qed.



(** ** Start-up *)

(** From [w] to [w'] only the users [hs] were loaded: the hashes and the map entries of
    all others are the same, and nothing is watched. *)
Definition loads_only (hs : list jsstr) (w w' : world E) : Prop :=
  (∀ h, h ∉ hs → entry_at w' (user_key h) = entry_at w (user_key h)
                 ∧ kv_lookup (users w') h = kv_lookup (users w) h)
  ∧ log w' = log w.

#[export] Instance loads_only_refl hs : Reflexive (loads_only hs).
Proof. by intros w. Qed.
#[export] Instance loads_only_trans hs : Transitive (loads_only hs).
Proof.
  intros w1 w2 w3 [H1 L1] [H2 L2]. split; [|congruence]. intros h Hh.
  destruct (H1 h Hh) as [<- <-]. by apply H2.
Qed.

Lemma loads_only_mono hs hs' w w' : hs ⊆ hs' → loads_only hs w w' → loads_only hs' w w'.
Proof. intros Hs [H L]. split; [|done]. intros h Hh. apply H. set_solver. Qed.

Lemma loads_only_load h : respects (loads_only [h]) (load_user h).
Proof.
  assert (respects (loads_only [h]) interact) as Hi by (by intros w).
  assert (∀ A (r : exn + A), respects (loads_only [h]) (lift r)) as Hl by (by intros A []).
  assert (∀ A k (f : Z → E → A), respects (loads_only [h]) (redis_read k f)) as Hr
    by (intros A k f w; by rewrite read_eq).
  assert (∀ k f, k = USERS_SET ∨ k = user_key h →
                 respects (loads_only [h]) (redis_write k f)) as Hw.
  { intros k f Hk w. rewrite write_eq. destruct (redis_fault _); [by split|]. cbn.
    split; [|done]. intros h' Hh. split; [|done].
    rewrite entry_put_ne; [done|]. destruct Hk as [->| ->].
    - apply not_eq_sym, user_key_ne.
    - intros <-%user_key_inj. set_solver. }
  assert (∀ u, respects (loads_only [h]) (put_user h u)) as Hu.
  { intros u w. cbn. split; [|done]. intros h' Hh. split; [done|]. cbn.
    rewrite kv_lookup_set. case_bool_decide; [set_solver|done]. }
  unfold load_user, getUser, redis_hgetall, getWalletCompat, redis_hget, open_secret, decrypt,
    json_parse, setWalletSecret, encrypt, redis_sadd, redis_hset.
  respects_walk; auto.
Qed.

Lemma loads_only_loads hs : respects (loads_only hs) (load_users hs).
Proof.
  induction hs as [|h hs IH]; [by apply respects_ret|].
  cbn [load_users]. apply respects_bind; [apply _| |intros _].
  - intros w. eapply loads_only_mono; [|apply loads_only_load]. set_solver.
  - intros w. eapply loads_only_mono; [|apply IH]. set_solver.
Qed.

(** The wallet of the user cannot be opened. *)
Definition corrupt (handle : jsstr) (e : exn) (w : world E) : Prop :=
  ∃ v, e_hget (js "wallet") (entry_at w (user_key handle)) = Some v
    ∧ startsWith v enc_prefix = true ∧ ∀ w', open_secret v w' = (Throw e, w').

Lemma corrupt_load handle e w :
  corrupt handle e w →
  ∃ e' w', load_user handle w = (Throw e', w') ∧ (quiet 2 w → e' = e).
Proof.
  intros (v & Hv & Hp & Ho). unfold load_user, getUser, redis_hgetall.
  destruct (redis_fault (tick w)) as [x|] eqn:Hf.
  { eexists x, _. split; [|intros Hq; by rewrite (quiet_now 1 w Hq) in Hf].
    apply bind_throw, bind_throw. by rewrite read_eq, Hf. }
  assert (quiet 1 w) as Hq1 by (intros i Hi; by replace (tick w + i)%nat with (tick w) by lia).
  destruct (getUser_some handle w _ _ Hq1 Hv) as (data & Hg & _).
  unfold getUser, redis_hgetall in Hg. setoid_rewrite bind_ok; [|exact Hg]. cbv beta iota.
  unfold getWalletCompat, redis_hget.
  destruct (redis_fault (tick (pass w))) as [x|] eqn:Hf'.
  { eexists x, _. split.
    - apply bind_throw, bind_throw. by rewrite read_eq, Hf'.
    - intros Hq. rewrite (quiet_at 2 1 _ w Hq) in Hf' by (cbn; lia). done. }
  eexists e, _. split; [|done]. apply bind_throw.
  erewrite bind_ok by (by apply read_ok). rewrite !entry_pass, Hv, Hp. apply bind_throw, Ho.
Qed.

Lemma no_exit_load h : no_exit (E:=E) (load_user h).
Proof.
  assert (∀ u, no_exit (E:=E) (put_user h u)) by done.
  unfold load_user, getUser, redis_hgetall, getWalletCompat, redis_hget, open_secret, decrypt,
    json_parse, setWalletSecret, encrypt, redis_sadd, redis_hset.
  repeat first [apply no_exit_bind; [|intros ?]
    | match goal with |- no_exit (match ?x with _ => _ end) => destruct x end
    | solve [auto with eff]].
Qed.

Lemma no_exit_loads hs : no_exit (E:=E) (load_users hs).
Proof. induction hs; [done|]. apply no_exit_bind; [apply no_exit_load|done]. Qed.

Lemma load_users_app pre hs w :
  load_users (pre ++ hs) w = bind (load_users pre) (λ _, load_users hs) w.
Proof.
  revert w. induction pre as [|h pre IH]; intros w; [done|]. cbn [load_users app].
  rewrite bind_assoc. unfold bind at 1 2. destruct (load_user h w) as [[]]; [apply IH|done..].
Qed.

Lemma corrupt_loads handle pre post e w :
  corrupt handle e w → handle ∉ pre →
  ∃ e' w', load_users (pre ++ handle :: post) w = (Throw e', w')
    ∧ loads_only (pre ++ [handle]) w w'
    ∧ (∀ w1, load_users pre w = (Ok tt, w1) → quiet 2 w1 → e' = e).
Proof.
  intros Hc Hn. rewrite load_users_app. pose proof (loads_only_loads pre w) as Hl.
  pose proof (no_exit_loads pre w) as Hx. unfold bind at 1.
  destruct (load_users pre w) as [[[]|x|c] w1]; cbn in *.
  - assert (corrupt handle e w1) as Hc1.
    { destruct Hc as (v & Hv & H). exists v. by rewrite (proj1 (proj1 Hl _ Hn)). }
    destruct (corrupt_load handle e w1 Hc1) as (e' & w2 & H2 & Hq).
    pose proof (loads_only_load handle w1) as H3. rewrite H2 in H3. cbn in H3.
    exists e', w2. split; [by apply bind_throw|]. split.
    + etransitivity; (eapply loads_only_mono; [|eassumption]); set_solver.
    + intros w1' [= <-]. done.
  - exists x, w1. split; [done|]. split; [|done].
    eapply loads_only_mono; [|exact Hl]. set_solver.
  - by destruct (Hx c).
Qed.

(** C31. A wallet whose decryption fails is not skipped, wherever its user is among the
    members of the set of users and whatever happens before: [initializeUsers] throws,
    no user after the corrupt one is loaded, no user's hash but those up to it is
    written, and no deposit watcher is registered.  When the users before it load and
    Redis answers the two reads of it, the error is that of the decryption. *)
Theorem corrupt_wallet_aborts handle pre post e w :
  e_smembers (entry_at w USERS_SET) = pre ++ handle :: post → handle ∉ pre →
  corrupt handle e w →
  ∃ e' w', initializeUsers w = (Throw e', w')
    ∧ loads_only (pre ++ [handle]) w w'
    ∧ (redis_fault (tick w) = None →
       ∀ w1, load_users pre (pass w) = (Ok tt, w1) → quiet 2 w1 → e' = e).
Proof.
  intros Hs Hn Hc. unfold initializeUsers, getAllUsers, redis_smembers.
  unfold bind at 1. rewrite read_eq. destruct (redis_fault (tick w)) as [x|] eqn:Hf.
  { by exists x, (pass w). }
  cbv beta iota. rewrite Hs.
  destruct (corrupt_loads handle pre post e (pass w) Hc Hn) as (e' & w' & H & Hl & He).
  exists e', w'. split; [by apply bind_throw|]. by split.
Qed.
End Messages.

(** ** Concrete runs *)

(** A platform that delivers every reply. *)
Definition quiet_reply : reply_fn := λ _ _, None.

Definition mint0 : jsstr := js "So11111111111111111111111111111111111111112".

Lemma parse_trade_sound_witness :
  ∃ kw amt, trade_text (js "please BUY So11111111111111111111111111111111111111112 0.5 now")
              kw mint0 amt
            ∧ toLowerCase kw ∈ keywords Buy.
Proof.
  destruct (parse_trade_sound
    (js "please BUY So11111111111111111111111111111111111111112 0.5 now") Buy mint0
    (toNumber (js "0.5")) ltac:(vm_compute; reflexivity)) as (kw & amt & H1 & H2 & _).
  exists kw, amt. split; [exact H1|exact H2].
Defined.

Lemma handleMessage_trade_witness :
  ∃ w', handleMessage (text_message (trade_command (js "/sell") mint0 (js "1.5")) (Some (js "ann")) quiet_reply)
          world0 = (Ok tt, w').
Proof.
  eexists. apply (handleMessage_trade Sell (js "/sell") mint0 (js "1.5")).
  - left.
  - reflexivity.
  - vm_compute. lia.
  - reflexivity.
  - vm_compute. lia.
  - apply calm_quiet.
Defined.

Lemma risk_command_fails_witness :
  handleMessage (text_message (js "risk high") (Some (js "ann")) quiet_reply) two_users
  = (Throw reference_error, two_users).
Proof.
  apply (risk_command_fails (js "risk high") _ _ (js "high")). vm_compute. reflexivity.
Defined.

Lemma toggleAuto_spec_witness :
  ∃ w', toggleAuto (js "ann") None two_users = (Ok (true, js "balanced"), w').
Proof.
  pose proof (toggleAuto_spec (js "ann") None two_users (calm_quiet 4 _)) as H.
  destruct H as (w' & H & _). exists w'. exact H.
Defined.

Lemma auto_ON_disables_witness :
  ∃ r w', handleMessage (text_message (js "auto ON") (Some (js "bob")) quiet_reply) two_users = (r, w').
Proof.
  destruct (auto_ON_disables (js "bob") quiet_reply _ two_users eq_refl (calm_quiet 4 _))
    as (r & w' & H & _).
  exists r, w'. exact H.
Defined.


Definition ann_user : user := User (calm_key 7) (num_of_Z 3) (num_of_Z 12) true (js "low").

Lemma ann_user_ok : user_ok ann_user.
Proof.
  destruct (calm_key_ok 7) as (H1 & H2 & H3). by repeat split.
Qed.

Lemma persist_restart_witness :
  ∃ w1 w2, setWalletSecret (js "ann") (json_bytes (secretKey (wallet ann_user))) world0 = (Ok tt, w1)
    ∧ persist (js "ann") ann_user w1 = (Ok tt, w2).
Proof.
  destruct (persist_restart (js "ann") ann_user world0 calm_key_len ann_user_ok (calm_quiet 7 _))
    as (w1 & w2 & H1 & H2 & _).
  exists w1, w2. split; [exact H1|exact H2].
Defined.

Lemma ensure_forgets_wallet_witness :
  ∃ w1, ensure (js "eve") world0 = (Ok (new_user (calm_key 0)), w1)
    ∧ load_user (js "eve") w1 = (Ok tt, pass (pass w1)).
Proof.
  destruct (ensure_forgets_wallet (js "eve") world0 eq_refl eq_refl (calm_quiet 5 _))
    as (w1 & H1 & _ & _ & H2).
  exists w1. split; [exact H1|]. exact (H2 w1 eq_refl (calm_quiet 2 _)).
Defined.

(** Two users; the ciphertext of the second one was damaged. *)
Definition corrupt_world : world entry :=
  put USERS_SET (e_sadd (js "bob") (e_sadd (js "ann") e_none))
    (put (user_key (js "ann")) (e_hset [(js "sol", js "1")] e_none)
      (put (user_key (js "bob")) (e_hset [(js "wallet", js "enc:AAAA")] e_none) world0)).

Lemma corrupt_bob :
  corrupt (js "bob") (Exn KError (js "Unsupported state or unable to authenticate data"))
    corrupt_world.
Proof.
  exists (js "enc:AAAA"). split; [by vm_compute|]. split; [by vm_compute|].
  intros w'. unfold open_secret, decrypt, bind. by vm_compute.
Qed.

Lemma corrupt_members :
  e_smembers (entry_at corrupt_world USERS_SET) = [js "ann"] ++ js "bob" :: [].
Proof. by vm_compute. Qed.

Lemma corrupt_wallet_aborts_witness :
  ∃ e' w', initializeUsers corrupt_world = (Throw e', w') ∧ log w' = [].
Proof.
  destruct (corrupt_wallet_aborts (js "bob") [js "ann"] [] _ corrupt_world
              corrupt_members
              ltac:(intros [H|H]%elem_of_cons; [discriminate H|by apply elem_of_nil in H])
              corrupt_bob) as (e' & w' & H & [_ Hl] & _).
  exists e', w'. split; [exact H|exact Hl].
Defined.
