(* ===== verification/Worker.v ===== *)
(** * worker.js and metrics.js: the job workers

    The two processors of each file.  A job is the JSON the queue holds.  Both
    trade processors read the key pair from [getUser], which never returns the
    wallet: the theorems show what follows for every job. *)

From Stdlib Require Import QArith.
From S2P Require Import Prelude JsString Regex JsNum JsText Json Bytes Assoc Effects Uint8.
From S2P Require Import RedisModel Db Memory Retry Firewall Solana Commands CommandFacts.

Local Open Scope prog_scope.

Section Worker.
Context {E : Type} `{RE : RedisEntry E} `{EN : Env}.

(** ** worker.js *)

Definition TELEGRAM_API : jsstr :=
  js "https://api.telegram.org/bot" ++ env_text (js "TELEGRAM_BOT_TOKEN").

Definition telegram_request (chatId : option json) (text : jsstr) : request :=
  Request (TELEGRAM_API ++ js "/sendMessage") (js "POST")
    (Some (stringify (json_fields
       [(js "chat_id", chatId); (js "text", Some (JStr text));
        (js "parse_mode", Some (JStr (js "Markdown")))]))).

Definition notifyTelegram (chatId : option json) (text : jsstr) : prog E unit :=
  try_catch (fetch (telegram_request chatId text) ;; ret tt) (λ _, ret tt).

(** [const data = await getUser(handle)] and the key pair of [data.wallet]. *)
Definition job_wallet (handle : option json) : prog E keypair :=
  data <- getUser (opt_toString handle) ;;
  match data with
  | None => throw (Error (js "User " ++ opt_toString handle ++ js " not found"))
  | Some data => keypair_of_text (kv_lookup data (js "wallet"))
  end.

(** [+process.env.NAME] *)
Definition env_num (name : jsstr) : num :=
  match env_var name with Some s => toNumber s | None => NaN end.

(** The fuel: swap for NXR, then burn and pay the developer. *)
Definition burn_fuel (c : solana) (wallet : keypair) : prog E unit :=
  fuelRoute <- quoteSOLto (NXR_MINT c) (num_mul (env_num (js "MIN_NXR_SOL")) LAMPORTS_PER_SOL) ;;
  executeSwap fuelRoute wallet ;;
  out <- lift (match fuelRoute with
               | None => inl (read_of (js "null") (js "outAmount"))
               | r => prop r (js "outAmount")
               end) ;;
  burnAndDev c wallet (opt_toNumber out) (env_num (js "NXR_BURN_PCT")).

(** [v === s] for a string [s]. *)
Definition is_str (v : option json) (s : jsstr) : bool :=
  match v with Some (JStr x) => bool_decide (x = s) | _ => false end.

(** The mint a job quotes: a sell quotes SOL itself. *)
Definition job_mint (cmd : option json) : exn + jsstr :=
  match prop cmd (js "t") with
  | inl e => inl e
  | inr t =>
      if is_str t (js "buy")
      then match prop cmd (js "mint") with inl e => inl e | inr m => inr (opt_toString m) end
      else inr SOL_MINT
  end.

Definition job_lamports (cmd : option json) : exn + num :=
  match prop cmd (js "sol") with
  | inl e => inl e
  | inr s => inr (num_mul (opt_toNumber s) LAMPORTS_PER_SOL)
  end.

(** Balances after the trade, without the wallet. *)
Definition store_balances (handle : option json) (wallet : keypair) : prog E unit :=
  mint <- env_publicKey (js "AGENT_MINT") ;;
  let* (s, lamports) := refreshBalances (publicKey wallet) mint in
  upsertUser (opt_toString handle)
    [(js "sol", toString s); (js "tierBal", toString lamports)].

Definition trade_worker (c : solana) (data : json) : prog E unit :=
  cmd <- lift (prop (Some data) (js "cmd")) ;;
  handle <- lift (prop (Some data) (js "handle")) ;;
  wallet <- job_wallet handle ;;
  burn_fuel c wallet ;;
  lamports <- lift (job_lamports cmd) ;;
  mintAddr <- lift (job_mint cmd) ;;
  route <- quoteSOLto mintAddr lamports ;;
  executeSwap route wallet ;;
  store_balances handle wallet ;;
  notifyTelegram handle
    (js "✅ *Trade executed:* `" ++ opt_toString (opt_prop cmd (js "t")) ++ js " "
     ++ opt_toString (opt_prop cmd (js "sol")) ++ js " SOL`").

Definition llm_prompt (text : option json) : jsstr :=
  PERSONA ++ [10%N] ++ js "Goals: " ++ env_text (js "AGENT_GOALS") ++ [10%N; 10%N]
  ++ js "User: " ++ opt_toString text ++ [10%N] ++ js "AI:".

Definition llm_worker (data : json) : prog E unit :=
  text <- lift (prop (Some data) (js "text")) ;;
  handle <- lift (prop (Some data) (js "handle")) ;;
  j <- fetch_json (ollama_request (llm_prompt text)) ;;
  reply <- lift (trimmed_response j) ;;
  notifyTelegram handle reply.

(** ** metrics.js *)

(** The counters, the histograms and the gauge of the registry; of a histogram, the
    number of durations it was given. *)
Record metrics := Metrics {
  trade_success : nat; trade_failure : nat; llm_success : nat; llm_failure : nat;
  trade_timed : nat; llm_timed : nat; firewall_hp : option json
}.

Inductive counter := TradeJobs | LlmJobs.

Definition inc (k : counter) (success : bool) (m : metrics) : metrics :=
  let '(Metrics ts tf ls lf to lo hp) := m in
  match k, success with
  | TradeJobs, true => Metrics (S ts) tf ls lf to lo hp
  | TradeJobs, false => Metrics ts (S tf) ls lf to lo hp
  | LlmJobs, true => Metrics ts tf (S ls) lf to lo hp
  | LlmJobs, false => Metrics ts tf ls (S lf) to lo hp
  end.

(** [end()] of the timer. *)
Definition observe (k : counter) (m : metrics) : metrics :=
  let '(Metrics ts tf ls lf to lo hp) := m in
  match k with
  | TradeJobs => Metrics ts tf ls lf (S to) lo hp
  | LlmJobs => Metrics ts tf ls lf to (S lo) hp
  end.

(** [withMetrics]: the outcome is counted and the time recorded, and an error passed
    on. *)
Definition withMetrics (k : counter) (jobFn : prog E unit) (m : metrics) (w : world E)
  : result unit * world E * metrics :=
  match jobFn w with
  | (Ok _, w') => (Ok tt, w', observe k (inc k true m))
  | (Throw e, w') => (Throw e, w', observe k (inc k false m))
  | (Exit c, w') => (Exit c, w', m)
  end.

(** The metrics server: the status of its answer, and whether it has the metrics. *)
Definition metrics_http (url : jsstr) : Z * bool :=
  if bool_decide (url = js "/metrics") then (200%Z, true) else (404%Z, false).

(** The callback of the subscription: an event of the firewall sets the gauge to
    its health; the gauge rejects what is no number; errors are swallowed. *)
Definition on_event (text : jsstr) (m : metrics) : metrics :=
  match parse text with
  | Some v =>
      match prop (Some v) (js "event") with
      | inr (Some (JStr ev)) =>
          if bool_decide (ev = js "firewall") then
            match field v (js "hp") with
            | Some (JNum x) => Metrics (trade_success m) (trade_failure m) (llm_success m)
                                 (llm_failure m) (trade_timed m) (llm_timed m) (Some (JNum x))
            | _ => m
            end
          else m
      | _ => m
      end
  | None => m
  end.

(** The processor of metrics.js: the same steps in another order. *)
Definition metrics_trade_job (c : solana) (notify : option json → jsstr → prog E unit)
    (data : json) : prog E unit :=
  cmd <- lift (prop (Some data) (js "cmd")) ;;
  handle <- lift (prop (Some data) (js "handle")) ;;
  wallet <- job_wallet handle ;;
  lamports <- lift (job_lamports cmd) ;;
  mint <- lift (job_mint cmd) ;;
  burn_fuel c wallet ;;
  route <- quoteSOLto mint lamports ;;
  executeSwap route wallet ;;
  store_balances handle wallet ;;
  notify handle
    (js "✅ [Trade] " ++ opt_toString (opt_prop cmd (js "t")) ++ js " "
     ++ opt_toString (opt_prop cmd (js "sol")) ++ js " SOL").

Definition metrics_llm_job (notify : option json → jsstr → prog E unit) (data : json)
  : prog E unit :=
  text <- lift (prop (Some data) (js "text")) ;;
  handle <- lift (prop (Some data) (js "handle")) ;;
  j <- fetch_json (ollama_request (llm_prompt text)) ;;
  reply <- lift (trimmed_response j) ;;
  notify handle reply.
End Worker.

Section Facts.
Context {E : Type} `{RE : RedisEntry E} `{EN : Env}.
Implicit Types w : world E.

(** The key pair of a job is never found: [getUser] deletes the wallet from what
    it returns, and parsing [undefined] is a syntax error. *)
Lemma job_wallet_fails handle w :
  ∃ e w', job_wallet handle w = (Throw e, w') ∧ sends (log w') = sends (log w).
Proof.
  unfold job_wallet, getUser, redis_hgetall. unfold bind at 1 2. rewrite read_eq.
  destruct (redis_fault (tick w)) as [e|]; [by eexists _, _|].
  destruct (e_hgetall _) as [|kv l]; [by eexists _, _|]. cbn [ret].
  rewrite kv_lookup_delete, bool_decide_true by done.
  by eexists _, _.
Qed.

(** The job is rejected and nothing was sent. *)
Definition rejected (m : prog E unit) w : Prop :=
  ∃ e w', m w = (Throw e, w') ∧ sends (log w') = sends (log w).

Lemma rejected_lift {A} (r : exn + A) (k : A → prog E unit) w :
  (∀ a, rejected (k a) w) → rejected (bind (lift r) k) w.
Proof. destruct r as [e|a]; intros Hk; [by eexists _, _|apply Hk]. Qed.

Lemma rejected_wallet handle (k : keypair → prog E unit) w : rejected (bind (job_wallet handle) k) w.
Proof.
  destruct (job_wallet_fails handle w) as (e & w' & He & Hs).
  exists e, w'. by rewrite (bind_throw _ _ _ _ _ He).
Qed.

(** C3. No trade job ever succeeds, in either worker, whatever the job, the user and
    the answers of the network: every one is rejected before the fuel is quoted,
    no transaction is submitted, and metrics.js counts a failure. *)
Theorem trade_jobs_never_execute c notify data m w :
  (∃ e w', trade_worker c data w = (Throw e, w') ∧ sends (log w') = sends (log w))
  ∧ (∃ e w', withMetrics TradeJobs (metrics_trade_job c notify data) m w
             = (Throw e, w', observe TradeJobs (inc TradeJobs false m))
             ∧ sends (log w') = sends (log w)).
Proof.
  split.
  - apply rejected_lift. intros cmd. apply rejected_lift. intros handle. apply rejected_wallet.
  - assert (rejected (metrics_trade_job c notify data) w) as (e & w' & He & Hs).
    { apply rejected_lift. intros cmd. apply rejected_lift. intros handle. apply rejected_wallet. }
    exists e, w'. unfold withMetrics. by rewrite He.
Qed.

(** The gauge follows the firewall: an event the firewall publishes sets
    [firewall_hp] to the health it carries and no counter changes. *)
Theorem gauge_follows_firewall t h m :
  hp_ok h →
  on_event (stringify (event_json (type_name t) h)) m
  = Metrics (trade_success m) (trade_failure m) (llm_success m) (llm_failure m)
            (trade_timed m) (llm_timed m) (Some (JNum h)).
Proof.
  intros (q & mx & -> & _ & Hwf & _). unfold on_event.
  assert (json_ok (event_json (type_name t) (Fin q))) as Hok.
  { apply ok_obj.
    - rewrite !Forall_cons. cbn [fst snd]. split; [|split; [|split; [|constructor]]];
        (split; [by repeat constructor|]).
      + apply ok_str. by repeat constructor.
      + apply ok_str. destruct t; by repeat constructor.
      + by apply ok_num.
    - by apply (bool_decide_eq_true_1 (NoDup [js "event"; js "type"; js "hp"])). }
  by rewrite parse_stringify.
Qed.

(** Jobs that finished, of a kind. *)
Definition finished (k : counter) (m : metrics) : nat :=
  match k with
  | TradeJobs => trade_success m + trade_failure m
  | LlmJobs => llm_success m + llm_failure m
  end.
Definition timed (k : counter) (m : metrics) : nat :=
  match k with TradeJobs => trade_timed m | LlmJobs => llm_timed m end.

(** Every job that ends, well or not, is counted once and timed once, under its own kind
    and no other; its outcome is passed on. *)
Theorem withMetrics_counts k job m w :
  let '(r, w', m') := withMetrics k job m w in
  (r, w') = job w
  ∧ ((∃ c, r = Exit c) ∨ finished k m' = S (finished k m) ∧ timed k m' = S (timed k m))
  ∧ ∀ k', k' ≠ k → finished k' m' = finished k' m ∧ timed k' m' = timed k' m.
Proof.
  unfold withMetrics. destruct (job w) as [[[]|e|c] w'], m, k; cbn;
    (split; [done|split; [first [by left; eauto|right; split; lia]|by intros []]]).
Qed.
End Facts.

Lemma gauge_follows_firewall_witness :
  on_event (stringify (event_json (type_name ISpam) (hp world0))) (Metrics 0 0 0 0 0 0 None)
  = Metrics 0 0 0 0 0 0 (Some (JNum (hp world0))).
Proof. exact (gauge_follows_firewall ISpam (hp world0) (Metrics 0 0 0 0 0 0 None) calm_hp_ok). Defined.
