(* ===== verification/ApiServer.v ===== *)
(** * api-server.js: tokens, validation and routes

    The daily-key JWTs, the [auth] middleware, the double-submit check, the zod
    schemas and the route handlers.  A request is what the handlers see after
    Express and the middlewares of [ApiStack]; csurf is a parameter.  A handler
    returns the status and the JSON it answers. *)

From Stdlib Require Import QArith.
From S2P Require Import Prelude JsString Regex JsNum JsText Json Bytes Assoc Effects Uint8.
From S2P Require Import RedisModel Db Memory Retry Firewall Solana Commands CommandFacts.

Local Open Scope prog_scope.

(** The constants the module computes when it is loaded. *)
Record api := Api { JWT_BASE_SECRET : jsstr }.

Record http_request := Http {
  h_method : jsstr; h_path : jsstr;
  h_authorization : option jsstr;   (* the header *)
  h_csrf : option jsstr;            (* the header x-csrf-token *)
  h_cookie : option jsstr;          (* the cookie CSRF_COOKIE *)
  h_query : json;                   (* the parsed query string *)
  h_others : list (jsstr * jsstr);  (* the other headers *)
  h_body : json
}.

Record http_response := Answer { status : Z; answer : json }.

Section Api.
Context {E : Type} `{RE : RedisEntry E} `{EN : Env}.

(** A secret of at least 32 characters, or a random one. *)
Definition api_load : prog E api :=
  match env_var (js "JWT_BASE_SECRET") with
  | Some s => if (32 <=? length s)%nat then ret (Api s)
              else n <- interact ;; ret (Api (hex_encode (random_answer n 32)))
  | None => n <- interact ;; ret (Api (hex_encode (random_answer n 32)))
  end.

(** ** Tokens *)

Definition jwtHeader : jsstr :=
  b64_encode true (utf8_encode (stringify
    (JObj [(js "alg", JStr (js "HS256")); (js "typ", JStr (js "JWT"))]))).

Definition token_error : exn := Error (js "token_error").

Definition dayKey (c : api) (day : num) : exn + bytes :=
  match hkdf_sha256 (utf8_encode (JWT_BASE_SECRET c)) (utf8_encode (toString day)) with
  | inl _ => inl token_error
  | inr k => inr k
  end.

Definition payload_json (handle : jsstr) (exp iat : num) : json :=
  JObj [(js "sub", JStr handle); (js "exp", JNum exp); (js "iat", JNum iat)].

Definition payload_text (handle : jsstr) (exp iat : num) : jsstr :=
  b64_encode true (utf8_encode (stringify (payload_json handle exp iat))).

(** The signature of a payload under a key. *)
Definition signature (key : bytes) (payload : jsstr) : jsstr :=
  b64_encode true (hmac_sha256 key (utf8_encode (jwtHeader ++ js "." ++ payload))).

Definition seconds (t : Z) : num := Math_floor (num_div (num_of_Z t) (num_of_Z 1000)).

Definition signToken (c : api) (handle : jsstr) : prog E jsstr :=
  try_catch
    (t1 <- date_now ;;
     t2 <- date_now ;;
     let payload := payload_text handle (num_add (seconds t1) (num_of_Z 7200)) (seconds t2) in
     t3 <- date_now ;;
     key <- lift (dayKey c (Math_floor (num_div (num_of_Z t3) (num_of_Z 86400000)))) ;;
     ret (jwtHeader ++ js "." ++ payload ++ js "." ++ signature key payload))
    (λ _, throw token_error).

(** [const { exp, sub } = v] *)
Definition claims_of (v : json) : exn + (option json * option json) :=
  match prop (Some v) (js "exp"), prop (Some v) (js "sub") with
  | inr e, inr s => inr (e, s)
  | inl x, _ | _, inl x => inl x
  end.

(** The checks of [verifyToken] on the payload and the signature, in its order. *)
Definition check_parts (c : api) (pl sig : jsstr) : prog E json :=
  v <- json_parse (utf8_decode (b64_decode pl)) ;;
  let* (exp, sub) := lift (claims_of v) in
  match exp, sub with
  | Some exp, Some sub =>
      if json_truthy exp && json_truthy sub then
        t <- date_now ;;
        if num_gt (num_div (num_of_Z t) (num_of_Z 1000)) (json_toNumber exp)
        then throw (Error (js "token_expired"))
        else
          key <- lift (dayKey c (Math_floor (num_div (json_toNumber exp) (num_of_Z 86400)))) ;;
          if bool_decide (utf8_encode sig = utf8_encode (signature key pl))
          then ret sub
          else throw (Error (js "invalid_signature"))
      else throw (Error (js "invalid_token_payload"))
  | _, _ => throw (Error (js "invalid_token_payload"))
  end.

Definition check_token (c : api) (tok : jsstr) : prog E json :=
  let parts := split tok (js ".") in
  match parts !! 1%nat, parts !! 2%nat with
  | Some pl, Some sig =>
      if non_empty pl && non_empty sig then check_parts c pl sig
      else throw (Error (js "invalid_token_format"))
  | _, _ => throw (Error (js "invalid_token_format"))
  end.

Definition verifyToken (c : api) (tok : jsstr) : prog E json :=
  try_catch (check_token c tok) (λ _, throw token_error).

(** [(header || '').replace(/^Bearer /, '')] *)
Definition bearer (h : option jsstr) : jsstr :=
  let s := default [] h in
  if startsWith s (js "Bearer ") then drop 7 s else s.

Definition error_json (error : jsstr) (details : option jsstr) : json :=
  JObj ((js "error", JStr error)
        :: match details with Some d => [(js "details", JStr d)] | None => [] end).

(** The middleware: an answer, or the user for the next handler. *)
Definition auth (c : api) (r : http_request) : prog E (http_response + json) :=
  let token := bearer (h_authorization r) in
  match token with
  | [] => ret (inl (Answer 401 (error_json (js "unauthorized") (Some (js "No token provided")))))
  | _ =>
      try_catch (u <- verifyToken c token ;; ret (inr u))
        (λ e, ret (inl (Answer 401 (error_json (js "unauthorized")
           (Some (if bool_decide (message e = js "token_expired") then js "Token expired"
                  else js "Invalid token"))))))
  end.

(** ** Validation *)

Definition str_field (v : json) (k : jsstr) : option jsstr :=
  match v with
  | JObj o => match assoc o k with Some (JStr s) => Some s | _ => None end
  | _ => None
  end.

Definition one_of (s : jsstr) (l : list jsstr) : bool := existsb (λ x, bool_decide (x = s)) l.

(** [z.string().min(2).max(32).regex(/^@[a-zA-Z0-9_]+$/)] *)
Definition valid_handle (s : jsstr) : bool :=
  ((2 <=? length s) && (length s <=? 32))%nat
  && match s with
     | c :: rest => (c =? 64)%N && non_empty rest && forallb is_word rest
     | [] => false
     end.

Definition schemaAuth (v : json) : option (jsstr * jsstr) :=
  match str_field v (js "handle"), str_field v (js "method") with
  | Some h, Some m =>
      if valid_handle h && one_of m [js "telegram"; js "twitter"] then Some (h, m) else None
  | _, _ => None
  end.

Definition schemaAuto (v : json) : option bool :=
  match v with
  | JObj o => match assoc o (js "on") with Some (JBool b) => Some b | _ => None end
  | _ => None
  end.

Definition schemaRisk (v : json) : option jsstr :=
  match str_field v (js "level") with
  | Some l => if one_of l [js "low"; js "med"; js "high"] then Some l else None
  | None => None
  end.

Definition num_field (v : json) (k : jsstr) : option num :=
  match v with
  | JObj o => match assoc o k with Some (JNum x) => Some x | _ => None end
  | _ => None
  end.

Definition schemaTrade (v : json) : option (side * jsstr * num) :=
  match str_field v (js "side"), str_field v (js "mint"), num_field v (js "sol") with
  | Some sd, Some m, Some s =>
      if one_of sd [js "buy"; js "sell"] && ((length m =? 44)%nat && forallb is_alnum m)
         && (num_gt s (Fin 0) && num_ge (num_of_Z 10) s)
      then Some (if bool_decide (sd = js "buy") then Buy else Sell, m, s)
      else None
  | _, _, _ => None
  end.

(** ** Routes *)

Definition server_error : http_response := Answer 500 (error_json (js "server_error") None).
Definition invalid : http_response := Answer 400 (error_json (js "invalid") None).

(** [try { ... } catch (err) { 500 }] *)
Definition or_500 (m : prog E http_response) : prog E http_response :=
  try_catch m (λ _, ret server_error).

(** Login; the details of a validation error are zod's. *)
Definition post_auth (c : api) (r : http_request) : prog E http_response :=
  match schemaAuth (h_body r) with
  | None => ret invalid
  | Some (handle, m) =>
      try_catch
        (token <- signToken c (toLowerCase handle) ;;
         ret (Answer 200 (JObj [(js "token", JStr token); (js "expiresIn", JNum (num_of_Z 7200));
                                (js "method", JStr m)])))
        (λ _, ret (Answer 500 (error_json (js "token_error")
                (Some (js "Failed to generate authentication token")))))
  end.

Definition prefs_json (p : bool * jsstr) : json :=
  JObj [(js "autoTrade", JBool p.1); (js "risk", JStr p.2)].

Definition portfolio_json (p : portfolio) : json :=
  JObj [(js "sol", JNum (p_sol p)); (js "solUsd", JStr (p_solUsd p));
        (js "tokens", JArr (token_json <$> p_tokens p)); (js "totalUsd", JStr (p_totalUsd p))].

Definition get_wallet (user : jsstr) : prog E http_response :=
  or_500 (a <- walletOf user ;; ret (Answer 200 (JObj [(js "addr", JStr a)]))).

Definition get_balance (user : jsstr) : prog E http_response :=
  or_500 (let* (s, tier) := balanceOf user in
          ret (Answer 200 (JObj [(js "sol", JStr s); (js "tier", JNum tier)]))).

Definition get_portfolio (user : jsstr) : prog E http_response :=
  or_500 (p <- getPortfolio user ;; ret (Answer 200 (portfolio_json p))).

Definition get_sol_price : prog E http_response :=
  or_500 (p <- fetchSolPrice ;;
          ret (Answer 200 (JObj [(js "price", default JNull p)]))).

Definition post_auto (user : jsstr) (body : json) : prog E http_response :=
  or_500 (match schemaAuto body with
          | None => ret invalid
          | Some on => p <- toggleAuto user (Some on) ;; ret (Answer 200 (prefs_json p))
          end).

Definition post_risk (user : jsstr) (body : json) : prog E http_response :=
  or_500 (match schemaRisk body with
          | None => ret invalid
          | Some l => p <- setRisk user l ;; ret (Answer 200 (prefs_json p))
          end).

(** The message of a trade: the amount of the request is not part of it. *)
Definition trade_message (user : jsstr) (t : side) (mint : jsstr) : msg :=
  Message (Some (match t with
                 | Buy => js "BTN::QBUY::" ++ mint ++ js "::" ++ user
                 | Sell => js "BTN::QSELL::" ++ mint ++ js "::" ++ user
                 end)) None (Some user) (Some (λ _ _, None)).

Definition post_trade (user : jsstr) (body : json) : prog E http_response :=
  or_500 (match schemaTrade body with
          | None => ret invalid
          | Some (t, mint, _) =>
              handleMessage (trade_message user t mint) ;;
              ret (Answer 200 (JObj [(js "queued", JBool true)]))
          end).

(** A path without one slash at its end, which Express ignores as its strict routing is
    off; the root path keeps it. *)
Definition strip_slash (p : jsstr) : jsstr :=
  match rev p with
  | 47%N :: (_ :: _) as q => rev (tail q)
  | _ => p
  end.

(** Whether Express runs the handler of [app.get(p, ...)] or [app.post(p, ...)]: case
    does not matter in the path, and a handler of GET serves HEAD too. *)
Definition is_route (r : http_request) (m p : string) : bool :=
  (bool_decide (h_method r = js m)
   || (bool_decide (js m = js "GET") && bool_decide (h_method r = js "HEAD")))
  && bool_decide (toLowerCase (strip_slash (h_path r)) = js p).

(** The routes behind the protection, in their order. *)
Definition protected_routes (r : http_request) (user : jsstr) (uptime : num)
  : prog E http_response :=
  if is_route r "GET" "/wallet" then get_wallet user
  else if is_route r "GET" "/balance" then get_balance user
  else if is_route r "GET" "/portfolio" then get_portfolio user
  else if is_route r "GET" "/sol-price" then get_sol_price
  else if is_route r "POST" "/auto" then post_auto user (h_body r)
  else if is_route r "POST" "/risk" then post_risk user (h_body r)
  else if is_route r "POST" "/trade" then post_trade user (h_body r)
  else if is_route r "GET" "/health" then
    t <- date_now ;;
    ret (Answer 200 (JObj [(js "status", JStr (js "healthy")); (js "uptime", JNum uptime);
                           (js "timestamp", JNum (num_of_Z t))]))
  else ret (Answer 404 JNull).

(** The double-submit check of the header against the cookie. *)
Definition csrf_match (r : http_request) : bool :=
  let token := default [] (h_csrf r) in
  let stored := default [] (h_cookie r) in
  non_empty token && non_empty stored && bool_decide (token = stored).

(** What the error handler answers. *)
Definition unexpected : http_response :=
  Answer 500 (error_json (js "server_error") (Some (js "An unexpected error occurred"))).

Definition csurf (r : http_request) : option exn :=
  csurf_fault (h_method r) (h_cookie r) (h_body r) (h_csrf r) (h_query r) (h_others r).

Definition handle_http (c : api) (r : http_request) (uptime : num) : prog E http_response :=
  if is_route r "POST" "/auth" then
    match csurf r with
    | Some _ => ret unexpected
    | None => post_auth c r
    end
  else
    u <- auth c r ;;
    match u with
    | inl a => ret a
    | inr user =>
        match csurf r with
        | Some _ => ret unexpected
        | None =>
            if csrf_match r then protected_routes r (json_toString user) uptime
            else ret (Answer 403 (error_json (js "csrf") None))
        end
    end.
End Api.
