(* ===== verification/ApiStack.v ===== *)
(** * api-server.js: the environment and the middlewares

    The environment schema and the stack a request passes before [handle_http]:
    sanitisers, body parser, CORS, rate limit and CSRF cookie, in their order.  The
    libraries are the parameters of [StackEnv]; middlewares that only set headers or
    write a log are left out. *)

From Stdlib Require Import QArith.
From S2P Require Import Prelude JsString Regex JsNum JsText Json Bytes Assoc Effects Uint8.
From S2P Require Import RedisModel Db Memory Retry Firewall Solana Commands CommandFacts ApiServer.

Local Open Scope prog_scope.

Class StackEnv := {
  url_ok : jsstr → bool;                           (* zod's url() *)
  xss : jsstr → jsstr;                             (* xss(s) *)
  mongo_sanitize : json → json;                    (* mongoSanitize.sanitize, in place *)
  rate_limit : nat → jsstr → exn + option http_response;
                     (* express-rate-limit over its Redis store, for an address *)
}.

(** ** The schema of the environment *)

Record settings := Settings {
  REDIS_URL : jsstr; API_PORT : num; CORS_ORIGIN : option jsstr; RATE_LIMIT_POINTS : num;
  RATE_LIMIT_WINDOW : num; CSRF_COOKIE : jsstr; LOG_LEVEL : jsstr; secrets : api
}.

Definition log_levels : list jsstr := [js "error"; js "warn"; js "info"; js "debug"].

Definition trusted_prefixes : list jsstr := [js "10."; js "172.16."; js "192.168."].

(** The addresses trusted as proxies. *)
Definition trust_proxy (ip : jsstr) : bool :=
  bool_decide (ip = js "127.0.0.1") || bool_decide (ip = js "::1")
  || existsb (startsWith ip) trusted_prefixes.

(** ** The sanitisers *)

Section Scrub.
Context `{SE : StackEnv}.

(** The strings inside an object or an array; [scrub] of anything else is nothing. *)
Fixpoint scrub_value (v : json) : json :=
  match v with
  | JStr s => JStr (xss s)
  | JArr l => JArr (map scrub_value l)
  | JObj l => JObj (map (λ kv, (kv.1, scrub_value kv.2)) l)
  | v => v
  end.

Definition scrub (v : json) : json :=
  match v with JArr _ | JObj _ => scrub_value v | v => v end.

(** What a middleware makes of the body so far, given what the client sent. *)
Definition stage : Type := json → option json → option json.

Definition sanitize_stage : stage := λ _ body, mongo_sanitize <$> body.
Definition scrub_stage : stage := λ _ body, scrub <$> body.
Definition json_stage : stage := λ sent _, Some sent.

(** In the order of the source. *)
Definition body_stages : list stage := [sanitize_stage; scrub_stage; json_stage].

Definition body_after (stages : list stage) (sent : json) : option json :=
  foldl (λ body (s : stage), s sent body) None stages.
End Scrub.

(** ** The stack *)

(** A request before the stack: its body as the client sent it, or the parser's error. *)
Record arrival := Arrival { a_ip : jsstr; a_sent : exn + json; a_request : http_request }.

Definition with_body (r : http_request) (b : json) : http_request :=
  Http (h_method r) (h_path r) (h_authorization r) (h_csrf r) (h_cookie r) (h_query r) (h_others r) b.

Section Stack.
Context {E : Type} `{RE : RedisEntry E} `{EN : Env} `{SE : StackEnv}.

(** [z.string()] with a check and a default. *)
Definition z_string (name : jsstr) (ok : jsstr → bool) (d : jsstr) : option jsstr :=
  match env_var name with
  | None => Some d
  | Some s => if ok s then Some s else None
  end.

(** [z.coerce.number().default(d)] *)
Definition z_number (name : jsstr) (d : Z) : option num :=
  match env_var name with
  | None => Some (num_of_Z d)
  | Some s => match toNumber s with NaN => None | x => Some x end
  end.

(** [z.string().url().optional()] *)
Definition z_optional_url (name : jsstr) : option (option jsstr) :=
  match env_var name with
  | None => Some None
  | Some s => if url_ok s then Some (Some s) else None
  end.

(** [envSchema.parse(process.env)], or the end of the process. *)
Definition load_settings : prog E settings :=
  secret <- api_load ;;
  match z_string (js "REDIS_URL") url_ok (js "redis://localhost:6379"),
        z_number (js "API_PORT") 4000, z_optional_url (js "CORS_ORIGIN"),
        z_number (js "RATE_LIMIT_POINTS") 200, z_number (js "RATE_LIMIT_WINDOW") 900,
        z_string (js "CSRF_COOKIE") (λ _, true) (js "csrf_tok"),
        z_string (js "LOG_LEVEL") (λ s, one_of s log_levels) (js "info") with
  | Some url, Some port, Some cors, Some points, Some window, Some cookie, Some level =>
      ret (Settings url port cors points window cookie level secret)
  | _, _, _, _, _, _, _ => exit 1
  end.

(** A fresh value for the CSRF cookie, if the request has none. *)
Definition csrf_cookie (r : http_request) : prog E (option jsstr) :=
  match h_cookie r with
  | Some (_ :: _) => ret None
  | _ => n <- interact ;; ret (Some (hex_encode (random_answer n 32)))
  end.

(** The answer to a request, and the CSRF cookie it sets. *)
Definition serve (s : settings) (a : arrival) (uptime : num)
  : prog E (http_response * option jsstr) :=
  match a_sent a with
  | inl _ => ret (unexpected, None)
  | inr sent =>
      let r := with_body (a_request a) (default JNull (body_after body_stages sent)) in
      if bool_decide (h_method r = js "OPTIONS") then ret (Answer 200 JNull, None)
      else
        n <- interact ;;
        match rate_limit n (a_ip a) with
        | inl _ => ret (unexpected, None)
        | inr (Some refusal) => ret (refusal, None)
        | inr None =>
            cookie <- csrf_cookie r ;;
            answer <- handle_http (secrets s) r uptime ;;
            ret (answer, cookie)
        end
  end.
End Stack.

(** ** Facts *)

Section Facts.
Context {E : Type} `{RE : RedisEntry E} `{EN : Env} `{EL : !EnvLaws} `{SE : StackEnv}.
Implicit Types w : world E.

Definition settings_ok (s : settings) : Prop :=
  (REDIS_URL s = js "redis://localhost:6379" ∨ url_ok (REDIS_URL s) = true)
  ∧ (∀ u, CORS_ORIGIN s = Some u → url_ok u = true)
  ∧ API_PORT s ≠ NaN ∧ RATE_LIMIT_POINTS s ≠ NaN ∧ RATE_LIMIT_WINDOW s ≠ NaN
  ∧ LOG_LEVEL s ∈ log_levels ∧ (32 <= length (JWT_BASE_SECRET (secrets s)))%nat.

(** A variable the schema rejects. *)
Definition rejected_var (name v : jsstr) : Prop :=
  name ∈ [js "REDIS_URL"; js "CORS_ORIGIN"] ∧ url_ok v = false
  ∨ name ∈ [js "API_PORT"; js "RATE_LIMIT_POINTS"; js "RATE_LIMIT_WINDOW"] ∧ toNumber v = NaN
  ∨ name = js "LOG_LEVEL" ∧ v ∉ log_levels.

Lemma z_number_spec name d :
  match z_number name d with
  | Some x => x ≠ NaN
  | None => ∃ v, env_var name = Some v ∧ toNumber v = NaN
  end.
Proof.
  unfold z_number. destruct (env_var name) as [s|].
  - destruct (toNumber s) eqn:Hs; [by eexists|done..].
  - unfold num_of_Z, fl. by destruct (Qle_bool _ _).
Qed.

Lemma z_string_spec name ok d :
  match z_string name ok d with
  | Some s => s = d ∨ ok s = true
  | None => ∃ v, env_var name = Some v ∧ ok v = false
  end.
Proof.
  unfold z_string. destruct (env_var name) as [s|]; [|by left].
  destruct (ok s) eqn:Hs; [by right|eauto].
Qed.

Lemma z_optional_url_spec name :
  match z_optional_url name with
  | Some o => ∀ u, o = Some u → url_ok u = true
  | None => ∃ v, env_var name = Some v ∧ url_ok v = false
  end.
Proof.
  unfold z_optional_url. destruct (env_var name) as [s|]; [|done].
  destruct (url_ok s) eqn:Hs; [by intros u [= <-]|eauto].
Qed.

Lemma one_of_elem s l : one_of s l = true ↔ s ∈ l.
Proof.
  unfold one_of. rewrite existsb_exists. setoid_rewrite bool_decide_eq_true.
  rewrite list_elem_of_In. naive_solver.
Qed.

Lemma api_load_spec w :
  ∃ c w', api_load w = (Ok c, w') ∧ (32 <= length (JWT_BASE_SECRET c))%nat.
Proof.
  assert (∃ c w', (n <- interact ;; ret (Api (hex_encode (random_answer n 32)))) w = (Ok c, w')
    ∧ (32 <= length (JWT_BASE_SECRET c))%nat) as Hr.
  { eexists _, _. split; [reflexivity|]. cbn [JWT_BASE_SECRET].
    rewrite hex_encode_length, random_length. lia. }
  unfold api_load. destruct (env_var _) as [s|]; [|done].
  destruct (32 <=? length s)%nat eqn:Hs; [|done]. apply Nat.leb_le in Hs. by eexists _, _.
Qed.

(** C39. Loading either ends the process with code 1, and then some variable is set to what
    the schema rejects, or gives settings of the declared types: URLs, numbers, a log
    level, and a signing secret of at least 32 characters. *)
Theorem load_settings_typed w :
  match (load_settings w).1 with
  | Ok s => settings_ok s
  | Exit c => c = 1%Z ∧ ∃ name v, env_var name = Some v ∧ rejected_var name v
  | Throw _ => False
  end.
Proof.
  destruct (api_load_spec w) as (c & w' & Hc & Hlen). unfold load_settings.
  rewrite (bind_ok _ _ _ _ _ Hc).
  pose proof (z_string_spec (js "REDIS_URL") url_ok (js "redis://localhost:6379")) as H1.
  pose proof (z_number_spec (js "API_PORT") 4000) as H2.
  pose proof (z_optional_url_spec (js "CORS_ORIGIN")) as H3.
  pose proof (z_number_spec (js "RATE_LIMIT_POINTS") 200) as H4.
  pose proof (z_number_spec (js "RATE_LIMIT_WINDOW") 900) as H5.
  pose proof (z_string_spec (js "CSRF_COOKIE") (λ _, true) (js "csrf_tok")) as H6.
  pose proof (z_string_spec (js "LOG_LEVEL") (λ s, one_of s log_levels) (js "info")) as H7.
  unfold rejected_var.
  destruct (z_string (js "REDIS_URL") _ _) as [url|].
  2: { destruct H1 as (v & Hv & Hu). split; [done|]. exists (js "REDIS_URL"), v. set_solver. }
  destruct (z_number (js "API_PORT") _) as [port|].
  2: { destruct H2 as (v & Hv & Hu). split; [done|]. exists (js "API_PORT"), v. set_solver. }
  destruct (z_optional_url _) as [cors|].
  2: { destruct H3 as (v & Hv & Hu). split; [done|]. exists (js "CORS_ORIGIN"), v. set_solver. }
  destruct (z_number (js "RATE_LIMIT_POINTS") _) as [points|].
  2: { destruct H4 as (v & Hv & Hu). split; [done|]. exists (js "RATE_LIMIT_POINTS"), v. set_solver. }
  destruct (z_number (js "RATE_LIMIT_WINDOW") _) as [window|].
  2: { destruct H5 as (v & Hv & Hu). split; [done|]. exists (js "RATE_LIMIT_WINDOW"), v. set_solver. }
  destruct (z_string (js "CSRF_COOKIE") _ _) as [cookie|]; [|by destruct H6 as (v & _ & [=])].
  destruct (z_string (js "LOG_LEVEL") _ _) as [level|].
  2: { destruct H7 as (v & Hv & Hu). split; [done|]. exists (js "LOG_LEVEL"), v. split; [done|].
       right; right. split; [done|]. rewrite <- one_of_elem. by rewrite Hu. }
  repeat (split; [done|]). split; [|done]. cbn. destruct H7 as [->|H7]; [|by apply one_of_elem].
  refine (bool_decide_unpack _ _). vm_compute. exact I.
Qed.

(** ** The filters do nothing *)

(** A stack whose filters are the identity. *)
Definition unfiltered : StackEnv :=
  {| url_ok := url_ok; xss s := s; mongo_sanitize v := v; rate_limit := rate_limit |}.

(** The sanitisers have no effect on any request: they run before the body parser, so
    a server without them answers every request in the same way, with the same effects. *)
Theorem filters_are_inert s a uptime w :
  serve (SE:=SE) s a uptime w = serve (SE:=unfiltered) s a uptime w.
Proof. unfold serve. by destruct (a_sent a). Qed.

(** Had they run after it, every string of the body would be filtered. *)
Fixpoint strings (v : json) : list jsstr :=
  match v with
  | JStr s => [s]
  | JArr l => concat (map strings l)
  | JObj l => concat (map (λ kv, strings kv.2) l)
  | _ => []
  end.

Lemma scrub_strings v : strings (scrub_value v) = xss <$> strings v.
Proof.
  induction v as [|b|x|s|l IH|l IH] using json_ind; try done; cbn [scrub_value strings].
  - rewrite map_map. induction IH as [|v l Hv _ IHl]; [done|].
    cbn. rewrite fmap_app. by rewrite Hv, IHl.
  - rewrite map_map. cbn [snd]. induction IH as [|v l Hv _ IHl]; [done|].
    cbn. rewrite fmap_app. by rewrite Hv, IHl.
Qed.

Lemma filters_after_parser sent :
  (∀ v, mongo_sanitize v = v) → (∀ s, sent ≠ JStr s) →
  strings <$> body_after [json_stage; sanitize_stage; scrub_stage] sent = Some (xss <$> strings sent).
Proof.
  intros Hm Hs. cbn. rewrite Hm. f_equal. destruct sent; try done; [by destruct (Hs s)|..];
    by rewrite <- scrub_strings.
Qed.

(** ** The CSRF cookie *)

(** The cookie a first request is given is accepted when it comes back in the cookie
    and in the header, and a request without a cookie never passes the comparison. *)
Theorem csrf_cookie_accepted r w r' :
  default [] (h_cookie r) = [] →
  csrf_match r = false
  ∧ ∃ t, (csrf_cookie r w).1 = Ok (Some t)
    ∧ (h_cookie r' = Some t → h_csrf r' = Some t → csrf_match r' = true).
Proof.
  intros Hc. split; [unfold csrf_match; rewrite Hc; by rewrite andb_false_r|].
  assert (∀ t, length t = 64%nat → h_cookie r' = Some t → h_csrf r' = Some t → csrf_match r' = true)
    as Ht.
  { intros [|c t] Hl H1 H2; [done|]. unfold csrf_match. rewrite H1, H2. cbn.
    by rewrite bool_decide_true. }
  unfold csrf_cookie. destruct (h_cookie r) as [[|x y]|]; [|done|];
    (eexists; split; [reflexivity|]; apply Ht; by rewrite hex_encode_length, random_length).
Qed.
End Facts.

(** ** In a calm world *)

#[export] Instance calm_stack : StackEnv :=
  {| url_ok _ := true; xss s := filter (λ c, c ≠ 60%N) s; mongo_sanitize v := v;
     rate_limit _ _ := inr None |}.

Lemma load_settings_typed_witness :
  match (load_settings world0).1 with
  | Ok s => settings_ok s
  | Exit c => c = 1%Z ∧ ∃ name v, env_var name = Some v ∧ rejected_var name v
  | Throw _ => False
  end ∧ is_Some (match (load_settings world0).1 with Ok s => Some s | _ => None end).
Proof. split; [exact (load_settings_typed world0)|vm_compute; by eexists]. Defined.

Lemma csrf_cookie_accepted_witness :
  csrf_match (Http (js "GET") (js "/wallet") None None None JNull [] JNull) = false.
Proof.
  apply (csrf_cookie_accepted (Http (js "GET") (js "/wallet") None None None JNull [] JNull) world0
    (Http (js "GET") (js "/wallet") None None None JNull [] JNull)).
  reflexivity.
Defined.
