(* ===== verification/ApiFacts.v ===== *)
(** * Properties of api-server.js

    When a token is accepted, what authentication guarantees, and what the routes
    queue. *)

From Stdlib Require Import QArith Lqa.
From S2P Require Import Prelude JsString Regex JsNum JsText Json Bytes Assoc Effects Uint8.
From S2P Require Import RedisModel Db Memory Retry Firewall Solana Commands CommandFacts ApiServer.

Local Open Scope prog_scope.

(** ** Texts *)

Lemma b64_unit_ascii url d : (d < 64)%N → (b64_unit url d < 128)%N.
Proof.
  intros Hd. apply N.ltb_lt.
  apply (N_below_forallb (λ d, b64_unit url d <? 128)%N 64); [|done].
  destruct url; vm_compute; reflexivity.
Qed.

Lemma b64_ascii bs : bytes_ok bs → ascii_ok (b64_encode true bs).
Proof.
  induction bs as [|a|a b|a b c r IH] using bytes_ind3; intros Hok; cbn [b64_encode].
  - constructor.
  - apply Forall_cons in Hok as [Ha _].
    destruct (b64_group a 0 0 Ha ltac:(done) ltac:(done)) as ((H0 & H1 & _) & _).
    rewrite N.Div0.div_0_l, N.add_0_r in *. repeat constructor; by apply b64_unit_ascii.
  - apply Forall_cons in Hok as [Ha [Hb _]%Forall_cons].
    destruct (b64_group a b 0 Ha Hb ltac:(done)) as ((H0 & H1 & H2 & _) & _).
    rewrite N.Div0.div_0_l, N.add_0_r in *. repeat constructor; by apply b64_unit_ascii.
  - apply Forall_cons in Hok as [Ha [Hb [Hc Hr]%Forall_cons]%Forall_cons].
    destruct (b64_group a b c Ha Hb Hc) as ((H0 & H1 & H2 & H3) & _).
    repeat constructor; by apply b64_unit_ascii || apply IH.
Qed.

Lemma ascii_bytes s : ascii_ok s → bytes_ok s.
Proof. intros H. eapply Forall_impl; [exact H|]. cbn. lia. Qed.

Section Tokens.
Context {E : Type} `{RE : RedisEntry E} `{EN : Env} `{EL : !EnvLaws}.
Implicit Types w : world E.

Definition int (z : Z) : num := Fin (inject_Z z).

Lemma int_wf z : (Z.abs z <= 2 ^ 53)%Z → num_wf (int z).
Proof. intros Hz. cbn. by apply fl_Z. Qed.

Lemma payload_ascii h a b :
  ascii_ok h → (Z.abs a <= 2 ^ 53)%Z → (Z.abs b <= 2 ^ 53)%Z →
  ascii_ok (stringify (payload_json h (int a) (int b))).
Proof.
  intros Hh Ha Hb. apply obj_ascii. rewrite !Forall_cons. cbn [fst snd].
  split; [|split; [|split; [|constructor]]]; (split; [by repeat constructor|]).
  - by apply quote_ascii.
  - by apply toString_ascii, int_wf.
  - by apply toString_ascii, int_wf.
Qed.

Lemma payload_ok h a b :
  ascii_ok h → (Z.abs a <= 2 ^ 53)%Z → (Z.abs b <= 2 ^ 53)%Z →
  json_ok (payload_json h (int a) (int b)).
Proof.
  intros Hh Ha Hb. apply ok_obj.
  - rewrite !Forall_cons. cbn [fst snd].
    split; [|split; [|split; [|constructor]]]; (split; [by repeat constructor|]).
    + apply ok_str. eapply Forall_impl; [exact Hh|]. cbn. lia.
    + apply ok_num. by apply int_wf.
    + apply ok_num. by apply int_wf.
  - by apply (bool_decide_eq_true_1 (NoDup [js "sub"; js "exp"; js "iat"])).
Qed.

(** The payload of a token decodes to its claims. *)
Lemma payload_decodes h a b :
  ascii_ok h → (Z.abs a <= 2 ^ 53)%Z → (Z.abs b <= 2 ^ 53)%Z →
  parse (utf8_decode (b64_decode (payload_text h (int a) (int b))))
  = Some (payload_json h (int a) (int b)).
Proof.
  intros Hh Ha Hb. unfold payload_text. pose proof (payload_ascii h a b Hh Ha Hb) as Hasc.
  rewrite utf8_encode_ascii by done. rewrite b64_roundtrip by (by apply ascii_bytes).
  rewrite utf8_decode_ascii by done. by apply parse_stringify, payload_ok.
Qed.

Lemma token_split pl key :
  Forall (λ c, c ≠ 46%N) pl →
  split (jwtHeader ++ js "." ++ pl ++ js "." ++ signature key pl) (js ".")
  = [jwtHeader; pl; signature key pl].
Proof.
  intros Hpl. change (js ".") with [46%N].
  rewrite (split_app_sep 46 []) by (by apply (bool_decide_eq_true_1 (Forall (λ c, c ≠ 46%N) _))).
  rewrite (split_app_sep 46 []) by done.
  by rewrite (split_no_sep 46 []) by (apply b64url_no_dot, hmac_bytes).
Qed.

(** ** Times *)

(** When a token signed from [w] expires, in seconds, and its two days. *)
Definition sign_exp w : Z := (now (pass w) / 1000 + 7200)%Z.
Definition sign_iat w : Z := (now (pass (pass w)) / 1000)%Z.
Definition sign_day w : Z := (now (pass (pass (pass w))) / 86400000)%Z.
Definition exp_day w : Z := (sign_exp w / 86400)%Z.

(** The clock is after 1970 and before the year 33000. *)
Definition clock_ok w : Prop := (0 <= now w)%Z ∧ (now (pass (pass (pass w))) <= 1000000000000000)%Z.

Lemma pass_le w : (now w <= now (pass w))%Z.
Proof. cbn. lia. Qed.

Lemma seconds_Z t : (0 <= t <= 1000000000000000)%Z → seconds t = int (t / 1000).
Proof.
  intros Ht. unfold seconds. rewrite !num_of_Z_small by lia.
  apply (floor_div_Z t 1000 10); [lia..|].
  assert (t / 1000 <= 1000000000000)%Z by (apply Z.div_le_upper_bound; lia). lia.
Qed.

Lemma day_Z t :
  (0 <= t <= 1000000000000000)%Z →
  Math_floor (num_div (num_of_Z t) (num_of_Z 86400000)) = int (t / 86400000).
Proof.
  intros Ht. rewrite !num_of_Z_small by lia.
  apply (floor_div_Z t 86400000 27); [lia..|].
  assert (t / 86400000 <= 11574075)%Z by (apply Z.div_le_upper_bound; lia). lia.
Qed.

Lemma exp_day_Z e :
  (0 <= e <= 10000000000000)%Z → Math_floor (num_div (int e) (num_of_Z 86400)) = int (e / 86400).
Proof.
  intros He. rewrite num_of_Z_small by lia.
  apply (floor_div_Z e 86400 17); [lia..|].
  assert (e / 86400 <= 115740741)%Z by (apply Z.div_le_upper_bound; lia). lia.
Qed.

(** A clock reading up to the expiry is not after it. *)
Lemma not_expired t e :
  (0 <= t <= 1000 * e)%Z → (e <= 9000000000000)%Z →
  num_gt (num_div (num_of_Z t) (num_of_Z 1000)) (int e) = false.
Proof.
  intros Ht He. rewrite !num_of_Z_small by lia. unfold num_div.
  change (Qeq_bool (inject_Z 1000) 0) with false. cbn iota.
  assert (0 <= inject_Z t / inject_Z 1000)%Q as H0.
  { apply Qle_shift_div_l; [done|]. rewrite Qmult_0_l. change 0%Q with (inject_Z 0).
    rewrite <- Zle_Qle. lia. }
  assert (inject_Z t / inject_Z 1000 <= inject_Z e)%Q as H1.
  { apply Qle_shift_div_r; [done|]. rewrite <- inject_Z_mult, <- Zle_Qle. lia. }
  pose proof (rnd_mono _ _ H0 H1) as Hr. rewrite rnd_Z_eq in Hr by lia.
  pose proof (rnd_nonneg _ H0) as Hn. rewrite fl_of_rnd.
  - unfold num_gt, num_lt, num_compare, int. destruct (Qcompare_spec (inject_Z e)
      (rnd (inject_Z t / inject_Z 1000))); [done| |done]. exfalso. lra.
  - rewrite Qabs.Qabs_pos by done. eapply Qle_lt_trans; [exact Hr|].
    rewrite pow2_Z, <- Zlt_Qlt by lia. lia.
Qed.

(** ** Signing and verifying *)

(** The token [signToken] makes from [w] under a key. *)
Definition payload_of handle w : jsstr := payload_text handle (int (sign_exp w)) (int (sign_iat w)).
Definition token_of handle key w : jsstr :=
  jwtHeader ++ js "." ++ payload_of handle w ++ js "." ++ signature key (payload_of handle w).

Lemma sign_bounds w :
  clock_ok w →
  (0 <= now (pass w) <= 1000000000000000)%Z ∧ (0 <= now (pass (pass w)) <= 1000000000000000)%Z
  ∧ (0 <= now (pass (pass (pass w))) <= 1000000000000000)%Z
  ∧ (7200 <= sign_exp w <= 1000000007200)%Z ∧ (0 <= sign_iat w <= 1000000000000)%Z.
Proof.
  intros [H0 H1]. pose proof (pass_le w). pose proof (pass_le (pass w)).
  pose proof (pass_le (pass (pass w))). unfold sign_exp, sign_iat.
  assert (0 <= now (pass w) / 1000 <= 1000000000000)%Z
    by (split; [apply Z.div_pos; lia|apply Z.div_le_upper_bound; lia]).
  assert (0 <= now (pass (pass w)) / 1000 <= 1000000000000)%Z
    by (split; [apply Z.div_pos; lia|apply Z.div_le_upper_bound; lia]).
  lia.
Qed.

Lemma sign_run c handle key w :
  clock_ok w → dayKey c (int (sign_day w)) = inr key →
  signToken c handle w = (Ok (token_of handle key w), pass (pass (pass w))).
Proof.
  intros Hc Hk. destruct (sign_bounds w Hc) as (H1 & H2 & H3 & H4 & H5).
  unfold signToken, try_catch. rewrite !(bind_ok _ _ _ _ _ (date_now_eq _)). cbv zeta.
  rewrite day_Z by exact H3. fold (sign_day w).
  erewrite bind_ok by (by rewrite Hk).
  unfold ret, token_of, payload_of.
  rewrite (seconds_Z (now (pass w))), (seconds_Z (now (pass (pass w)))) by done.
  rewrite (num_of_Z_small 7200) by lia. unfold int, sign_exp, sign_iat in *.
  rewrite num_add_Z by lia. reflexivity.
Qed.

Lemma payload_no_dot handle w :
  ascii_ok handle → clock_ok w → Forall (λ c, c ≠ 46%N) (payload_of handle w).
Proof.
  intros Hh Hc. destruct (sign_bounds w Hc) as (_ & _ & _ & H4 & H5).
  unfold payload_of, payload_text. apply b64url_no_dot.
  rewrite utf8_encode_ascii by (apply payload_ascii; [done|lia|lia]).
  apply ascii_bytes, payload_ascii; [done|lia|lia].
Qed.

Lemma b64_nonempty url bs : bs ≠ [] → ∃ c s, b64_encode url bs = c :: s.
Proof. destruct bs as [|a [|b [|d r]]]; [done|by eexists _, _..]. Qed.

Lemma signature_cons key pl : ∃ c s, signature key pl = c :: s.
Proof.
  apply b64_nonempty. intros H. pose proof (hmac_length key (utf8_encode (jwtHeader ++ js "." ++ pl))) as Hl.
  by rewrite H in Hl.
Qed.

Lemma signature_eq k1 k2 pl :
  utf8_encode (signature k1 pl) = utf8_encode (signature k2 pl)
  ↔ hmac_sha256 k1 (utf8_encode (jwtHeader ++ js "." ++ pl))
    = hmac_sha256 k2 (utf8_encode (jwtHeader ++ js "." ++ pl)).
Proof.
  unfold signature. set (m := utf8_encode (jwtHeader ++ js "." ++ pl)).
  rewrite !utf8_encode_ascii by (apply b64_ascii, hmac_bytes). split.
  - intros H. apply (f_equal b64_decode) in H. rewrite !b64_roundtrip in H by apply hmac_bytes.
    exact H.
  - by intros ->.
Qed.

(** Verifying an unexpired token: it is accepted exactly if its signature is the
    one of the day of its expiry. *)
Lemma verify_run c handle k1 k2 w w2 :
  ascii_ok handle → handle ≠ [] → clock_ok w → dayKey c (int (exp_day w)) = inr k2 →
  (0 <= now (pass w2) <= 1000 * sign_exp w)%Z →
  verifyToken c (token_of handle k1 w) w2
  = (if bool_decide (utf8_encode (signature k1 (payload_of handle w))
                     = utf8_encode (signature k2 (payload_of handle w)))
     then Ok (JStr handle) else Throw token_error, pass w2).
Proof.
  intros Hh Hne Hc Hk Ht. destruct (sign_bounds w Hc) as (_ & _ & _ & H4 & H5).
  unfold verifyToken, check_token, token_of, try_catch.
  rewrite token_split by (by apply payload_no_dot). cbv zeta.
  cbn [lookup list_lookup].
  replace (non_empty (payload_of handle w)) with true.
  2: { destruct (b64_nonempty true (utf8_encode (stringify
         (payload_json handle (int (sign_exp w)) (int (sign_iat w)))))) as (c0 & s0 & Hp).
       - rewrite utf8_encode_ascii by (apply payload_ascii; [done|lia|lia]). done.
       - unfold payload_of, payload_text. by rewrite Hp. }
  replace (non_empty (signature k1 (payload_of handle w))) with true.
  2: { by destruct (signature_cons k1 (payload_of handle w)) as (c1 & s1 & ->). }
  cbn [andb]. unfold check_parts.
  pose proof (payload_decodes handle (sign_exp w) (sign_iat w) Hh ltac:(lia) ltac:(lia)) as Hd.
  fold (payload_of handle w) in Hd.
  erewrite bind_ok by (unfold json_parse; by rewrite Hd).
  erewrite bind_ok by done.
  change (field (payload_json handle (int (sign_exp w)) (int (sign_iat w))) (js "exp"))
    with (Some (JNum (int (sign_exp w)))).
  change (field (payload_json handle (int (sign_exp w)) (int (sign_iat w))) (js "sub"))
    with (Some (JStr handle)). cbv beta iota.
  replace (json_truthy (JNum (int (sign_exp w))) && json_truthy (JStr handle)) with true.
  2: { symmetry. cbn [json_truthy]. unfold int. rewrite num_truthy_Z.
       destruct handle; [done|]. rewrite andb_true_r. apply negb_true_iff, Z.eqb_neq. lia. }
  cbv beta iota. rewrite (bind_ok _ _ _ _ _ (date_now_eq _)). cbn [json_toNumber].
  rewrite not_expired by lia. rewrite exp_day_Z by lia. fold (exp_day w).
  erewrite bind_ok by (by rewrite Hk).
  by destruct (bool_decide _).
Qed.

(** C15. A token signed when its expiry falls on the same UTC day is accepted, for
    exactly its handle, until it expires. *)
Theorem token_accepted_same_day c handle key w w2 :
  ascii_ok handle → handle ≠ [] → clock_ok w →
  sign_day w = exp_day w → dayKey c (int (exp_day w)) = inr key →
  (0 <= now (pass w2) <= 1000 * sign_exp w)%Z →
  ∃ tok w1, signToken c handle w = (Ok tok, w1)
    ∧ verifyToken c tok w2 = (Ok (JStr handle), pass w2).
Proof.
  intros Hh Hne Hc Hday Hk Ht. eexists _, _. split.
  - apply (sign_run c handle key); [done|]. by rewrite Hday.
  - rewrite (verify_run _ _ _ key) by done. by rewrite bool_decide_true.
Qed.

(** C16. A token signed within two hours of midnight UTC is signed with the key of the
    day of signing and checked with the key of the day of its expiry: it is
    rejected from the start, unless the two keys collide on its text. *)
Theorem token_rejected_near_midnight c handle k1 k2 w w2 :
  ascii_ok handle → handle ≠ [] → clock_ok w →
  dayKey c (int (sign_day w)) = inr k1 → dayKey c (int (exp_day w)) = inr k2 →
  hmac_sha256 k1 (utf8_encode (jwtHeader ++ js "." ++ payload_of handle w))
    ≠ hmac_sha256 k2 (utf8_encode (jwtHeader ++ js "." ++ payload_of handle w)) →
  (0 <= now (pass w2) <= 1000 * sign_exp w)%Z →
  ∃ tok w1, signToken c handle w = (Ok tok, w1)
    ∧ verifyToken c tok w2 = (Throw token_error, pass w2).
Proof.
  intros Hh Hne Hc Hk1 Hk2 Hd Ht. eexists _, _. split.
  - by apply (sign_run c handle k1).
  - rewrite (verify_run _ _ _ k2) by done. rewrite bool_decide_false; [done|].
    by rewrite signature_eq.
Qed.

(** C17. Whatever the token, a user is returned only for a payload that names it, that
    has not expired, and that is signed under the key of the day it expires. *)
Theorem verifyToken_sound c tok u w w' :
  verifyToken c tok w = (Ok u, w') →
  ∃ hd pl sig rest v exp key,
    split tok (js ".") = hd :: pl :: sig :: rest
    ∧ parse (utf8_decode (b64_decode pl)) = Some v
    ∧ field v (js "sub") = Some u ∧ field v (js "exp") = Some exp
    ∧ num_gt (num_div (num_of_Z (now (pass w))) (num_of_Z 1000)) (json_toNumber exp) = false
    ∧ dayKey c (Math_floor (num_div (json_toNumber exp) (num_of_Z 86400))) = inr key
    ∧ utf8_encode sig = utf8_encode (signature key pl).
Proof.
  unfold verifyToken, check_token, try_catch. intros H.
  destruct (split tok (js ".")) as [|hd [|pl [|sig rest]]]; try done.
  cbn [lookup list_lookup] in H. destruct (non_empty pl && non_empty sig); [|done].
  unfold check_parts, json_parse in H. destruct (parse _) as [v|] eqn:Ep; [|done].
  unfold bind at 1 in H. cbn [ret] in H. unfold claims_of in H.
  destruct (prop (Some v) (js "exp")) as [|e] eqn:Ee; [done|].
  destruct (prop (Some v) (js "sub")) as [|sub] eqn:Es; [done|].
  unfold bind at 1 in H. cbn [lift ret] in H.
  destruct e as [e|]; [|done]. destruct sub as [sub|]; [|done].
  destruct (json_truthy e && json_truthy sub); [|done].
  rewrite (bind_ok _ _ _ _ _ (date_now_eq _)) in H.
  destruct (num_gt _ _) eqn:Eg; [done|].
  destruct (dayKey _ _) as [|key] eqn:Ek; [done|]. unfold bind at 1 in H. cbn [lift ret] in H.
  destruct (bool_decide_reflect (utf8_encode sig = utf8_encode (signature key pl)));
    [|done]. injection H as <- _.
  assert (∀ k x, prop (Some v) k = inr (Some x) → field v k = Some x) as Hf.
  { intros k x. by destruct v; cbn; try (intros [= ->] || intros [=]). }
  exists hd, pl, sig, rest, v, e, key. auto 10.
Qed.
End Tokens.

(** ** Routes *)

Section Routes.
Context {E : Type} `{RE : RedisEntry E} `{EN : Env}.
Implicit Types w : world E.

Lemma verify_error c tok w e w' : verifyToken (E:=E) c tok w = (Throw e, w') → e = token_error.
Proof.
  unfold verifyToken, try_catch. destruct (check_token c tok w) as [[u|e'|x] w1]; cbv; congruence.
Qed.

(** A refusal of [auth] is always 401; it never says that the token expired,
    since [verifyToken] turns every error into the same one. *)
Theorem auth_never_says_expired c r w a w' :
  auth c r w = (Ok (inl a), w') →
  status a = 401%Z ∧ answer a ≠ error_json (js "unauthorized") (Some (js "Token expired")).
Proof.
  unfold auth. destruct (bearer _) as [|b t].
  { intros [= <- _]. by split. }
  unfold try_catch, bind. destruct (verifyToken c (b :: t) w) as [[u|e|x] w1] eqn:Ev; try done.
  apply verify_error in Ev as ->. intros H. injection H as <- _. split; [done|].
  by vm_compute.
Qed.

Lemma ret_status (m : prog E http_response) a b w w' :
  m = ret b → m w = (Ok a, w') → status b ≠ 200%Z → status a ≠ 200%Z.
Proof. intros -> [= <- _]. done. Qed.

(** C18. Every route but the login, the health check included, answers 200 only to a
    request with a token that verifies, an accepted csurf token, and a CSRF
    header equal to the cookie. *)
Theorem protected_needs_token c r up w a w' :
  is_route r "POST" "/auth" = false →
  handle_http c r up w = (Ok a, w') → status a = 200%Z →
  (∃ u w1, verifyToken c (bearer (h_authorization r)) w = (Ok u, w1))
  ∧ csurf r = None ∧ h_csrf r = h_cookie r ∧ h_csrf r ≠ None.
Proof.
  intros Hr H Hs. unfold handle_http in H. rewrite Hr in H.
  unfold auth in H. destruct (bearer (h_authorization r)) as [|b t].
  { cbn in H. injection H as <- _. done. }
  unfold try_catch, bind in H.
  destruct (verifyToken c (b :: t) w) as [[u|e|x] w1] eqn:Ev; cbn in H; try done.
  2: { injection H as <- _. done. }
  split; [by eexists _, _|].
  destruct (csurf r); [injection H as <- _; done|]. split; [done|].
  unfold csrf_match in H. destruct (h_csrf r) as [tk|], (h_cookie r) as [ck|]; cbn in H;
    try (injection H as <- _; done).
  - destruct tk as [|x tk]; [injection H as <- _; done|].
    destruct ck as [|y ck]; [injection H as <- _; done|].
    destruct (bool_decide_reflect (x :: tk = y :: ck)) as [->|]; [done|].
    injection H as <- _. done.
  - destruct tk as [|x tk]; injection H as <- _; done.
Qed.

(** ** Login *)

Lemma toLowerCase_ascii s : ascii_ok s → ascii_ok (toLowerCase s).
Proof.
  intros H. apply Forall_fmap. eapply Forall_impl; [exact H|]. intros c Hc. cbn in *.
  unfold lower_unit. destruct ((65 <=? c) && (c <=? 90))%N eqn:Eu; [|done].
  apply andb_true_iff in Eu as [_ Hle%N.leb_le]. lia.
Qed.

Lemma word_ascii c : is_word c = true → (c < 128)%N.
Proof.
  unfold is_word, is_alnum, is_digit, is_upper, is_lower. intros H.
  rewrite !orb_true_iff, !andb_true_iff, ?N.leb_le, ?N.eqb_eq in H. lia.
Qed.

Lemma valid_handle_ascii h : valid_handle h = true → ascii_ok h ∧ h ≠ [].
Proof.
  unfold valid_handle. intros [_ H]%andb_true_iff. destruct h as [|c h]; [done|]. split; [|done].
  apply andb_true_iff in H as [H1 H]. apply andb_true_iff in H1 as [Hc%N.eqb_eq _].
  constructor; [cbn; lia|]. apply Forall_forall. intros x Hx. apply word_ascii.
  rewrite forallb_forall in H. by apply H, list_elem_of_In.
Qed.

Context `{EL : !EnvLaws}.

(** C19. The login checks no proof of identity: a login request that csurf accepts, with a
    well-formed handle of anybody, is answered with a token whatever else the request
    holds.  When the token expires on the UTC day it was signed, it then verifies, until
    it expires, as the handle in lower case. *)
Theorem login_needs_no_proof c r up handle m key w :
  is_route r "POST" "/auth" = true → csurf r = None →
  schemaAuth (h_body r) = Some (handle, m) → clock_ok w →
  dayKey c (int (sign_day w)) = inr key →
  ∃ tok w1, handle_http c r up w
      = (Ok (Answer 200 (JObj [(js "token", JStr tok); (js "expiresIn", JNum (num_of_Z 7200));
                               (js "method", JStr m)])), w1)
    ∧ (sign_day w = exp_day w → ∀ w2, (0 <= now (pass w2) <= 1000 * sign_exp w)%Z →
       verifyToken c tok w2 = (Ok (JStr (toLowerCase handle)), pass w2)).
Proof.
  intros Hr Hcs Hb Hc Hk. unfold handle_http, post_auth. rewrite Hr, Hcs, Hb.
  assert (valid_handle handle = true) as Hv.
  { unfold schemaAuth in Hb. destruct (str_field _ (js "handle")) as [h|]; [|done].
    destruct (str_field _ (js "method")) as [m'|]; [|done].
    destruct (valid_handle h && _) eqn:Ev; [|done]. injection Hb as <- _.
    by apply andb_true_iff in Ev as [Ev _]. }
  destruct (valid_handle_ascii _ Hv) as [Ha Hne].
  eexists _, _. split.
  - unfold try_catch. rewrite (bind_ok _ _ _ _ _ (sign_run c _ key w Hc Hk)). reflexivity.
  - intros Hday w2 Ht. rewrite Hday in Hk. rewrite (verify_run _ _ _ key); [by rewrite bool_decide_true|by apply toLowerCase_ascii| |done..].
    by destruct handle.
Qed.

(** ** Trades *)

Lemma trade_button t mint user :
  forallb is_alnum mint = true →
  handle_button (E:=E) (default [] (m_button (trade_message user t mint))) (Some user)
    (Some (λ _ _, None))
  = Some (dispatchTrade t mint (parseFloat (js "0.10")) (Some user) (Some (λ _ _, None))).
Proof.
  intros Hm. unfold handle_button, trade_message. cbn [m_button default from_option id].
  destruct t.
  - change (js "BTN::QBUY::" ++ mint ++ js "::" ++ user)
      with (js "BTN::" ++ js "QBUY" ++ js "::" ++ mint ++ js "::" ++ user).
    rewrite button_parts; [reflexivity|by repeat constructor|by apply no_colon].
  - change (js "BTN::QSELL::" ++ mint ++ js "::" ++ user)
      with (js "BTN::" ++ js "QSELL" ++ js "::" ++ mint ++ js "::" ++ user).
    rewrite button_parts; [reflexivity|by repeat constructor|by apply no_colon].
Qed.

(** C35. A valid trade request queues exactly one job with its side, its mint and its
    user, but always for 0.1 SOL: the amount it asks for is ignored. *)
Theorem post_trade_ignores_amount user body t mint s w :
  schemaTrade body = Some (t, mint, s) → quiet 1 w →
  ∃ w', post_trade user body w = (Ok (Answer 200 (JObj [(js "queued", JBool true)])), w')
    ∧ ∃ text, log w' = log w ++ [Enqueue (js "trades") (js "execute-trade")
                                   (trade_job t mint (parseFloat (js "0.10")) (Some user));
                                 Reply text].
Proof.
  intros Hb Hq%quiet_now. unfold post_trade, or_500, try_catch. rewrite Hb.
  assert (forallb is_alnum mint = true) as Hm.
  { unfold schemaTrade in Hb. destruct (str_field _ (js "side")) as [sd|]; [|done].
    destruct (str_field _ (js "mint")) as [m'|]; [|done].
    destruct (num_field _ _) as [x|]; [|done]. destruct (_ && _) eqn:Ev; [|done].
    injection Hb as _ <- _. apply andb_true_iff in Ev as [Ev _].
    apply andb_true_iff in Ev as [_ Ev]. by apply andb_true_iff in Ev as [_ Ev]. }
  pose proof (trade_button t mint user Hm) as Hbt.
  assert (handleMessage (E:=E) (trade_message user t mint)
          = dispatchTrade t mint (parseFloat (js "0.10")) (Some user) (Some (λ _ _, None))) as ->.
  { unfold handleMessage. change (m_handle (trade_message user t mint)) with (Some user).
    change (m_reply (trade_message user t mint)) with (Some (λ _ _, None) : option reply_fn).
    destruct (m_button (trade_message user t mint)) as [[|x b]|] eqn:Em;
      [by destruct t|cbn [default from_option id] in Hbt; by rewrite Hbt|done]. }
  unfold dispatchTrade, enqueueTrade, queue_add, bind. cbn [interact]. rewrite Hq.
  eexists. split; [reflexivity|]. eexists. cbn. rewrite <- app_assoc. reflexivity.
Qed.
End Routes.

(** ** Concrete runs *)

Definition api0 : api := Api (js "0123456789abcdef0123456789abcdef").
Definition key_of (d : Z) : bytes := match dayKey api0 (int d) with inr k => k | inl _ => [] end.

(** A morning, and (in [world0]) an hour before midnight UTC. *)
Definition morning : world entry := set_time 1699950000000 0 world0.

Lemma morning_ok : clock_ok morning.
Proof. split; vm_compute; discriminate. Qed.
Lemma evening_ok : clock_ok world0.
Proof. split; vm_compute; discriminate. Qed.

Lemma token_accepted_same_day_witness :
  ∃ tok w1, signToken api0 (js "@ann") morning = (Ok tok, w1)
    ∧ verifyToken api0 tok morning = (Ok (JStr (js "@ann")), pass morning).
Proof.
  apply (token_accepted_same_day api0 (js "@ann") (key_of 19675) morning morning).
  - by repeat constructor.
  - discriminate.
  - exact morning_ok.
  - vm_compute. reflexivity.
  - vm_compute. reflexivity.
  - split; vm_compute; discriminate.
Defined.

Lemma token_rejected_near_midnight_witness :
  ∃ tok w1, signToken api0 (js "@ann") world0 = (Ok tok, w1)
    ∧ verifyToken api0 tok world0 = (Throw token_error, pass world0).
Proof.
  apply (token_rejected_near_midnight api0 (js "@ann") (key_of 19675) (key_of 19676) world0 world0).
  - by repeat constructor.
  - discriminate.
  - exact evening_ok.
  - vm_compute. reflexivity.
  - vm_compute. reflexivity.
  - intros H. vm_compute in H. discriminate H.
  - split; vm_compute; discriminate.
Defined.

Lemma ann_verifies :
  verifyToken api0 (token_of (js "@ann") (key_of 19675) morning) morning
  = (Ok (JStr (js "@ann")), pass morning).
Proof. vm_compute. reflexivity. Qed.

Lemma verifyToken_sound_witness :
  ∃ hd pl sig rest, split (token_of (js "@ann") (key_of 19675) morning) (js ".")
                    = hd :: pl :: sig :: rest.
Proof.
  destruct (verifyToken_sound api0 (token_of (js "@ann") (key_of 19675) morning) (JStr (js "@ann"))
    morning (pass morning) ann_verifies)
    as (hd & pl & sig & rest & v & exp & key & H & _).
  exists hd, pl, sig, rest. exact H.
Defined.

(** A request without a token. *)
Definition anonymous : http_request :=
  Http (js "GET") (js "/health") None None None (JObj []) [] JNull.

Lemma auth_never_says_expired_witness :
  ∃ a w', auth api0 anonymous world0 = (Ok (inl a), w') ∧ status a = 401%Z.
Proof.
  eexists _, _. split; [reflexivity|].
  exact (proj1 (auth_never_says_expired api0 anonymous world0 _ world0 eq_refl)).
Defined.

(** A request with a fresh token and matching CSRF values. *)
Definition logged_in : http_request :=
  Http (js "GET") (js "/health") (Some (js "Bearer " ++ token_of (js "@ann") (key_of 19675) morning))
    (Some (js "x")) (Some (js "x")) (JObj []) [] JNull.

Lemma protected_needs_token_witness :
  ∃ u w1, verifyToken api0 (bearer (h_authorization logged_in)) morning = (Ok u, w1).
Proof.
  refine (proj1 (protected_needs_token api0 logged_in (num_of_Z 1) morning
    (Answer 200 (JObj [(js "status", JStr (js "healthy")); (js "uptime", JNum (num_of_Z 1));
       (js "timestamp", JNum (num_of_Z 1699950000002))])) (pass (pass morning)) _ _ _)).
  - reflexivity.
  - vm_compute. reflexivity.
  - reflexivity.
Defined.

Definition login : http_request :=
  Http (js "POST") (js "/auth") None None None (JObj []) []
    (JObj [(js "handle", JStr (js "@Ann")); (js "method", JStr (js "telegram"))]).

Lemma login_needs_no_proof_witness :
  ∃ tok w1, handle_http api0 login (num_of_Z 1) morning
      = (Ok (Answer 200 (JObj [(js "token", JStr tok); (js "expiresIn", JNum (num_of_Z 7200));
                               (js "method", JStr (js "telegram"))])), w1)
    ∧ verifyToken api0 tok morning = (Ok (JStr (js "@ann")), pass morning).
Proof.
  destruct (login_needs_no_proof api0 login (num_of_Z 1) (js "@Ann") (js "telegram")
    (key_of 19675) morning ltac:(vm_compute; reflexivity) ltac:(vm_compute; reflexivity)
    ltac:(vm_compute; reflexivity) morning_ok ltac:(vm_compute; reflexivity))
    as (tok & w1 & H1 & H2).
  exists tok, w1. split; [exact H1|]. apply H2.
  - vm_compute. reflexivity.
  - split; vm_compute; discriminate.
Defined.

Definition trade_body : json :=
  JObj [(js "side", JStr (js "buy")); (js "mint", JStr (repeat_unit (code "A") 44));
        (js "sol", JNum (num_of_Z 5))].

Lemma post_trade_ignores_amount_witness :
  ∃ w', post_trade (js "@ann") trade_body world0
        = (Ok (Answer 200 (JObj [(js "queued", JBool true)])), w').
Proof.
  destruct (post_trade_ignores_amount (js "@ann") trade_body Buy (repeat_unit (code "A") 44)
    (num_of_Z 5) world0 ltac:(vm_compute; reflexivity) (calm_quiet 1 _)) as (w' & H & _).
  exists w'. exact H.
Defined.
