(* ===== verification/Launcher.v ===== *)
(** * utils-launcher.js: token launches

    The launch configuration the language model proposes, the logo, and the launch
    itself: mint a token, publish its metadata, open a Raydium pool.  The SDK, the
    base58 and form libraries and the node-redis client's treatment of arguments
    are the parameters of [LaunchEnv].  The launch steps are shared with
    [launcher/server.js], which repeats them. *)

From Stdlib Require Import QArith.
From S2P Require Import Prelude JsString Regex JsNum JsText Json Bytes Assoc Effects Uint8.
From S2P Require Import RedisModel Db Memory Retry Firewall Solana Token Commands.

Local Open Scope prog_scope.

(** What the launcher uses of its libraries. *)
Class LaunchEnv := {
  bs58_decode : jsstr → exn + bytes;              (* bs58.decode *)
  curve : jsstr → option json;                    (* the SDK's Curve.<name> *)
  publicKey_of : option json → exn + jsstr;       (* new PublicKey(v), in base58 *)
  platform_fault : platform_config → option exn;  (* new PlatformConfig(...) *)
  launchpad_fault : nat → transaction → option exn; (* the SDK building a transaction *)
  form_body : jsstr → option json → exn + jsstr;  (* a form with one field *)
  hash_field : option json → exn + jsstr;         (* a value given to hSet, as sent *)
}.

(** The constants the module computes when it is loaded. *)
Record launcher := Launcher { PLATFORM_PUB : jsstr; CURVE_TYPE : option json }.

(** A finished launch. *)
Record launched := Launched {
  l_mint : jsstr; l_account : jsstr; l_imageUrl : jsstr; l_website : jsstr;
  l_poolSignature : jsstr
}.

(** [x + v]: an addition or a concatenation. *)
Definition js_plus (x : num) (v : option json) : json :=
  match v with
  | Some (JStr _ | JArr _ | JObj _) => JStr (toString x ++ opt_toString v)
  | _ => JNum (num_add x (opt_toNumber v))
  end.

(** [s.replace(/,\s*c/g, c)] for a character [c] that is no space and no comma: the
    comma and the spaces go; [skip] is set inside a match. *)
Fixpoint drop_trailing (c : N) (skip : bool) (s : jsstr) : jsstr :=
  match s with
  | [] => []
  | x :: s' =>
      if skip && is_space x then drop_trailing c true s'
      else if (x =? 44)%N && bool_decide (head (trimStart s') = Some c)
      then drop_trailing c true s'
      else x :: drop_trailing c false s'
  end.

(** The object inside the model's answer, without trailing commas. *)
Definition extract_json (raw : jsstr) : option jsstr :=
  match indexOf raw 123, lastIndexOf raw 125 with
  | Some i, Some j =>
      Some (drop_trailing 93 false (drop_trailing 125 false
              (slice raw (Z.of_nat i) (Some (Z.of_nat j + 1)%Z))))
  | _, _ => None
  end.

Section Launcher.
Context {E : Type} `{RE : RedisEntry E} `{EN : Env} `{LE : LaunchEnv}.

(** ** Loading the module *)

(** A base58 text or a JSON array. *)
Definition platform_kp (raw : jsstr) : prog E keypair :=
  let rawKey := trim raw in
  if startsWith rawKey (js "[") then keypair_of_text (Some rawKey)
  else b <- lift (bs58_decode rawKey) ;; lift (fromSecretKey b).

(** The named curve if the object has it, [Curve.Linear] otherwise. *)
Definition curve_type : option json :=
  let named := kv_lookup [(js "LINEAR", curve (js "Linear"));
                          (js "EXPONENTIAL", curve (js "Exponential"));
                          (js "LOGARITHMIC", curve (js "Logarithmic"))]
                         (env_text (js "BONDING_CURVE")) in
  match named with
  | Some c => if opt_truthy c then c else curve (js "Linear")
  | None => curve (js "Linear")
  end.

Definition launcher_load : prog E launcher :=
  match env_var (js "PLATFORM_PRIVATE_KEY") with
  | None => throw (read_of (js "undefined") (js "trim"))
  | Some raw => kp <- platform_kp raw ;; ret (Launcher (publicKey kp) curve_type)
  end.

(** ** Requests *)

(** [if (!res.ok) { ... throw }] *)
Definition fetch_ok (api : jsstr) (r : request) : prog E response :=
  res <- fetch r ;;
  if res_ok res then ret res
  else detach onError ;; throw (Error (api ++ js " API " ++ statusText res)).

(** The trimmed answer of the model to a prompt. *)
Definition ask_ollama (prompt : jsstr) : prog E jsstr :=
  res <- fetch_ok (js "Ollama") (ollama_request prompt) ;;
  j <- json_parse (res_text res) ;;
  lift (trimmed_response j).

Definition logo_prompt (tokenName : option json) : jsstr :=
  trim (join [ [];
    js "You are a creative branding assistant.";
    js "Provide a vivid, concise description for a meme character to represent the meme token named "
      ++ [34%N] ++ opt_toString tokenName ++ [34%N] ++ js ".";
    js "Respond with nothing but the plain text description.";
    js "  " ] [10%N]).

Definition generateImageDescription (tokenName : option json) : prog E jsstr :=
  ask_ollama (logo_prompt tokenName).

Definition IMAGE_API_ROOT : jsstr := env_text (js "IMAGE_API_ROOT").

Definition generateImage (prompt : option json) : prog E jsstr :=
  fd <- lift (form_body (js "texto") prompt) ;;
  res <- fetch_ok (js "Image")
           (Request (IMAGE_API_ROOT ++ js "/obtener_imagen") (js "POST") (Some fd)) ;;
  let filename := default [] (last (split (res_text res) (js "/"))) in
  ret (IMAGE_API_ROOT ++ js "/images/" ++ filename).

(** ** The configuration *)

Definition config_prompt : jsstr :=
  trim (join [ [];
    js "You are a Meme Token Launchpad configuration generator.";
    js "You only fundraise in SOL, never USDC.";
    js "Generate a fun meme token viral, output exactly one JSON object with these fields:";
    js "  - decimals (integer always 6)";
    js "  - supply (integer)";
    js "  - tokenName (string)";
    js "Respond with nothing but the raw JSON object.";
    [] ] [10%N]).

(** The answer of the model merged with the environment; [tokenMint] is the address
    of a key pair that is then dropped. *)
Definition launch_config (aiCfg : json) (tokenMint : jsstr) : json :=
  json_fields [
    (js "decimals", opt_prop (Some aiCfg) (js "decimals"));
    (js "supply", opt_prop (Some aiCfg) (js "supply"));
    (js "tokenName", opt_prop (Some aiCfg) (js "tokenName"));
    (js "tokenMint", Some (JStr tokenMint));
    (js "tokenBMint", Some (JStr SOL_MINT));
    (js "totalRaiseB", Some (JNum (env_number (js "LAUNCH_TOTAL_RAISE_SOL"))));
    (js "cliffPeriod", Some (JNum (env_number (js "LAUNCH_CLIFF_PERIOD"))));
    (js "unlockPeriod", Some (JNum (env_number (js "LAUNCH_UNLOCK_PERIOD"))));
    (js "startDelay", Some (JNum (env_number (js "LAUNCH_START_DELAY"))))].

Definition parse_failure (e : exn) (jsonText : jsstr) : exn :=
  Error (js "Failed to parse AI response: " ++ message e ++ [10%N] ++ jsonText).

Definition generateLaunchConfig : prog E json :=
  raw <- ask_ollama config_prompt ;;
  match extract_json raw with
  | None => throw (Error (js "AI did not return a JSON object:" ++ [10%N] ++ raw))
  | Some jsonText =>
      aiCfg <- try_catch (json_parse jsonText) (λ e, throw (parse_failure e jsonText)) ;;
      previewPair <- generate ;;
      _ <- lift (prop (Some aiCfg) (js "decimals")) ;;
      ret (launch_config aiCfg (publicKey previewPair))
  end.

(** ** The steps of a launch *)

Definition wallet_key (userId : jsstr) : jsstr := js "wallet:" ++ userId.

(** The key pair stored for a user. *)
Definition getUserKP (userId : jsstr) : prog E keypair :=
  j <- redis_get (wallet_key userId) ;;
  match j with
  | Some (c :: s) => keypair_of_text (Some (c :: s))
  | _ => detach onError ;; throw (Error (js "Wallet not found"))
  end.

(** A new mint, the user's account of it, and the whole supply into it. *)
Definition mint_supply (pk : jsstr) (decimals supply : option json) : prog E (jsstr * jsstr) :=
  mint <- send_and_confirm (CreateMint pk pk decimals) ;;
  ata <- send_and_confirm (CreateAccount pk mint pk) ;;
  send_and_confirm (MintTo pk mint ata pk
    (num_mul (opt_toNumber supply) (pow_of_ten (opt_toNumber decimals)))) ;;
  ret (mint, ata).

Definition website_of (mint : jsstr) : jsstr :=
  env_text (js "METADATA_BASE_URL") ++ js "/token/" ++ mint.

Definition meta_key (mint : jsstr) : jsstr := js "tokenmeta:" ++ mint.

Definition store_metadata (mint : jsstr) (tokenName : option json) (imageUrl : jsstr)
  : prog E unit :=
  name <- lift (hash_field tokenName) ;;
  redis_hset (meta_key mint)
    [(js "name", name); (js "image", imageUrl); (js "website", website_of mint)].

(** The SDK builds a transaction, which is signed by the user and sent. *)
Definition launchpad (tx : transaction) : prog E jsstr :=
  n <- interact ;;
  match launchpad_fault n tx with
  | Some e => throw e
  | None => send_and_confirm tx
  end.

(** [new PlatformConfig(c)] *)
Definition new_platform (c : platform_config) : prog E unit :=
  match platform_fault c with Some e => throw e | None => ret tt end.

(** [Math.floor(Date.now() / 1000)] *)
Definition now_seconds : prog E num :=
  t <- date_now ;; ret (Math_floor (num_div (num_of_Z t) (num_of_Z 1000))).

(** The pool of a full launch: all of the supply is for sale, and locked. *)
Definition launch_pool (c : launcher) (pk mint : jsstr) (params : json) : prog E jsstr :=
  let get k := opt_prop (Some params) (js k) in
  let config := PlatformConfig (PLATFORM_PUB c) 300 6000 2500 1500 in
  new_platform config ;;
  t <- now_seconds ;;
  tokenB <- lift (publicKey_of (get "tokenBMint")) ;;
  let poolParams := {|
    tokenAMint := mint; tokenBMint := tokenB; pool_decimals := get "decimals";
    supply := get "supply"; totalSellA := get "supply";
    totalFundRaisingB := get "totalRaiseB"; totalLockedAmount := get "supply";
    cliffPeriod := get "cliffPeriod"; unlockPeriod := get "unlockPeriod";
    startTime := js_plus t (get "startDelay"); platformID := PLATFORM_PUB c;
    platformFeeRate := 300; migrateType := js "cpmm"; curveType := CURVE_TYPE c |} in
  program <- env_publicKey (js "DEV_LAUNCHPAD_PROGRAM") ;;
  launchpad (LaunchpadPool pk poolParams config program).

Definition launchTokenInternal (c : launcher) (params : json) (userId : jsstr)
  : prog E launched :=
  userKP <- getUserKP userId ;;
  let pk := publicKey userKP in
  decimals <- lift (prop (Some params) (js "decimals")) ;;
  let* (mint, ata) := mint_supply pk decimals (opt_prop (Some params) (js "supply")) in
  let tokenName := opt_prop (Some params) (js "tokenName") in
  logoDesc <- generateImageDescription tokenName ;;
  imageUrl <- generateImage (Some (JStr logoDesc)) ;;
  store_metadata mint tokenName imageUrl ;;
  poolSignature <- launch_pool c pk mint params ;;
  ret (Launched mint ata imageUrl (website_of mint) poolSignature).
End Launcher.
