(* ===== verification/LauncherServer.v ===== *)
(** * launcher/server.js: the token launcher's HTTP API

    The captcha and API-key middlewares and the routes.  A request is what the
    handlers see after Express: the route, the headers they read, the address of
    the client and the parsed body.  The launch steps are those of [Launcher]. *)

From Stdlib Require Import QArith.
From S2P Require Import Prelude JsString Regex JsNum JsText Json Bytes Assoc Effects Uint8.
From S2P Require Import RedisModel Db Memory Retry Firewall Solana Token Commands ApiServer.
From S2P Require Import Launcher.

Local Open Scope prog_scope.

Inductive route :=
  | GetApiKey                    (* POST /get-api-key *)
  | GetToken (mint : jsstr)      (* GET /token/:mint *)
  | CreateToken | CreatePool | BuyToken | SellToken | LaunchToken
  | Elsewhere.

Record launcher_request := LReq {
  r_route : route;
  r_ip : jsstr;
  r_captcha : option jsstr;      (* the header x-captcha-token *)
  r_userId : option jsstr;       (* the header x-user-id *)
  r_apiKey : option jsstr;       (* the header x-api-key *)
  r_body : json
}.

(** ** [encodeURIComponent] *)

Definition unreserved (c : N) : bool :=
  is_alnum c || existsb (N.eqb c) [45; 95; 46; 33; 126; 42; 39; 40; 41]%N.

Definition upper_hex (d : N) : N := (if d <? 10 then d + 48 else d + 55)%N.

Definition percent (bs : bytes) : jsstr :=
  concat ((λ b, [37; upper_hex (b / 16); upper_hex (b mod 16)]%N) <$> bs).

Definition uri_error : exn := Exn KURIError (js "URI malformed").

Definition prepend (p : jsstr) (r : exn + jsstr) : exn + jsstr :=
  match r with inl e => inl e | inr s => inr (p ++ s) end.

Fixpoint encodeURIComponent (s : jsstr) : exn + jsstr :=
  match s with
  | [] => inr []
  | c :: s' =>
      if unreserved c then prepend [c] (encodeURIComponent s')
      else if is_high c then
        match s' with
        | d :: s'' =>
            if is_low d then prepend (percent (utf8_encode [c; d])) (encodeURIComponent s'')
            else inl uri_error
        | [] => inl uri_error
        end
      else if is_low c then inl uri_error
      else prepend (percent (utf8_encode [c])) (encodeURIComponent s')
  end.

Section LauncherServer.
Context {E : Type} `{RE : RedisEntry E} `{EN : Env} `{LE : LaunchEnv}.

(** ** Loading the module *)

Definition core_vars : list jsstr :=
  [js "RPC_URL"; js "REDIS_URL"; js "PLATFORM_PRIVATE_KEY"; js "DEV_LAUNCHPAD_PROGRAM";
   js "IMAGE_API_ROOT"].

Definition missingCore : list jsstr :=
  filter (λ v, non_empty (default [] (env_var v)) = false) core_vars.

(** Missing variables and a bad platform key end the process. *)
Definition check_core : prog E unit :=
  match missingCore with _ :: _ => exit 1 | [] => ret tt end.

Definition server_load : prog E launcher :=
  check_core ;;
  kp <- try_catch (platform_kp (default [] (env_var (js "PLATFORM_PRIVATE_KEY"))))
                  (λ _, exit 1) ;;
  ret (Launcher (publicKey kp) curve_type).

(** ** Captcha *)

Definition RECAPTCHA_URL : jsstr := js "https://www.google.com/recaptcha/api/siteverify".

Definition recaptcha_body (token : jsstr) : exn + jsstr :=
  match encodeURIComponent (env_text (js "RECAPTCHA_SECRET")), encodeURIComponent token with
  | inr s, inr t => inr (js "secret=" ++ s ++ js "&response=" ++ t)
  | inl e, _ | _, inl e => inl e
  end.

(** [(json.score ?? 0) >= 0.5] *)
Definition good_score (score : option json) : bool :=
  match score with
  | None | Some JNull => false
  | Some v => num_ge (json_toNumber v) (Fin (1 # 2))
  end.

Definition is_true (v : option json) : bool :=
  match v with Some (JBool b) => b | _ => false end.

Definition verifyRecaptcha (token : jsstr) : prog E bool :=
  body <- lift (recaptcha_body token) ;;
  j <- fetch_json (Request RECAPTCHA_URL (js "POST") (Some body)) ;;
  success <- lift (prop (Some j) (js "success")) ;;
  ret (is_true success && good_score (opt_prop (Some j) (js "score"))).

Definition captcha_key (ip : jsstr) : jsstr := js "captcha:fail:" ++ ip.

(** [parseInt(await redis.get(...)) || 0]; the counter is written by INCR. *)
Definition attempts_of (stored : option jsstr) : num :=
  match stored with
  | Some s => num_or (parseInt10 s) (Fin 0)
  | None => Fin 0
  end.

Definition required_of (attempts : num) : jsstr :=
  if num_gt attempts (num_of_Z 5) then js "2" else js "1".

(** An answer, or [None] for [next()]. *)
Definition captchaMiddleware (r : launcher_request) : prog E (option http_response) :=
  let key := captcha_key (r_ip r) in
  try_catch
    (stored <- redis_get key ;;
     let required := required_of (attempts_of stored) in
     match r_captcha r with
     | Some (c :: s) =>
         ok <- verifyRecaptcha (c :: s) ;;
         if (ok : bool) then redis_del key ;; ret None
         else
           redis_incr key ;;
           redis_expire key 3600 ;;
           ret (Some (Answer 429 (error_json (js "Captcha failed: solve " ++ required) None)))
     | _ => ret (Some (Answer 429 (error_json (js "Captcha required: solve " ++ required) None)))
     end)
    (λ _, detach onError ;;
          ret (Some (Answer 500 (error_json (js "Captcha internal error") None)))).

(** ** API keys *)

Definition apikey_key (userId : jsstr) : jsstr := js "apikey:" ++ userId.

Definition generateApiKey (userId : jsstr) : prog E jsstr :=
  n <- interact ;;
  let key := hex_encode (random_answer n 32) in
  redis_set (apikey_key userId) key (Some 7200%Z) ;;
  ret key.

Definition forbidden : http_response := Answer 403 (JStr (js "Forbidden")).

(** An answer, or the user for the next handler. *)
Definition validateApiKey (r : launcher_request) : prog E (http_response + jsstr) :=
  match r_userId r, r_apiKey r with
  | Some (c :: u), Some (d :: k) =>
      stored <- redis_get (apikey_key (c :: u)) ;;
      if bool_decide (stored = Some (d :: k)) then ret (inr (c :: u))
      else detach onSpam ;; ret (inl forbidden)
  | _, _ => detach onSpam ;; ret (inl forbidden)
  end.

(** ** Routes *)

(** [catch (err) { firewall.onError(...); 500 }] *)
Definition or_report (m : prog E http_response) : prog E http_response :=
  try_catch m (λ e, detach onError ;; ret (Answer 500 (error_json (message e) None))).

Definition get_api_key (body : json) : prog E http_response :=
  or_report
    (userId <- lift (prop (Some body) (js "userId")) ;;
     if opt_truthy userId then
       apiKey <- generateApiKey (opt_toString userId) ;;
       ret (Answer 200 (json_fields [(js "userId", userId); (js "apiKey", Some (JStr apiKey));
                                     (js "expiresIn", Some (JNum (num_of_Z 7200)))]))
     else ret (Answer 400 (error_json (js "userId required") None))).

Definition get_token (mint : jsstr) : prog E http_response :=
  or_report
    (meta <- redis_hgetall (meta_key mint) ;;
     match meta with
     | [] => ret (Answer 404 (error_json (js "Not found") None))
     | _ => ret (Answer 200 (JObj ((λ kv, (kv.1, JStr kv.2)) <$> meta)))
     end).

(** [Logo for ...] *)
Definition logo_text (prefix : string) (tokenName : option json) : option json :=
  Some (JStr (js prefix ++ opt_toString tokenName)).

Definition create_token (userId : jsstr) (body : json) : prog E http_response :=
  or_report
    (decimals <- lift (prop (Some body) (js "decimals")) ;;
     let tokenName := opt_prop (Some body) (js "tokenName") in
     userKP <- getUserKP userId ;;
     let* (mint, ata) :=
       mint_supply (publicKey userKP) decimals (opt_prop (Some body) (js "supply")) in
     imageUrl <- generateImage (logo_text "Logo for token " tokenName) ;;
     store_metadata mint tokenName imageUrl ;;
     ret (Answer 200 (JObj [(js "mint", JStr mint); (js "account", JStr ata);
            (js "imageUrl", JStr imageUrl); (js "website", JStr (website_of mint))]))).

Definition signed (sig : jsstr) : http_response :=
  Answer 200 (JObj [(js "success", JBool true); (js "signature", JStr sig)]).

Definition create_pool (c : launcher) (userId : jsstr) (body : json) : prog E http_response :=
  or_report
    (tokenA <- lift (prop (Some body) (js "tokenAMint")) ;;
     let get k := opt_prop (Some body) (js k) in
     userKP <- getUserKP userId ;;
     let config := PlatformConfig (PLATFORM_PUB c) 100 3000 5000 2000 in
     new_platform config ;;
     t <- now_seconds ;;
     mintA <- lift (publicKey_of tokenA) ;;
     mintB <- lift (publicKey_of (get "tokenBMint")) ;;
     let poolParams := {|
       tokenAMint := mintA; tokenBMint := mintB; pool_decimals := Some (JNum (num_of_Z 6));
       supply := get "supply"; totalSellA := get "totalSellA";
       totalFundRaisingB := get "totalFundRaisingB"; totalLockedAmount := get "supply";
       cliffPeriod := get "cliffPeriod"; unlockPeriod := get "unlockPeriod";
       startTime := js_plus t (get "startDelay"); platformID := PLATFORM_PUB c;
       platformFeeRate := 300; migrateType := js "cpmm"; curveType := CURVE_TYPE c |} in
     program <- env_publicKey (js "DEV_LAUNCHPAD_PROGRAM") ;;
     sig <- launchpad (LaunchpadPool (publicKey userKP) poolParams config program) ;;
     ret (signed sig)).

(** Buying and selling: the account is that of the pool's address. *)
Definition trade_token (userId : jsstr) (body : json)
    (tx : jsstr → jsstr → jsstr → jsstr → transaction) : prog E http_response :=
  or_report
    (poolId <- lift (prop (Some body) (js "poolId")) ;;
     userKP <- getUserKP userId ;;
     let pk := publicKey userKP in
     pool <- lift (publicKey_of poolId) ;;
     ata <- send_and_confirm (CreateAccount pk pool pk) ;;
     program <- env_publicKey (js "DEV_LAUNCHPAD_PROGRAM") ;;
     sig <- launchpad (tx pk pool ata program) ;;
     ret (signed sig)).

Definition buy_token (userId : jsstr) (body : json) : prog E http_response :=
  trade_token userId body
    (λ pk pool ata program,
       LaunchpadBuy pk pool ata program (opt_prop (Some body) (js "amountB"))).

Definition sell_token (userId : jsstr) (body : json) : prog E http_response :=
  trade_token userId body
    (λ pk pool ata program,
       LaunchpadSell pk pool ata program (opt_prop (Some body) (js "amountA"))).

Definition launch_token (c : launcher) (userId : jsstr) (body : json) : prog E http_response :=
  or_report
    (decimals <- lift (prop (Some body) (js "decimals")) ;;
     let tokenName := opt_prop (Some body) (js "tokenName") in
     userKP <- getUserKP userId ;;
     let pk := publicKey userKP in
     let* (mint, ata) := mint_supply pk decimals (opt_prop (Some body) (js "supply")) in
     imageUrl <- generateImage (logo_text "Logo for " tokenName) ;;
     store_metadata mint tokenName imageUrl ;;
     sig <- launch_pool c pk mint body ;;
     ret (Answer 200 (JObj [(js "success", JBool true); (js "mint", JStr mint);
            (js "account", JStr ata); (js "imageUrl", JStr imageUrl);
            (js "website", JStr (website_of mint)); (js "poolSignature", JStr sig)]))).

(** The routes behind both middlewares. *)
Definition protected (c : launcher) (r : launcher_request) (userId : jsstr)
  : prog E http_response :=
  match r_route r with
  | CreateToken => create_token userId (r_body r)
  | CreatePool => create_pool c userId (r_body r)
  | BuyToken => buy_token userId (r_body r)
  | SellToken => sell_token userId (r_body r)
  | LaunchToken => launch_token c userId (r_body r)
  | _ => ret (Answer 404 JNull)
  end.

(** The application: the two public routes, then captcha, key and the rest. *)
Definition handle_launcher (c : launcher) (r : launcher_request) : prog E http_response :=
  match r_route r with
  | GetToken mint => get_token mint
  | GetApiKey =>
      a <- captchaMiddleware r ;;
      match a with Some a => ret a | None => get_api_key (r_body r) end
  | _ =>
      a <- captchaMiddleware r ;;
      match a with
      | Some a => ret a
      | None =>
          u <- validateApiKey r ;;
          match u with
          | inl a => ret a
          | inr userId => protected c r userId
          end
      end
  end.

(** The global error handler. *)
Definition unhandled (e : exn) : prog E http_response :=
  detach onError ;; ret (Answer 500 (error_json (message e) None)).

(** A request as it arrives: the body parser rejects it, or it reaches the routes;
    Express hands the rejections of both to the error handler. *)
Definition launcher_app (c : launcher) (r : exn + launcher_request) : prog E http_response :=
  match r with
  | inl e => unhandled e
  | inr r => try_catch (handle_launcher c r) unhandled
  end.
End LauncherServer.
