(* ===== verification/LauncherFacts.v ===== *)
(** * Properties of utils-launcher.js and launcher/server.js

    The configuration read from the model's answer, the transactions of a launch,
    the captcha and the API keys. *)

From Stdlib Require Import QArith.
From S2P Require Import Prelude JsString Regex JsNum JsText Json JsonText Bytes Assoc Effects Uint8.
From S2P Require Import RedisModel Db Memory Retry Firewall Solana Token Commands ApiServer.
From S2P Require Import Launcher LauncherServer.

(** ** Reading the model's answer *)

Section Extraction.
Local Open Scope N_scope.

(** A text the cleaning leaves alone, whatever follows it. *)
Definition inert (c : N) (t : jsstr) : Prop :=
  ∀ r, drop_trailing c false (t ++ r) = t ++ drop_trailing c false r.

Lemma inert_app c t t' : inert c t → inert c t' → inert c (t ++ t').
Proof. intros Ht Ht' r. by rewrite <- !app_assoc, Ht, Ht'. Qed.

Lemma inert_free c t : Forall (λ c, c ≠ 44) t → inert c t.
Proof.
  intros Ht r. induction Ht as [|x t Hx Ht IH]; [done|]. cbn.
  apply N.eqb_neq in Hx as ->. cbn. by rewrite IH.
Qed.

Lemma inert_ws c t : ws t → inert c t.
Proof. intros Ht. apply inert_free. eapply Forall_impl; [exact Ht|]. cbn. lia. Qed.

Lemma inert_one c x : x ≠ 44 → inert c [x].
Proof. intros Hx. apply inert_free. by repeat constructor. Qed.

Definition bracket (c : N) : Prop := c = 125 ∨ c = 93.

Lemma trimStart_front t y u r : trimStart t = y :: u → trimStart (t ++ r) = y :: u ++ r.
Proof.
  induction t as [|x t IH]; [done|]. cbn. destruct (is_space x); [done|]. by intros [= <- <-].
Qed.

(** In particular a text whose commas are not followed by closing brackets. *)
Lemma inert_closes c t : bracket c → closes_nothing t = true → inert c t.
Proof.
  intros Hc. induction t as [|x t IH]; [done|]. cbn [closes_nothing].
  intros [Hx Ht]%andb_true_iff r. cbn [app drop_trailing andb]. rewrite IH by done.
  destruct (x =? 44); [|done]. destruct (trimStart t) as [|y u] eqn:Et; [done|].
  rewrite (trimStart_front _ _ _ r Et). cbn [head andb]. bool_to_prop.
  rewrite bool_decide_false; [done|]. destruct Hc as [->| ->]; congruence.
Qed.

Lemma space_ws a : ws a → Forall (λ c, is_space c = true) a.
Proof. intros Ha. eapply Forall_impl; [exact Ha|]. by intros c [->|[->|[->| ->]]]. Qed.

Lemma trimStart_ws a t : ws a → trimStart (a ++ t) = trimStart t.
Proof. intros Ha%space_ws. induction Ha as [|c a Hc _ IH]; [done|]. cbn. by rewrite Hc. Qed.

(** A comma before a text stays. *)
Lemma drop_comma c a t :
  bracket c → ws a → starts t →
  drop_trailing c false (44 :: a ++ t) = 44 :: drop_trailing c false (a ++ t).
Proof.
  intros Hc Ha (x & t' & -> & Hs & H1 & H2). cbn [drop_trailing andb]. change (44 =? 44) with true.
  rewrite trimStart_ws by done. cbn [trimStart]. rewrite Hs. cbn [head andb].
  rewrite bool_decide_false; [done|]. destruct Hc as [->| ->]; congruence.
Qed.

Lemma drop_inside c a t : ws a → drop_trailing c true (a ++ t) = drop_trailing c true t.
Proof. intros Ha%space_ws. induction Ha as [|x a Hx _ IH]; [done|]. cbn. by rewrite Hx. Qed.

(** The brackets whose commas are still there after the cleaning for [c]. *)
Definition drops (c : N) (keep : N → bool) : N → bool := λ x, keep x && negb (x =? c).

(** A comma before a closing bracket goes if the cleaning is for this bracket. *)
Lemma drop_trail c keep k trail r :
  bracket c → bracket k → trail_ok trail →
  drop_trailing c false (trail_text (keep k) trail ++ k :: r)
  = trail_text (drops c keep k) trail ++ k :: drop_trailing c false r.
Proof.
  intros Hc Hk Ht. unfold drops.
  assert (k ≠ 44 ∧ is_space k = false) as [Hk44 Hks] by (by destruct Hk as [->| ->]).
  assert (∀ skip, drop_trailing c skip (k :: r) = k :: drop_trailing c false r) as Hd.
  { intros skip. cbn [drop_trailing]. rewrite Hks, andb_false_r.
    by apply N.eqb_neq in Hk44 as ->. }
  destruct trail as [t|]; [|apply Hd]. cbn [trail_text]. destruct (keep k); [|apply Hd].
  cbn [app andb]. destruct (k =? c) eqn:Ekc; bool_to_prop; cbn [negb].
  - subst k. cbn [drop_trailing andb]. change (44 =? 44) with true.
    rewrite trimStart_ws by done. cbn [trimStart]. rewrite Hks. cbn [head andb].
    rewrite bool_decide_true by done. rewrite drop_inside by done. apply Hd.
  - cbn [drop_trailing andb]. change (44 =? 44) with true.
    rewrite trimStart_ws by done. cbn [trimStart]. rewrite Hks. cbn [head andb].
    rewrite bool_decide_false by congruence. by rewrite inert_ws, Hd.
Qed.

Lemma inert_label c l : bracket c → label_ok l → inert c (label_text l).
Proof.
  intros Hc (H1 & H2 & H3 & _ & H4). unfold label_text.
  repeat apply inert_app; auto using inert_ws, inert_closes, inert_one.
Qed.

Lemma label_starts_ws l : label_ok l →
  ∃ t, label_text l = l_before l ++ 34 :: t ∧ starts (34 :: t).
Proof.
  intros _. unfold label_text. eexists. split; [reflexivity|]. by eexists _, _.
Qed.

(** The cleaning of a text drops the trailing commas and nothing else. *)
Lemma drop_texts c keep : bracket c →
  (∀ d, doc_ok d → ∀ r, drop_trailing c false (show keep d ++ r)
                        = show (drops c keep) d ++ drop_trailing c false r)
  ∧ (∀ es, elems_ok es → ∀ r, drop_trailing c false (show_elems keep es ++ r)
                              = show_elems (drops c keep) es ++ drop_trailing c false r)
  ∧ (∀ ms, members_ok ms → ∀ r, drop_trailing c false (show_members keep ms ++ r)
                                = show_members (drops c keep) ms ++ drop_trailing c false r).
Proof.
  intros Hc. assert (∀ x t, x ≠ 44 → drop_trailing c false (x :: t) = x :: drop_trailing c false t)
    as Hone by (intros x t Hx; exact (inert_one c x Hx t)).
  apply docs_ind.
  - intros t v [_ Ht] r. cbn [show]. by apply inert_closes.
  - intros b Hb r. cbn [show app]. rewrite <- !app_assoc, Hone, inert_ws by done. cbn [app]. by rewrite Hone.
  - intros b Hb r. cbn [show app]. rewrite <- !app_assoc, Hone, inert_ws by done. cbn [app]. by rewrite Hone.
  - intros es IH Hok r. cbn [show app]. by rewrite Hone, IH.
  - intros ms IH Hok r. cbn [show app]. by rewrite Hone, IH.
  - intros a d IH b trail (Ha & Hd & Hb & Ht) r. cbn [show_elems]. rewrite <- !app_assoc. cbn [app].
    rewrite inert_ws, IH, inert_ws by done. rewrite drop_trail by (done || by right). done.
  - intros a d IH b es IHes (Ha & Hd & Hb & Hes) r. cbn [show_elems]. rewrite <- !app_assoc. cbn [app].
    rewrite inert_ws, IH, inert_ws by done. do 3 f_equal.
    destruct (elems_start keep es Hes) as (a' & t & He & Ha' & Hst).
    rewrite <- IHes, He, <- app_assoc by done. apply drop_comma; [done..|by apply starts_app].
  - intros l d IH b trail (Hl & Hd & Hb & Ht) r. cbn [show_members]. rewrite <- !app_assoc. cbn [app].
    rewrite inert_label, IH, inert_ws by done. rewrite drop_trail by (done || by left). done.
  - intros l d IH b ms IHms (Hl & Hd & Hb & Hms) r. cbn [show_members]. rewrite <- !app_assoc. cbn [app].
    rewrite inert_label, IH, inert_ws by done. do 3 f_equal.
    destruct (members_start keep ms Hms) as (a' & t & He & Ha').
    rewrite <- IHms, He, <- app_assoc by done. apply drop_comma; [done..|]. by eexists _, _.
Qed.

(** The text of an object, with its extra commas. *)
Definition is_object (d : doc) : bool :=
  match d with EmptyObj _ | Obj _ => true | _ => false end.
Definition as_written (d : doc) : jsstr := show (λ _, true) d.

Lemma drop_written d : doc_ok d →
  parse (drop_trailing 93 false (drop_trailing 125 false (as_written d))) = Some (value d).
Proof.
  intros Hd. destruct (drop_texts 125 (λ _, true)) as [H1 _]; [by left|].
  specialize (H1 d Hd []). cbn [drop_trailing] in H1. rewrite !app_nil_r in H1.
  unfold as_written. rewrite H1.
  destruct (drop_texts 93 (drops 125 (λ _, true))) as [H2 _]; [by right|].
  specialize (H2 d Hd []). cbn [drop_trailing] in H2. rewrite !app_nil_r in H2. rewrite H2.
  by apply parse_show.
Qed.

Lemma members_end keep ms : ∃ b, show_members keep ms = b ++ [125].
Proof.
  induction ms as [l d b trail|l d b ms [t IH]]; cbn [show_members].
  - eexists (label_text l ++ show keep d ++ b ++ trail_text (keep 125) trail). by rewrite <- !app_assoc.
  - rewrite IH. eexists (label_text l ++ show keep d ++ b ++ 44 :: t). by rewrite <- !app_assoc.
Qed.

Lemma object_braces d : is_object d = true → ∃ b, as_written d = 123 :: b ++ [125].
Proof.
  unfold as_written. destruct d as [| |b| |ms]; try done; intros _; cbn [show].
  - by exists b.
  - destruct (members_end (λ _, true) ms) as [b ->]. by exists b.
Qed.

(** ** The position of the object *)

Lemma indexOf_app pre c t : c ∉ pre → indexOf (pre ++ c :: t) c = Some (length pre).
Proof.
  induction pre as [|d pre IH]; cbn; [by rewrite N.eqb_refl|].
  rewrite not_elem_of_cons. intros [Hd Hp]. rewrite (proj2 (N.eqb_neq d c)) by done.
  by rewrite IH.
Qed.

Lemma lastIndexOf_None s c : c ∉ s → lastIndexOf s c = None.
Proof.
  induction s as [|d s IH]; [done|]. rewrite not_elem_of_cons. intros [Hd Hs]. cbn.
  rewrite IH by done. by rewrite (proj2 (N.eqb_neq d c)).
Qed.

Lemma lastIndexOf_app s c post :
  c ∉ post → lastIndexOf (s ++ c :: post) c = Some (length s).
Proof.
  intros Hp. induction s as [|d s IH]; cbn.
  - by rewrite lastIndexOf_None, N.eqb_refl.
  - by rewrite IH.
Qed.

Lemma slice_middle pre t post :
  slice (pre ++ t ++ post) (Z.of_nat (length pre)) (Some (Z.of_nat (length (pre ++ t)))) = t.
Proof.
  unfold slice, slice_index. cbn [from_option id]. rewrite !length_app.
  rewrite (proj2 (Z.ltb_ge (Z.of_nat (length pre)) 0)) by lia.
  rewrite (proj2 (Z.ltb_ge (Z.of_nat (length pre + length t)) 0)) by lia.
  rewrite !Z.min_l by lia. rewrite !Nat2Z.id.
  rewrite drop_app_length. replace (length pre + length t - length pre)%nat with (length t) by lia.
  by rewrite take_app_length.
Qed.

Lemma extract_braces pre b post :
  123 ∉ pre → 125 ∉ post →
  extract_json (pre ++ (123 :: b ++ [125]) ++ post)
  = Some (drop_trailing 93 false (drop_trailing 125 false (123 :: b ++ [125]))).
Proof.
  intros Hpre Hpost. unfold extract_json.
  assert (indexOf (pre ++ (123 :: b ++ [125]) ++ post) 123 = Some (length pre)) as ->
    by (by apply indexOf_app).
  assert (lastIndexOf (pre ++ (123 :: b ++ [125]) ++ post) 125
          = Some (length (pre ++ 123 :: b))) as ->.
  { replace (pre ++ (123 :: b ++ [125]) ++ post) with ((pre ++ 123 :: b) ++ 125 :: post).
    - by apply lastIndexOf_app.
    - rewrite <- !app_assoc. cbn. by rewrite <- app_assoc. }
  replace (Z.of_nat (length (pre ++ (123 :: b)%N)) + 1)%Z
    with (Z.of_nat (length (pre ++ (123 :: b ++ [125]))))
    by (rewrite !length_app; cbn; rewrite length_app; cbn; lia).
  by rewrite slice_middle.
Qed.

Lemma trimStart_sub s x : x ∈ trimStart s → x ∈ s.
Proof.
  induction s as [|c s IH]; [done|]. cbn. destruct (is_space c); [|done].
  intros H. apply list_elem_of_further. auto.
Qed.

Lemma trimStart_app a c b :
  is_space c = false → trimStart (a ++ c :: b) = trimStart a ++ c :: b.
Proof.
  intros Hc. induction a as [|d a IH]; cbn; [by rewrite Hc|]. by destruct (is_space d).
Qed.

(** Trimming stops at the ends of a text that starts and ends with no space. *)
Lemma trim_around pre x t y post :
  is_space x = false → is_space y = false →
  ∃ pre' post', trim (pre ++ (x :: t ++ [y]) ++ post) = pre' ++ (x :: t ++ [y]) ++ post'
    ∧ (∀ c, c ∈ pre' → c ∈ pre) ∧ (∀ c, c ∈ post' → c ∈ post).
Proof.
  intros Hx Hy. exists (trimStart pre), (rev (trimStart (rev post))).
  split; [|split; [apply trimStart_sub|]].
  - unfold trim, trimEnd. cbn [app]. rewrite trimStart_app by done.
    set (p := trimStart pre).
    replace (p ++ x :: (t ++ [y]) ++ post) with ((p ++ x :: t) ++ y :: post)
      by (by rewrite <- !app_assoc).
    rewrite rev_app_distr. cbn [rev]. rewrite <- app_assoc. cbn [app].
    rewrite trimStart_app by done. rewrite rev_app_distr. cbn [rev].
    rewrite rev_involutive, <- !app_assoc. done.
  - intros c Hc. apply list_elem_of_In, in_rev, list_elem_of_In, trimStart_sub in Hc.
    by apply list_elem_of_In, in_rev, list_elem_of_In.
Qed.
End Extraction.

Local Open Scope prog_scope.

Section Config.
Context {E : Type} `{RE : RedisEntry E} `{EN : Env} `{LE : LaunchEnv}.
Implicit Types w : world E.

(** The answer of the model server: a 2xx response whose JSON has the text. *)
Definition model_says (w : world E) (prompt text : jsstr) : Prop :=
  ∃ res j, fetch_answer (tick w) (ollama_request prompt) = inr res ∧ res_ok res = true
    ∧ parse (res_text res) = Some j ∧ trimmed_response j = inr (trim text).

Lemma ask_ollama_says prompt text w :
  model_says w prompt text →
  ask_ollama prompt w = (Ok (trim text), pass (add_event (Fetch (ollama_request prompt)) w)).
Proof.
  intros (res & j & Hf & Hok & Hp & Ht). unfold ask_ollama, fetch_ok, fetch, bind.
  cbn. rewrite Hf. cbn. rewrite Hok. cbn. unfold json_parse. rewrite Hp. cbn. by rewrite Ht.
Qed.

(** C22. An object the model writes anywhere in its answer is what the configuration is
    made of, however it is laid out: in any text the JSON grammar has for it, with any
    white space between the tokens and with commas before closing brackets.  Text around
    it without braces is ignored, and so are those commas.  The condition is that no
    comma inside a string is followed by a closing bracket (only white space between),
    since the cleaning would take that comma out of the string.  The mint shown is the
    address of a key pair generated for the occasion. *)
Theorem generateLaunchConfig_reads pre d post w :
  is_object d = true → doc_ok d → 123%N ∉ pre → 125%N ∉ post →
  model_says w config_prompt (pre ++ as_written d ++ post) →
  ∃ w', generateLaunchConfig w
        = (Ok (launch_config (value d) (publicKey (generate_answer (S (tick w))))), w')
    ∧ redis w' = redis w ∧ log w' = log w ++ [Fetch (ollama_request config_prompt)].
Proof.
  intros Ho Hd Hpre Hpost Hsay. unfold generateLaunchConfig.
  erewrite bind_ok by (by apply ask_ollama_says).
  destruct (object_braces d Ho) as [b Hb].
  destruct (trim_around pre 123 b 125 post) as (pre' & post' & Ht & H1 & H2); [done..|].
  pose proof (drop_written d Hd) as Hp. rewrite Hb in Hp |- *.
  rewrite Ht, extract_braces by naive_solver.
  erewrite bind_ok by (unfold try_catch, json_parse; by rewrite Hp).
  erewrite bind_ok by reflexivity.
  erewrite bind_ok by (destruct d; done || reflexivity).
  eexists. split; [reflexivity|]. by split.
Qed.
End Config.

(** ** What a launch sends *)

Section Launch.
Context {E : Type} `{RE : RedisEntry E} `{EN : Env} `{LE : LaunchEnv}.
Implicit Types w : world E.

Lemma unsent_fetch r : respects unsent (fetch (E:=E) r).
Proof. unfold fetch. respects_walk. by apply unsent_emit. Qed.

Lemma unsent_parse s : respects unsent (json_parse (E:=E) s).
Proof. unfold json_parse. respects_walk. Qed.

Lemma unsent_onError : respects unsent (detach (E:=E) onError).
Proof. apply unsent_detach, unsent_record. Qed.

Lemma unsent_keypair s : respects unsent (keypair_of_text (E:=E) s).
Proof. pose proof unsent_parse. unfold keypair_of_text. respects_walk. Qed.

Lemma unsent_getUserKP u : respects unsent (getUserKP (E:=E) u).
Proof.
  pose proof unsent_keypair. pose proof unsent_onError. unfold getUserKP, redis_get. respects_walk.
Qed.

Lemma unsent_fetch_ok a r : respects unsent (fetch_ok (E:=E) a r).
Proof. pose proof unsent_fetch. pose proof unsent_onError. unfold fetch_ok. respects_walk. Qed.

Lemma unsent_description n : respects unsent (generateImageDescription (E:=E) n).
Proof.
  pose proof unsent_fetch_ok. pose proof unsent_parse.
  unfold generateImageDescription, ask_ollama. respects_walk.
Qed.

Lemma unsent_image p : respects unsent (generateImage (E:=E) p).
Proof. pose proof unsent_fetch_ok. unfold generateImage. respects_walk. Qed.

Lemma unsent_metadata m n i : respects unsent (store_metadata (E:=E) m n i).
Proof. unfold store_metadata, redis_hset. respects_walk. Qed.

Lemma unsent_platform c : respects unsent (new_platform (E:=E) c).
Proof. unfold new_platform. respects_walk. Qed.

Lemma unsent_seconds : respects unsent (now_seconds (E:=E)).
Proof. unfold now_seconds. respects_walk. Qed.

Lemma unsent_env_key v : respects unsent (env_publicKey (E:=E) v).
Proof. unfold env_publicKey. respects_walk. Qed.

(** One step that sends nothing, or one that sends: what holds of every way the
    composition may end. *)
Lemma bind_unsent {A B} (m : prog E A) (k : A → prog E B) w (Q : result B * world E → Prop) :
  respects unsent m →
  (∀ r w1, sends (log w1) = sends (log w) → (∀ b, r ≠ Ok b) → Q (r, w1)) →
  (∀ a w1, m w = (Ok a, w1) → sends (log w1) = sends (log w) → Q (k a w1)) →
  Q (bind m k w).
Proof.
  intros Hm Hstop Hk. specialize (Hm w). unfold bind.
  destruct (m w) as [[a|e|c] w1]; [by apply Hk|by apply Hstop..].
Qed.

Lemma bind_send {B} tx (k : jsstr → prog E B) w (Q : result B * world E → Prop) :
  (∀ r w1, sends (log w1) = sends (log w) ++ [tx] → (∀ b, r ≠ Ok b) → Q (r, w1)) →
  (∀ a w1, sends (log w1) = sends (log w) ++ [tx] → Q (k a w1)) →
  Q (bind (send_and_confirm tx) k w).
Proof.
  intros Hstop Hk. pose proof (send_log tx w) as Hs. unfold bind.
  destruct (send_and_confirm tx w) as [[a|e|c] w1]; [by apply Hk|by apply Hstop..].
Qed.

(** The pool of a launch: the platform's scales share out the whole, the platform
    named is the owner of the configuration, and all of the supply is locked. *)
Definition pool_fair (tx : transaction) : Prop :=
  match tx with
  | LaunchpadPool _ pp cfg _ =>
      (creatorScale cfg + platformScale cfg + burnScale cfg = 10000)%Z
      ∧ pc_owner cfg = platformID pp ∧ totalLockedAmount pp = supply pp
  | _ => True
  end.

(** The transaction opens a pool for [mint], paid by [pk]. *)
Definition pool_of (pk mint : jsstr) (tx : transaction) : Prop :=
  ∃ pp cfg program, tx = LaunchpadPool pk pp cfg program ∧ tokenAMint pp = mint ∧ pool_fair tx.

(** The transactions of a full launch, in their order. *)
Definition launch_plan (pk mint ata : jsstr) (decimals supply : option json) (pool : transaction)
  : list transaction :=
  [CreateMint pk pk decimals; CreateAccount pk mint pk;
   MintTo pk mint ata pk (num_mul (opt_toNumber supply) (pow_of_ten (opt_toNumber decimals)));
   pool].

(** How a run that had sent [s0] ends: an initial part of the plan was sent, all of
    it if the run returned. *)
Definition launch_ends {A} (s0 : list transaction) (pk : jsstr) (d sup : option json)
    (P : A → jsstr → jsstr → Prop) (r : result A * world E) : Prop :=
  ∃ mint ata pool k, sends (log r.2) = s0 ++ take k (launch_plan pk mint ata d sup pool)
    ∧ (k <= 4)%nat ∧ (k = 4%nat → pool_of pk mint pool)
    ∧ ∀ a, r.1 = Ok a → k = 4%nat ∧ P a mint ata.

Lemma pool_sends c pk mint params w (Q : result jsstr * world E → Prop) :
  (∀ r w1, sends (log w1) = sends (log w) → (∀ b, r ≠ Ok b) → Q (r, w1)) →
  (∀ r w1 pool, pool_of pk mint pool → sends (log w1) = sends (log w) ++ [pool] → Q (r, w1)) →
  Q (launch_pool c pk mint params w).
Proof.
  intros Hno Hyes. unfold launch_pool, launchpad.
  apply bind_unsent; [apply unsent_platform|done|]. intros _ w1 _ H1.
  apply bind_unsent; [apply unsent_seconds|naive_solver congruence|]. intros t w2 _ H2.
  apply bind_unsent; [apply unsent_lift|naive_solver congruence|]. intros b w3 _ H3.
  apply bind_unsent; [apply unsent_env_key|naive_solver congruence|]. intros g w4 _ H4.
  apply bind_unsent; [apply unsent_interact|naive_solver congruence|]. intros n w5 _ H5.
  destruct (launchpad_fault n _); [apply Hno; [cbn; congruence|done]|].
  match goal with |- Q (send_and_confirm ?tx ?w) => pose proof (send_log tx w) as Hs end.
  rewrite H5, H4, H3, H2, H1 in Hs.
  destruct (send_and_confirm _ _) as [r w6]. eapply Hyes; [|exact Hs].
  by eexists _, _, _.
Qed.

(** The start of a launch: mint, account, supply; then [k] goes on. *)
Lemma mint_ends {A} pk d sup (k : jsstr * jsstr → prog E A) P w :
  (∀ mint ata w1,
     sends (log w1) = sends (log w) ++ take 3 (launch_plan pk mint ata d sup (SwapTx [] [])) →
     launch_ends (sends (log w)) pk d sup P (k (mint, ata) w1)) →
  launch_ends (sends (log w)) pk d sup P (bind (mint_supply pk d sup) k w).
Proof.
  intros Hk. set (s0 := sends (log w)) in *. unfold mint_supply. rewrite bind_assoc.
  apply bind_send.
  { intros r w1 H1 Hr. exists [], [], (SwapTx [] []), 1%nat. naive_solver lia. }
  intros mint w1 H1. rewrite bind_assoc. apply bind_send.
  { intros r w2 H2 Hr. exists mint, [], (SwapTx [] []), 2%nat. cbn.
    rewrite H2, H1, <- app_assoc. naive_solver lia. }
  intros ata w2 H2. rewrite bind_assoc. apply bind_send.
  { intros r w3 H3 Hr. exists mint, ata, (SwapTx [] []), 3%nat. cbn.
    rewrite H3, H2, H1, <- !app_assoc. naive_solver lia. }
  intros sig w3 H3. apply Hk. by rewrite H3, H2, H1, <- !app_assoc.
Qed.

(** Stopping after the three transactions. *)
Lemma ends_minted {A} s0 pk d sup mint ata (P : A → jsstr → jsstr → Prop) r (w : world E) :
  sends (log w) = s0 ++ take 3 (launch_plan pk mint ata d sup (SwapTx [] [])) →
  (∀ a, r ≠ Ok a) → launch_ends s0 pk d sup P (r, w).
Proof.
  intros Hs Hr. exists mint, ata, (SwapTx [] []), 3%nat. naive_solver lia.
Qed.

(** C14. A launch submits the creation of a mint, the creation of the user's account, the
    minting of the whole supply and the creation of the pool, in this order and each
    at most once, always paid by the key pair stored for the user; the pool is for
    the new mint, shares out the whole and locks the supply.  The launch returns only
    when all four went through; otherwise an initial part of them was submitted, so a
    launch that fails late leaves its token behind. *)
Theorem launch_sends c params userId w :
  match (getUserKP userId w).1 with
  | Ok kp =>
      launch_ends (sends (log w)) (publicKey kp) (opt_prop (Some params) (js "decimals"))
        (opt_prop (Some params) (js "supply"))
        (λ l mint ata, l_mint l = mint ∧ l_account l = ata) (launchTokenInternal c params userId w)
  | _ => unsent w (launchTokenInternal c params userId w).2
         ∧ ∀ l, (launchTokenInternal c params userId w).1 ≠ Ok l
  end.
Proof.
  pose proof (unsent_getUserKP userId w) as H0. unfold launchTokenInternal.
  destruct (getUserKP userId w) as [[kp|e|x] w0] eqn:Ekp; cbn [fst snd] in *.
  2: by rewrite (bind_throw _ _ _ _ _ Ekp).
  2: by rewrite (bind_exit _ _ _ _ _ Ekp).
  rewrite (bind_ok _ _ _ _ _ Ekp). cbv zeta. unfold unsent in H0. rewrite <- H0.
  apply bind_unsent; [apply unsent_lift| |].
  { intros r w1 H1 Hr. exists [], [], (SwapTx [] []), O. cbn. rewrite app_nil_r. naive_solver lia. }
  intros d w1 Hd H1. assert (d = opt_prop (Some params) (js "decimals") ∧ w1 = w0) as [-> ->].
  { destruct params; cbn in Hd; by injection Hd. }
  apply mint_ends. intros mint ata w2 H2.
  apply bind_unsent; [apply unsent_description| |].
  { intros. eapply ends_minted; [|done]. by rewrite <- H2. }
  intros desc w3 _ H3. apply bind_unsent; [apply unsent_image| |].
  { intros. eapply ends_minted; [|done]. by rewrite <- H2, <- H3. }
  intros img w4 _ H4. apply bind_unsent; [apply unsent_metadata| |].
  { intros. eapply ends_minted; [|done]. by rewrite <- H2, <- H3, <- H4. }
  intros _ w5 _ H5.
  assert (sends (log w5) = sends (log w0)
            ++ take 3 (launch_plan (publicKey kp) mint ata (opt_prop (Some params) (js "decimals"))
                        (opt_prop (Some params) (js "supply")) (SwapTx [] []))) as H6
    by congruence.
  unfold bind. generalize (pool_sends c (publicKey kp) mint params w5). intros Hpool.
  apply (Hpool (λ r, launch_ends _ _ _ _ _ (match r with (Ok a, w') => _ | (Throw e, w') => _ | (Exit c, w') => _ end))).
  - intros r w6 H7 Hr. destruct r as [a|e|x]; [by destruct (Hr a)|eapply ends_minted; [rewrite H7; exact H6|done]..].
  - intros r w6 pool Hp H7. exists mint, ata, pool, 4%nat.
    destruct r as [a|e|x]; cbn; rewrite H7, H6, <- app_assoc; naive_solver lia.
Qed.

(** ** The preview address *)

Lemma assoc_set_ne l k k' v : k ≠ k' → assoc (obj_set l k v) k' = assoc l k'.
Proof.
  intros Hk. induction l as [|[g x] l IH]; cbn.
  - by rewrite bool_decide_eq_false_2.
  - case_bool_decide; cbn; [subst g; by rewrite !bool_decide_eq_false_2|by rewrite IH].
Qed.

(** The mint address shown to the user before a launch has no effect on it: a launch
    whose configuration has any other [tokenMint], or none, does exactly the same. *)
Theorem launch_ignores_tokenMint c o v userId w :
  launchTokenInternal c (JObj (obj_set o (js "tokenMint") v)) userId w
  = launchTokenInternal c (JObj o) userId w.
Proof.
  assert (∀ k, js "tokenMint" ≠ k →
    opt_prop (Some (JObj (obj_set o (js "tokenMint") v))) k = opt_prop (Some (JObj o)) k) as Ho.
  { intros k Hk. by apply assoc_set_ne. }
  assert (prop (Some (JObj (obj_set o (js "tokenMint") v))) (js "decimals")
          = prop (Some (JObj o)) (js "decimals")) as Hp.
  { cbn. f_equal. by apply assoc_set_ne. }
  unfold launchTokenInternal, launch_pool. rewrite Hp. by rewrite !Ho by discriminate.
Qed.
End Launch.

(** ** API keys and the captcha *)

Section Server.
Context {E : Type} `{RE : RedisEntry E} `{RL : !RedisLaws E} `{EN : Env} `{EL : !EnvLaws}.
Context `{LE : LaunchEnv}.
Implicit Types w : world E.

(** What issuing a key does. *)
Lemma generateApiKey_eq u w :
  redis_fault (S (tick w)) = None →
  generateApiKey u w
  = (Ok (hex_encode (random_answer (tick w) 32)),
     put (apikey_key u)
       (e_set (now (pass (pass w))) (hex_encode (random_answer (tick w) 32)) (Some 7200%Z))
       (pass (pass w))).
Proof.
  intros Hf. unfold generateApiKey, redis_set.
  erewrite bind_ok by reflexivity. cbv zeta.
  by erewrite bind_ok by (by apply (write_ok _ (λ t _, _))).
Qed.

(** A detached report never answers. *)
Lemma forbid_never_accepts w u :
  ((detach (E:=E) onSpam ;; ret (inl forbidden : http_response + jsstr)) w).1 ≠ Ok (inr u).
Proof. unfold bind. by destruct (detach onSpam w) as [[[]|?|?] ?]. Qed.

(** C24. An issued key authenticates its user for two hours and no longer, and no other
    key does, as long as no newer key was issued for the user. *)
Theorem api_key_window u w key w1 w2 r :
  u ≠ [] → generateApiKey u w = (Ok key, w1) →
  entry_at w2 (apikey_key u) = entry_at w1 (apikey_key u) →
  redis_fault (tick w2) = None → r_userId r = Some u →
  (r_apiKey r = Some key → (now (pass w2) < now w1 + 7200 * 1000)%Z →
     validateApiKey r w2 = (Ok (inr u), pass w2))
  ∧ (r_apiKey r ≠ Some key ∨ (now w1 + 7200 * 1000 <= now (pass w2))%Z →
     ∀ x, (validateApiKey r w2).1 ≠ Ok (inr x)).
Proof.
  intros Hu Hg He Hf Hr. destruct (redis_fault (S (tick w))) eqn:Hf1.
  { apply bind_inv in Hg as (n & w' & Hn & Hg). injection Hn as <- <-.
    apply bind_inv in Hg as ([] & w'' & Hs & _). unfold redis_set in Hs.
    rewrite write_eq in Hs. cbn in Hs. by rewrite Hf1 in Hs. }
  rewrite generateApiKey_eq in Hg by done.
  assert (key = hex_encode (random_answer (tick w) 32)) as Hkey by congruence.
  assert (now w1 = now (pass (pass w))) as Hnow by (by injection Hg as _ <-).
  assert (entry_at w1 (apikey_key u) = e_set (now w1) key (Some 7200%Z)) as He1.
  { rewrite Hnow, Hkey. injection Hg as _ <-. apply entry_put. }
  assert (length key = 64%nat) as Hlen.
  { rewrite Hkey, hex_encode_length, random_length. done. }
  rewrite He1 in He. clear Hg Hkey Hnow He1. unfold validateApiKey. rewrite Hr.
  destruct u as [|c u]; [done|]. unfold redis_get.
  pose proof (read_ok (apikey_key (c :: u)) e_get w2 Hf) as Hread. rewrite He, get_setex in Hread.
  split.
  - intros Hk Ht. rewrite Hk. destruct key as [|d key]; [done|].
    erewrite bind_ok by exact Hread. rewrite (proj2 (Z.ltb_lt _ _)) by lia.
    by rewrite bool_decide_eq_true_2.
  - intros Hbad x. destruct (r_apiKey r) as [[|d k]|]; try apply forbid_never_accepts.
    erewrite bind_ok by exact Hread. rewrite bool_decide_eq_false_2; [apply forbid_never_accepts|].
    destruct (_ <? _)%Z eqn:Et; [|done]. apply Z.ltb_lt in Et.
    intros [= ->]. destruct Hbad as [Hbad|]; [done|lia].
Qed.

(** C23. The captcha middleware lets a request pass only if it has a token that Google
    confirms with a score of one half or more, and then the failures of its address
    are forgotten. *)
Theorem captcha_passes r w w' :
  captchaMiddleware r w = (Ok None, w') →
  ∃ t body res j score, r_captcha r = Some t ∧ t ≠ [] ∧ recaptcha_body t = inr body
    ∧ fetch_answer (S (tick w)) (Request RECAPTCHA_URL (js "POST") (Some body)) = inr res
    ∧ parse (res_text res) = Some j ∧ field j (js "success") = Some (JBool true)
    ∧ field j (js "score") = Some score ∧ num_ge (json_toNumber score) (Fin (1 # 2)) = true
    ∧ entry_at w' (captcha_key (r_ip r)) = e_none.
Proof.
  unfold captchaMiddleware, try_catch, redis_get.
  destruct (bind _ _ w) as [[a|e|x] w1] eqn:Eb; [| |done].
  2: { unfold bind. by destruct (detach onError w1) as [[[]|?|?] ?]. }
  intros [= -> ->]. apply bind_inv in Eb as (stored & w2 & Hr & Eb).
  rewrite read_eq in Hr. destruct (redis_fault (tick w)); [done|].
  assert (w2 = pass w) as -> by congruence. clear Hr.
  destruct (r_captcha r) as [[|c t]|]; [done| |done].
  apply bind_inv in Eb as (ok & w3 & Hv & Eb). destruct ok.
  2: { apply bind_inv in Eb as (? & ? & _ & Eb). by apply bind_inv in Eb as (? & ? & _ & Eb). }
  apply bind_inv in Eb as ([] & w4 & Hd & Eb). injection Eb as ->.
  unfold verifyRecaptcha in Hv. apply bind_inv in Hv as (body & w5 & Hb & Hv).
  destruct (recaptcha_body (c :: t)) as [|body'] eqn:Hbody; [done|]. injection Hb as -> <-.
  apply bind_inv in Hv as (j & w6 & Hj & Hv). unfold fetch_json in Hj.
  apply bind_inv in Hj as (res & w7 & Hf & Hj). unfold fetch, bind in Hf. cbn in Hf.
  destruct (fetch_answer _ _) as [|res'] eqn:Hfa; [done|]. injection Hf as -> <-.
  unfold json_parse in Hj. destruct (parse (res_text res)) as [j'|] eqn:Hp; [|done].
  injection Hj as -> <-. apply bind_inv in Hv as (succ & w8 & Hs & Hv).
  assert (is_true succ && good_score (opt_prop (Some j) (js "score")) = true) as Hok
    by (unfold ret in Hv; congruence).
  apply andb_true_iff in Hok as [Hs1 Hs2].
  assert (field j (js "success") = Some (JBool true) ∧ opt_prop (Some j) (js "score") = field j (js "score")) as [Hf1 Hf2].
  { apply lift_inv in Hs. destruct succ as [[| [] | | | |]|]; try done.
    destruct j; try done; cbn in Hs; injection Hs; done. }
  rewrite Hf2 in Hs2. unfold good_score in Hs2.
  destruct (field j (js "score")) as [score|] eqn:Hsc; [|done].
  exists (c :: t), body, res, j, score. repeat (split; [done|]).
  split; [by destruct score|]. unfold redis_del in Hd. rewrite write_eq in Hd.
  destruct (redis_fault _); [done|]. injection Hd as <-. apply entry_put.
Qed.
End Server.

(** ** Who pays *)

(** The key that signs and pays a launcher transaction. *)
Definition payer_of (tx : transaction) : option jsstr :=
  match tx with
  | CreateMint p _ _ | CreateAccount p _ _ | MintTo p _ _ _ _ | LaunchpadPool p _ _ _
  | LaunchpadBuy p _ _ _ _ | LaunchpadSell p _ _ _ _ => Some p
  | _ => None
  end.

Section Payer.
Context {E : Type} `{RE : RedisEntry E} `{EN : Env} `{LE : LaunchEnv}.
Implicit Types w : world E.

(** Whatever was sent between the worlds was paid by [pk]. *)
Definition paid_by (pk : jsstr) (w w' : world E) : Prop :=
  ∃ l, sends (log w') = sends (log w) ++ l ∧ Forall (λ tx, payer_of tx = Some pk) l.

#[local] Instance paid_refl pk : Reflexive (paid_by pk).
Proof. intros w. exists []. by rewrite app_nil_r. Qed.
#[local] Instance paid_trans pk : Transitive (paid_by pk).
Proof.
  intros w1 w2 w3 (l & H1 & Hl) (l' & H2 & Hl'). exists (l ++ l').
  rewrite H2, H1, app_assoc. by split; [|apply Forall_app].
Qed.

Lemma paid_unsent pk w w' : unsent w w' → paid_by pk w w'.
Proof. intros H. exists []. by rewrite app_nil_r. Qed.

Lemma paid_quiet {A} pk (m : prog E A) : respects unsent m → respects (paid_by pk) m.
Proof. intros Hm w. apply paid_unsent, Hm. Qed.

Lemma paid_send pk tx : payer_of tx = Some pk → respects (paid_by pk) (send_and_confirm (E:=E) tx).
Proof. intros Hp w. exists [tx]. rewrite send_log. by repeat constructor. Qed.

Lemma paid_launchpad pk tx : payer_of tx = Some pk → respects (paid_by pk) (launchpad (E:=E) tx).
Proof.
  intros Hp. unfold launchpad. apply respects_bind; [apply _|apply paid_quiet, unsent_interact|].
  intros n. destruct (launchpad_fault n tx); [by apply respects_throw|by apply paid_send].
Qed.

(** The steps between the payments. *)
#[local] Hint Extern 1 (respects (paid_by _) (send_and_confirm _)) => (apply paid_send; reflexivity) : eff.
#[local] Hint Extern 1 (respects (paid_by _) (launchpad _)) => (apply paid_launchpad; reflexivity) : eff.
#[local] Hint Extern 2 (respects (paid_by _) _) => apply paid_quiet : eff.
#[local] Hint Resolve unsent_getUserKP unsent_image unsent_metadata unsent_platform unsent_seconds
  unsent_env_key unsent_onError : eff.

Lemma paid_mint pk d sup : respects (paid_by pk) (mint_supply (E:=E) pk d sup).
Proof. unfold mint_supply. respects_walk. Qed.

Lemma paid_pool c pk mint params : respects (paid_by pk) (launch_pool (E:=E) c pk mint params).
Proof. unfold launch_pool. respects_walk. Qed.

Lemma paid_detach pk : respects (paid_by pk) (detach (E:=E) onError).
Proof. apply paid_quiet, unsent_onError. Qed.

(** A route that reads the body, then the key pair of the user, then goes on. *)
Lemma route_paid body key u (k : option json → keypair → prog E http_response) w :
  (∀ d kp, respects (paid_by (publicKey kp)) (k d kp)) →
  match (getUserKP u w).1 with
  | Ok kp => paid_by (publicKey kp) w
      (or_report (d <- lift (prop (Some body) key) ;; kp <- getUserKP u ;; k d kp) w).2
  | _ => unsent w (or_report (d <- lift (prop (Some body) key) ;; kp <- getUserKP u ;; k d kp) w).2
  end.
Proof.
  intros Hk. pose proof (unsent_getUserKP u w) as Hu.
  assert (∀ w (e : exn), unsent w
    ((detach (E:=E) onError ;; ret (Answer 500 (error_json (message e) None))) w).2) as Hrep.
  { intros w' e. apply respects_bind; [apply _|apply unsent_onError|]. intros _. by apply respects_ret. }
  assert (∀ w0 e, unsent w w0 → ∀ o, match o with
    | Ok kp => paid_by (publicKey kp) w
        ((detach (E:=E) onError ;; ret (Answer 500 (error_json (message e) None))) w0).2
    | _ => unsent w ((detach (E:=E) onError ;; ret (Answer 500 (error_json (message e) None))) w0).2
    end) as Hall.
  { intros w0 e H0 o. assert (unsent w
      ((detach (E:=E) onError ;; ret (Answer 500 (error_json (message e) None))) w0).2)
      by (etransitivity; [exact H0|apply Hrep]).
    destruct o; [by apply paid_unsent|done..]. }
  unfold or_report, try_catch. destruct (prop (Some body) key) as [e|d].
  { apply (Hall w e). done. }
  change (bind (lift (inr d)) ?f w) with (f d w). cbv beta. unfold bind at 1 3 5.
  destruct (getUserKP u w) as [[kp|e|x] w1]; cbn [fst snd] in *; [|by etransitivity; [|apply Hrep]|done].
  pose proof (Hk d kp w1) as Hp. destruct (k d kp w1) as [[a|e|x] w2]; cbn [fst snd] in *.
  2: etransitivity; [|apply paid_unsent, Hrep].
  all: etransitivity; [by apply paid_unsent|exact Hp].
Qed.

(** The protected routes only spend from the wallet of the user. *)
Lemma protected_paid c r u w :
  match (getUserKP u w).1 with
  | Ok kp => paid_by (publicKey kp) w (protected c r u w).2
  | _ => unsent w (protected c r u w).2
  end.
Proof.
  pose proof paid_mint. pose proof paid_pool. unfold protected.
  destruct (r_route r); try (destruct (getUserKP u w) as [[]]; cbn; reflexivity).
  all: unfold create_token, create_pool, buy_token, sell_token, trade_token, launch_token.
  all: apply route_paid; intros d kp; respects_walk.
Qed.
End Payer.

Section Authorised.
Context {E : Type} `{RE : RedisEntry E} `{EN : Env} `{LE : LaunchEnv}.
Implicit Types w : world E.

Lemma unsent_length w w' : unsent w w' → length (sends (log w')) = length (sends (log w)).
Proof. by intros ->. Qed.

Lemma unsent_spam : respects unsent (detach (E:=E) onSpam).
Proof. apply unsent_detach, unsent_record. Qed.

Lemma unsent_captcha r : respects unsent (captchaMiddleware (E:=E) r).
Proof.
  pose proof (unsent_onError (E:=E)). pose proof (unsent_fetch (E:=E)). pose proof (unsent_parse (E:=E)).
  unfold captchaMiddleware, verifyRecaptcha, fetch_json, redis_get, redis_del, redis_incr,
    redis_expire. respects_walk.
Qed.

Lemma unsent_get_api_key body : respects unsent (get_api_key (E:=E) body).
Proof.
  pose proof (unsent_onError (E:=E)). unfold get_api_key, or_report, generateApiKey, redis_set. respects_walk.
Qed.

Lemma unsent_get_token mint : respects unsent (get_token (E:=E) mint).
Proof. pose proof (unsent_onError (E:=E)). unfold get_token, or_report, redis_hgetall. respects_walk. Qed.

(** What the key check passes on, and that it sends nothing. *)
Lemma validate_inv r w :
  unsent w (validateApiKey r w).2 ∧
  ∀ u, (validateApiKey r w).1 = Ok (inr u) →
    r_userId r = Some u ∧ u ≠ [] ∧ (validateApiKey r w).2 = pass w
    ∧ ∃ k, r_apiKey r = Some k ∧ k ≠ []
           ∧ e_get (now (pass w)) (entry_at w (apikey_key u)) = Some k.
Proof.
  split.
  { pose proof unsent_spam. revert w. change (respects unsent (validateApiKey (E:=E) r)).
    unfold validateApiKey, redis_get. respects_walk. }
  intros u. unfold validateApiKey.
  destruct (r_userId r) as [[|c v]|], (r_apiKey r) as [[|d k]|];
    try by intros H; exfalso; apply (forbid_never_accepts w u H).
  unfold redis_get, bind at 1 3. rewrite read_eq. destruct (redis_fault (tick w)); [done|].
  case_bool_decide as Hk; [|by intros H; exfalso; apply (forbid_never_accepts (pass w) u H)].
  intros [= <-]. do 3 (split; [done|]). exists (d :: k). do 2 (split; [done|]). exact Hk.
Qed.

(** A request sends nothing, or it is authorised. *)
Lemma launcher_inv c r w :
  unsent w (handle_launcher c r w).2
  ∨ ∃ w1 u k kp, captchaMiddleware r w = (Ok None, w1)
    ∧ r_userId r = Some u ∧ r_apiKey r = Some k ∧ k ≠ []
    ∧ e_get (now (pass w1)) (entry_at w1 (apikey_key u)) = Some k
    ∧ (getUserKP u (pass w1)).1 = Ok kp
    ∧ paid_by (publicKey kp) w (handle_launcher c r w).2.
Proof.
  set (guarded := a <- captchaMiddleware (E:=E) r ;;
    match a with
    | Some a => ret a
    | None => u <- validateApiKey r ;;
        match u with inl a => ret a | inr userId => protected c r userId end
    end).
  assert (unsent w (handle_launcher c r w).2 ∨ handle_launcher c r w = guarded w) as [H| ->].
  { unfold handle_launcher. destruct (r_route r); try by right.
    - left. apply respects_bind; [apply _|apply unsent_captcha|].
      intros [a|]; [by apply respects_ret|apply unsent_get_api_key].
    - left. apply unsent_get_token. }
  { by left. }
  pose proof (unsent_captcha r w) as Hc. unfold guarded, bind at 1 3.
  destruct (captchaMiddleware r w) as [[[a|]|e|x] w1]; [by left| |by left..]. cbn in Hc.
  destruct (validate_inv r w1) as [Hv Hi]. unfold bind.
  destruct (validateApiKey r w1) as [[[a|u]|e|x] w2] eqn:Ev; cbn [fst snd] in *;
    [left; by etransitivity| |left; by etransitivity..].
  destruct (Hi u eq_refl) as (Hu & _ & -> & k & Hk & Hk0 & Hg).
  pose proof (protected_paid c r u (pass w1)) as Hp.
  destruct (getUserKP u (pass w1)) as [[kp|e|x] w3] eqn:Ekp; cbn [fst] in Hp.
  2-3: left; etransitivity; [exact Hc|exact Hp].
  right. exists w1, u, k, kp. rewrite Ekp. repeat (split; [done|]).
  destruct Hp as (l & Hl & Hf). exists l. unfold unsent in Hc. rewrite <- Hc. by split.
Qed.

(** C12. A request to the launcher that makes it submit anything has passed the captcha,
    carries the API key stored for its user at that moment, and everything it submits
    is signed and paid by the key pair stored for that same user. *)
Theorem launcher_authorised c r w :
  ¬ unsent w (handle_launcher c r w).2 →
  ∃ w1 u k kp, captchaMiddleware r w = (Ok None, w1)
    ∧ r_userId r = Some u ∧ r_apiKey r = Some k ∧ k ≠ []
    ∧ e_get (now (pass w1)) (entry_at w1 (apikey_key u)) = Some k
    ∧ (getUserKP u (pass w1)).1 = Ok kp
    ∧ paid_by (publicKey kp) w (handle_launcher c r w).2.
Proof. intros Hs. by destruct (launcher_inv c r w). Qed.
End Authorised.

(** ** A launch that goes through *)

Definition calm_sdk : LaunchEnv := {|
  bs58_decode _ := inr (secretKey (calm_key 3));
  curve name := Some (JStr name);
  publicKey_of v := inr (opt_toString v);
  platform_fault _ := None;
  launchpad_fault _ _ := None;
  form_body f v := inr (f ++ js "=" ++ opt_toString v);
  hash_field v := inr (opt_toString v);
|}.

Definition fox : list (jsstr * json) :=
  [(js "decimals", JNum (num_of_Z 6)); (js "supply", JNum (num_of_Z 1000));
   (js "tokenName", JStr (js "Fox"))].

(** The fox as a model may write it. *)
Definition fox_doc : doc :=
  Obj (Members (Label ([10; 32; 32]%N) (js "decimals") (js "decimals") [] [32%N])
               (Word (js "6") (JNum (num_of_Z 6))) []
      (Members (Label ([10; 32; 32]%N) (js "supply") (js "supply") [32%N] [9%N])
               (Word (js "1e3") (JNum (num_of_Z 1000))) [32%N]
      (Member (Label [] (js "tokenName") (js "tokenName") [] [32%N])
              (Word ([34] ++ js "\u0046ox" ++ [34])%N (JStr (js "Fox"))) [13%N] (Some [10%N])))).

(** A server that answers as Google's captcha and as a talkative model. *)
Definition fox_answer (r : request) : response :=
  Response true (js "OK") (stringify (JObj
    [(js "success", JBool true); (js "score", JNum (Fin (1 # 2)));
     (js "response", JStr (js " Here it is: " ++ as_written fox_doc ++ js " enjoy "))])).

Definition fox_env : Env := calm_with fox_answer.

Definition the_key : jsstr := js "00ff".

(** Ann has a wallet and an API key. *)
Definition ann_world : world entry :=
  set_redis (<[apikey_key (js "ann") := EStr the_key None]>
    {[ wallet_key (js "ann") := EStr (stringify (json_bytes (secretKey (calm_key 1)))) None ]}) world0.

Definition ann_request (rt : route) : launcher_request :=
  LReq rt (js "1.2.3.4") (Some (js "token")) (Some (js "ann")) (Some the_key) (JObj fox).

Definition the_platform : launcher := Launcher (js "Platform") None.

(** All four transactions of Ann's launch. *)
Example ann_launches :
  match launchTokenInternal (EN:=fox_env) (LE:=calm_sdk) the_platform (JObj fox) (js "ann") ann_world with
  | (Ok l, w) => length (sends (log w)) = 4%nat ∧ l_website l = js "https://meta/token/sig"
  | _ => False
  end.
Proof. vm_compute. done. Qed.

Lemma fox_ok : json_ok (JObj fox).
Proof.
  apply ok_obj.
  - repeat constructor; cbn; try done; apply num_of_Z_wf; lia.
  - refine (bool_decide_unpack _ _). vm_compute. exact I.
Qed.

Lemma fox_doc_ok : doc_ok fox_doc ∧ value fox_doc = JObj fox.
Proof.
  split; [|by vm_compute].
  assert (∀ t x, parse_number t = Some (x, []) → word t (JNum x)) as Hn
    by (intros t x H; right; right; right; left; by exists x).
  assert (∀ b s, string_lit b s → word (34%N :: b ++ [34%N]) (JStr s)) as Hs
    by (intros b s H; right; right; right; right; by exists b, s).
  assert (∀ b, bool_decide (ws b) = true → ws b) as Hw by (intros b; apply bool_decide_eq_true_1).
  unfold fox_doc. cbn [doc_ok members_ok trail_ok].
  repeat match goal with
  | |- _ ∧ _ => split
  | |- label_ok _ => unfold label_ok; cbn [l_before l_body l_key l_colon l_after]
  | |- ws _ => apply Hw; by vm_compute
  | |- word (js _) _ => apply Hn; by vm_compute
  | |- word _ _ => apply (Hs (js "\u0046ox")); by vm_compute
  | |- _ => by vm_compute
  end.
Qed.

Lemma generateLaunchConfig_reads_witness :
  ∃ w', generateLaunchConfig (EN:=fox_env) world0
      = (Ok (launch_config (EN:=fox_env) (JObj fox)
               (publicKey (generate_answer (Env:=fox_env) 1))), w')
    ∧ redis w' = redis world0.
Proof.
  destruct (generateLaunchConfig_reads (EN:=fox_env) (js " Here it is: ") fox_doc (js " enjoy ") world0
    eq_refl (proj1 fox_doc_ok)
    ltac:(refine (bool_decide_unpack _ _); vm_compute; exact I)
    ltac:(refine (bool_decide_unpack _ _); vm_compute; exact I)) as (w' & H & Hr & _).
  - eexists _, _. split; [reflexivity|]. split; [reflexivity|].
    split; [vm_compute; reflexivity|vm_compute; reflexivity].
  - exists w'. rewrite <- (proj2 fox_doc_ok). split; [exact H|exact Hr].
Defined.

(** The world after a key was issued to Bob. *)
Definition issued : world entry := (generateApiKey (js "bob") world0).2.
Definition bob_key : jsstr := hex_encode (replicate 32 0%N).

Lemma api_key_window_witness :
  validateApiKey (LReq Elsewhere [] None (Some (js "bob")) (Some bob_key) JNull) issued
  = (Ok (inr (js "bob")), pass issued).
Proof.
  apply (api_key_window (js "bob") world0 bob_key issued issued
    (LReq Elsewhere [] None (Some (js "bob")) (Some bob_key) JNull));
    [discriminate|vm_compute; reflexivity|reflexivity|reflexivity|reflexivity|reflexivity
    |vm_compute; reflexivity].
Defined.

Definition checked : world entry :=
  (captchaMiddleware (EN:=fox_env) (ann_request LaunchToken) ann_world).2.

Lemma captcha_passes_witness : r_captcha (ann_request LaunchToken) ≠ None
  ∧ entry_at checked (captcha_key (js "1.2.3.4")) = e_none.
Proof.
  assert (captchaMiddleware (EN:=fox_env) (ann_request LaunchToken) ann_world = (Ok None, checked))
    as Hc by (unfold checked; vm_compute; reflexivity).
  destruct (captcha_passes (EN:=fox_env) (ann_request LaunchToken) ann_world checked Hc) as (t & b & res & j & sc & H & _ & _ & _ & _ & _ & _ & _ & He).
  split; [discriminate|exact He].
Defined.

(** Ann's request to the launcher submits four transactions. *)
Lemma ann_launch_sends :
  length (sends (log (handle_launcher (EN:=fox_env) (LE:=calm_sdk) the_platform
    (ann_request LaunchToken) ann_world).2)) = 4%nat.
Proof. vm_compute. reflexivity. Qed.

Lemma launcher_authorised_witness :
  ∃ w1 u, captchaMiddleware (EN:=fox_env) (ann_request LaunchToken) ann_world = (Ok None, w1)
    ∧ r_userId (ann_request LaunchToken) = Some u.
Proof.
  assert (¬ unsent ann_world (handle_launcher (EN:=fox_env) (LE:=calm_sdk) the_platform
            (ann_request LaunchToken) ann_world).2) as Hs.
  { intros H. discriminate (eq_trans (eq_sym ann_launch_sends) (unsent_length _ _ H)). }
  destruct (launcher_authorised (EN:=fox_env) (LE:=calm_sdk) the_platform (ann_request LaunchToken)
    ann_world Hs) as (w1 & u & k & kp & H1 & H2 & _).
  exists w1, u. split; [exact H1|exact H2].
Defined.
