(* ===== verification/Telegram.v ===== *)
(** * telegram-client.js: the Telegram front end

    The menus, the callback handler, the text handler with its manual-launch
    dialogue, and [/start].  The client calls the rest of the program through the
    record [helpers], as the source does; [index_helpers] is how [index.js] wires it.
    Telegraf and the locale's time format are the parameters of [TgEnv]; an update
    holds what the handlers read of Telegraf's context.  The client's own state,
    [awaitingManual] and [lastConfigs], is part of the world. *)

From Stdlib Require Import QArith.
From S2P Require Import Prelude JsString Regex JsNum JsText Json Pretty Bytes Assoc Effects Uint8.
From S2P Require Import RedisModel Db Memory Retry Firewall Solana Token Commands Launcher.

Local Open Scope prog_scope.

Class TgEnv := {
  tg_fault : nat → tg_call → option exn;     (* Telegram rejects the call *)
  toLocaleTimeString : Z → jsstr;            (* new Date(t).toLocaleTimeString() *)
}.

(** ** Menus *)

Definition cbData (actionId handle : jsstr) : jsstr := actionId ++ js ":" ++ handle.

Definition btn (label actionId handle : jsstr) : jsstr * jsstr := (label, cbData actionId handle).

Definition mainMenu (handle : jsstr) : menu := [
  [btn (js "🔍 Balance") (js "BAL") handle; btn (js "💲 Price") (js "PRICE") handle;
   btn (js "📊 Portfolio") (js "PORT") handle];
  [btn (js "📈 Trade") (js "TRADE") handle; btn (js "📘 History") (js "HIST") handle;
   btn (js "💰 Deposit") (js "DEP") handle];
  [btn (js "⚙️ Auto ON") (js "AON") handle; btn (js "⛔ Auto OFF") (js "AOF") handle;
   btn (js "🚀 Launch") (js "LAUNCH") handle];
  [btn (js "❓ Help") (js "HELP") handle]].

(** Flat buttons in rows of three and of two. *)
Definition tradeMenu (handle : jsstr) : menu :=
  [[btn (js "🟢 Buy 0.10") (js "QB") handle; btn (js "🔴 Sell 0.10") (js "QS") handle;
    btn (js "↩️ Back") (js "BK") handle]].

Definition launchMenu (handle : jsstr) : menu :=
  [[btn (js "🤖 AI Launch") (js "AICFG") handle; btn (js "🖋 Manual Launch") (js "MANUAL") handle];
   [btn (js "↩️ Back") (js "BK") handle]].

Definition confirmMenu (handle : jsstr) : menu :=
  [[btn (js "✅ Confirm & Launch") (js "LAUNCH_CONF") handle; btn (js "↩️ Back") (js "LAUNCH") handle]].

(** The cases of the switch. *)
Inductive action :=
  | BAL | PRICE | PORT | TRADE | HIST | DEP | AON | AOF | HELP | QB | QS | BK | LAUNCH
  | AICFG | LAUNCH_CONF | MANUAL.

Definition action_table : list (jsstr * action) := [
  (js "BAL", BAL); (js "PRICE", PRICE); (js "PORT", PORT); (js "TRADE", TRADE);
  (js "HIST", HIST); (js "DEP", DEP); (js "AON", AON); (js "AOF", AOF); (js "HELP", HELP);
  (js "QB", QB); (js "QS", QS); (js "BK", BK); (js "LAUNCH", LAUNCH); (js "AICFG", AICFG);
  (js "LAUNCH_CONF", LAUNCH_CONF); (js "MANUAL", MANUAL)].

Definition action_of (actionId : jsstr) : option action := kv_lookup action_table actionId.

(** [const [ actionId, handle ] = data.split(':')] *)
Definition decode (data : jsstr) : jsstr * jsstr :=
  let parts := split data (js ":") in
  (default [] (parts !! 0%nat), default (js "undefined") (parts !! 1%nat)).

(** ** The client *)

(** The constants of the module and the bot's own name once it is known. *)
Record telegram := Client {
  GREETING : jsstr; GREETING_IMG : option jsstr; MENU_TITLE : jsstr; me : option jsstr
}.

(** [lastConfigs] is a plain object: besides its own properties it has those of its
    prototype, at first [Object.prototype].  Its properties are functions (and, under
    [__proto__], the prototype itself): true, and without the members a launch reads. *)
Definition proto_key : jsstr := js "__proto__".

Definition object_prototype : list jsstr :=
  [proto_key; js "constructor"; js "hasOwnProperty"; js "isPrototypeOf"; js "propertyIsEnumerable";
   js "toLocaleString"; js "toString"; js "valueOf"; js "__defineGetter__"; js "__defineSetter__";
   js "__lookupGetter__"; js "__lookupSetter__"].

(** [this.lastConfigs[handle]], where [own] looks up the own properties and, under
    [__proto__], a prototype that was assigned. *)
Definition config_of (own : jsstr → option json) (handle : jsstr) : option json :=
  match own handle with
  | Some cfg => Some cfg
  | None =>
      match (proto ← own proto_key; field proto handle) with
      | Some v => Some v
      | None => if bool_decide (handle ∈ object_prototype) then Some (JObj []) else None
      end
  end.

(** What the rest of the program offers the client. *)
Record helpers (E : Type) := Helpers {
  h_walletOf : jsstr → prog E jsstr;
  h_balanceOf : jsstr → prog E (jsstr * jsstr);  (* as printed *)
  h_fetchSolPrice : prog E (option json);
  h_getPortfolio : jsstr → prog E portfolio;
  h_getHistory : jsstr → prog E (list json);
  h_ensureUser : jsstr → prog E unit;
  h_saveChatId : jsstr → jsstr → prog E unit;
  h_toggleAuto : jsstr → bool → prog E (bool * jsstr);
  h_setRisk : jsstr → jsstr → prog E (bool * jsstr);
  h_generateLaunchConfig : jsstr → prog E json;
  h_previewImage : option json → prog E (option json);
  h_launchToken : json → jsstr → prog E launched
}.
Arguments Helpers {E}.
Arguments h_walletOf {E}.
Arguments h_balanceOf {E}.
Arguments h_fetchSolPrice {E}.
Arguments h_getPortfolio {E}.
Arguments h_getHistory {E}.
Arguments h_ensureUser {E}.
Arguments h_saveChatId {E}.
Arguments h_toggleAuto {E}.
Arguments h_setRisk {E}.
Arguments h_generateLaunchConfig {E}.
Arguments h_previewImage {E}.
Arguments h_launchToken {E}.

(** A pressed button: its data, the message it belongs to, who pressed it. *)
Record press := Press {
  cb_data : jsstr; cb_msgId : jsstr; cb_chatId : jsstr; cb_first_name : option jsstr
}.

(** A text message. *)
Record text_message := Text {
  tx_username : option jsstr; tx_id : jsstr; tx_first_name : option jsstr;
  tx_chatId : jsstr; tx_private : bool; tx_mention : bool; tx_text : jsstr
}.

Section Telegram.
Context {E : Type} `{RE : RedisEntry E} `{EN : Env} `{LE : LaunchEnv} `{TE : TgEnv}.

(** The stubs of the constructor. *)
Definition default_helpers : helpers E := {|
  h_walletOf _ := ret (js "–");
  h_balanceOf _ := ret (js "0.000", js "0");
  h_fetchSolPrice := ret None;
  h_getPortfolio _ := ret (Portfolio (Fin 0) (js "0.00") [] (js "0.00"));
  h_getHistory _ := ret [];
  h_ensureUser _ := ret tt;
  h_saveChatId _ _ := ret tt;
  h_toggleAuto _ _ := ret (false, js "balanced");
  h_setRisk _ _ := ret (false, js "balanced");
  h_generateLaunchConfig _ := throw (Error (js "generateLaunchConfig not set"));
  h_previewImage _ := ret None;
  h_launchToken _ _ := throw (Error (js "launchToken not set"))
|}.

(** The helpers [index.js] passes to [setHelpers]; all are replaced. *)
Definition index_helpers (c : launcher) : helpers E := {|
  h_walletOf := walletOf;
  h_balanceOf handle := let* (s, tier) := balanceOf handle in ret (s, toString tier);
  h_fetchSolPrice := fetchSolPrice;
  h_getPortfolio := getPortfolio;
  h_getHistory handle :=
    l <- recall handle 5 ;; ret ((λ o, JObj ((λ kv, (kv.1, JStr kv.2)) <$> o)) <$> l);
  h_ensureUser _ := ret tt;
  h_saveChatId _ _ := ret tt;
  h_toggleAuto handle on := toggleAuto handle (Some on);
  h_setRisk := setRisk;
  h_generateLaunchConfig _ := generateLaunchConfig;
  h_previewImage name := u <- generateImage name ;; ret (Some (JStr u));
  h_launchToken := launchTokenInternal c
|}.

(** [process.env.NAME.replace('%AGENT%', AGENT_NAME)] *)
Definition agent_text (name : jsstr) : prog E jsstr :=
  match env_var name with
  | None => throw (read_of (js "undefined") (js "replace"))
  | Some s => ret (replace_first (js "%AGENT%") (env_text (js "AGENT_NAME")) s)
  end.

Definition telegram_load : prog E telegram :=
  greeting <- agent_text (js "AGENT_GREETING") ;;
  title <- agent_text (js "AGENT_MENU_TITLE") ;;
  ret (Client greeting (env_var (js "AGENT_GREETING_IMG")) title None).

(** One call of the Telegram API. *)
Definition tg (c : tg_call) : prog E unit :=
  emit (Telegram c) ;;
  n <- interact ;;
  match tg_fault n c with Some e => throw e | None => ret tt end.

(** [first_name || handle] *)
Definition name_of (first_name : option jsstr) (handle : jsstr) : jsstr :=
  match first_name with Some (c :: n) => c :: n | _ => handle end.

Definition editOrReply (p : press) (text : jsstr) (m : menu) : prog E unit :=
  try_catch (tg (EditMessageText (cb_chatId p) (cb_msgId p) text m))
            (λ _, tg (TgReply text m)).

(** ** The texts *)

Definition tick_quoted (s : jsstr) : jsstr := js "`" ++ s ++ js "`".

Definition balance_text (name time : jsstr) (b : jsstr * jsstr) : jsstr :=
  js "*" ++ name ++ js ", your balance (as of " ++ time ++ js "):*" ++ [10%N]
  ++ js "• SOL: " ++ tick_quoted b.1 ++ [10%N] ++ js "• Agent tokens: " ++ tick_quoted b.2.

Definition price_text (name time : jsstr) (p : option json) : exn + jsstr :=
  match p with
  | None | Some JNull => inr (js "❌ Could not fetch SOL price right now.")
  | Some v =>
      match json_toFixed v 2 with
      | inl e => inl e
      | inr t => inr (js "*" ++ name ++ js ", SOL price (as of " ++ time ++ js "):* "
                      ++ tick_quoted (js "$" ++ t) ++ js " USD")
      end
  end.

Definition holding_line (t : token) : jsstr :=
  js "• " ++ tick_quoted (slice (t_mint t) 0 (Some 6%Z) ++ ellipsis) ++ js ": "
  ++ tick_quoted (toString (t_amount t)) ++ js " @ " ++ tick_quoted (js "$" ++ json_toString (t_price t))
  ++ js " = " ++ tick_quoted (js "$" ++ t_usd t) ++ [10%N].

Definition holdings_text (name time : jsstr) (p : portfolio) : jsstr :=
  js "*" ++ name ++ js ", your portfolio (as of " ++ time ++ js "):*" ++ [10%N]
  ++ js "• SOL: " ++ tick_quoted (toFixed (p_sol p) 3) ++ js " (~" ++ tick_quoted (js "$" ++ p_solUsd p)
  ++ js ")" ++ [10%N] ++ concat (holding_line <$> p_tokens p)
  ++ js "*Total:* " ++ tick_quoted (js "$" ++ p_totalUsd p).

(** [hist.map((l,i) => `${i+1}. ${l}`).join('\n')] *)
Definition history_text (name : jsstr) (hist : list json) : jsstr :=
  js "*" ++ name ++ js ", conversation history:*" ++ [10%N]
  ++ match hist with
     | [] => js "_No history yet._"
     | _ => join (imap (λ i l, toString (num_of_Z (Z.of_nat i + 1)) ++ js ". " ++ json_toString l) hist)
                 [10%N]
     end.

Definition auto_status (name time : jsstr) (on : bool) (risk : jsstr) : jsstr :=
  js "*" ++ name ++ js ", Auto–Trading " ++ (if on then js "ENABLED ✅" else js "DISABLED ❌")
  ++ js "*" ++ [10%N] ++ js "Risk profile: *" ++ risk ++ js "*" ++ [10%N]
  ++ js "_(updated " ++ time ++ js ")_".

Definition help_text (name : jsstr) : jsstr :=
  js "*" ++ name ++ js ", you can also type these commands:*" ++ [10%N]
  ++ js "`/buy <MINT> <SOL>` — place a buy order" ++ [10%N]
  ++ js "`/sell <MINT> <SOL>` — place a sell order" ++ [10%N]
  ++ js "`deposit`, `balance`, `price`, `portfolio`" ++ [10%N; 10%N]
  ++ js "`auto on|off`, `risk low|med|high`".

Definition order_text (name time side : jsstr) : jsstr :=
  js "*" ++ name ++ js ", " ++ side ++ js " order sent (0.10 SOL)*" ++ [10%N]
  ++ js "_(updated " ++ time ++ js ")_".

Definition launched_text (res : launched) : jsstr :=
  js "✅ *Token Launched!*" ++ [10%N]
  ++ js "• Mint: " ++ tick_quoted (l_mint res) ++ [10%N]
  ++ js "• Pool Sig: " ++ tick_quoted (l_poolSignature res) ++ [10%N]
  ++ js "• Logo: " ++ l_imageUrl res ++ [10%N]
  ++ js "• Metadata: " ++ l_website res.

(** The fields shown of a configuration. *)
Definition previewCfg (fullCfg : json) : json :=
  json_fields [(js "decimals", opt_prop (Some fullCfg) (js "decimals"));
               (js "supply", opt_prop (Some fullCfg) (js "supply"));
               (js "tokenName", opt_prop (Some fullCfg) (js "tokenName"));
               (js "tokenMint", opt_prop (Some fullCfg) (js "tokenMint"))].

Definition config_caption (fullCfg : json) : jsstr :=
  js "*Config generated:*" ++ [10%N] ++ js "```json" ++ [10%N] ++ pretty [] (previewCfg fullCfg)
  ++ [10%N] ++ js "```" ++ [10%N] ++ js "__".

(** ** Launching *)

(** [this.lastConfigs[handle] = cfg]: an assignment to [__proto__] makes the object the
    prototype of [lastConfigs] (a configuration is an object). *)
Definition set_config (handle : jsstr) (cfg : json) (l : list (jsstr * json)) : list (jsstr * json) :=
  if bool_decide (handle = proto_key)
  then match cfg with JObj _ => kv_set l handle cfg | _ => l end
  else kv_set l handle cfg.

Definition remember_config (handle : jsstr) (cfg : json) : prog E unit :=
  modify (λ w, set_dialogue (awaitingManual w) (set_config handle cfg (lastConfigs w)) w).

Definition add_awaiting (handle : jsstr) : prog E unit :=
  modify (λ w, set_dialogue (if bool_decide (handle ∈ awaitingManual w) then awaitingManual w
                             else awaitingManual w ++ [handle]) (lastConfigs w) w).

Definition delete_awaiting (handle : jsstr) : prog E unit :=
  modify (λ w, set_dialogue (filter (λ h, h ≠ handle) (awaitingManual w)) (lastConfigs w) w).

(** [try { m; return photo } catch (err) { return reply }]: the photo is returned
    without waiting for it, so its failure is not caught. *)
Definition photo_or_report (m : prog E (option json * jsstr * menu)) (prefix : jsstr) : prog E unit :=
  r <- try_catch (x <- m ;; ret (inr x)) (λ e, ret (inl e)) ;;
  match r with
  | inr (url, caption, mn) => tg (ReplyWithPhoto url caption mn)
  | inl e => tg (TgReply (prefix ++ [10%N] ++ message e) [])
  end.

(** Launch a configuration and show the result. *)
Definition launch_and_show (hs : helpers E) (cfg : json) (handle : jsstr) : prog E unit :=
  photo_or_report
    (res <- h_launchToken hs cfg handle ;;
     ret (Some (JStr (l_imageUrl res)), launched_text res, []))
    (js "❌ Launch failed:").

Definition propose_config (hs : helpers E) (handle : jsstr) : prog E unit :=
  photo_or_report
    (fullCfg <- h_generateLaunchConfig hs handle ;;
     remember_config handle fullCfg ;;
     _ <- lift (prop (Some fullCfg) (js "decimals")) ;;
     imgUrl <- h_previewImage hs (opt_prop (Some fullCfg) (js "tokenName")) ;;
     ret (imgUrl, config_caption fullCfg, confirmMenu handle))
    (js "❌ Failed to generate config:").

Definition quick_button (side handle : jsstr) : msg :=
  Message (Some (js "BTN::" ++ side ++ js "::" ++ SOL_MINT ++ js "::" ++ handle)) None None None.

(** ** The callback handler *)

(** One case of the switch; [callback] is the handler [init] was given. *)
Definition run_action (t : telegram) (hs : helpers E) (callback : msg → prog E unit) (p : press)
    (handle name time : jsstr) (a : action) : prog E unit :=
  let main text := editOrReply p text (mainMenu handle) in
  match a with
  | BAL => b <- h_balanceOf hs handle ;; main (balance_text name time b)
  | PRICE => v <- h_fetchSolPrice hs ;; text <- lift (price_text name time v) ;; main text
  | PORT => v <- h_getPortfolio hs handle ;; main (holdings_text name time v)
  | TRADE => editOrReply p (js "*" ++ name ++ js ", choose trade action:*") (tradeMenu handle)
  | HIST => v <- h_getHistory hs handle ;; main (history_text name v)
  | DEP => addr <- h_walletOf hs handle ;;
           main (js "🔑 *" ++ name ++ js ", your deposit address:*" ++ [10%N] ++ tick_quoted addr)
  | AON => let* (_, risk) := h_toggleAuto hs handle true in main (auto_status name time true risk)
  | AOF => let* (_, risk) := h_toggleAuto hs handle false in main (auto_status name time false risk)
  | HELP => main (help_text name)
  | QB => editOrReply p (order_text name time (js "buy")) (tradeMenu handle) ;;
          callback (quick_button (js "QBUY") handle)
  | QS => editOrReply p (order_text name time (js "sell")) (tradeMenu handle) ;;
          callback (quick_button (js "QSELL") handle)
  | BK => main (MENU_TITLE t)
  | LAUNCH => editOrReply p (js "*" ++ name ++ js ", choose launch method:*") (launchMenu handle)
  | AICFG =>
      editOrReply p (js "🧠 Generating launch configuration via AI…") (launchMenu handle) ;;
      propose_config hs handle
  | LAUNCH_CONF =>
      cfgs <- gets lastConfigs ;;
      match config_of (kv_lookup cfgs) handle with
      | Some cfg =>
          if json_truthy cfg then
            editOrReply p (js "🚀 Launching token…") (launchMenu handle) ;;
            launch_and_show hs cfg handle
          else editOrReply p (js "❌ No configuration found. Please regenerate or use Manual Launch.")
                 (launchMenu handle)
      | None => editOrReply p (js "❌ No configuration found. Please regenerate or use Manual Launch.")
                  (launchMenu handle)
      end
  | MANUAL =>
      editOrReply p (js "*Please send the launch configuration JSON now.*") (launchMenu handle) ;;
      add_awaiting handle
  end.

Definition on_callback (t : telegram) (hs : helpers E) (callback : msg → prog E unit) (p : press)
  : prog E unit :=
  let '(actionId, handle) := decode (cb_data p) in
  let name := name_of (cb_first_name p) handle in
  n <- date_now ;;
  detach (h_ensureUser hs handle) ;;
  h_saveChatId hs handle (cb_chatId p) ;;
  try_catch (tg AnswerCbQuery) (λ _, ret tt) ;;
  match action_of actionId with
  | Some a => run_action t hs callback p handle name (toLocaleTimeString n) a
  | None => ret tt
  end.

(** ** Text messages *)

Definition handle_of (m : text_message) : jsstr := default (tx_id m) (tx_username m).

(** The JSON a user was asked for. *)
Definition manual_launch (hs : helpers E) (handle text : jsstr) : prog E unit :=
  delete_awaiting handle ;;
  match parse text with
  | None => tg (TgReply (js "❌ Invalid JSON. Please try /launch again.") [])
  | Some cfg =>
      tg (TgReply (js "🚀 Launching token with your JSON…") []) ;;
      launch_and_show hs cfg handle
  end.

(** The bot's own mention goes; its name has no regular-expression syntax. *)
Definition strip_me (t : telegram) (text : jsstr) : jsstr :=
  match me t with
  | Some (c :: n) => trim (replace_lit (js "@" ++ c :: n) text)
  | _ => text
  end.

Definition on_text (t : telegram) (hs : helpers E) (callback : msg → prog E unit) (m : text_message)
  : prog E unit :=
  let handle := handle_of m in
  waiting <- gets awaitingManual ;;
  if bool_decide (handle ∈ waiting) then manual_launch hs handle (tx_text m)
  else if negb (tx_private m) && negb (tx_mention m) && negb (startsWith (tx_text m) (js "/"))
  then ret tt
  else
    detach (h_ensureUser hs handle) ;;
    h_saveChatId hs handle (tx_chatId m) ;;
    detach (callback (Message None (Some (strip_me t (tx_text m))) (Some handle)
      (Some (λ n text, tg_fault n (SendMessage (tx_chatId m) text))))).

(** ** [/start] *)

Definition on_start (t : telegram) (hs : helpers E) (m : text_message) : prog E unit :=
  let handle := handle_of m in
  let name := name_of (tx_first_name m) handle in
  let caption := js "*" ++ GREETING t ++ js "*" ++ [10%N] ++ js "_Hello, " ++ name ++ js "!_" in
  detach (h_ensureUser hs handle) ;;
  h_saveChatId hs handle (tx_chatId m) ;;
  match GREETING_IMG t with
  | Some (c :: u) => tg (ReplyWithPhoto (Some (JStr (c :: u))) caption [])
  | _ => tg (TgReply caption [])
  end ;;
  tg (TgReply (MENU_TITLE t) (mainMenu handle)).

(** An update, and the client's reaction to it. *)
Inductive update := Pressed (p : press) | Wrote (m : text_message) | Started (m : text_message).

Definition on_update (t : telegram) (hs : helpers E) (callback : msg → prog E unit) (u : update)
  : prog E unit :=
  match u with
  | Pressed p => on_callback t hs callback p
  | Wrote m => on_text t hs callback m
  | Started m => on_start t hs m
  end.
End Telegram.
