(* ===== verification/Frame.v ===== *)
(** * What the program leaves alone

    A [Frame] is a preorder on worlds that the primitive effects of the program
    respect: time, the network, events, the module variables, and every Redis key
    outside [wallet:].  Each handler of every component then respects it, whatever
    its outcome; this is proved here once, for all frames.  [System] and
    [TelegramFacts] use it with two of them. *)

From Stdlib Require Import QArith.
From S2P Require Import Prelude JsString Regex JsNum JsText Json Pretty Bytes Assoc Effects Uint8.
From S2P Require Import RedisModel Db Memory Retry Firewall Solana Token Commands Worker ApiServer.
From S2P Require Import Launcher LauncherServer.

Local Open Scope prog_scope.

(** Keys other than those the launcher reads wallets from. *)
Definition foreign (key : jsstr) : Prop := ∀ u, key ≠ wallet_key u.

(** Events other than the marks [TelegramFacts] follows launches with. *)
Definition launch_queue : jsstr := js "launch".
Definition unmarked (ev : event) : Prop :=
  match ev with Enqueue q _ _ => q ≠ launch_queue | _ => True end.

Class Frame {E : Type} (P : world E → world E → Prop) := {
  frame_refl : Reflexive P;
  frame_trans : Transitive P;
  frame_time t n w : P w (set_time t n w);
  frame_redis key e w : foreign key → P w (set_redis (<[key := e]> (redis w)) w);
  frame_firewall h t w : P w (set_firewall h t w);
  frame_users us w : P w (set_users us w);
  frame_decimals d w : P w (set_decimals d w);
  frame_subscribed s w : P w (set_subscribed s w);
  frame_event ev w : unmarked ev → P w (add_event ev w);
}.
#[export] Existing Instances frame_refl frame_trans.

(** A key with another first letter is foreign. *)
Ltac foreign_key :=
  intros ? ?Hkey; apply (f_equal head) in Hkey; vm_compute in Hkey; discriminate Hkey.

Section Frames.
Context {E : Type} `{RE : RedisEntry E} `{EN : Env} `{LE : LaunchEnv}.
Context (P : world E → world E → Prop) `{FR : !Frame P}.

(** ** The primitives *)

Lemma frame_interact : respects P interact.
Proof. intros w. apply frame_time. Qed.

Lemma frame_lift {A} (r : exn + A) : respects P (lift r).
Proof. destruct r; intros w; reflexivity. Qed.

Lemma frame_emit ev : unmarked ev → respects P (emit ev).
Proof. intros Hev w. by apply frame_event. Qed.

Ltac frame_modify :=
  apply respects_modify; intros ?;
  first [apply frame_users|apply frame_firewall|apply frame_decimals|apply frame_subscribed
        |apply frame_time].

#[local] Hint Resolve frame_interact frame_lift : eff.
#[local] Hint Extern 1 (respects P (emit _)) => (apply frame_emit; cbn; done) : eff.
#[local] Hint Extern 1 (respects P (modify _)) => frame_modify : eff.

Lemma frame_date_now : respects P date_now.
Proof. unfold date_now. respects_walk. Qed.

Lemma frame_sleep ms : respects P (sleep ms).
Proof. unfold sleep. respects_walk. Qed.

Lemma frame_read {A} key (f : Z → E → A) : respects P (redis_read key f).
Proof. unfold redis_read. respects_walk. Qed.

Lemma frame_write key f : foreign key → respects P (redis_write key f).
Proof.
  intros Hk. unfold redis_write. respects_walk. apply respects_modify. intros w.
  by apply frame_redis.
Qed.

Lemma frame_publish c m : respects P (redis_publish c m).
Proof. unfold redis_publish. respects_walk. Qed.

Lemma frame_detach m : respects P m → respects P (detach m).
Proof.
  intros Hm w. specialize (Hm w). unfold detach. destruct (m w) as [[[]|e|c] w']; [done|..];
    (etransitivity; [exact Hm|by apply frame_event]).
Qed.

#[local] Hint Resolve frame_date_now frame_sleep frame_read frame_publish frame_detach : eff.

Lemma frame_fetch r : respects P (fetch r).
Proof. unfold fetch. respects_walk. Qed.

Lemma frame_json s : respects P (json_parse s).
Proof. unfold json_parse. respects_walk. Qed.

Lemma frame_rpc c : respects P (rpc c).
Proof. unfold rpc. respects_walk. Qed.

Lemma frame_account a : respects P (getAccountInfo a).
Proof. unfold getAccountInfo. respects_walk. Qed.

Lemma frame_send tx : respects P (send_and_confirm tx).
Proof. unfold send_and_confirm. respects_walk. Qed.

#[local] Hint Resolve frame_fetch frame_json frame_rpc frame_account frame_send : eff.
#[local] Hint Extern 1 (respects P (redis_write _ _)) => (apply frame_write; foreign_key) : eff.

Lemma frame_setEx key ttl v : foreign key → respects P (redis_setEx key ttl v).
Proof. intros Hk. unfold redis_setEx, redis_set. respects_walk. by apply frame_write. Qed.
#[local] Hint Extern 1 (respects P (redis_setEx _ _ _)) => (apply frame_setEx; foreign_key) : eff.

(** ** db.js, memory.js, retry.js, firewall.js *)

Lemma frame_upsert h data : respects P (upsertUser h data).
Proof.
  unfold upsertUser, store_chatId, encrypt_wallet, encrypt, hset_object, redis_hset, redis_sadd.
  respects_walk.
Qed.

Lemma frame_setWallet h arr : respects P (setWalletSecret h arr).
Proof. unfold setWalletSecret, encrypt, redis_hset, redis_sadd. respects_walk. Qed.

Lemma frame_getUser h : respects P (getUser h).
Proof. unfold getUser, redis_hgetall. respects_walk. Qed.

Lemma frame_open s : respects P (open_secret s).
Proof. unfold open_secret, decrypt. respects_walk. Qed.
#[local] Hint Resolve frame_upsert frame_setWallet frame_getUser frame_open : eff.

Lemma frame_compat h : respects P (getWalletCompat h).
Proof. unfold getWalletCompat, redis_hget. respects_walk. Qed.

Lemma frame_remember h m : respects P (remember h m).
Proof. unfold remember, redis_xadd, redis_expire. respects_walk. Qed.

Lemma frame_recall h n : respects P (recall h n).
Proof. unfold recall, redis_xrevrange. respects_walk. Qed.

Lemma frame_retry {A} (fn : prog E A) o : respects P fn → respects P (withRetry fn o).
Proof.
  intros Hf. unfold withRetry. generalize (attempts o) undefined_exn O. intros rem.
  induction rem as [|rem IH]; intros e i; cbn [retry_loop].
  - respects_walk.
  - intros w. specialize (Hf w). destruct (fn w) as [[a|e'|c] w1]; [done| |done].
    etransitivity; [exact Hf|]. apply respects_bind; [apply _|apply frame_sleep|]. intros _. apply IH.
Qed.

Lemma frame_record t : respects P (record_incident t).
Proof. unfold record_incident. respects_walk. Qed.

Lemma frame_heal : respects P heal_tick.
Proof. unfold heal_tick. respects_walk. Qed.
#[local] Hint Resolve frame_compat frame_remember frame_recall frame_retry frame_record : eff.

Lemma frame_onError : respects P onError.
Proof. apply frame_record. Qed.
Lemma frame_onRpcFail : respects P onRpcFail.
Proof. apply frame_record. Qed.
Lemma frame_onSpam : respects P onSpam.
Proof. apply frame_record. Qed.
#[local] Hint Resolve frame_onError frame_onRpcFail frame_onSpam : eff.

(** ** utils-solana.js and utils-token.js *)

Lemma frame_env_key v : respects P (env_publicKey v).
Proof. unfold env_publicKey. respects_walk. Qed.

Lemma frame_keypair s : respects P (keypair_of_text s).
Proof. unfold keypair_of_text. respects_walk. Qed.

Lemma frame_fetch_json r : respects P (fetch_json r).
Proof. unfold fetch_json. respects_walk. Qed.
#[local] Hint Resolve frame_env_key frame_keypair frame_fetch_json : eff.

Lemma frame_decimalsOf m : respects P (decimalsOf m).
Proof. unfold decimalsOf. respects_walk. Qed.

Lemma frame_quote m l : respects P (quoteSOLto m l).
Proof. unfold quoteSOLto, redis_get. respects_walk. Qed.

Lemma frame_report {A} ev e : respects P (report_failure (A:=A) ev e).
Proof. unfold report_failure. respects_walk. Qed.
#[local] Hint Resolve frame_decimalsOf frame_quote frame_report : eff.

Lemma frame_swap r kp : respects P (executeSwap r kp).
Proof. unfold executeSwap. respects_walk. apply frame_retry. unfold swap_attempt. respects_walk. Qed.

Lemma frame_transfer m kp d l : respects P (transfer m kp d l).
Proof. unfold transfer. respects_walk. Qed.
#[local] Hint Resolve frame_swap frame_transfer : eff.

Lemma frame_burn c kp l p : respects P (burnAndDev c kp l p).
Proof. unfold burnAndDev. respects_walk. Qed.

Lemma frame_refresh o m : respects P (refreshBalances o m).
Proof. unfold refreshBalances. respects_walk. Qed.

Lemma frame_put_user h u : respects P (put_user h u).
Proof. unfold put_user. respects_walk. Qed.
#[local] Hint Resolve frame_burn frame_refresh frame_put_user : eff.

Lemma frame_change h f : respects P (change_user h f).
Proof. unfold change_user. respects_walk. Qed.
#[local] Hint Resolve frame_change : eff.

Lemma frame_watch_users m us : respects P (watch_users m us).
Proof.
  induction us as [|[h u] us IH]; cbn [watch_users]; [respects_walk|].
  apply respects_bind; [apply _| |done]. apply frame_detach. unfold watch_user. respects_walk.
Qed.

Lemma frame_transferToken m kp to a : respects P (transferToken m kp to a).
Proof. unfold transferToken, getDecimals, redis_get. respects_walk. Qed.

(** ** commands.js and jobQueue.js *)

Lemma frame_enqueueTrade j : respects P (enqueueTrade j).
Proof. unfold enqueueTrade, queue_add. respects_walk. Qed.

Lemma frame_fetchSolPrice : respects P fetchSolPrice.
Proof. unfold fetchSolPrice, binance_price, coingecko_price, jupiter_price. respects_walk. Qed.

Lemma frame_tokenPrices ms : respects P (fetchTokenPrices ms).
Proof. unfold fetchTokenPrices. respects_walk. Qed.

Lemma frame_persist h u : respects P (persist h u).
Proof. apply frame_upsert. Qed.
#[local] Hint Resolve frame_enqueueTrade frame_fetchSolPrice frame_tokenPrices frame_persist
  frame_watch_users : eff.

Lemma frame_ensure h : respects P (ensure h).
Proof. unfold ensure, generate. respects_walk. Qed.
#[local] Hint Resolve frame_ensure : eff.

Lemma frame_walletOf h : respects P (walletOf h).
Proof. unfold walletOf. respects_walk. Qed.

Lemma frame_balanceOf h : respects P (balanceOf h).
Proof. unfold balanceOf. respects_walk. Qed.

Lemma frame_load_users hs : respects P (load_users hs).
Proof. induction hs as [|h hs IH]; cbn [load_users]; [|unfold load_user]; respects_walk. Qed.

Lemma frame_initialize : respects P initializeUsers.
Proof.
  pose proof frame_load_users. unfold initializeUsers, getAllUsers, redis_smembers, watchDeposits.
  respects_walk.
Qed.

Lemma frame_on_deposit h : respects P (on_deposit h).
Proof. unfold on_deposit. respects_walk. Qed.

Lemma frame_updateBalances h : respects P (updateBalances h).
Proof. unfold updateBalances. respects_walk. Qed.
#[local] Hint Resolve frame_walletOf frame_balanceOf frame_updateBalances : eff.

Lemma frame_getPortfolio h : respects P (getPortfolio h).
Proof. unfold getPortfolio, redis_xadd. respects_walk. Qed.

Lemma frame_toggleAuto h b : respects P (toggleAuto h b).
Proof. unfold toggleAuto. respects_walk. Qed.

Lemma frame_setRisk h l : respects P (setRisk h l).
Proof. unfold setRisk. respects_walk. Qed.

Lemma frame_call_reply f t : respects P (call_reply f t).
Proof. unfold call_reply. respects_walk. Qed.
#[local] Hint Resolve frame_call_reply : eff.

Lemma frame_reply f t : respects P (reply f t).
Proof. unfold reply. respects_walk. Qed.

Lemma frame_return_reply f t : respects P (return_reply f t).
Proof. unfold return_reply. respects_walk. Qed.
#[local] Hint Resolve frame_getPortfolio frame_toggleAuto frame_setRisk frame_reply frame_return_reply : eff.

Lemma frame_dispatchTrade t m s h ok : respects P (dispatchTrade t m s h ok).
Proof. unfold dispatchTrade. respects_walk. Qed.

Lemma frame_price_reply ok : respects P (price_reply ok).
Proof. unfold price_reply. respects_walk. Qed.

Lemma frame_portfolio_reply h ok : respects P (portfolio_reply h ok).
Proof. unfold portfolio_reply. respects_walk. Qed.
#[local] Hint Resolve frame_dispatchTrade frame_price_reply frame_portfolio_reply : eff.

Lemma frame_dispatchAI t h ok : respects P (dispatchAI t h ok).
Proof. unfold dispatchAI, ask_llm. respects_walk. Qed.

Lemma frame_auto_reply h v ok : respects P (auto_reply h v ok).
Proof. unfold auto_reply. respects_walk. Qed.
#[local] Hint Resolve frame_dispatchAI frame_auto_reply : eff.

Lemma frame_run_command c h ok : respects P (run_command c h ok).
Proof. unfold run_command. respects_walk. Qed.

Lemma frame_handle_text m : respects P (handle_text m).
Proof. pose proof frame_run_command. unfold handle_text. respects_walk. Qed.

Lemma frame_handleMessage m : respects P (handleMessage m).
Proof.
  pose proof frame_handle_text. unfold handleMessage.
  destruct (m_button m) as [[|c b]|]; [auto| |auto]. unfold handle_button. cbv zeta.
  repeat (destruct (bool_decide _)); cbn [orb]; respects_walk.
Qed.
#[local] Hint Resolve frame_handleMessage : eff.

(** ** worker.js and metrics.js *)

Lemma frame_job_wallet h : respects P (job_wallet h).
Proof. unfold job_wallet. respects_walk. Qed.

Lemma frame_notify c t : respects P (notifyTelegram c t).
Proof. unfold notifyTelegram. respects_walk. Qed.

Lemma frame_burn_fuel c kp : respects P (burn_fuel c kp).
Proof. unfold burn_fuel. respects_walk. Qed.

Lemma frame_store_balances h kp : respects P (store_balances h kp).
Proof. unfold store_balances. respects_walk. Qed.
#[local] Hint Resolve frame_job_wallet frame_notify frame_burn_fuel frame_store_balances : eff.

Lemma frame_trade_worker c j : respects P (trade_worker c j).
Proof. unfold trade_worker. respects_walk. Qed.

Lemma frame_llm_worker j : respects P (llm_worker j).
Proof. unfold llm_worker. respects_walk. Qed.

Lemma frame_metrics_trade c notify j :
  (∀ h t, respects P (notify h t)) → respects P (metrics_trade_job c notify j).
Proof. intros Hn. unfold metrics_trade_job. respects_walk. Qed.

Lemma frame_metrics_llm notify j :
  (∀ h t, respects P (notify h t)) → respects P (metrics_llm_job notify j).
Proof. intros Hn. unfold metrics_llm_job. respects_walk. Qed.

(** ** api-server.js *)

Lemma frame_verifyToken c t : respects P (verifyToken c t).
Proof. unfold verifyToken, check_token, check_parts. respects_walk. Qed.

Lemma frame_signToken c h : respects P (signToken c h).
Proof. unfold signToken. respects_walk. Qed.
#[local] Hint Resolve frame_verifyToken frame_signToken : eff.

Lemma frame_auth c r : respects P (auth c r).
Proof. unfold auth. respects_walk. Qed.

Lemma frame_routes r u t : respects P (protected_routes r u t).
Proof.
  unfold protected_routes, get_wallet, get_balance, get_portfolio, get_sol_price, post_auto, post_risk,
    post_trade, or_500. respects_walk.
Qed.
#[local] Hint Resolve frame_auth frame_routes : eff.

Lemma frame_http c r t : respects P (handle_http c r t).
Proof. unfold handle_http, post_auth. respects_walk. Qed.

(** ** utils-launcher.js and launcher/server.js *)

Lemma frame_fetch_ok a r : respects P (fetch_ok a r).
Proof. unfold fetch_ok. respects_walk. Qed.
#[local] Hint Resolve frame_fetch_ok : eff.

Lemma frame_ollama p : respects P (ask_ollama p).
Proof. unfold ask_ollama. respects_walk. Qed.

Lemma frame_image p : respects P (generateImage p).
Proof. unfold generateImage. respects_walk. Qed.
#[local] Hint Resolve frame_ollama frame_image : eff.

Lemma frame_config : respects P generateLaunchConfig.
Proof. unfold generateLaunchConfig, generate. respects_walk. Qed.

Lemma frame_getUserKP u : respects P (getUserKP u).
Proof. unfold getUserKP, redis_get. respects_walk. Qed.

Lemma frame_mint pk d s : respects P (mint_supply pk d s).
Proof. unfold mint_supply. respects_walk. Qed.

Lemma frame_metadata m n i : respects P (store_metadata m n i).
Proof. unfold store_metadata, redis_hset. respects_walk. Qed.

Lemma frame_platform c : respects P (new_platform c).
Proof. unfold new_platform. respects_walk. Qed.

Lemma frame_launchpad tx : respects P (launchpad tx).
Proof. unfold launchpad. respects_walk. Qed.

Lemma frame_seconds : respects P now_seconds.
Proof. unfold now_seconds. respects_walk. Qed.
#[local] Hint Resolve frame_getUserKP frame_mint frame_metadata frame_platform frame_launchpad
  frame_seconds : eff.

Lemma frame_pool c pk m j : respects P (launch_pool c pk m j).
Proof. unfold launch_pool. respects_walk. Qed.
#[local] Hint Resolve frame_pool : eff.

Lemma frame_launch c j u : respects P (launchTokenInternal c j u).
Proof. unfold launchTokenInternal, generateImageDescription. respects_walk. Qed.

Lemma frame_captcha r : respects P (captchaMiddleware r).
Proof.
  unfold captchaMiddleware, verifyRecaptcha, redis_get, redis_del, redis_incr, redis_expire.
  respects_walk.
Qed.

Lemma frame_validate r : respects P (validateApiKey r).
Proof. unfold validateApiKey, redis_get. respects_walk. Qed.

Lemma frame_protected c r u : respects P (protected c r u).
Proof.
  unfold protected, create_token, create_pool, buy_token, sell_token, trade_token, launch_token,
    or_report. respects_walk.
Qed.
#[local] Hint Resolve frame_captcha frame_validate frame_protected : eff.

Lemma frame_launcher c r : respects P (handle_launcher c r).
Proof.
  unfold handle_launcher, get_token, get_api_key, generateApiKey, or_report, redis_set, redis_hgetall.
  respects_walk.
Qed.
End Frames.
