(* ===== verification/TelegramFacts.v ===== *)
(** * Properties of telegram-client.js

    The menus lead to handled actions; the manual-launch dialogue refines an abstract
    machine, for any helpers that leave the client's state alone; the helpers of
    [index.js] do; and what the quick-trade and history buttons come to. *)

From Stdlib Require Import QArith.
From S2P Require Import Prelude JsString Regex JsNum JsText Json Pretty Bytes Assoc Effects Uint8.
From S2P Require Import RedisModel Db Memory Retry Firewall Solana Token Commands CommandFacts.
From S2P Require Import Worker ApiServer Launcher LauncherServer LauncherFacts Telegram Frame.

Local Open Scope prog_scope.

(** ** Menus *)

Definition all_menus (h : jsstr) : list (jsstr * jsstr) :=
  concat (mainMenu h ++ tradeMenu h ++ launchMenu h ++ confirmMenu h).

Lemma decode_cbData a h :
  Forall (λ c, c ≠ 58%N) a → Forall (λ c, c ≠ 58%N) h → decode (cbData a h) = (a, h).
Proof.
  intros Ha Hh. unfold decode, cbData. change (js ":") with [58%N].
  rewrite (split_app_sep 58 [] a h) by done. by rewrite (split_no_sep 58 [] h).
Qed.

(** C37. Every button the client offers a user comes back as an action of the callback
    handler for the same user, and its data fits the 64 bytes Telegram allows, for
    every handle of at most 32 characters without a colon, as Telegram's are. *)
Theorem menu_buttons_handled h label data :
  Forall (λ c, c ≠ 58%N) h → ascii_ok h → (length h <= 32)%nat →
  (label, data) ∈ all_menus h →
  (∃ a, action_of (decode data).1 = Some a) ∧ (decode data).2 = h
  ∧ (length (utf8_encode data) <= 64)%nat.
Proof.
  intros Hc Ha Hl Hin.
  assert (∃ id, data = cbData id h ∧ (∃ a, action_of id = Some a) ∧ Forall (λ c, c ≠ 58%N) id
    ∧ ascii_ok id ∧ (length id <= 11)%nat) as (id & -> & Hact & Hid & Hida & Hidl).
  { assert (∀ id, id ∈ action_table.*1 → Forall (λ c, c ≠ 58%N) id ∧ ascii_ok id
      ∧ (length id <= 11)%nat ∧ ∃ a, action_of id = Some a) as Hall.
    { apply Forall_forall. repeat constructor; try done; by eexists. }
    assert (Forall (λ lb, ∃ id, lb.2 = cbData id h ∧ id ∈ action_table.*1) (all_menus h)) as Hm.
    { repeat constructor; eexists; split; try reflexivity; vm_compute;
        repeat first [apply list_elem_of_here|apply list_elem_of_further]. }
    rewrite Forall_forall in Hm. destruct (Hm _ Hin) as (id & Hd & Hi).
    destruct (Hall id Hi) as (? & ? & ? & ?). by exists id. }
  rewrite decode_cbData by done. split; [done|]. split; [done|].
  rewrite utf8_encode_ascii.
  - unfold cbData. change (js ":") with [58%N]. rewrite !length_app. cbn [length]. lia.
  - unfold cbData. apply Forall_app; split; [done|]. by constructor.
Qed.

(** ** The dialogue *)

(** What the client asks its helpers for: a configuration, which it may get, or the launch
    of one. *)
Inductive mark :=
  | MAsk (h : jsstr)
  | MConfig (cfg : json) (h : jsstr)
  | MLaunch (cfg : json) (h : jsstr).

(** Marks in the log. *)
Definition mark_event (m : mark) : event :=
  match m with
  | MAsk h => Enqueue launch_queue h JNull
  | MConfig cfg h => Enqueue launch_queue h (JArr [JBool false; cfg])
  | MLaunch cfg h => Enqueue launch_queue h (JArr [JBool true; cfg])
  end.

Definition mark_of (ev : event) : option mark :=
  match ev with
  | Enqueue q h v =>
      if bool_decide (q = launch_queue) then
        match v with
        | JNull => Some (MAsk h)
        | JArr [JBool true; cfg] => Some (MLaunch cfg h)
        | JArr [JBool false; cfg] => Some (MConfig cfg h)
        | _ => None
        end
      else None
  | _ => None
  end.

Definition marks (l : list event) : list mark := omap mark_of l.

Lemma marks_app l l' : marks (l ++ l') = marks l ++ marks l'.
Proof. apply omap_app. Qed.

Lemma marks_mark l m : marks (l ++ [mark_event m]) = marks l ++ [m].
Proof. rewrite marks_app. by destruct m. Qed.

(** The abstract dialogue: who was asked for a configuration, and the configuration
    last proposed to each user. *)
Record dialogue := Dialogue { d_waiting : gset jsstr; d_configs : gmap jsstr json }.

#[export] Instance action_eq_dec : EqDecision action.
Proof. solve_decision. Defined.

Definition pressed (p : press) (a : action) (h : jsstr) : Prop :=
  action_of (decode (cb_data p)).1 = Some a ∧ (decode (cb_data p)).2 = h.

(** A proposed configuration replaces the one of the user; under [__proto__] only an object
    is kept. *)
Definition d_remember (h : jsstr) (cfg : json) (m : gmap jsstr json) : gmap jsstr json :=
  if bool_decide (h = proto_key) then match cfg with JObj _ => <[h := cfg]> m | _ => m end
  else <[h := cfg]> m.

(** Its steps: the update, whether the handler returns, what it asks the helpers for.  A
    handler that returns has done all of its work; one that fails may have done nothing or
    have come as far as the same requests. *)
Inductive d_step (d : dialogue) : update → bool → list mark → dialogue → Prop :=
  | d_start m ok : d_step d (Started m) ok [] d
  | d_chat m ok : handle_of m ∉ d_waiting d → d_step d (Wrote m) ok [] d
  | d_answer m ok cfg :
      handle_of m ∈ d_waiting d → parse (tx_text m) = Some cfg →
      d_step d (Wrote m) ok [MLaunch cfg (handle_of m)]
        (Dialogue (d_waiting d ∖ {[handle_of m]}) (d_configs d))
  | d_garbage m ok :
      handle_of m ∈ d_waiting d → parse (tx_text m) = None →
      d_step d (Wrote m) ok [] (Dialogue (d_waiting d ∖ {[handle_of m]}) (d_configs d))
  | d_answer_fails m :
      handle_of m ∈ d_waiting d →
      d_step d (Wrote m) false [] (Dialogue (d_waiting d ∖ {[handle_of m]}) (d_configs d))
  | d_ask p h :
      pressed p MANUAL h →
      d_step d (Pressed p) true [] (Dialogue ({[h]} ∪ d_waiting d) (d_configs d))
  | d_no_proposal p h ok :
      pressed p AICFG h → d_step d (Pressed p) ok [MAsk h] d
  | d_propose p h cfg ok :
      pressed p AICFG h →
      d_step d (Pressed p) ok [MAsk h; MConfig cfg h]
        (Dialogue (d_waiting d) (d_remember h cfg (d_configs d)))
  | d_confirm p h cfg ok :
      pressed p LAUNCH_CONF h → config_of (λ g, d_configs d !! g) h = Some cfg →
      json_truthy cfg = true → d_step d (Pressed p) ok [MLaunch cfg h] d
  | d_no_config p h ok :
      pressed p LAUNCH_CONF h →
      (∀ cfg, config_of (λ g, d_configs d !! g) h = Some cfg → json_truthy cfg = false) →
      d_step d (Pressed p) ok [] d
  | d_other p ok :
      (∀ a h, pressed p a h → a ≠ MANUAL ∧ a ≠ AICFG ∧ a ≠ LAUNCH_CONF) →
      d_step d (Pressed p) ok [] d
  | d_fails p : d_step d (Pressed p) false [] d.

Definition returned {A} (r : result A) : bool := match r with Ok _ => true | _ => false end.

(** The client's state implements a dialogue. *)
Definition implements {E} (d : dialogue) (w : world E) : Prop :=
  (∀ h, h ∈ d_waiting d ↔ h ∈ awaitingManual w)
  ∧ ∀ h, d_configs d !! h = kv_lookup (lastConfigs w) h.

(** The client's state and the marks are the same in both worlds. *)
Definition same_dialogue {E} (w w' : world E) : Prop :=
  awaitingManual w' = awaitingManual w ∧ lastConfigs w' = lastConfigs w
  ∧ marks (log w') = marks (log w).

#[export] Instance same_dialogue_frame E : Frame (same_dialogue (E:=E)).
Proof.
  split; try done.
  - intros w1 w2 w3 (H1 & H2 & H3) (H4 & H5 & H6). unfold same_dialogue. split_and!; congruence.
  - intros ev w Hev. split; [done|]. split; [done|]. cbn. rewrite marks_app.
    destruct ev; cbn in *; rewrite ?bool_decide_eq_false_2 by done; by rewrite app_nil_r.
Qed.

Lemma implements_same {E} d (w w' : world E) :
  implements d w → same_dialogue w w' → implements d w'.
Proof. intros [H1 H2] (H3 & H4 & _). split; intros h; rewrite ?H3, ?H4; auto. Qed.

Section Dialogue.
Context {E : Type} `{RE : RedisEntry E} `{EN : Env} `{LE : LaunchEnv} `{TE : TgEnv}.
Implicit Types w : world E.

(** What the client needs of its helpers and of its callback: they leave its state
    alone. *)
Class Discreet (hs : helpers E) (callback : msg → prog E unit) := {
  discreet_walletOf h : respects same_dialogue (h_walletOf hs h);
  discreet_balanceOf h : respects same_dialogue (h_balanceOf hs h);
  discreet_price : respects same_dialogue (h_fetchSolPrice hs);
  discreet_portfolio h : respects same_dialogue (h_getPortfolio hs h);
  discreet_history h : respects same_dialogue (h_getHistory hs h);
  discreet_ensure h : respects same_dialogue (h_ensureUser hs h);
  discreet_saveChatId h c : respects same_dialogue (h_saveChatId hs h c);
  discreet_toggle h b : respects same_dialogue (h_toggleAuto hs h b);
  discreet_config h : respects same_dialogue (h_generateLaunchConfig hs h);
  discreet_preview n : respects same_dialogue (h_previewImage hs n);
  discreet_launch c h : respects same_dialogue (h_launchToken hs c h);
  discreet_callback m : respects same_dialogue (callback m);
}.

(** The helpers [index.js] passes, with the handler of [commands.js]. *)
#[export] Instance index_discreet c : Discreet (index_helpers c) handleMessage.
Proof.
  split; intros; cbn; eauto using frame_walletOf, frame_fetchSolPrice, frame_getPortfolio,
    frame_toggleAuto, frame_config, frame_launch, frame_handleMessage with typeclass_instances.
  - apply respects_bind; [apply _|apply frame_balanceOf; apply _|]. intros [s t]. by apply respects_ret.
  - apply respects_bind; [apply _|apply frame_recall; apply _|]. intros l. by apply respects_ret.
  - by apply respects_ret.
  - by apply respects_ret.
  - apply respects_bind; [apply _|apply frame_image; apply _|]. intros l. by apply respects_ret.
Qed.

Definition leave_mark (m : mark) : prog E unit := emit (mark_event m).

(** The same helpers, marking each configuration and each launch they are asked for. *)
Definition spied (hs : helpers E) : helpers E := {|
  h_walletOf := h_walletOf hs; h_balanceOf := h_balanceOf hs;
  h_fetchSolPrice := h_fetchSolPrice hs; h_getPortfolio := h_getPortfolio hs;
  h_getHistory := h_getHistory hs; h_ensureUser := h_ensureUser hs;
  h_saveChatId := h_saveChatId hs; h_toggleAuto := h_toggleAuto hs; h_setRisk := h_setRisk hs;
  h_generateLaunchConfig h :=
    leave_mark (MAsk h) ;; cfg <- h_generateLaunchConfig hs h ;;
    leave_mark (MConfig cfg h) ;; ret cfg;
  h_previewImage := h_previewImage hs;
  h_launchToken cfg h := leave_mark (MLaunch cfg h) ;; h_launchToken hs cfg h
|}.

(** ** The simulation *)

Lemma tg_same c : respects same_dialogue (tg (E:=E) c).
Proof.
  unfold tg. apply respects_bind; [apply _|by apply frame_emit; [apply _|]|]. intros _.
  apply respects_bind; [apply _|apply frame_interact; apply _|]. intros n.
  destruct (tg_fault n c); [by apply respects_throw|by apply respects_ret].
Qed.

Lemma edit_same p t m : respects same_dialogue (editOrReply (E:=E) p t m).
Proof. apply respects_try; [apply _|apply tg_same|]. intros e. apply tg_same. Qed.

(** A first step that leaves the dialogue alone: what holds of the outcomes it may stop
    with and of those the rest ends in. *)
Lemma bind_stop {A B} (m : prog E A) (k : A → prog E B) w (Q : result B * world E → Prop) :
  respects same_dialogue m → (∀ r w1, returned r = false → same_dialogue w w1 → Q (r, w1)) →
  (∀ a w1, same_dialogue w w1 → Q (k a w1)) → Q (bind m k w).
Proof.
  intros Hm Hstop Hk. specialize (Hm w). unfold bind.
  destruct (m w) as [[a|e|c] w1]; [by apply Hk|by apply Hstop..].
Qed.

Lemma photo_same m prefix :
  respects same_dialogue m → respects same_dialogue (photo_or_report (E:=E) m prefix).
Proof.
  intros Hm. apply respects_bind; [apply _| |].
  - apply respects_try; [apply _| |by intros e; apply respects_ret].
    apply respects_bind; [apply _|done|]. intros x. by apply respects_ret.
  - intros [e|[[u c] mn]]; apply tg_same.
Qed.

Context (hs : helpers E) (callback : msg → prog E unit) `{DH : !Discreet hs callback}.

(** The client's state is the one of the other world, and its marks are followed by [ls]. *)
Definition marked (ls : list mark) (w w' : world E) : Prop :=
  awaitingManual w' = awaitingManual w ∧ lastConfigs w' = lastConfigs w
  ∧ marks (log w') = marks (log w) ++ ls.

Lemma same_marked w w' : same_dialogue w w' → marked [] w w'.
Proof. intros (H1 & H2 & H3). unfold marked. by rewrite app_nil_r. Qed.

Lemma marked_same ls w w1 w' : marked ls w w1 → same_dialogue w1 w' → marked ls w w'.
Proof. intros (H1 & H2 & H3) (H4 & H5 & H6). unfold marked. split_and!; congruence. Qed.

Lemma same_marked_app ls w w1 w' : same_dialogue w w1 → marked ls w1 w' → marked ls w w'.
Proof. intros (H1 & H2 & H3) (H4 & H5 & H6). unfold marked. split_and!; congruence. Qed.

Lemma leave_marked m w : marked [m] w (leave_mark m w).2.
Proof. split; [done|]. split; [done|]. apply marks_mark. Qed.

Lemma implements_marked d ls w w' : implements d w → marked ls w w' → implements d w'.
Proof. intros [H1 H2] (H3 & H4 & _). split; intros h; rewrite ?H3, ?H4; auto. Qed.

(** A launch marks itself and nothing else. *)
Lemma launch_marks cfg h w : marked [MLaunch cfg h] w (launch_and_show (spied hs) cfg h w).2.
Proof.
  change (launch_and_show (spied hs) cfg h w)
    with (launch_and_show hs cfg h (leave_mark (MLaunch cfg h) w).2).
  assert (respects same_dialogue (launch_and_show hs cfg h)) as Hl.
  { apply photo_same. apply respects_bind; [apply _|apply discreet_launch|].
    intros r. by apply respects_ret. }
  eapply marked_same; [apply leave_marked|apply Hl].
Qed.

(** The update was answered by a step of the dialogue. *)
Definition follows (d : dialogue) (u : update) w (x : result unit * world E) : Prop :=
  ∃ ls d', d_step d u (returned x.1) ls d' ∧ implements d' x.2
    ∧ marks (log x.2) = marks (log w) ++ ls.

(** A step that changes no state of the dialogue. *)
Lemma follows_marked d u w r ls w' :
  d_step d u (returned r) ls d → implements d w → marked ls w w' → follows d u w (r, w').
Proof.
  intros Hs Hi Hm. exists ls, d. split; [done|]. split; [by eapply implements_marked|apply Hm].
Qed.

Lemma follows_failed d p w r w1 :
  implements d w → returned r = false → same_dialogue w w1 → follows d (Pressed p) w (r, w1).
Proof.
  intros Hi Hr Hs. apply (follows_marked d (Pressed p) w r []); [rewrite Hr; apply d_fails|done|].
  by apply same_marked.
Qed.

(** Later worlds with the same dialogue. *)
Lemma follows_after d u w w1 x :
  same_dialogue w w1 → follows d u w1 x → follows d u w x.
Proof.
  intros (_ & _ & Hm) (ls & d' & H1 & H2 & H3). exists ls, d'. by rewrite H3, Hm.
Qed.

Lemma ask_follows d p h w :
  pressed p MANUAL h → implements d w → follows d (Pressed p) w (add_awaiting h w).
Proof.
  intros Hp [H1 H2]. eexists [], _. split; [by apply (d_ask d p h)|].
  split; [|by rewrite app_nil_r]. split; intros g; cbn; [|done].
  case_bool_decide as Hh.
  - rewrite elem_of_union, elem_of_singleton, H1. naive_solver.
  - rewrite elem_of_union, elem_of_singleton, H1, elem_of_app, list_elem_of_singleton. naive_solver.
Qed.

Lemma photo_after m prefix w : same_dialogue (m w).2 (photo_or_report (E:=E) m prefix w).2.
Proof.
  unfold photo_or_report, bind, try_catch, ret.
  destruct (m w) as [[[[u c] mn]|e|c] w1]; cbn; [apply tg_same..|done].
Qed.

Lemma implements_remember d h cfg w :
  implements d w →
  implements (Dialogue (d_waiting d) (d_remember h cfg (d_configs d))) (remember_config h cfg w).2.
Proof.
  intros [H1 H2].
  assert (∀ g, <[h := cfg]> (d_configs d) !! g = kv_lookup (kv_set (lastConfigs w) h cfg) g) as Hset.
  { intros g. rewrite kv_lookup_set, <- H2. case_bool_decide as Hg.
    - subst g. by rewrite lookup_insert_eq.
    - by rewrite lookup_insert_ne. }
  split; intros g; cbn; [apply H1|]. unfold d_remember, set_config.
  case_bool_decide; [|apply Hset]. destruct cfg; first [apply Hset|apply H2].
Qed.

(** What a proposal leaves behind: the question alone, or the answer remembered. *)
Definition proposed (d : dialogue) (h : jsstr) w (w' : world E) : Prop :=
  ∃ ls d', (ls = [MAsk h] ∧ d' = d
            ∨ ∃ cfg, ls = [MAsk h; MConfig cfg h]
                     ∧ d' = Dialogue (d_waiting d) (d_remember h cfg (d_configs d)))
    ∧ implements d' w' ∧ marks (log w') = marks (log w) ++ ls.

Lemma proposed_same d h w w1 w' : proposed d h w w1 → same_dialogue w1 w' → proposed d h w w'.
Proof.
  intros (ls & d' & H1 & H2 & H3) Hs. exists ls, d'. split; [done|].
  split; [by eapply implements_same|]. destruct Hs as (_ & _ & ->). done.
Qed.

Lemma proposed_nothing d h w w' : implements d w → marked [MAsk h] w w' → proposed d h w w'.
Proof.
  intros Hi Hm. exists [MAsk h], d. split; [by left|]. split; [by eapply implements_marked|apply Hm].
Qed.

Lemma proposed_config d h cfg w w' :
  implements d w → marked [MAsk h; MConfig cfg h] w w' →
  proposed d h w (remember_config h cfg w').2.
Proof.
  intros Hi Hm. eexists _, _. split; [right; by exists cfg|].
  split; [apply implements_remember; by eapply implements_marked|]. apply Hm.
Qed.

(** What follows an answer of the model. *)
Lemma generated_marks h w :
  match h_generateLaunchConfig (spied hs) h w with
  | (Ok cfg, w1) => marked [MAsk h; MConfig cfg h] w w1
  | (_, w1) => marked [MAsk h] w w1
  end.
Proof.
  cbn [spied h_generateLaunchConfig]. erewrite bind_ok by reflexivity. set (w1 := add_event _ w).
  assert (marked [MAsk h] w w1) as Hw1 by apply (leave_marked (MAsk h)).
  pose proof (discreet_config (hs:=hs) h w1) as Hg. unfold bind at 1.
  destruct (h_generateLaunchConfig hs h w1) as [[cfg|e|c] w2]; cbn [snd] in Hg;
    pose proof (marked_same _ _ _ _ Hw1 Hg) as (H1 & H2 & H3); [|done..].
  erewrite bind_ok by reflexivity. cbn [ret]. pose proof (leave_marked (MConfig cfg h) w2) as (H4 & H5 & H6).
  unfold marked. change (add_event _ w2) with (leave_mark (MConfig cfg h) w2).2.
  rewrite H4, H5, H6, H3, <- app_assoc. by split_and!.
Qed.

Lemma propose_marks d h w : implements d w → proposed d h w (propose_config (spied hs) h w).2.
Proof.
  intros Hi. unfold propose_config. eapply proposed_same; [|apply photo_after].
  pose proof (generated_marks h w) as Hg. unfold bind at 1.
  destruct (h_generateLaunchConfig (spied hs) h w) as [[cfg|e|c] w1]; [|by apply proposed_nothing..].
  change (bind (remember_config h cfg) ?k w1) with (k tt (remember_config h cfg w1).2). cbv beta.
  eapply proposed_same; [by apply (proposed_config d h cfg)|].
  generalize (remember_config (E:=E) h cfg w1).2. intros w2.
  apply respects_bind; [apply _|apply frame_lift; apply _|]. intros _.
  apply respects_bind; [apply _|apply (discreet_preview (hs:=hs))|]. intros u. by apply respects_ret.
Qed.

Lemma propose_follows d p h w :
  pressed p AICFG h → implements d w → follows d (Pressed p) w (propose_config (spied hs) h w).
Proof.
  intros Hp Hi. destruct (propose_marks d h w Hi) as (ls & d' & Hc & H1 & H2). exists ls, d'.
  split; [|done]. destruct Hc as [[-> ->]|(cfg & -> & ->)]; [by apply d_no_proposal|by apply d_propose].
Qed.

Lemma config_same d w h : implements d w →
  config_of (λ g, d_configs d !! g) h = config_of (kv_lookup (lastConfigs w)) h.
Proof. intros [_ H]. unfold config_of. by rewrite !H. Qed.

Lemma confirm_follows d p h w cfg :
  pressed p LAUNCH_CONF h → implements d w →
  config_of (kv_lookup (lastConfigs w)) h = Some cfg → json_truthy cfg = true →
  follows d (Pressed p) w (launch_and_show (spied hs) cfg h w).
Proof.
  intros Hp Hi Hc Ht. pose proof (launch_marks cfg h w) as Hm.
  destruct (launch_and_show (spied hs) cfg h w) as [r w'].
  eapply follows_marked; [|done|exact Hm]. by apply (d_confirm d p h); [|rewrite (config_same d w)|].
Qed.

Lemma answer_follows d m w :
  handle_of m ∈ d_waiting d → implements d w →
  follows d (Wrote m) w (manual_launch (spied hs) (handle_of m) (tx_text m) w).
Proof.
  intros Hh [H1 H2]. set (h := handle_of m) in *. unfold manual_launch.
  change (bind (delete_awaiting h) ?k w) with (k tt (delete_awaiting h w).2). cbv beta.
  set (w1 := (delete_awaiting h w).2). set (d1 := Dialogue (d_waiting d ∖ {[h]}) (d_configs d)).
  assert (implements d1 w1) as Hi1.
  { split; intros g; cbn; [|apply H2]. rewrite elem_of_difference, elem_of_singleton, H1.
    rewrite list_elem_of_filter. naive_solver. }
  assert (∀ r w2, d_step d (Wrote m) (returned r) [] d1 → same_dialogue w1 w2 →
                  follows d (Wrote m) w (r, w2)) as Hnone.
  { intros r w2 Hd Hs. exists [], d1. split; [done|].
    split; [by eapply implements_same|]. cbn [snd]. rewrite app_nil_r. by destruct Hs as (_ & _ & ->). }
  destruct (parse (tx_text m)) as [cfg|] eqn:Ep.
  2: { pose proof (tg_same (TgReply (js "❌ Invalid JSON. Please try /launch again.") []) w1) as Hs.
       destruct (tg _ w1) as [r w2]. apply Hnone; [by apply d_garbage|done]. }
  apply bind_stop; [apply tg_same| |].
  { intros r w2 Hr. apply Hnone. rewrite Hr. by apply d_answer_fails. }
  intros _ w2 Hs. pose proof (launch_marks cfg h w2) as Hm.
  destruct (launch_and_show (spied hs) cfg h w2) as [r w3].
  exists [MLaunch cfg h], d1. split; [by apply d_answer|].
  apply (same_marked_app _ w1) in Hm; [|done].
  split; [by eapply implements_marked|]. exact (proj2 (proj2 Hm)).
Qed.

(** An action other than the three that concern launches. *)
Lemma action_same t p h name time a :
  a ≠ AICFG → a ≠ LAUNCH_CONF → a ≠ MANUAL →
  respects same_dialogue (run_action t (spied hs) callback p h name time a).
Proof.
  intros H1 H2 H3. pose proof edit_same. destruct DH.
  destruct a; try done; cbn [run_action spied h_balanceOf h_fetchSolPrice h_getPortfolio h_getHistory
    h_walletOf h_toggleAuto]; auto.
  all: apply respects_bind; [apply _| |intros ?]; auto.
  - apply respects_bind; [apply _|apply frame_lift; apply _|auto].
  - destruct a; auto.
  - destruct a; auto.
Qed.

(** The first reaction to a press, when it fails. *)
Lemma edit_stop d p w text mn (k : unit → prog E unit) :
  implements d w →
  (∀ w1, same_dialogue w w1 → implements d w1 → follows d (Pressed p) w1 (k tt w1)) →
  follows d (Pressed p) w ((editOrReply p text mn ;; k tt) w).
Proof.
  intros Hi Hk. apply bind_stop; [apply edit_same|intros; by apply follows_failed|].
  intros [] w1 Hs. eapply follows_after; [exact Hs|]. apply Hk; [done|by eapply implements_same].
Qed.

Lemma action_follows d t p h name time a w :
  pressed p a h → implements d w →
  follows d (Pressed p) w (run_action t (spied hs) callback p h name time a w).
Proof.
  intros Hp Hi. destruct (decide (a = AICFG ∨ a = LAUNCH_CONF ∨ a = MANUAL)) as [Ha|Ha].
  2: { pose proof (action_same t p h name time a ltac:(naive_solver) ltac:(naive_solver)
         ltac:(naive_solver) w) as Hs.
       destruct (run_action _ _ _ _ _ _ _ _ w) as [r w']. eapply follows_marked; [|done|by apply same_marked].
       apply d_other. intros a' h' [Ha' _]. destruct Hp as [Hp _]. rewrite Hp in Ha'.
       injection Ha' as <-. naive_solver. }
  destruct Ha as [->|[->| ->]]; cbn [run_action].
  - apply (edit_stop d p w _ _ (λ _, propose_config (spied hs) h)); [done|]. intros w1 _ Hi1.
    by apply propose_follows.
  - change (bind (gets lastConfigs) ?k w) with (k (lastConfigs w) w). cbv beta.
    assert (∀ text, (∀ cfg, config_of (kv_lookup (lastConfigs w)) h = Some cfg → json_truthy cfg = false) →
              follows d (Pressed p) w (editOrReply p text (launchMenu h) w)) as Hnone.
    { intros text Hf. pose proof (edit_same p text (launchMenu h) w) as Hs.
      destruct (editOrReply p text _ w) as [r w']. eapply follows_marked; [|done|by apply same_marked].
      apply (d_no_config d p h); [done|]. by rewrite (config_same d w). }
    destruct (config_of (kv_lookup (lastConfigs w)) h) as [cfg|] eqn:Hc; [|by apply Hnone].
    destruct (json_truthy cfg) eqn:Ht; [|apply Hnone; by intros c [= <-]].
    apply (edit_stop d p w _ _ (λ _, launch_and_show (spied hs) cfg h)); [done|]. intros w1 Hs Hi1.
    apply confirm_follows; [done..| |done]. by destruct Hs as (_ & -> & _).
  - apply (edit_stop d p w _ _ (λ _, add_awaiting h)); [done|]. intros w1 _ Hi1.
    by apply ask_follows.
Qed.

Lemma start_same t m : respects same_dialogue (on_start t (spied hs) m).
Proof.
  pose proof tg_same. destruct DH. unfold on_start.
  cbn [spied h_ensureUser h_saveChatId]. cbv zeta.
  apply respects_bind; [apply _|apply frame_detach; [apply _|auto]|intros _].
  apply respects_bind; [apply _|auto|intros _].
  apply respects_bind; [apply _| |auto]. destruct (GREETING_IMG t) as [[]|]; auto.
Qed.

Lemma callback_follows d t p w :
  implements d w → follows d (Pressed p) w (on_callback t (spied hs) callback p w).
Proof.
  intros Hi. unfold on_callback. destruct (decode (cb_data p)) as [id h] eqn:Ed. cbv zeta.
  apply bind_stop; [apply frame_date_now; apply _|intros; by apply follows_failed|]. intros n w1 H1.
  eapply follows_after; [exact H1|]. apply (implements_same _ _ _ Hi) in H1 as Hi1.
  apply bind_stop; [apply frame_detach; [apply _|apply (discreet_ensure (hs:=hs))]
                   |intros; by apply follows_failed|]. intros _ w2 H2.
  eapply follows_after; [exact H2|]. apply (implements_same _ _ _ Hi1) in H2 as Hi2.
  apply bind_stop; [apply (discreet_saveChatId (hs:=hs))|intros; by apply follows_failed|]. intros _ w3 H3.
  eapply follows_after; [exact H3|]. apply (implements_same _ _ _ Hi2) in H3 as Hi3.
  apply bind_stop; [|intros; by apply follows_failed|].
  { apply respects_try; [apply _|apply tg_same|]. intros e. by apply respects_ret. }
  intros _ w4 H4. eapply follows_after; [exact H4|]. apply (implements_same _ _ _ Hi3) in H4 as Hi4.
  destruct (action_of id) as [a|] eqn:Ea.
  - apply action_follows; [|done]. unfold pressed. by rewrite Ed.
  - eapply follows_marked; [|done|by apply same_marked]. apply d_other.
    intros a g [Ha _]. rewrite Ed in Ha.
    change (action_of id = Some a) in Ha. congruence.
Qed.

Lemma chat_follows d t m w :
  implements d w → follows d (Wrote m) w (on_text t (spied hs) callback m w).
Proof.
  intros Hi. unfold on_text.
  change (bind (gets awaitingManual) ?k w) with (k (awaitingManual w) w). cbv beta zeta.
  case_bool_decide as Hh; [apply answer_follows; [|done]; by apply Hi|].
  assert (respects same_dialogue
    (if negb (tx_private m) && negb (tx_mention m) && negb (startsWith (tx_text m) (js "/"))
     then ret tt
     else
       detach (h_ensureUser (spied hs) (handle_of m)) ;;
       h_saveChatId (spied hs) (handle_of m) (tx_chatId m) ;;
       detach (callback (Message None (Some (strip_me t (tx_text m))) (Some (handle_of m))
         (Some (λ n text, tg_fault n (SendMessage (tx_chatId m) text))))))) as Hk.
  { destruct (_ && _)%bool; [by apply respects_ret|]. destruct DH. cbn [spied h_ensureUser h_saveChatId].
    apply respects_bind; [apply _|apply frame_detach; [apply _|auto]|intros _].
    apply respects_bind; [apply _|auto|intros _]. apply frame_detach; [apply _|auto]. }
  specialize (Hk w). match goal with |- follows _ _ _ ?x => destruct x as [r w'] end.
  eapply follows_marked; [|done|by apply same_marked]. apply d_chat. by rewrite (proj1 Hi).
Qed.

Lemma client_step d t u w :
  implements d w →
  let x := on_update t (spied hs) callback u w in
  ∃ ls d', d_step d u (returned x.1) ls d' ∧ implements d' x.2
    ∧ marks (log x.2) = marks (log w) ++ ls.
Proof.
  intros Hi. destruct u as [p|m|m].
  - by apply callback_follows.
  - by apply chat_follows.
  - pose proof (start_same t m w) as Hs. cbn zeta. cbn [on_update].
    destruct (on_start t (spied hs) m w) as [r w'].
    eapply (follows_marked d (Started m)); [constructor|done|by apply same_marked].
Qed.

(** C6. The client implements the abstract dialogue: whatever update arrives and however
    the calls it makes turn out, the new state of the client is the state after a step of
    the dialogue, and exactly the configurations and launches of that step were requested
    of the helpers.  A handler that returns has done its work: the user of the manual
    launch is awaited; of a generated launch the configuration was asked for and, if it
    came, is remembered; and a confirmation with a configuration, or the awaited text with
    a JSON value, was launched. *)
Theorem client_refines d t u w :
  implements d w →
  let x := on_update t (spied hs) callback u w in
  ∃ ls d', d_step d u (returned x.1) ls d' ∧ implements d' x.2
    ∧ marks (log x.2) = marks (log w) ++ ls.
Proof. apply client_step. Qed.

(** ** Runs *)

(** The updates one after the other; an error of one does not stop the next. *)
Definition on_updates t (us : list update) w : world E :=
  foldl (λ w u, (on_update t (spied hs) callback u w).2) w us.










End Dialogue.

(** ** What two buttons come to *)

Section Buttons.
Context {E : Type} `{RE : RedisEntry E} `{RL : !RedisLaws E} `{EN : Env}.
Implicit Types w : world E.

Definition button_code (t : side) : jsstr := match t with Buy => js "QBUY" | Sell => js "QSELL" end.

Lemma quick_message t h w :
  handleMessage (quick_button (button_code t) h) w
  = (enqueueTrade (trade_job t SOL_MINT (parseFloat (js "0.10")) None) ;; ret tt) w.
Proof.
  unfold handleMessage. cbn [m_button quick_button].
  pose proof (button_parts (button_code t) SOL_MINT h
    (no_colon (button_code t) ltac:(by destruct t)) (no_colon SOL_MINT eq_refl)) as Hs.
  destruct (js "BTN::" ++ button_code t ++ js "::" ++ SOL_MINT ++ js "::" ++ h) as [|c b] eqn:Eb;
    [done|]. unfold handle_button. rewrite Hs.
  by destruct t.
Qed.

Lemma hgetall_none : e_hgetall (e_none (E:=E)) = [].
Proof.
  destruct (e_hgetall e_none) as [|[f v] l] eqn:Hl; [done|].
  pose proof (hgetall_lookup f (e_none (E:=E))) as H. rewrite Hl, hget_none in H. cbn in H.
  by rewrite bool_decide_eq_true_2 in H.
Qed.

(** The worker reads the user "undefined" for a job without a handle. *)
Lemma anonymous_job c t mint s w :
  entry_at w (user_key (js "undefined")) = e_none → redis_fault (tick w) = None →
  (trade_worker c (trade_job t mint s None) w).1 = Throw (Error (js "User undefined not found")).
Proof.
  intros He Hf.
  assert (getUser (js "undefined") w = (Ok None, pass w)) as Hg.
  { unfold getUser, redis_hgetall. erewrite bind_ok by (by apply read_ok). by rewrite He, hgetall_none. }
  assert (job_wallet None w = (Throw (Error (js "User undefined not found")), pass w)) as Hj.
  { unfold job_wallet. by rewrite (bind_ok _ _ _ _ _ Hg). }
  unfold trade_worker. do 2 (erewrite bind_ok by reflexivity).
  change (field _ (js "handle")) with (None : option json). by rewrite (bind_throw _ _ _ _ _ Hj).
Qed.

(** C38. The message of a quick-trade button queues a job that names no user, whoever's
    menu the button was on; a worker that takes the job looks for the user
    "undefined" and gives up. *)
Theorem quick_trades_are_lost t h w c w' :
  entry_at w' (user_key (js "undefined")) = e_none → redis_fault (tick w') = None →
  let job := trade_job t SOL_MINT (parseFloat (js "0.10")) None in
  handleMessage (quick_button (button_code t) h) w = (enqueueTrade job ;; ret tt) w
  ∧ (trade_worker c job w').1 = Throw (Error (js "User undefined not found")).
Proof. intros He Hf job. split; [apply quick_message|by apply anonymous_job]. Qed.

(** The history button shows how many messages are remembered and nothing of them:
    each entry is an object, and prints as one. *)
Theorem history_shows_no_text name (l l' : list (list (jsstr * jsstr))) :
  length l = length l' →
  let shown l := history_text name ((λ o, JObj ((λ kv, (kv.1, JStr kv.2)) <$> o)) <$> l) in
  shown l = shown l'.
Proof.
  intros Hl shown. unfold shown, history_text. do 4 f_equal.
  assert (∀ f : nat → json → jsstr, (∀ i o o', f i (JObj o) = f i (JObj o')) →
    imap f ((λ o, JObj ((λ kv, (kv.1, JStr kv.2)) <$> o)) <$> l)
    = imap f ((λ o, JObj ((λ kv, (kv.1, JStr kv.2)) <$> o)) <$> l')) as Hi.
  { clear name shown. revert l' Hl. induction l as [|o l IH]; intros [|o' l'] Hl f Hf; try done.
    cbn [fmap list_fmap imap]. f_equal; [apply Hf|]. apply IH; [by injection Hl|]. intros. apply Hf. }
  destruct l, l'; try done. cbn [fmap list_fmap] in *. f_equal. apply (Hi (λ i l, _)). done.
Qed.
(** Any user can end the bot's process: the callback of a message that sets the risk is
    rejected, and nobody awaits it. *)
Theorem risk_message_ends_bot `{LE : LaunchEnv} `{TE : TgEnv} t (c : launcher) m v
    (w : world E) :
  handle_of m ∉ awaitingManual w → tx_private m = true →
  parse_command (stripMention (strip_me t (tx_text m))) = Some (CRisk v) →
  ∃ ev, on_text t (index_helpers c) handleMessage m w = (Ok tt, add_event ev w)
    ∧ ends_process ev = Some 1%Z.
Proof.
  intros Hw Hp Hr. exists (Unhandled reference_error). split; [|done]. unfold on_text.
  rewrite (bind_ok (gets awaitingManual) _ w _ w eq_refl), bool_decide_false, Hp by done.
  cbn [negb andb index_helpers h_ensureUser h_saveChatId].
  erewrite bind_ok by reflexivity. erewrite bind_ok by reflexivity.
  pose proof (risk_command_fails _ (Some (handle_of m))
    (λ n text, tg_fault n (SendMessage (tx_chatId m) text)) v w Hr) as H.
  unfold CommandFacts.text_message in H. unfold detach.
  match goal with |- context [handleMessage ?x w] =>
    assert (handleMessage x w = (Throw reference_error, w)) as -> by exact H end. done.
Qed.
End Buttons.

(** ** The snippet of a generated configuration *)

Definition shown_fields : list jsstr := [js "decimals"; js "supply"; js "tokenName"; js "tokenMint"].

Lemma fields_ok (get : jsstr → option json) l :
  (∀ k v, get k = Some v → json_ok v) → Forall unit16 l → NoDup l →
  json_ok (json_fields ((λ k, (k, get k)) <$> l)).
Proof.
  intros Hv Hl Hn. constructor.
  - induction Hl as [|k l Hk Hl IH]; [constructor|]. apply NoDup_cons in Hn as [_ Hn].
    cbn. destruct (get k) as [v|] eqn:Ek; [|by apply IH].
    constructor; [by eauto|by apply IH].
  - induction Hn as [|k l Hk Hn IH]; [constructor|]. apply Forall_cons in Hl as [_ Hl].
    cbn. destruct (get k) as [v|] eqn:Ek; [|by apply IH].
    cbn. constructor; [|by apply IH]. contradict Hk. clear -Hk.
    induction l as [|k' l IH]; [by inversion Hk|]. cbn in Hk.
    destruct (get k') as [v|]; cbn in Hk; set_solver.
Qed.

Lemma opt_prop_ok cfg k v : json_ok cfg → opt_prop (Some cfg) k = Some v → json_ok v.
Proof.
  intros Hc. destruct Hc as [| | | | |o Ho _]; try done. cbn.
  induction Ho as [|[k' v'] o [_ Hv] _ IH]; [done|]. cbn.
  case_bool_decide; [by intros [= <-]|exact IH].
Qed.

Lemma preview_ok cfg : json_ok cfg → json_ok (previewCfg cfg).
Proof.
  intros Hc. apply (fields_ok (opt_prop (Some cfg)) shown_fields).
  - intros k v. by apply opt_prop_ok.
  - by repeat constructor.
  - refine (bool_decide_unpack _ _). vm_compute. exact I.
Qed.

Lemma fields_get (get : jsstr → option json) l k :
  k ∈ l → assoc (omap (λ kv, match kv.2 with Some v => Some (kv.1, v) | None => None end)
                  ((λ k, (k, get k)) <$> l)) k = get k.
Proof.
  induction l as [|k' l IH]; [by inversion 1|]. intros Hk.
  destruct (decide (k' = k)) as [->|Hne].
  - cbn. destruct (get k) as [v|] eqn:Ek; [cbn; by rewrite bool_decide_true|].
    destruct (decide (k ∈ l)) as [Hl|Hl]; [by rewrite IH|]. clear -Hl Ek.
    induction l as [|k' l IH]; [done|]. apply not_elem_of_cons in Hl as [Hne Hl].
    cbn. destruct (get k') as [v|]; cbn; [rewrite bool_decide_false by done|]; by apply IH.
  - cbn. apply elem_of_cons in Hk as [|Hk]; [done|].
    destruct (get k') as [v|]; cbn; [rewrite bool_decide_false by done|]; by apply IH.
Qed.

Lemma preview_field cfg k : k ∈ shown_fields → opt_prop (Some (previewCfg cfg)) k = opt_prop (Some cfg) k.
Proof. apply (fields_get (opt_prop (Some cfg)) shown_fields). Qed.

(** C26. The snippet of a generated configuration, sent back by a user who was asked for
    one, is read as it was shown: the client stops waiting and launches a
    configuration with the same decimals, supply, name and mint. *)
Theorem snippet_launches_as_shown {E : Type} `{RE : RedisEntry E} `{EN : Env} `{TE : TgEnv}
    t (hs : helpers E) callback m cfg w :
  json_ok cfg → handle_of m ∈ awaitingManual w → tx_text m = pretty [] (previewCfg cfg) →
  on_text t hs callback m w
  = (delete_awaiting (handle_of m) ;;
     tg (TgReply (js "🚀 Launching token with your JSON…") []) ;;
     launch_and_show hs (previewCfg cfg) (handle_of m)) w
  ∧ ∀ k, k ∈ shown_fields → opt_prop (Some (previewCfg cfg)) k = opt_prop (Some cfg) k.
Proof.
  intros Hc Hw Ht. split; [|intros k; apply preview_field].
  unfold on_text. rewrite (bind_ok (gets awaitingManual) _ w _ w eq_refl), bool_decide_true by done.
  unfold manual_launch. by rewrite Ht, (parse_pretty _ (preview_ok _ Hc)).
Qed.

(** ** A client in a calm world *)

#[export] Instance calm_tg : TgEnv := {| tg_fault _ _ := None; toLocaleTimeString _ := js "noon" |}.

Definition the_client : telegram := Client (js "Hi") None (js "Menu") (Some (js "nexusbot")).

Definition ann_press (a : jsstr) : press :=
  Press (cbData a (js "ann")) (js "7") (js "42") (Some (js "Ann")).

Definition ann_text (s : jsstr) : text_message :=
  Text (Some (js "ann")) (js "1") (Some (js "Ann")) (js "42") true false s.

Lemma menu_buttons_handled_witness :
  (decode (cbData (js "LAUNCH_CONF") (js "ann"))).2 = js "ann".
Proof.
  apply (menu_buttons_handled (js "ann") (js "✅ Confirm & Launch") (cbData (js "LAUNCH_CONF") (js "ann")));
    [by repeat constructor|by repeat constructor|vm_compute; lia|].
  refine (bool_decide_unpack _ _). vm_compute. exact I.
Defined.

Definition wired : helpers entry := index_helpers (LE:=calm_sdk) the_platform.

Lemma client_refines_witness :
  let x := on_update the_client (spied wired) handleMessage (Pressed (ann_press (js "MANUAL"))) world0 in
  ∃ ls d', d_step (Dialogue ∅ ∅) (Pressed (ann_press (js "MANUAL"))) (returned x.1) ls d'
    ∧ implements d' x.2.
Proof.
  destruct (client_refines wired handleMessage (Dialogue ∅ ∅) the_client
    (Pressed (ann_press (js "MANUAL"))) world0) as (ls & d' & H1 & H2 & _).
  - split; intros h; [set_solver|reflexivity].
  - exists ls, d'. split; [exact H1|exact H2].
Defined.



(** A user called "constructor" who confirms what was never proposed. *)
Example constructor_launches :
  marks (log (on_updates wired handleMessage the_client
    [Pressed (Press (cbData (js "LAUNCH_CONF") (js "constructor")) (js "7") (js "42") None)] world0))
  = [MLaunch (JObj []) (js "constructor")].
Proof. vm_compute. reflexivity. Qed.

Lemma quick_trades_are_lost_witness :
  (trade_worker (Solana [] (calm_key 1)) (trade_job Sell SOL_MINT (parseFloat (js "0.10")) None) world0).1
  = Throw (Error (js "User undefined not found")).
Proof.
  apply (quick_trades_are_lost Sell (js "ann") world0 (Solana [] (calm_key 1)) world0); reflexivity.
Defined.

Lemma risk_message_ends_bot_witness :
  ∃ ev, on_text the_client (index_helpers (LE:=calm_sdk) the_platform) handleMessage
          (ann_text (js "risk high")) world0 = (Ok tt, add_event ev world0)
    ∧ ends_process ev = Some 1%Z.
Proof.
  apply (risk_message_ends_bot (LE:=calm_sdk) the_client the_platform (ann_text (js "risk high"))
    (js "high") world0).
  - intros H. inversion H.
  - reflexivity.
  - vm_compute. reflexivity.
Defined.

Lemma history_shows_no_text_witness :
  history_text (js "Ann") [JObj [(js "text", JStr (js "hi"))]]
  = history_text (js "Ann") [JObj [(js "text", JStr (js "bye"))]].
Proof.
  apply (history_shows_no_text (js "Ann") [[(js "text", js "hi")]] [[(js "text", js "bye")]]).
  reflexivity.
Defined.

(** A configuration as the language model gives it, and Ann being asked for one. *)
Definition asked_world : world entry :=
  set_dialogue [js "ann"] [] world0.

Lemma snippet_launches_as_shown_witness :
  opt_prop (Some (previewCfg (JObj fox))) (js "tokenName") = opt_prop (Some (JObj fox)) (js "tokenName").
Proof.
  apply (snippet_launches_as_shown the_client wired handleMessage
    (ann_text (pretty [] (previewCfg (JObj fox)))) (JObj fox) asked_world fox_ok).
  - apply list_elem_of_here.
  - reflexivity.
  - refine (bool_decide_unpack _ _). vm_compute. exact I.
Defined.
