(* ===== verification/System.v ===== *)
(** * The system: all processes over one Redis

    The bot, the workers, the HTTP API and the launcher are separate processes that
    share a Redis.  A step of the system runs one top-level handler of one process,
    from any local state and with any answers of the outside; only the keyspace is
    carried over.  What no handler writes stays as it was in every reachable state:
    the launcher reads wallets from keys nobody writes. *)

From Stdlib Require Import QArith.
From S2P Require Import Prelude JsString Regex JsNum JsText Json Pretty Bytes Assoc Effects Uint8.
From S2P Require Import RedisModel Db Memory Retry Firewall Solana Token Commands CommandFacts.
From S2P Require Import Worker ApiServer ApiStack Launcher LauncherServer LauncherFacts Telegram Frame.
From S2P Require Import TelegramFacts.

Local Open Scope prog_scope.

(** The top-level handlers of the processes. *)
Inductive handler :=
  | Boot                                            (* index.js: initializeUsers *)
  | SolChanged (mint h : jsstr) (u : user)          (* a watcher fires *)
  | TokenChanged (mint h : jsstr) (u : user)
  | TelegramUpdate (t : telegram) (c : launcher) (u : update)
  | MessageArrived (m : msg)                        (* a Twitter message *)
  | TradeJob (c : solana) (data : json)             (* worker.js *)
  | LlmJob (data : json)
  | MetricsTradeJob (c : solana) (data : json)      (* metrics.js *)
  | MetricsLlmJob (data : json)
  | HttpRequest (s : settings) (a : arrival) (uptime : num)
  | LauncherRequest (c : launcher) (r : exn + launcher_request)
  | HealTick
  | Incident (t : incident).

Section System.
Context {E : Type} `{RE : RedisEntry E} `{EN : Env} `{LE : LaunchEnv} `{TE : TgEnv} `{SE : StackEnv}.
Implicit Types w : world E.

(** [if (tg) await tg.sendMessage(`@${handle}`, text)] of metrics.js *)
Definition metrics_notify (handle : option json) (text : jsstr) : prog E unit :=
  if bool_decide (env_var (js "USE_TELEGRAM") = Some (js "false")) then ret tt
  else tg (SendMessage (js "@" ++ opt_toString handle) text).

Definition run_handler (h : handler) : prog E unit :=
  match h with
  | Boot => initializeUsers
  | SolChanged mint h u => on_sol_change mint h u on_deposit
  | TokenChanged mint h u => on_token_change mint h u on_deposit
  | TelegramUpdate t c u => on_update t (index_helpers c) handleMessage u
  | MessageArrived m => handleMessage m
  | TradeJob c data => trade_worker c data
  | LlmJob data => llm_worker data
  | MetricsTradeJob c data => metrics_trade_job c metrics_notify data
  | MetricsLlmJob data => metrics_llm_job metrics_notify data
  | HttpRequest s a uptime => serve s a uptime ;; ret tt
  | LauncherRequest c r => launcher_app c r ;; ret tt
  | HealTick => heal_tick
  | Incident t => record_incident t
  end.

(** One handler, in a process whose own memory may be anything. *)
Inductive sys_step : gmap jsstr E → gmap jsstr E → Prop :=
  | sys_run h w : sys_step (redis w) (redis (run_handler h w).2).

(** No wallet the launcher could read was touched. *)
Definition untouched w w' : Prop := ∀ u, redis w' !! wallet_key u = redis w !! wallet_key u.

#[local] Instance untouched_frame : Frame untouched.
Proof.
  split; try done.
  - intros w1 w2 w3 H1 H2 u. by rewrite H2.
  - intros key e w Hk u. cbn. by rewrite lookup_insert_ne by apply Hk.
Qed.

(** ** The Telegram client within a frame *)

Lemma tg_untouched call : respects untouched (tg (E:=E) call).
Proof.
  pose proof (frame_interact untouched) as Hi. unfold tg. respects_walk.
Qed.

Lemma notify_untouched h t : respects untouched (metrics_notify h t).
Proof. pose proof tg_untouched. unfold metrics_notify. respects_walk. Qed.

Lemma client_untouched t c u : respects untouched (on_update t (index_helpers c) handleMessage u).
Proof.
  pose proof tg_untouched as Htg.
  pose proof (λ m, frame_handleMessage untouched m) as H1.
  pose proof (λ h, frame_walletOf untouched h) as H2.
  pose proof (λ h, frame_balanceOf untouched h) as H3.
  pose proof (frame_fetchSolPrice untouched) as H4.
  pose proof (λ h, frame_getPortfolio untouched h) as H5.
  pose proof (λ h n, frame_recall untouched h n) as H6.
  pose proof (λ h b, frame_toggleAuto untouched h b) as H7.
  pose proof (frame_config untouched) as H8.
  pose proof (λ n, frame_image untouched n) as H9.
  pose proof (λ j h, frame_launch untouched c j h) as H10.
  pose proof (frame_date_now untouched) as H11.
  pose proof (λ A r, frame_lift untouched (A:=A) r) as H12.
  pose proof (λ m, frame_detach untouched m) as H13.
  destruct u as [p|m|m]; unfold on_update, on_callback, on_text, on_start, manual_launch, run_action,
    launch_and_show, propose_config, photo_or_report, editOrReply, remember_config, add_awaiting,
    delete_awaiting; cbn [index_helpers h_walletOf h_balanceOf h_fetchSolPrice h_getPortfolio
    h_getHistory h_ensureUser h_saveChatId h_toggleAuto h_generateLaunchConfig h_previewImage
    h_launchToken]; cbv zeta.
  all: respects_walk; try (apply H13; respects_walk); try done.
Qed.

Lemma serve_untouched s a uptime : respects untouched (serve s a uptime).
Proof.
  pose proof (frame_interact untouched). pose proof (λ c r u, frame_http untouched c r u).
  unfold serve, csrf_cookie. cbv zeta. respects_walk.
Qed.

Lemma app_untouched c r : respects untouched (launcher_app c r).
Proof.
  pose proof (λ c r, frame_launcher untouched c r) as Hl.
  pose proof (λ m, frame_detach untouched m) as Hd. pose proof (frame_onError untouched) as He.
  unfold launcher_app, unhandled. respects_walk.
Qed.

Lemma handler_untouched h : respects untouched (run_handler h).
Proof.
  pose proof (λ h, frame_on_deposit untouched h) as Hd.
  pose proof (λ o m, frame_refresh untouched o m) as Hr.
  pose proof (λ h f, frame_change untouched h f) as Hc.
  destruct h; cbn [run_handler].
  - apply frame_initialize; apply _.
  - unfold on_sol_change. respects_walk. apply frame_detach; [apply _|done].
  - unfold on_token_change. respects_walk. apply frame_detach; [apply _|done].
  - apply client_untouched.
  - apply frame_handleMessage; apply _.
  - apply frame_trade_worker; apply _.
  - apply frame_llm_worker; apply _.
  - apply frame_metrics_trade; [apply _|apply notify_untouched].
  - apply frame_metrics_llm; [apply _|apply notify_untouched].
  - apply respects_bind; [apply _|apply serve_untouched|]. intros ?. by apply respects_ret.
  - apply respects_bind; [apply _|apply app_untouched|]. intros a. by apply respects_ret.
  - apply frame_heal; apply _.
  - apply frame_record; apply _.
Qed.

(** ** Launches *)

(** A keyspace without wallets for the launcher. *)
Definition walletless (r : gmap jsstr E) : Prop := ∀ u, r !! wallet_key u = None.

Lemma reachable_walletless r0 r : rtc sys_step r0 r → walletless r0 → walletless r.
Proof.
  induction 1 as [|r1 r2 r3 Hs _ IH]; [done|]. intros Hw. apply IH. destruct Hs as [h w].
  intros u. rewrite (handler_untouched h w). apply Hw.
Qed.

Context `{RL : !RedisLaws E}.

Lemma no_keypair u w : walletless (redis w) → ∀ kp, (getUserKP u w).1 ≠ Ok kp.
Proof.
  intros Hw kp. unfold getUserKP, redis_get, bind at 1. rewrite read_eq.
  destruct (redis_fault (tick w)); [done|].
  unfold entry_at. rewrite Hw. cbn. rewrite get_none. unfold bind.
  by destruct (detach onError _) as [[[]|?|?] ?].
Qed.

(** C2. Whatever the processes have done since a keyspace without [wallet:] keys, a launch
    fails and submits no transaction, from the bot as from the launcher's API: the
    launcher looks for wallets where no operation of the program stores them. *)
Theorem no_launch_is_reachable r0 r c params userId req w :
  walletless r0 → rtc sys_step r0 r → redis w = r →
  (∀ l, (launchTokenInternal c params userId w).1 ≠ Ok l)
  ∧ unsent w (launchTokenInternal c params userId w).2
  ∧ unsent w (handle_launcher c req w).2.
Proof.
  intros Hw Hr <-. apply (reachable_walletless _ _ Hr) in Hw. clear Hr r0.
  pose proof (no_keypair userId w Hw) as Hk. pose proof (unsent_getUserKP userId w) as Hu.
  split; [|split].
  - intros l Hl. unfold launchTokenInternal, bind at 1 in Hl.
    destruct (getUserKP userId w) as [[kp|e|x] w1]; [by destruct (Hk kp)|done..].
  - unfold launchTokenInternal, bind at 1.
    destruct (getUserKP userId w) as [[kp|e|x] w1]; [by destruct (Hk kp)|done..].
  - destruct (launcher_inv c req w) as [|(w1 & u & k & kp & Hc & _ & _ & _ & _ & Hkp & _)]; [done|].
    destruct (no_keypair u (pass w1)) with (kp := kp); [|done]. intros v.
    pose proof (frame_captcha untouched req w v) as Hf. rewrite Hc in Hf. cbn in Hf.
    cbn. by rewrite Hf.
Qed.
End System.

(** After Ann has asked the bot for her deposit address, nobody can launch. *)
Definition ann_wrote : world entry :=
  (run_handler (LE:=calm_sdk)
     (MessageArrived (Message None (Some (js "deposit")) (Some (js "ann")) (Some (λ _ _, None)))) world0).2.

Lemma no_launch_is_reachable_witness :
  unsent ann_wrote
    (handle_launcher (LE:=calm_sdk) the_platform (ann_request LaunchToken) ann_wrote).2.
Proof.
  apply (no_launch_is_reachable (LE:=calm_sdk) (redis world0) (redis ann_wrote) the_platform (JObj [])
    (js "ann") (ann_request LaunchToken) ann_wrote);
    [intros u; reflexivity|apply rtc_once, (sys_run (LE:=calm_sdk))|reflexivity].
Defined.
