(* ===== verification/Boot.v ===== *)
(** * Boot: index.js, check-env.js, ensure-deps.js, twitter-client.js

    The preflight scripts, the Twitter client and the start of the bot.  The file
    system, the shell, child processes, the scraper and Telegraf's [launch] and
    [getMe] are the parameters of [HostEnv]. *)

From Stdlib Require Import QArith.
From S2P Require Import Prelude JsString Regex JsNum JsText Json Pretty Bytes Assoc Effects Uint8.
From S2P Require Import RedisModel Db Memory Retry Firewall Solana Token Commands CommandFacts.
From S2P Require Import Worker ApiServer Launcher Telegram.

Local Open Scope prog_scope.

Class HostEnv := {
  exists_answer : nat → jsstr → bool;                (* fs.existsSync *)
  read_answer : nat → jsstr → exn + bytes;           (* fs.readFileSync *)
  write_fault : nat → jsstr → option exn;            (* fs.writeFileSync *)
  exec_fault : nat → jsstr → option exn;             (* execSync *)
  setCookies_fault : nat → list json → option exn;   (* the scraper's methods *)
  isLoggedIn_answer : nat → exn + bool;
  login_fault : nat → list (option jsstr) → option exn;
  getCookies_answer : nat → exn + json;
  tweet_fault : nat → jsstr → option exn;
  has_sendDM : bool;
  dm_fault : nat → jsstr → option exn;
  launch_answer : nat → exn + bool;
          (* bot.launch(): rejected, fulfilled, or (false) pending while the bot polls *)
  getMe_answer : nat → exn + jsstr;                  (* (await getMe()).username *)
}.

(** The file name after the last slash. *)
Definition basename (p : jsstr) : jsstr := default [] (last (split p (js "/"))).

(** [path.extname(p)] of a path that names a file: from the last dot on, unless the
    name starts with it. *)
Definition extname (p : jsstr) : jsstr :=
  let b := basename p in
  match lastIndexOf b 46 with
  | Some (S i) => drop (S i) b
  | _ => []
  end.

(** The media type of a file by its extension. *)
Definition mime_of (p : jsstr) : jsstr :=
  let ext := toLowerCase (extname p) in
  if bool_decide (ext = js ".mp4") then js "video/mp4"
  else if bool_decide (ext = js ".gif") then js "image/gif"
  else js "image/jpeg".

Section Boot.
Context {E : Type} `{RE : RedisEntry E} `{EN : Env} `{LE : LaunchEnv} `{TE : TgEnv} `{HE : HostEnv}.

Definition existsSync (f : jsstr) : prog E bool := n <- interact ;; ret (exists_answer n f).
Definition readFileSync (f : jsstr) : prog E bytes := n <- interact ;; lift (read_answer n f).

(** A call of the outside that may fail. *)
Definition may_fail (fault : nat → option exn) : prog E unit :=
  n <- interact ;; match fault n with Some e => throw e | None => ret tt end.

Definition execSync (cmd : jsstr) : prog E unit :=
  emit (Exec cmd) ;; may_fail (λ n, exec_fault n cmd).

(** ** check-env.js *)

Definition REQUIRED_FILES : list jsstr := [js "index.js"; js ".env"; js "package.json"].

Definition REQUIRED_ENV_VARS : list jsstr :=
  [js "AGENT_NAME"; js "AGENT_MINT"; js "TIER_THRESHOLDS"; js "RPC"; js "NXR_MINT";
   js "DEV_WALLET_SK"; js "TWITTER_USERNAME"; js "TWITTER_PASSWORD"; js "TELEGRAM_BOT_TOKEN";
   js "OLLAMA_URL"; js "OLLAMA_MODEL"].

Fixpoint check_files (fs : list jsstr) (errors : nat) : prog E nat :=
  match fs with
  | [] => ret errors
  | f :: fs => ok <- existsSync f ;; check_files fs (if ok : bool then errors else S errors)
  end.

Fixpoint check_vars (vs : list jsstr) (errors : nat) : nat :=
  match vs with
  | [] => errors
  | v :: vs => check_vars vs (if non_empty (default [] (env_var v)) then errors else S errors)
  end.

Definition check_env : prog E unit :=
  errors <- check_files REQUIRED_FILES 0 ;;
  if (0 <? check_vars REQUIRED_ENV_VARS errors)%nat then exit 1 else ret tt.

(** ** ensure-deps.js *)

Definition twitterFolder : jsstr := js "./agent-twitter-client".
Definition redisSrc : jsstr := js "./redis/src/redis-server".

(** [if (!existsSync(f)) m] *)
Definition unless_exists (f : jsstr) (m : prog E unit) : prog E unit :=
  ok <- existsSync f ;; if ok : bool then ret tt else m.

Definition start_redis : jsstr := redisSrc ++ js " --daemonize yes".

Definition raise_overcommit : prog E unit :=
  try_catch (execSync (js "sysctl -w vm.overcommit_memory=1")) (λ _, ret tt).

Definition twitter_deps : prog E unit :=
  unless_exists twitterFolder
    (execSync (js "git clone https://github.com/elizaOS/agent-twitter-client.git")) ;;
  unless_exists (twitterFolder ++ js "/package.json") (exit 1) ;;
  unless_exists (twitterFolder ++ js "/node_modules")
    (execSync (js "cd " ++ twitterFolder ++ js " && npm install")) ;;
  unless_exists (js "./node_modules/agent-twitter-client")
    (execSync (js "npm install " ++ twitterFolder)).

Definition redis_deps : prog E unit :=
  unless_exists (js "./redis") (execSync (js "git clone https://github.com/redis/redis.git")) ;;
  unless_exists redisSrc (execSync (js "cd ./redis && make distclean && make MALLOC=libc")).

Definition ensure_deps : prog E unit :=
  try_catch (raise_overcommit ;; twitter_deps ;; redis_deps ;; execSync start_redis) (λ _, exit 1).

(** ** twitter-client.js *)

Definition cookiePath : jsstr :=
  match env_var (js "TWITTER_COOKIES_PATH") with
  | Some (c :: p) => c :: p
  | _ => js "./cookies.json"
  end.

Definition credentials : list (option jsstr) :=
  env_var <$> [js "TWITTER_USERNAME"; js "TWITTER_PASSWORD"; js "TWITTER_EMAIL"; js "TWITTER_API_KEY";
               js "TWITTER_API_SECRET_KEY"; js "TWITTER_ACCESS_TOKEN";
               js "TWITTER_ACCESS_TOKEN_SECRET"].

(** The cookies of the file, if they make a session. *)
Definition restore_cookies : prog E bool :=
  raw <- readFileSync cookiePath ;;
  v <- json_parse (utf8_decode raw) ;;
  match v with
  | JArr cookies =>
      may_fail (λ n, setCookies_fault n cookies) ;;
      n <- interact ;; lift (isLoggedIn_answer n)
  | _ => throw (Error (js "Invalid cookie format"))
  end.

Definition twitter_login : prog E unit :=
  emit (Login credentials) ;;
  may_fail (λ n, login_fault n credentials) ;;
  n <- interact ;;
  fresh <- lift (getCookies_answer n) ;;
  emit (WriteFile cookiePath (pretty [] fresh)) ;;
  may_fail (λ n, write_fault n cookiePath).

(** [TwitterClient.init]; the path is never empty. *)
Definition twitter_init : prog E unit :=
  there <- existsSync cookiePath ;;
  session <- (if there : bool then try_catch restore_cookies (λ _, ret false) else ret false) ;;
  if session : bool then ret tt else twitter_login.

Definition send_tweet (text : jsstr) (media : list (bytes * jsstr)) : prog E unit :=
  emit (Tweet text media) ;; may_fail (λ n, tweet_fault n text).

Definition sendText (text : jsstr) : prog E unit := send_tweet text [].

Fixpoint read_media (files : list jsstr) : prog E (list (bytes * jsstr)) :=
  match files with
  | [] => ret []
  | p :: files =>
      b <- readFileSync p ;; rest <- read_media files ;; ret ((b, mime_of p) :: rest)
  end.

Definition sendMedia (text : jsstr) (files : list jsstr) : prog E unit :=
  data <- read_media files ;; send_tweet text data.

Definition sendDm (userId text : jsstr) : prog E unit :=
  if has_sendDM then emit (DirectMessage userId text) ;; may_fail (λ n, dm_fault n text)
  else ret tt.

(** ** index.js *)

Definition services : list (jsstr * jsstr) :=
  [(js "Metrics", js "metrics.js"); (js "Worker", js "worker.js");
   (js "Launcher", js "launcher/server.js")].

(** A child service: running, or waiting to be started again at a time. *)
Inductive service := Running | Restart (at_time : Z).

(** The child exits; five seconds later, or when the timer gets its turn, it starts. *)
Inductive service_step : Z * service → Z * service → Prop :=
  | child_exits t t' : (t <= t')%Z → service_step (t, Running) (t', Restart (t' + 5000))
  | child_starts t r t' : (t <= t')%Z → (r <= t')%Z → service_step (t, Restart r) (t', Running).

Definition USE_TELEGRAM : bool := negb (bool_decide (env_var (js "USE_TELEGRAM") = Some (js "false"))).
Definition USE_TWITTER : bool := bool_decide (env_var (js "USE_TWITTER") = Some (js "true")).

(** Where the start has got to: it waits for the bot, which serves messages without
    knowing its own name, or it is over. *)
Inductive booted :=
  | Waiting (tg : telegram)
  | Ready (tg : option telegram).

(** [TelegramClient.init]: what follows [await this.bot.launch()] happens only when that
    promise is fulfilled; the bot's name is known from then on. *)
Definition telegram_init (t : telegram) : prog E booted :=
  n <- interact ;;
  done <- lift (launch_answer n) ;;
  if done : bool then
    n <- interact ;;
    username <- lift (getMe_answer n) ;;
    ret (Ready (Some (Client (GREETING t) (GREETING_IMG t) (MENU_TITLE t)
                             (Some (toLowerCase username)))))
  else ret (Waiting t).

Definition not_a_function (f : jsstr) : exn := Exn KTypeError (f ++ js " is not a function").

Fixpoint start_services (l : list (jsstr * jsstr)) : prog E unit :=
  match l with
  | [] => ret tt
  | (_, script) :: l => emit (Exec script) ;; start_services l
  end.

Definition start_telegram (t : telegram) : prog E booted :=
  if USE_TELEGRAM then telegram_init t else ret (Ready None).

(** What follows the Telegram client; the Twitter client has no [setHelpers]. *)
Definition start_twitter (s : booted) : prog E booted :=
  match s with
  | Waiting t => ret (Waiting t)
  | Ready tg =>
      if USE_TWITTER then twitter_init ;; throw (not_a_function (js "tw.setHelpers"))
      else ret (Ready tg)
  end.

Definition boot (t : telegram) : prog E booted :=
  start_services services ;;
  initializeUsers ;;
  tg <- start_telegram t ;;
  start_twitter tg.
End Boot.
