(* ===== verification/BootFacts.v ===== *)
(** * Properties of the preflight scripts, the Twitter client and the boot

    When the preflight passes; that the dependency script ends with Redis started or
    with exit code 1; when the Twitter client logs in, and that the cookies it saves
    are the cookies it restores; that a tweet has all its media or is not sent; how
    often a child service is restarted; and how the boot ends. *)

From Stdlib Require Import QArith.
From S2P Require Import Prelude JsString Regex JsNum JsText Json Pretty Bytes Assoc Effects Uint8.
From S2P Require Import Utf8 RedisModel Db Memory Retry Firewall Solana Token Commands CommandFacts.
From S2P Require Import Worker ApiServer Launcher LauncherServer LauncherFacts Telegram Frame.
From S2P Require Import TelegramFacts Boot.

Local Open Scope prog_scope.

Section Facts.
Context {E : Type} `{RE : RedisEntry E} `{EN : Env} `{LE : LaunchEnv} `{TE : TgEnv} `{HE : HostEnv}.
Implicit Types w : world E.

(** ** One call of the host *)

Lemma exists_eq f w : existsSync f w = (Ok (exists_answer (tick w) f), pass w).
Proof. done. Qed.

Lemma may_fail_eq fault w :
  may_fail fault w = (match fault (tick w) with Some e => Throw e | None => Ok tt end, pass w).
Proof. unfold may_fail, bind, interact. by destruct (fault (tick w)). Qed.

Lemma read_file_eq f w :
  readFileSync f w
  = (match read_answer (tick w) f with inl e => Throw e | inr b => Ok b end, pass w).
Proof. unfold readFileSync, bind, interact. by destruct (read_answer (tick w) f). Qed.

(** ** check-env.js *)

(** The files the host denies, asked one after the other from an interaction on. *)
Fixpoint missing (n : nat) (fs : list jsstr) : nat :=
  match fs with
  | [] => 0
  | f :: fs => (if exists_answer n f then 0 else 1) + missing (S n) fs
  end.

Lemma missing_none n fs :
  missing n fs = 0%nat ↔ ∀ i f, fs !! i = Some f → exists_answer (n + i) f = true.
Proof.
  revert n. induction fs as [|f fs IH]; intros n; [split; [intros _ i f; by rewrite lookup_nil|done]|].
  cbn [missing]. split.
  - intros H [|i] g Hg; cbn in Hg.
    + injection Hg as <-. rewrite Nat.add_0_r. by destruct (exists_answer n f).
    + rewrite Nat.add_succ_r. apply (proj1 (IH (S n))); [|done]. lia.
  - intros H. pose proof (H 0%nat f eq_refl) as Hf. rewrite Nat.add_0_r in Hf. rewrite Hf.
    apply IH. intros i g Hg. rewrite Nat.add_succ_l, <- Nat.add_succ_r. by apply (H (S i)).
Qed.

Lemma check_files_eq fs k w :
  ∃ w', check_files fs k w = (Ok (k + missing (tick w) fs)%nat, w') ∧ log w' = log w.
Proof.
  revert k w. induction fs as [|f fs IH]; intros k w.
  { exists w. cbn. by rewrite Nat.add_0_r. }
  cbn [check_files missing]. rewrite (bind_ok _ _ _ _ _ (exists_eq f w)).
  destruct (IH (if exists_answer (tick w) f then k else S k) (pass w)) as (w' & -> & Hl).
  exists w'. split; [|done]. do 2 f_equal. cbn. destruct (exists_answer (tick w) f); lia.
Qed.

Lemma check_vars_none vs k :
  check_vars vs k = 0%nat ↔ k = 0%nat ∧ ∀ v, v ∈ vs → ∃ c s, env_var v = Some (c :: s).
Proof.
  revert k. induction vs as [|v vs IH]; intros k; cbn [check_vars].
  { split; [|by intros [-> _]]. intros ->. split; [done|]. intros v Hv. by inversion Hv. }
  rewrite IH. setoid_rewrite elem_of_cons. destruct (env_var v) as [[|c s]|] eqn:Ev; cbn;
    naive_solver congruence.
Qed.

(** The preflight lets the bot start exactly if each required file is there when it
    looks and each required variable is set and not empty; otherwise the process ends
    with code 1.  It does nothing else. *)
Theorem check_env_spec w :
  let ready := (∀ i f, REQUIRED_FILES !! i = Some f → exists_answer (tick w + i) f = true)
    ∧ ∀ v, v ∈ REQUIRED_ENV_VARS → ∃ c s, env_var v = Some (c :: s) in
  (ready ∧ (check_env w).1 = Ok tt ∨ ~ ready ∧ (check_env w).1 = Exit 1)
  ∧ log (check_env w).2 = log w.
Proof.
  intros ready. unfold check_env. destruct (check_files_eq REQUIRED_FILES 0 w) as (w' & Hf & Hl).
  rewrite (bind_ok _ _ _ _ _ Hf). cbn [Nat.add].
  assert (check_vars REQUIRED_ENV_VARS (missing (tick w) REQUIRED_FILES) = 0%nat ↔ ready) as Hr
    by (by rewrite check_vars_none, missing_none).
  destruct (Nat.ltb_spec 0 (check_vars REQUIRED_ENV_VARS (missing (tick w) REQUIRED_FILES))) as [H|H].
  - split; [right|done]. split; [|done]. rewrite <- Hr. lia.
  - split; [left|done]. split; [|done]. apply Hr. lia.
Qed.

(** ** ensure-deps.js *)

(** The log only grows. *)
Definition grows w w' : Prop := log w `prefix_of` log w'.

#[export] Instance grows_frame : Frame grows.
Proof.
  split; unfold grows; try (intros; done).
  - by intros w.
  - intros w1 w2 w3. apply transitivity.
  - intros ev w _. cbn. by eexists.
Qed.

Lemma grows_exec cmd : respects grows (execSync cmd).
Proof.
  pose proof (frame_interact grows). unfold execSync, may_fail. respects_walk.
  by apply frame_emit; [apply _|].
Qed.

Lemma grows_unless f m : respects grows m → respects grows (unless_exists f m).
Proof. pose proof (frame_interact grows). intros Hm. unfold unless_exists, existsSync. respects_walk. Qed.

Lemma exec_eq cmd w :
  execSync cmd w
  = (match exec_fault (tick w) cmd with Some e => Throw e | None => Ok tt end,
     pass (add_event (Exec cmd) w)).
Proof. unfold execSync. erewrite bind_ok by reflexivity. apply may_fail_eq. Qed.

(** The only exit code is 1. *)
Definition exits_one {A} (m : prog E A) : Prop := ∀ w c, (m w).1 = Exit c → c = 1%Z.

Lemma exits_exec cmd : exits_one (execSync cmd).
Proof. intros w c. rewrite exec_eq. by destruct (exec_fault _ _). Qed.

Lemma exits_unless f m : exits_one m → exits_one (unless_exists f m).
Proof.
  intros Hm w c. unfold unless_exists. rewrite (bind_ok _ _ _ _ _ (exists_eq f w)).
  destruct (exists_answer (tick w) f); [done|apply Hm].
Qed.

Lemma exits_bind {A B} (m : prog E A) (k : A → prog E B) :
  exits_one m → (∀ a, exits_one (k a)) → exits_one (bind m k).
Proof.
  intros Hm Hk w c. unfold bind. specialize (Hm w). destruct (m w) as [[a|e|x] w1]; cbn in *;
    [apply Hk|done|intros [= ->]; by apply Hm].
Qed.

Lemma exits_exit {A} : exits_one (exit (A:=A) 1).
Proof. by intros w c [= <-]. Qed.

Lemma exits_try m h : exits_one (A:=unit) m → (∀ e, exits_one (h e)) → exits_one (try_catch m h).
Proof.
  intros Hm Hh w c. unfold try_catch. specialize (Hm w). destruct (m w) as [[a|e|x] w1]; cbn in *;
    [done|apply Hh|apply Hm].
Qed.
#[local] Hint Resolve exits_exec exits_unless exits_bind exits_exit exits_try : eff.

Lemma exits_deps :
  exits_one raise_overcommit ∧ exits_one twitter_deps ∧ exits_one redis_deps.
Proof.
  split; [|split]; unfold raise_overcommit, twitter_deps, redis_deps; auto 12 with eff.
  apply exits_try; [apply exits_exec|]. by intros e w c.
Qed.

Lemma grows_deps :
  respects grows raise_overcommit ∧ respects grows twitter_deps ∧ respects grows redis_deps.
Proof.
  pose proof grows_exec. pose proof grows_unless as Hu.
  split; [|split]; unfold raise_overcommit, twitter_deps, redis_deps; respects_walk.
  all: apply Hu; respects_walk; auto.
Qed.

Lemma twitter_deps_inv w w' :
  twitter_deps w = (Ok tt, w') → ∃ n, exists_answer n (twitterFolder ++ js "/package.json") = true.
Proof.
  unfold twitter_deps. intros (? & w1 & _ & H)%bind_inv. apply bind_inv in H as ([] & w2 & H & _).
  unfold unless_exists in H. rewrite (bind_ok _ _ _ _ _ (exists_eq _ w1)) in H.
  destruct (exists_answer (tick w1) _) eqn:He; [by eexists|done].
Qed.

(** The script of ensure-deps.js either starts Redis as its last command, after a
    check that the Twitter client's package is there, or ends the process with code 1;
    it never throws. *)
Theorem ensure_deps_outcome w :
  (ensure_deps w).1 = Exit 1
  ∨ (ensure_deps w).1 = Ok tt
    ∧ (∃ n, exists_answer n (twitterFolder ++ js "/package.json") = true)
    ∧ ∃ l n, log (ensure_deps w).2 = log w ++ l ++ [Exec start_redis]
             ∧ exec_fault n start_redis = None.
Proof.
  destruct exits_deps as (X1 & X2 & X3). destruct grows_deps as (G1 & G2 & G3).
  unfold ensure_deps, try_catch.
  destruct (bind raise_overcommit _ w) as [[[]|e|c] w'] eqn:Hs; cbn [fst snd]; [right|by left|left].
  2: { f_equal. apply (f_equal fst) in Hs. revert Hs. refine ((_ : exits_one _) w c).
       do 3 (apply exits_bind; [done|intros ?]). apply exits_exec. }
  split; [done|]. apply bind_inv in Hs as ([] & w1 & H1 & Hs).
  apply bind_inv in Hs as ([] & w2 & H2 & Hs). apply bind_inv in Hs as ([] & w3 & H3 & Hs).
  split; [by eapply twitter_deps_inv|].
  assert (grows w w3) as [l Hl].
  { transitivity w1; [|transitivity w2].
    - specialize (G1 w). by rewrite H1 in G1.
    - specialize (G2 w1). by rewrite H2 in G2.
    - specialize (G3 w2). by rewrite H3 in G3. }
  rewrite exec_eq in Hs. destruct (exec_fault (tick w3) start_redis) eqn:He; [done|].
  injection Hs as <-. exists l, (tick w3). split; [|done]. cbn. by rewrite Hl, <- app_assoc.
Qed.
(** ** twitter-client.js *)

Definition silent w w' : Prop := log w' = log w.

#[local] Instance silent_refl : Reflexive silent.
Proof. by intros w. Qed.
#[local] Instance silent_trans : Transitive silent.
Proof. unfold silent. intros w1 w2 w3. congruence. Qed.

Lemma silent_restore : respects silent restore_cookies.
Proof.
  assert (respects silent interact) by (by intros w).
  assert (∀ A (r : exn + A), respects silent (lift r)) by (by intros A []).
  unfold restore_cookies, readFileSync, json_parse, may_fail. respects_walk.
Qed.

(** A session of cookies was restored. *)
Definition restored w : bool :=
  exists_answer (tick w) cookiePath
  && match (restore_cookies (pass w)).1 with Ok b => b | _ => false end.

Lemma login_eq w r w' :
  twitter_login w = (r, w') →
  ∃ l, log w' = log w ++ Login credentials :: l
  ∧ (r = Ok tt →
     ∃ n fresh, getCookies_answer n = inr fresh ∧ l = [WriteFile cookiePath (pretty [] fresh)]).
Proof.
  unfold twitter_login. erewrite bind_ok by reflexivity. set (w1 := add_event _ w).
  unfold bind at 1. rewrite may_fail_eq. destruct (login_fault (tick w1) credentials).
  { intros [= <- <-]. exists []. done. }
  erewrite bind_ok by reflexivity.
  destruct (getCookies_answer (tick (pass w1))) as [e|fresh] eqn:Hc.
  { intros [= <- <-]. exists []. done. }
  erewrite bind_ok by reflexivity. erewrite bind_ok by reflexivity. rewrite may_fail_eq.
  intros [= _ <-]. exists [WriteFile cookiePath (pretty [] fresh)]. cbn. rewrite <- app_assoc.
  split; [done|eauto].
Qed.

Lemma restore_no_exit : no_exit (E:=E) restore_cookies.
Proof.
  unfold restore_cookies, readFileSync, json_parse, may_fail.
  repeat first [apply no_exit_bind; [|intros ?]|solve [auto with eff]|case_match].
Qed.

Lemma init_eq w :
  ∃ w1, log w1 = log w
        ∧ twitter_init w = if restored w then (Ok tt, w1) else twitter_login w1.
Proof.
  unfold twitter_init, restored. rewrite (bind_ok _ _ _ _ _ (exists_eq cookiePath w)).
  destruct (exists_answer (tick w) cookiePath); cbn [andb]; [|by exists (pass w)].
  pose proof (silent_restore (pass w)) as Hl. pose proof (restore_no_exit (pass w)) as Hx.
  unfold silent, bind, try_catch in *.
  destruct (restore_cookies (pass w)) as [[[]|e|c] w1]; cbn in *; [by exists w1..|].
  by destruct (Hx c).
Qed.

(** [init] returns without a login if the saved cookies make a session.  Otherwise,
    whatever was wrong with the cookies, it logs in with the credentials of the
    environment, and returns only once it has saved the fresh cookies. *)
Theorem twitter_init_spec w r w' :
  twitter_init w = (r, w') →
  restored w = true ∧ r = Ok tt ∧ log w' = log w
  ∨ restored w = false
    ∧ ∃ l, log w' = log w ++ Login credentials :: l
      ∧ (r = Ok tt → ∃ n fresh, getCookies_answer n = inr fresh
                                ∧ l = [WriteFile cookiePath (pretty [] fresh)]).
Proof.
  destruct (init_eq w) as (w1 & Hl & ->). destruct (restored w).
  - intros [= <- <-]. by left.
  - intros H. right. split; [done|]. rewrite <- Hl. by apply login_eq.
Qed.

(** C25. What a later start restores is what a login saved: if the host gives the file
    back as it was written and the scraper accepts the cookies it handed out, the next
    [init] has a session and does not log in again. *)
Theorem cookies_survive w w' w2 text :
  twitter_init w = (Ok tt, w') → log w' = log w ++ [Login credentials; WriteFile cookiePath text] →
  (∀ n v, getCookies_answer n = inr v → json_ok v ∧ ∃ l, v = JArr l) →
  (∀ n l, getCookies_answer n = inr (JArr l) → setCookies_fault (tick w2 + 2) l = None) →
  isLoggedIn_answer (tick w2 + 3) = inr true →
  exists_answer (tick w2) cookiePath = true →
  read_answer (tick w2 + 1) cookiePath = inr (utf8_encode text) →
  (twitter_init w2).1 = Ok tt ∧ log (twitter_init w2).2 = log w2.
Proof.
  intros Hi Hl Hg Hset Hin Hex Hrd.
  assert (∃ n l, getCookies_answer n = inr (JArr l) ∧ text = pretty [] (JArr l)
    ∧ json_ok (JArr l)) as (n & l & Hn & -> & Hok).
  { destruct (init_eq w) as (w1 & Hl1 & He). rewrite He in Hi. destruct (restored w).
    - injection Hi as <-. rewrite Hl1 in Hl. apply (f_equal length) in Hl.
      rewrite length_app in Hl. cbn in Hl. lia.
    - apply login_eq in Hi as (l & Hl2 & Hc). destruct (Hc eq_refl) as (n & fresh & Hn & ->).
      rewrite Hl2, Hl1 in Hl. apply app_inv_head in Hl. injection Hl as Ht.
      destruct (Hg n fresh Hn) as (Hok & l & ->). eauto. }
  rewrite !Nat.add_succ_r, Nat.add_0_r in *.
  destruct (init_eq w2) as (w1 & Hl1 & He).
  assert (restored w2 = true) as Hr; [|by rewrite He, Hr].
  unfold restored. rewrite Hex. cbn [andb]. unfold restore_cookies, bind at 1.
  rewrite read_file_eq. change (tick (pass w2)) with (S (tick w2)). rewrite Hrd.
  unfold json_parse. rewrite file_roundtrip by done. rewrite (bind_ok (ret _) _ _ _ _ eq_refl).
  unfold bind at 1. rewrite may_fail_eq. cbn [tick pass set_time].
  rewrite (Hset n l Hn). unfold bind, interact. cbn [tick pass set_time]. by rewrite Hin.
Qed.

(** ** Media *)

Lemma read_media_eq files w :
  (∃ data w', read_media files w = (Ok data, w') ∧ log w' = log w ∧ length data = length files
    ∧ ∀ i p, files !! i = Some p →
        ∃ b, read_answer (tick w + i) p = inr b ∧ data !! i = Some (b, mime_of p))
  ∨ ∃ i p e w', files !! i = Some p ∧ read_answer (tick w + i) p = inl e
    ∧ read_media files w = (Throw e, w') ∧ log w' = log w.
Proof.
  revert w. induction files as [|f fs IH]; intros w.
  { left. exists [], w. repeat split; try done. }
  cbn [read_media]. unfold bind at 1 3. rewrite read_file_eq.
  destruct (read_answer (tick w) f) as [e|b] eqn:Hf.
  { right. exists 0%nat, f, e, (pass w). rewrite Nat.add_0_r. done. }
  destruct (IH (pass w)) as [(data & w' & Hd & Hl & Hn & Hi)|(i & p & e & w' & Hp & He & Hd & Hl)].
  - left. exists ((b, mime_of f) :: data), w'. rewrite (bind_ok _ _ _ _ _ Hd).
    repeat split; [done|cbn; by f_equal|]. intros [|i] p Hp; cbn in Hp.
    + injection Hp as <-. exists b. by rewrite Nat.add_0_r.
    + rewrite Nat.add_succ_r. by apply (Hi i).
  - right. exists (S i), p, e, w'. rewrite (bind_throw _ _ _ _ _ Hd), Nat.add_succ_r. done.
Qed.

(** A tweet with media goes out once, with the bytes and the media type of every file
    in their order; if a file cannot be read, nothing goes out. *)
Theorem sendMedia_all_or_none text files w :
  (∃ data, log (sendMedia text files w).2 = log w ++ [Tweet text data]
    ∧ length data = length files
    ∧ ∀ i p, files !! i = Some p →
        ∃ b, read_answer (tick w + i) p = inr b ∧ data !! i = Some (b, mime_of p))
  ∨ ∃ i p e, files !! i = Some p ∧ read_answer (tick w + i) p = inl e
    ∧ (sendMedia text files w).1 = Throw e ∧ log (sendMedia text files w).2 = log w.
Proof.
  unfold sendMedia.
  destruct (read_media_eq files w) as [(data & w' & Hd & Hl & H)|(i & p & e & w' & Hp & He & Hd & Hl)].
  - left. exists data. split; [|done]. rewrite (bind_ok _ _ _ _ _ Hd). unfold send_tweet.
    erewrite bind_ok by reflexivity. rewrite may_fail_eq. cbn. by rewrite Hl.
  - right. exists i, p, e. by rewrite (bind_throw _ _ _ _ _ Hd).
Qed.

(** ** index.js *)

Lemma start_services_eq l w :
  start_services l w = (Ok tt, foldl (λ w s, add_event (Exec s.2) w) w l).
Proof. revert w. induction l as [|[n s] l IH]; intros w; [done|]. cbn. apply IH. Qed.

Lemma grows_twitter : respects grows twitter_init.
Proof.
  pose proof (frame_interact grows). pose proof (frame_json grows).
  pose proof (λ A r, frame_lift grows (A:=A) r).
  unfold twitter_init, twitter_login, restore_cookies, existsSync, readFileSync, may_fail.
  respects_walk. all: by apply frame_emit; [apply _|].
Qed.

Lemma grows_telegram t : respects grows (telegram_init t).
Proof.
  pose proof (frame_interact grows). pose proof (λ A r, frame_lift grows (A:=A) r).
  unfold telegram_init, may_fail. respects_walk.
Qed.

(** C36. Booting starts the three child services first, in their order and whatever fails
    later.  It completes only with Twitter off.  With it on, and unless it waits for the
    Telegram bot for ever, the missing [setHelpers] of the Twitter client ends it, if
    nothing did before. *)
Theorem boot_outcome t w :
  (∃ l, log (boot t w).2
        = log w ++ [Exec (js "metrics.js"); Exec (js "worker.js"); Exec (js "launcher/server.js")] ++ l)
  ∧ ((∃ r, (boot t w).1 = Ok (Ready r)) → USE_TWITTER = false)
  ∧ (USE_TWITTER = true →
     (boot t w).1
     = match ((start_services services ;; initializeUsers ;; start_telegram t) w) with
       | (Ok (Waiting t'), _) => Ok (Waiting t')
       | (Ok (Ready _), w1) =>
           match (twitter_init w1).1 with
           | Ok _ => Throw (not_a_function (js "tw.setHelpers"))
           | Throw e => Throw e
           | Exit c => Exit c
           end
       | (Throw e, _) => Throw e
       | (Exit c, _) => Exit c
       end).
Proof.
  assert (respects grows (initializeUsers ;; tg <- start_telegram t ;; start_twitter tg)) as Hg.
  { pose proof (frame_initialize grows). pose proof grows_twitter. pose proof grows_telegram.
    unfold start_telegram, start_twitter. respects_walk. }
  set (rest := bind initializeUsers _) in Hg.
  assert (boot t w = rest (start_services services w).2) as Hb
    by (unfold boot; by rewrite (bind_ok _ _ _ _ _ (start_services_eq services w)), start_services_eq).
  split; [|split].
  - rewrite Hb. destruct (Hg (start_services services w).2) as [l Hl]. exists l.
    rewrite start_services_eq in Hl |- *. rewrite Hl. cbn [foldl services snd log add_event].
    by rewrite <- !app_assoc.
  - intros [r Hr]. rewrite Hb in Hr. destruct (rest _) as [x w'] eqn:Hx. cbn in Hr. subst x.
    apply bind_inv in Hx as ([] & w1 & _ & Hx). apply bind_inv in Hx as ([|tg] & w2 & _ & Hx);
      [done|]. unfold start_twitter in Hx.
    destruct USE_TWITTER; [|done]. by apply bind_inv in Hx as ([] & w3 & _ & [=]).
  - intros Ht. rewrite Hb. rewrite (bind_ok _ _ _ _ _ (start_services_eq services w)).
    rewrite start_services_eq. cbn [snd]. set (w0 := foldl _ _ _). subst rest.
    unfold start_twitter. rewrite Ht.
    unfold bind. destruct (initializeUsers w0) as [[[]|e|c] w1]; [|done..].
    destruct (start_telegram t w1) as [[[t'|tg]|e|c] w2]; [done| |done..].
    by destruct (twitter_init w2) as [[[]|e|c] w3].
Qed.

(** ** The child services *)

(** A child runs again five seconds after it exits: in [k] steps of its life, exits and
    starts, at least five seconds pass for each start. *)
Theorem restarts_are_spaced k t0 t s :
  nsteps service_step k (t0, Running) (t, s) → (t0 + 5000 * Z.of_nat (k / 2) <= t)%Z.
Proof.
  revert t0. induction k as [k IH] using lt_wf_ind. intros t0 H.
  destruct k as [|[|k]].
  - inversion H; subst. cbn. lia.
  - inversion H as [|? ? y ? H1 H2]; subst. inversion H2; subst. inversion H1; subst. cbn. lia.
  - inversion H as [|? ? y ? Ha Hb]; subst. inversion Ha; subst.
    inversion Hb as [|? ? y ? Hc Hd]; subst. inversion Hc; subst.
    apply IH in Hd; [|lia].
    replace (S (S k)) with (k + 1 * 2)%nat by lia. rewrite Nat.div_add by lia. lia.
Qed.
End Facts.

(** ** A calm host *)

(** Its cookie file is there from the second start on, with one cookie in it. *)
Definition cookies : json := JArr [JObj [(js "key", JStr (js "auth_token")); (js "value", JStr (js "é😀"))]].

Definition calm_host : HostEnv := {|
  exists_answer n f := bool_decide (5 <= n)%nat;
  read_answer _ _ := inr (utf8_encode (pretty [] cookies));
  write_fault _ _ := None;
  exec_fault _ _ := None;
  setCookies_fault _ l :=
    if bool_decide (stringify (JArr l) = stringify cookies) then None else Some (Error (js "cookies"));
  isLoggedIn_answer _ := inr true;
  login_fault _ _ := None;
  getCookies_answer _ := inr cookies;
  tweet_fault _ _ := None;
  has_sendDM := true;
  dm_fault _ _ := None;
  launch_answer _ := inr true;
  getMe_answer _ := inr (js "NexusBot")
|}.

Lemma cookies_ok : json_ok cookies.
Proof.
  apply ok_arr. apply Forall_singleton, ok_obj.
  - repeat apply Forall_cons_2; try apply Forall_nil_2; (split; [|apply ok_str]);
      refine (bool_decide_unpack _ _); vm_compute; exact I.
  - refine (bool_decide_unpack _ _). vm_compute. exact I.
Qed.

Definition first_start : result unit * world entry := twitter_init (HE:=calm_host) world0.

Lemma twitter_init_spec_witness : restored (HE:=calm_host) world0 = false.
Proof.
  destruct (twitter_init_spec (HE:=calm_host) world0 (Ok tt) first_start.2 eq_refl)
    as [(H & _)|(H & _)]; [|exact H].
  exfalso. revert H. vm_compute. discriminate.
Defined.

Lemma cookies_survive_witness :
  log (twitter_init (HE:=calm_host) (set_time 0 7 world0)).2 = log world0.
Proof.
  refine (proj2 (cookies_survive (HE:=calm_host) world0 first_start.2 (set_time 0 7 world0)
    (pretty [] cookies) eq_refl eq_refl _ _ eq_refl eq_refl eq_refl)).
  - intros n v Hv. injection Hv as <-. split; [exact cookies_ok|by eexists].
  - intros n l Hl. injection Hl as <-. reflexivity.
Defined.

Lemma restarts_are_spaced_witness : (100 + 5000 * 1 <= 6000)%Z.
Proof.
  apply (restarts_are_spaced 2 100 6000 Running).
  eapply nsteps_l; [apply (child_exits 100 900); lia|].
  eapply nsteps_l; [apply (child_starts 900 5900 6000); lia|]. apply nsteps_O.
Defined.

(** Twitter on, in an otherwise calm environment. *)
Definition twitter_env : Env := {|
  env_var k := if bool_decide (k = js "USE_TWITTER") then Some (js "true") else env_var k;
  elapsed := elapsed; redis_fault := redis_fault; fetch_answer := fetch_answer;
  rpc_answer := rpc_answer; account_answer := account_answer; send_answer := send_answer;
  random_answer := random_answer; generate_answer := generate_answer;
  fromSecretKey := fromSecretKey; publicKey_fault := publicKey_fault;
  ata_address := ata_address; transfer_fault := transfer_fault; sign_fault := sign_fault;
  tx_sign := tx_sign; js_pow10 := js_pow10; client_has := client_has; gcm_seal := gcm_seal;
  gcm_open := gcm_open; hmac_sha256 := hmac_sha256; hkdf_sha256 := hkdf_sha256;
  csurf_fault := csurf_fault
|}.

Lemma boot_outcome_witness :
  (boot (EN:=twitter_env) (HE:=calm_host) the_client world0).1
  = Throw (not_a_function (js "tw.setHelpers")).
Proof.
  destruct (boot_outcome (EN:=twitter_env) (HE:=calm_host) the_client world0)
    as (_ & _ & H).
  rewrite (H eq_refl). vm_compute. reflexivity.
Defined.
